(* ===== verification/_CoqProject ===== *)
-Q . S2P
Prelude.v
Libc.v
Fifo.v
HidWrite.v
CtapHid.v
HidProps.v
HidRoundTrip.v
HidChannels.v
Sha256.v
Blockwise.v
Sha512.v
Aes.v
Crypto.v
Vli.v
VliProps.v
P256.v
P256Props.v
Primes.v
EcLadder.v
CborParser.v
CborProps.v
CborEncoder.v
CborItems.v
State.v
Monad.v
Lfs.v
Fs.v
FsProps.v
Board.v
Rng.v
CtapTypes.v
Dev.v
MicroEcc.v
MicroEccProps.v
Demo.v
Device.v
StateSafe.v
DeviceProps.v
Presence.v
RkStore.v
CtapStatus.v
CborApi.v
CborSteps.v
CborFind.v
CtapParse.v
ParseProps.v
CtapEncode.v
AesBlocks.v
Credential.v
SigProps.v
Attestation.v
Signing.v
ClientPin.v
ClientPinCmd.v
Extensions.v
AuthData.v
Qsort.v
QsortProps.v
GetAssertion.v
MakeCredential.v
CredMgmt.v
GetInfo.v
Request.v
U2f.v
Firmware.v
PinBase.v
KeyExchange.v
Halting.v
PinRequest.v
PinSteps.v
PinAuth.v
PinLock.v
PinToken.v
ParseSteps.v
ParseRequests.v
Authorise.v
CredProps.v
AssertProps.v
ResidentProps.v
RequestProps.v
