(* ===== verification/Prelude.v ===== *)
(** * TKey FIDO2 device application: a verification library

    The program is a FIDO2 authenticator for the TKey.  Host reports of 64 bytes
    arrive in a queue (src/targets/tkey/src/fifo.c), the CTAPHID layer
    (src/fido2/src/ctaphid.c) puts them together to messages and hands those to
    CTAP2 (src/fido2/src/ctap*.c) or U2F, which keep their state in a sealed file
    and in files of resident keys (src/targets/tkey/src/device.c, fs.c) and rely on
    hashing, ciphers, elliptic curves and random numbers (src/crypto,
    src/fido2/src/crypto.c, src/targets/tkey/src/rng.c).  Requests and the stored state are CBOR
    (src/tinycbor).

    ** How code is modelled

    C integers are [Z] with their wrap-around written out ([u8], [u16], [u32],
    [i8], ...), byte arrays are [list Z], structures are records.  A function that
    only computes gives [res A]: a result, or the [fault] that stops the device
    ([exit], a failed [assert], an access outside of an object; every array access
    goes through [mem_read] and [mem_write], which check the bounds).  Code with
    state is a computation [M S A] of file [Monad]; [on] and [upd] run it on a part
    of a bigger state.  The static variables of the firmware are the record [dev]
    of file [Dev], with the volume and the hardware.  A function that returns a
    [CtapStatus] is an [X dev A] of file [CtapStatus]: it ends with a status code or
    goes on with its result.  Debug output is left out.

    Loops without a structural bound have fuel.  Where the loop counts something the
    fuel is that bound, and the theorems show that it is enough: the elements of a
    CBOR container, the entries of a directory, the polls of a clock that has to
    move on.  The redraw of a P-256 scalar is the exception: it ends with
    probability one only, and [SCALAR_TRIES] draws stand for a generator that never
    gives a valid scalar, after which the model stops as [exit] does.

    ** Files

    - [Prelude]: outcomes, record updates, integers, buffers, the hint database
      [tkey]; [Monad]: computations and their weakest preconditions ([wp] returns,
      [wpa] returns or stops at an assertion); [Halting]: [wps], returns or stops
      at an assertion or by [exit], the same for status codes ([wpx]), and
      encoders that keep to their buffer.
    - Transport: [Fifo] (fifo.c), [HidWrite] and [CtapHid] (ctaphid.c), [HidProps],
      [HidRoundTrip], [HidChannels].  The layers above are the record of operations
      the dispatcher calls.
    - [Libc]: the copying and comparing functions of the C library (newlib), which
      the rest takes as reading, writing and equality of byte strings.
    - Cryptography: [Sha256] (sha256.c), [Blockwise] and [Sha512] (cifra), [Aes] and [AesBlocks] (aes.c), [Crypto]
      (crypto.c), [Rng] (rng.c).
    - Elliptic curves (micro-ecc): [Vli] and [VliProps] (the long integers of uECC.c),
      [P256] and [P256Props] (the field and the points of P-256, uECC.c and
      curve-specific.inc), [Primes] (the certificates that the prime and the order
      are prime), [EcLadder] (scalar multiplication), [MicroEcc] and
      [MicroEccProps] (keys, key exchange and signatures), [KeyExchange] (the laws
      the firmware relies on).
    - CBOR: [CborParser] and [CborApi] (cborparser.c, cbor.h), [CborEncoder]
      (cborencoder.c), [CborProps], [CborItems], [CborSteps], [CborFind] (the search
      of a map for a key).
    - Storage and hardware: [Lfs], the class of littlefs operations with the laws
      its documentation states on an abstract volume and an instance in memory;
      [Board], the class of the hardware registers with a scripted instance; [Fs]
      and [FsProps] (fs.c); [State] (state.c); [CtapTypes] (ctap.h); [Dev], [Demo];
      [Device], [DeviceProps], [Presence] and [RkStore] (device.c).
    - Requests and responses: [CtapStatus], [CtapParse] and [ParseProps]
      (ctap_parse.c, cose_key.c), [ParseSteps] and [ParseRequests] (the parsers of
      parts and of whole requests on any bytes), [CtapEncode] (cose_key.c, ctap.c).
    - Credentials: [Credential] (the MACs, metadata and lookup of ctap.c and the key
      handle of u2f.c), [Signing] (signatures), [Attestation] (attestation.c),
      [CredProps] and [SigProps].
    - PIN: [ClientPin] and [ClientPinCmd] (ctap_client_pin.c), [PinBase] (the
      cryptographic steps and what they leave alone), [PinRequest], [PinSteps]
      (each operation with the state it leaves), [PinAuth] (the two operations that
      take a PIN hash), [PinLock] (the command as a state machine), [PinToken].
    - Commands: [Extensions] (ctap_extensions.c), [AuthData] (authenticator data,
      attestation statement, start-up and reset in ctap.c and ctap_reset.c),
      [MakeCredential], [GetAssertion] (with ctap_get_next_assertion.c), [CredMgmt],
      [GetInfo] (the files of those names), [U2f] (u2f.c, apdu.c),
      [Request] ([ctap_request] of ctap.c) and [Firmware], which starts the device
      (device.c) and gives the transport of [CtapHid] its upper layers (main.c).
      [GetAssertion.DemoCtap] instantiates their parameters, [RequestProps] has the properties of
      the dispatch, [Authorise] the ones of the token and user presence checks.
    - Choice of credentials: [Qsort] and [QsortProps] (qsort.c of the C library),
      [AssertProps] (which credentials getAssertion uses), [ResidentProps] (resident keys
      from makeCredential to getAssertion).

    ** What is shown

    - PIN: any sequence of clientPIN commands on any bytes is a run of a state
      machine of PIN, counters and tokens; guesses without the PIN are bounded by
      the counters; a locked device stays locked; a token works for the platform
      that asked for it, only while it is in use and within its time limits; a
      stored PIN is the PIN from then on.
    - Transport: framing and reassembly are inverse, no packet makes the handler
      leave its buffers, transactions of different channels do not mix, PING echoes,
      channels expire and are allocated as documented; the queue is a queue.
    - The C library: overlapping copies and the orders of the comparing functions.
    - Cryptography: streaming equals the one-shot functions, CBC and CTR invert, the
      key derivations and MACs are the ones of the RFCs.
    - Elliptic curves: long multiplication, division and inversion are those of
      numbers, and end; the fast reduction is the general one; scalar multiplication
      is made of chords and tangents that add up to the scalar; a signature satisfies
      the ECDSA equation, whatever is drawn, because the order is prime; a public key is
      accepted when it is on the curve.  The group law is not used: that two ways to
      add up to the same factor meet in the same point is not shown.
    - CBOR: the parser stays in bounds and ends on any input; what the encoder
      writes the parser reads back.
    - Requests: whatever the bytes, the parsers of makeCredential, getAssertion and
      credential management return or stop at an assertion, and what they return is
      within the arrays of the request.
    - Storage: the state survives storing, only sealed states are accepted; the
      files of resident keys are lists with insert, replace and delete, all or
      nothing; the counter and the user presence test.
    - Credentials: what is made for a relying party or an application is accepted
      for it and nothing else is, without the MAC of the session; the metadata
      comes back; a DER reader reads the numbers that were signed.
    - Commands: with a PIN set, makeCredential and credential management change
      nothing without a token that has the permission; commands that need the PIN
      are refused while it is blocked; getInfo has one answer.
    - Assertions: a credential of the allow list is used only with the MAC of the
      session for the relying party and within its policy; without a list the usable
      resident keys are listed, the most recent first; what makeCredential stores is
      usable; the quicksort behind it sorts, for any comparison it ends and permutes.

    ** Not modelled

    The firmware calls elliptic-curve functions through the class [Ecc] of file
    [Dev], whose laws are the lengths of keys and signatures and the sizes of the
    random numbers asked for.  [MicroEcc.micro_ecc] implements it with micro-ecc; the
    Ed25519 functions are those of Monocypher, which is not in the repository, and
    stay parameters.  Of micro-ecc the other curves, compressed points, verification
    and deterministic signing are left out: the firmware does not call them.
    littlefs and the system calls of the TKey are not in the repository.  The set-up
    of the hardware, the USB controller and CDC frames, logging and printf are pure
    input and output.  The class [Uninit] stands for what C leaves open: the bytes
    of objects without an initializer. *)

From stdpp Require Export base tactics numbers list.
From Stdlib Require Export ZArith Lia Bool.

#[export] Set Default Goal Selector "!".
#[global] Open Scope Z_scope.

(** ** Outcomes of C code

    A C function either returns, or the device stops: [exit(1)], a failed
    [assert], or undefined behaviour (an access outside an object). *)

Inductive fault :=
| FExit
| FAssert
| FOutOfBounds.

Inductive res (A : Type) :=
| Done (a : A)
| Fault (f : fault).
Arguments Done {A} a.
Arguments Fault {A} f.

Definition res_bind {A B} (m : res A) (k : A -> res B) : res B :=
  match m with
  | Done a => k a
  | Fault f => Fault f
  end.

Definition res_map {A B} (g : A -> B) (m : res A) : res B :=
  res_bind m (fun a => Done (g a)).

Declare Scope res_scope.
Delimit Scope res_scope with res.
Notation "'let!' x := m 'in' k" := (res_bind m (fun x => k))
  (at level 10, x pattern, m at level 200, k at level 200) : res_scope.
#[global] Open Scope res_scope.

(** ** Record update: [r <| f := v |>]

    A record declares its eta expansion as an instance of [Eta]; the setter of
    any of its fields is then found by abstracting that field. *)

Class Eta (R : Type) := eta : R -> R.
#[global] Arguments eta {R Eta} r.
Class Setter {R T} (p : R -> T) := set_field : (T -> T) -> R -> R.
#[global] Arguments set_field {R T} p {Setter} f r /.

Ltac solve_setter :=
  match goal with
  | |- @Setter ?R ?T ?p =>
      let f := fresh "f" in
      let r := fresh "r" in
      intros f r;
      let t := constr:(eta (R := R) r) in
      let t := eval hnf in t in
      let t := eval pattern (p r) in t in
      match t with
      | ?F _ => exact (F (f (p r)))
      end
  end.
#[export] Hint Extern 1 (Setter _) => solve_setter : typeclass_instances.

Declare Scope record_scope.
Notation "r <| p := v |>" := (set_field p (fun _ => v) r)
  (at level 1, left associativity, p at level 0, v at level 99) : record_scope.
#[global] Open Scope record_scope.

(** ** Machine integers *)

Definition u8 (z : Z) : Z := z mod 2 ^ 8.
Definition u16 (z : Z) : Z := z mod 2 ^ 16.
Definition u32 (z : Z) : Z := z mod 2 ^ 32.
Definition u64 (z : Z) : Z := z mod 2 ^ 64.
(** Two's complement [int8_t] and [int32_t]. *)
Definition i8 (z : Z) : Z := (z + 2 ^ 7) mod 2 ^ 8 - 2 ^ 7.
Definition i32 (z : Z) : Z := (z + 2 ^ 31) mod 2 ^ 32 - 2 ^ 31.

Definition is_byte (b : Z) : Prop := 0 <= b < 256.
Definition is_u32 (z : Z) : Prop := 0 <= z < 2 ^ 32.
Abbreviation bytes := (Forall is_byte).

#[export] Instance is_byte_dec b : Decision (is_byte b).
Proof. unfold is_byte. apply _. Defined.
#[export] Instance is_u32_dec z : Decision (is_u32 z).
Proof. unfold is_u32. apply _. Defined.

(** C truth value of a condition. *)
Definition b2z (b : bool) : Z := if b then 1 else 0.

(** Little-endian [uint32_t] in memory, as on the RISC-V target. *)
Definition le32 (z : Z) : list Z :=
  [u8 z; u8 (z / 2 ^ 8); u8 (z / 2 ^ 16); u8 (z / 2 ^ 24)].
Definition le32_dec (l : list Z) : Z :=
  match l with
  | a :: b :: c :: d :: _ => a + 2 ^ 8 * b + 2 ^ 16 * c + 2 ^ 24 * d
  | _ => 0
  end.

(** ** Buffers: [memmove]/[memcpy]/[memset] into an object, indexed reads *)

Definition slice (off len : nat) (l : list Z) : list Z := take len (drop off l).

#[global] Arguments slice : simpl never.

(** Overwrite [src] at [off] of [dst]: undefined when it does not fit. *)
Definition mem_write (dst : list Z) (off : nat) (src : list Z) : res (list Z) :=
  if decide (off + length src <= length dst)%nat
  then Done (take off dst ++ src ++ drop (off + length src) dst)
  else Fault FOutOfBounds.

(** Read [len] bytes at [off] of [src]: undefined past its end. *)
Definition mem_read (src : list Z) (off len : nat) : res (list Z) :=
  if decide (off + len <= length src)%nat
  then Done (slice off len src)
  else Fault FOutOfBounds.

Definition zeros (n : nat) : list Z := replicate n 0.

(** [memcmp(a, b, n) == 0] on the first [n] bytes. *)
Definition memeq (a b : list Z) : bool := bool_decide (a = b).

(** ** Automation *)

Create HintDb tkey discriminated.

(** Split a [res_bind] hypothesis into its two steps. *)
Ltac res_inv :=
  repeat match goal with
  | H : res_bind ?m _ = Done _ |- _ =>
      let a := fresh "a" in let E := fresh "E" in
      destruct m as [a|] eqn:E; cbn [res_bind] in H; [|discriminate H]
  | H : Done _ = Done _ |- _ => injection H as H; subst
  | H : Fault _ = Done _ |- _ => discriminate H
  end.

(** Reduce a record projection of an update. *)
Ltac rsimpl := cbn [set_field] in *.

(** Case analysis on the conditions of the code. *)
Ltac cond_step :=
  match goal with
  | |- context [if decide ?P then _ else _] => destruct (decide P)
  | |- context [if ?b then _ else _] => let E := fresh "E" in destruct b eqn:E
  | |- context [match ?x with _ => _ end] => let E := fresh "E" in destruct x eqn:E
  end.

(** Turn boolean comparisons of the code into propositions. *)
Ltac zbool :=
  repeat match goal with
  | H : (_ =? _) = true |- _ => apply Z.eqb_eq in H
  | H : (_ =? _) = false |- _ => apply Z.eqb_neq in H
  | H : (_ <? _) = true |- _ => apply Z.ltb_lt in H
  | H : (_ <? _) = false |- _ => apply Z.ltb_ge in H
  | H : (_ <=? _) = true |- _ => apply Z.leb_le in H
  | H : (_ <=? _) = false |- _ => apply Z.leb_gt in H
  | H : (_ >? _) = true |- _ => rewrite Z.gtb_lt in H
  | H : (_ >? _) = false |- _ => rewrite Z.gtb_ltb, Z.ltb_ge in H
  | H : (_ >=? _) = true |- _ => rewrite Z.geb_le in H
  | H : (_ >=? _) = false |- _ => rewrite Z.geb_leb, Z.leb_gt in H
  | H : negb _ = true |- _ => apply negb_true_iff in H
  | H : negb _ = false |- _ => apply negb_false_iff in H
  | H : _ && _ = true |- _ => apply andb_true_iff in H as [? ?]
  | H : _ || _ = false |- _ => apply orb_false_iff in H as [? ?]
  | H : bool_decide _ = true |- _ => apply bool_decide_eq_true in H
  | H : bool_decide _ = false |- _ => apply bool_decide_eq_false in H
  end.

(** ** Lemmas shared by the components *)

Lemma u8_byte z : is_byte (u8 z).
Proof. unfold is_byte, u8. apply Z.mod_pos_bound. lia. Qed.
#[export] Hint Resolve u8_byte : tkey.

Lemma u8_small z : is_byte z -> u8 z = z.
Proof. unfold is_byte, u8. intros. apply Z.mod_small. lia. Qed.

Lemma u16_small z : 0 <= z < 65536 -> u16 z = z.
Proof. unfold u16. intros. apply Z.mod_small. lia. Qed.

Lemma u32_small z : is_u32 z -> u32 z = z.
Proof. unfold is_u32, u32. intros. apply Z.mod_small. lia. Qed.

Lemma u32_range z : is_u32 (u32 z).
Proof. unfold is_u32, u32. apply Z.mod_pos_bound. lia. Qed.
#[export] Hint Resolve u32_range : tkey.

Lemma i8_small z : -128 <= z < 128 -> i8 z = z.
Proof. unfold i8. intros. rewrite Z.mod_small; lia. Qed.

Lemma le32_length z : length (le32 z) = 4%nat.
Proof. reflexivity. Qed.

Lemma le32_bytes z : bytes (le32 z).
Proof. unfold le32. repeat constructor; apply u8_byte. Qed.
#[export] Hint Resolve le32_bytes : tkey.

(** Storing a [uint32_t] and loading it back. *)
Lemma le32_dec_le32 z l : is_u32 z -> le32_dec (le32 z ++ l) = z.
Proof.
  unfold is_u32, le32, le32_dec, u8; simpl. intros Hz.
  pose proof (Z.div_mod z (2 ^ 8)) as H1.
  pose proof (Z.div_mod (z / 2 ^ 8) (2 ^ 8)) as H2.
  pose proof (Z.div_mod (z / 2 ^ 16) (2 ^ 8)) as H3.
  rewrite Z.div_div in H2 by lia. rewrite Z.div_div in H3 by lia.
  change (2 ^ 8 * 2 ^ 8) with (2 ^ 16) in H2.
  change (2 ^ 16 * 2 ^ 8) with (2 ^ 24) in H3.
  assert (0 <= z / 2 ^ 24 < 2 ^ 8).
  { split; [apply Z.div_pos; lia|]. apply Z.div_lt_upper_bound; lia. }
  rewrite (Z.mod_small (z / 2 ^ 24)) by lia. lia.
Qed.

Lemma le32_dec_range l : bytes l -> is_u32 (le32_dec l).
Proof.
  intros H. unfold is_u32, le32_dec.
  destruct l as [|a [|b [|c [|d l]]]]; try lia.
  rewrite !Forall_cons in H. unfold is_byte in H. lia.
Qed.

Lemma slice_length off len l :
  (off + len <= length l)%nat -> length (slice off len l) = len.
Proof. intros. unfold slice. rewrite length_take, length_drop. lia. Qed.

Lemma slice_bytes off len l : bytes l -> bytes (slice off len l).
Proof. intros. apply Forall_take, Forall_drop. done. Qed.
#[export] Hint Resolve slice_bytes : tkey.

Lemma mem_write_done dst off src dst' :
  mem_write dst off src = Done dst' ->
  (off + length src <= length dst)%nat /\
  dst' = take off dst ++ src ++ drop (off + length src) dst.
Proof. unfold mem_write. case_decide; [|done]. intros [= <-]. done. Qed.

Lemma mem_write_fits dst off src :
  (off + length src <= length dst)%nat ->
  mem_write dst off src = Done (take off dst ++ src ++ drop (off + length src) dst).
Proof. intros. unfold mem_write. by rewrite decide_True. Qed.

Lemma overwrite_length {A} (dst src : list A) off :
  (off + length src <= length dst)%nat ->
  length (take off dst ++ src ++ drop (off + length src) dst) = length dst.
Proof. intros. rewrite !length_app, length_take, length_drop. lia. Qed.

Lemma mem_write_length dst off src dst' :
  mem_write dst off src = Done dst' -> length dst' = length dst.
Proof. intros [? ->]%mem_write_done. by apply overwrite_length. Qed.

Lemma mem_write_bytes dst off src dst' :
  mem_write dst off src = Done dst' -> bytes dst -> bytes src -> bytes dst'.
Proof.
  intros [? ->]%mem_write_done ??.
  rewrite !Forall_app. eauto using Forall_take, Forall_drop.
Qed.

Lemma zeros_length n : length (zeros n) = n.
Proof. apply length_replicate. Qed.

Lemma zeros_bytes n : bytes (zeros n).
Proof. apply Forall_replicate. unfold is_byte. lia. Qed.
#[export] Hint Resolve zeros_bytes : tkey.

Lemma memeq_true a b : memeq a b = true <-> a = b.
Proof. apply bool_decide_eq_true. Qed.

(** Disjoint bit fields: [|] is addition. *)
Lemma lor_low x y k : 0 <= k -> 0 <= y < 2 ^ k -> Z.lor (x * 2 ^ k) y = x * 2 ^ k + y.
Proof.
  intros Hk Hy. pose proof (Z.add_lor_land (x * 2 ^ k) y) as E.
  assert (Z.land (x * 2 ^ k) y = 0) as Hl; [|lia].
  apply Z.bits_inj'. intros n Hn. rewrite Z.land_spec, Z.bits_0.
  destruct (decide (n < k)) as [?|Hge].
  - by rewrite Z.mul_pow2_bits_low.
  - rewrite <- (Z.mod_small y (2 ^ k)) by lia.
    rewrite Z.mod_pow2_bits_high by lia. apply andb_false_r.
Qed.

(** [x & 0xff] and the byte above it. *)
Lemma land_ff x : Z.land x 0xff = x mod 2 ^ 8.
Proof. change 0xff with (Z.ones 8). apply Z.land_ones. lia. Qed.

Lemma land_ff00_shift x : Z.shiftr (Z.land x 0xff00) 8 = (x / 2 ^ 8) mod 2 ^ 8.
Proof.
  rewrite Z.shiftr_land. change (Z.shiftr 0xff00 8) with (Z.ones 8).
  rewrite Z.land_ones, Z.shiftr_div_pow2 by lia. done.
Qed.

(** A 16-bit length sent as two bytes and put together again. *)
Lemma u16_split_join b :
  0 <= b < 65536 ->
  Z.lor (u16 (Z.shiftl (Z.shiftr (Z.land b 0xff00) 8) 8)) (Z.shiftr (Z.land b 0xff) 0) = b.
Proof.
  intros Hb. rewrite land_ff00_shift, land_ff, Z.shiftr_0_r, Z.shiftl_mul_pow2 by lia.
  pose proof (Z.div_mod b (2 ^ 8)). pose proof (Z.mod_pos_bound b (2 ^ 8)).
  assert (0 <= b / 2 ^ 8 < 2 ^ 8).
  { split; [apply Z.div_pos; lia|]. apply Z.div_lt_upper_bound; lia. }
  rewrite (Z.mod_small (b / 2 ^ 8)) by lia. rewrite u16_small by lia.
  rewrite lor_low by lia. lia.
Qed.

Lemma nth_byte i l : bytes l -> is_byte (nth i l 0).
Proof.
  intros Hb. destruct (nth_in_or_default i l 0) as [H| ->]; [|done].
  rewrite Forall_forall in Hb. apply Hb, list_elem_of_In, H.
Qed.

(** Big-endian numbers. *)
Fixpoint be_value (l : list Z) : Z :=
  match l with
  | [] => 0
  | b :: l => b * 256 ^ Z.of_nat (length l) + be_value l
  end.

Lemma bytes_all l : forallb (fun x => (0 <=? x) && (x <? 256)) l = true -> bytes l.
Proof.
  intros H. apply Forall_forall. intros x Hx. apply list_elem_of_In in Hx.
  pose proof (proj1 (forallb_forall _ _) H x Hx) as Hb. cbn in Hb. apply andb_true_iff in Hb as [? ?]. zbool. by split.
Qed.

Lemma be_value_range l : bytes l -> 0 <= be_value l < 256 ^ Z.of_nat (length l).
Proof.
  induction 1 as [|b l Hb Hl IH]; cbn [be_value length]; [done|].
  unfold is_byte in Hb. rewrite Nat2Z.inj_succ, Z.pow_succ_r by lia. nia.
Qed.

Lemma mem_read_fits src off n :
  (off + n <= length src)%nat -> mem_read src off n = Done (slice off n src).
Proof. intros. unfold mem_read. by rewrite decide_True. Qed.
