(* ===== verification/Libc.v ===== *)
(** * Strings and memory of the C library (src/targets/tkey/libc/newlib/libc/string)

    One memory of bytes with pointers as positions in it.  The rest of the
    development has [mem_read], [mem_write] and equality of byte strings in the
    place of [memmove], [memcpy] and [memcmp]; here these are the loops of newlib
    and do what they stand for. *)

From S2P Require Import Prelude.
#[local] Open Scope nat_scope.

Module Libc.

Definition load (m : list Z) (a : nat) : res Z :=
  match m !! a with Some b => Done b | None => Fault FOutOfBounds end.
Definition store (m : list Z) (a : nat) (b : Z) : res (list Z) :=
  if a <? length m then Done (<[a := b]> m) else Fault FOutOfBounds.

(** [while (len--) *dst++ = *src++] *)
Fixpoint copy_forward (len : nat) (m : list Z) (dst src : nat) : res (list Z) :=
  match len with
  | O => Done m
  | S len =>
      let! b := load m src in
      let! m := store m dst b in
      copy_forward len m (S dst) (S src)
  end.
(** [while (length--) *--dst = *--src], from the ends *)
Fixpoint copy_backward (length : nat) (m : list Z) (dst src : nat) : res (list Z) :=
  match length with
  | O => Done m
  | S length =>
      let! b := load m (src + length) in
      let! m := store m (dst + length) b in
      copy_backward length m dst src
  end.

Definition memcpy (m : list Z) (dst0 src0 len0 : nat) : res (list Z) := copy_forward len0 m dst0 src0.
Definition memmove (m : list Z) (dst src length : nat) : res (list Z) :=
  if (src <? dst) && (dst <? src + length) then copy_backward length m dst src
  else copy_forward length m dst src.

Fixpoint memset (m : list Z) (s : nat) (c : Z) (n : nat) : res (list Z) :=
  match n with
  | O => Done m
  | S n => let! m := store m s (u8 c) in memset m (S s) c n
  end.

Fixpoint memcmp (m : list Z) (s1 s2 n : nat) : res Z :=
  match n with
  | O => Done 0%Z
  | S n =>
      let! a := load m s1 in
      let! b := load m s2 in
      if negb (a =? b)%Z then Done (a - b)%Z else memcmp m (S s1) (S s2) n
  end.

(** The loops that stop at a zero end at the end of the memory at the latest. *)
Fixpoint strlen_loop (fuel : nat) (m : list Z) (str len : nat) : res nat :=
  match fuel with
  | O => Fault FAssert
  | S fuel => let! c := load m str in if (c =? 0)%Z then Done len else strlen_loop fuel m (S str) (S len)
  end.
Definition strlen (m : list Z) (str : nat) : res nat := strlen_loop (S (length m - str)) m str 0.

Definition difference (m : list Z) (s1 s2 : nat) : res Z :=
  let! a := load m s1 in
  let! b := load m s2 in
  Done (a - b)%Z.
Fixpoint strcmp_loop (fuel : nat) (m : list Z) (s1 s2 : nat) : res Z :=
  match fuel with
  | O => Fault FAssert
  | S fuel =>
      let! a := load m s1 in
      if (a =? 0)%Z then difference m s1 s2
      else
        let! b := load m s2 in
        if (a =? b)%Z then strcmp_loop fuel m (S s1) (S s2) else difference m s1 s2
  end.
Definition strcmp (m : list Z) (s1 s2 : nat) : res Z := strcmp_loop (S (length m - s1)) m s1 s2.

Fixpoint strncmp_loop (n : nat) (m : list Z) (s1 s2 : nat) : res Z :=
  match n with
  | O => difference m s1 s2
  | S n =>
      let! a := load m s1 in
      let! b := load m s2 in
      if (a =? b)%Z then
        if (n =? 0) || (a =? 0)%Z then difference m s1 s2 else strncmp_loop n m (S s1) (S s2)
      else difference m s1 s2
  end.
Definition strncmp (m : list Z) (s1 s2 n : nat) : res Z := if n =? 0 then Done 0%Z else strncmp_loop n m s1 s2.

(** ** Copies *)

Lemma load_done m a : a < length m -> exists b, m !! a = Some b /\ load m a = Done b.
Proof. intros [b H]%lookup_lt_is_Some. exists b. unfold load. by rewrite H. Qed.
Lemma load_fault m a : length m <= a -> load m a = Fault FOutOfBounds.
Proof. intros H. unfold load. by rewrite lookup_ge_None_2. Qed.
Lemma store_done m a b : a < length m -> store m a b = Done (<[a := b]> m).
Proof. intros H. unfold store. by rewrite (proj2 (Nat.ltb_lt _ _)). Qed.
Lemma store_fault m a b : length m <= a -> store m a b = Fault FOutOfBounds.
Proof. intros H. unfold store. by rewrite (proj2 (Nat.ltb_ge _ _)). Qed.

(** [m'] is [m] with the [n] bytes at [dst] replaced by those that were at [src]. *)
Definition copied (m m' : list Z) (dst src n : nat) : Prop :=
  length m' = length m /\
  forall i, m' !! i = if decide (dst <= i < dst + n) then m !! (src + (i - dst)) else m !! i.

Lemma copied_write m m' dst src n : copied m m' dst src n -> src + n <= length m -> dst + n <= length m ->
  mem_write m dst (slice src n m) = Done m'.
Proof.
  intros [L H] Hs Hd. assert (Ls : length (slice src n m) = n) by (unfold slice; rewrite length_take, length_drop; lia).
  rewrite mem_write_fits by lia. f_equal. apply list_eq. intros i. rewrite H, Ls.
  destruct (decide (dst <= i < dst + n)) as [Hi|Hi].
  - rewrite lookup_app_r, length_take, lookup_app_l by (rewrite ?length_take; lia). unfold slice.
    rewrite lookup_take_lt, lookup_drop by lia. f_equal. lia.
  - destruct (decide (i < dst)); [rewrite lookup_app_l, lookup_take_lt by (rewrite ?length_take; lia); done|].
    rewrite lookup_app_r, length_take, lookup_app_r, Ls, lookup_drop by (rewrite ?length_take; lia). f_equal. lia.
Qed.

(** Forward, a byte is read before it is overwritten if the target is not ahead. *)
Lemma copy_forward_done n : forall m dst src, ~ (src < dst < src + n) -> src + n <= length m -> dst + n <= length m ->
  exists m', copy_forward n m dst src = Done m' /\ copied m m' dst src n.
Proof.
  induction n as [|n IH]; intros m dst src Hov Hs Hd; cbn [copy_forward].
  - exists m. split; [done|]. split; [done|]. intros i. by rewrite decide_False by lia.
  - destruct (load_done m src) as (b & Hb & ->); [lia|]. cbn [res_bind]. rewrite store_done by lia. cbn [res_bind].
    destruct (IH (<[dst := b]> m) (S dst) (S src)) as (m' & -> & L & H); [lia|rewrite length_insert; lia..|].
    exists m'. split; [done|]. rewrite length_insert in L. split; [done|]. intros i. rewrite H.
    destruct (decide (S dst <= i < S dst + n)) as [Hi|Hi].
    + rewrite decide_True, list_lookup_insert_ne by lia. f_equal. lia.
    + destruct (decide (i = dst)) as [->|Hn].
      * rewrite decide_True, list_lookup_insert_eq by lia. rewrite Nat.sub_diag, Nat.add_0_r. done.
      * rewrite decide_False, list_lookup_insert_ne by lia. done.
Qed.

(** Backward, if the target is not behind. *)
Lemma copy_backward_done n : forall m dst src, src <= dst -> src + n <= length m -> dst + n <= length m ->
  exists m', copy_backward n m dst src = Done m' /\ copied m m' dst src n.
Proof.
  induction n as [|n IH]; intros m dst src Hov Hs Hd; cbn [copy_backward].
  - exists m. split; [done|]. split; [done|]. intros i. by rewrite decide_False by lia.
  - destruct (load_done m (src + n)) as (b & Hb & ->); [lia|]. cbn [res_bind]. rewrite store_done by lia. cbn [res_bind].
    destruct (IH (<[dst + n := b]> m) dst src) as (m' & -> & L & H); [lia|rewrite length_insert; lia..|].
    exists m'. split; [done|]. rewrite length_insert in L. split; [done|]. intros i. rewrite H.
    destruct (decide (dst <= i < dst + n)) as [Hi|Hi].
    + rewrite decide_True, list_lookup_insert_ne by lia. done.
    + destruct (decide (i = dst + n)) as [->|Hn].
      * rewrite decide_True, list_lookup_insert_eq by lia. rewrite <- Hb. f_equal. lia.
      * rewrite decide_False, list_lookup_insert_ne by lia. done.
Qed.

(** A byte outside of the memory is met. *)
Lemma copy_forward_fault n : forall m dst src, 0 < n -> length m < src + n \/ length m < dst + n ->
  copy_forward n m dst src = Fault FOutOfBounds.
Proof.
  induction n as [|n IH]; intros m dst src Hn H; [lia|]. cbn [copy_forward].
  destruct (le_lt_dec (length m) src); [by rewrite load_fault|].
  destruct (load_done m src) as (b & _ & ->); [done|]. cbn [res_bind].
  destruct (le_lt_dec (length m) dst); [by rewrite store_fault|]. rewrite store_done by done. cbn [res_bind].
  apply IH; rewrite ?length_insert; lia.
Qed.
Lemma copy_backward_fault n m dst src : 0 < n -> length m < src + n \/ length m < dst + n ->
  copy_backward n m dst src = Fault FOutOfBounds.
Proof.
  intros Hn H. destruct n as [|n]; [lia|]. cbn [copy_backward].
  destruct (le_lt_dec (length m) (src + n)); [by rewrite load_fault|].
  destruct (load_done m (src + n)) as (b & _ & ->); [done|]. cbn [res_bind]. by rewrite store_fault by lia.
Qed.

(** Read everything, then write it. *)
Definition copy (m : list Z) (dst src n : nat) : res (list Z) :=
  let! bs := mem_read m src n in mem_write m dst bs.

Lemma copy_fault m dst src n : length m < src + n \/ length m < dst + n -> copy m dst src n = Fault FOutOfBounds.
Proof.
  intros H. unfold copy, mem_read. case_decide; [|done]. cbn [res_bind]. unfold mem_write, slice.
  rewrite decide_False; [done|]. rewrite length_take, length_drop. lia.
Qed.
Lemma copy_copied m m' dst src n : copied m m' dst src n -> src + n <= length m -> dst + n <= length m -> copy m dst src n = Done m'.
Proof. intros H Hs Hd. unfold copy. rewrite mem_read_fits by done. cbn [res_bind]. by apply copied_write. Qed.

(** [memmove] writes to the target what was at the source before, for any
    overlap of the two, and leaves the memory exactly when one of them does. *)
Theorem memmove_copies m dst src n : 0 < n -> memmove m dst src n = copy m dst src n.
Proof.
  intros Hn. unfold memmove.
  destruct (le_lt_dec (src + n) (length m)), (le_lt_dec (dst + n) (length m));
    [|rewrite copy_fault by lia; case_match; first [apply copy_backward_fault|apply copy_forward_fault]; lia..].
  destruct ((src <? dst) && (dst <? src + n)) eqn:E.
  - apply andb_true_iff in E as [E1%Nat.ltb_lt E2%Nat.ltb_lt].
    destruct (copy_backward_done n m dst src) as (m' & -> & H); [lia..|]. symmetry. by apply copy_copied.
  - destruct (copy_forward_done n m dst src) as (m' & -> & H); [|lia..|].
    + intros [H1%Nat.ltb_lt H2%Nat.ltb_lt]. by rewrite H1, H2 in E.
    + symmetry. by apply copy_copied.
Qed.

Lemma memmove_copies_witness : memmove [1; 2; 3; 4; 5]%Z 1 0 4 = copy [1; 2; 3; 4; 5]%Z 1 0 4 /\ memmove [1; 2; 3; 4; 5]%Z 1 0 4 = Done [1; 1; 2; 3; 4]%Z.
Proof. split; [apply memmove_copies; lia|reflexivity]. Defined.

(** So does [memcpy] where the two do not overlap. *)
Theorem memcpy_copies m dst src n : 0 < n -> src + n <= dst \/ dst + n <= src -> memcpy m dst src n = copy m dst src n.
Proof.
  intros Hn Hov. unfold memcpy.
  destruct (le_lt_dec (src + n) (length m)), (le_lt_dec (dst + n) (length m));
    [|rewrite copy_fault by lia; apply copy_forward_fault; lia..].
  destruct (copy_forward_done n m dst src) as (m' & -> & H); [lia..|]. symmetry. by apply copy_copied.
Qed.

Theorem memset_fills m s c n : s + n <= length m -> memset m s c n = mem_write m s (replicate n (u8 c)).
Proof.
  revert m s. induction n as [|n IH]; intros m s H; cbn [memset].
  - rewrite mem_write_fits by (cbn; lia). cbn. by rewrite Nat.add_0_r, take_drop.
  - rewrite store_done by lia. cbn [res_bind]. rewrite IH by (rewrite length_insert; lia).
    rewrite !mem_write_fits by (rewrite ?length_replicate, ?length_insert; lia). f_equal. rewrite !length_replicate.
    rewrite (take_S_r _ _ (u8 c)) by (apply list_lookup_insert_eq; lia).
    rewrite take_insert_ge, drop_insert_lt, <- app_assoc by lia. cbn [replicate app]. do 4 f_equal. lia.
Qed.

(** ** Comparisons *)

(** The order of a dictionary: -1, 0 or 1. *)
Fixpoint lex (a b : list Z) : Z :=
  match a, b with
  | [], [] => 0
  | [], _ => -1
  | _, [] => 1
  | x :: a, y :: b => if (x =? y)%Z then lex a b else Z.sgn (x - y)
  end%Z.

Lemma lex_equal a : forall b, lex a b = 0%Z <-> a = b.
Proof.
  induction a as [|x a IH]; intros [|y b]; cbn [lex]; try done. destruct (Z.eqb_spec x y) as [->|Hn].
  - rewrite IH. split; [by intros ->|by intros [= ->]].
  - split; [|congruence]. intros H. apply Z.sgn_null_iff in H. lia.
Qed.

(** Between strings of one length it is the order of the numbers they are, the first byte the highest. *)
Lemma lex_be_value a : forall b, bytes a -> bytes b -> length a = length b -> lex a b = Z.sgn (be_value a - be_value b).
Proof.
  induction a as [|x a IH]; intros [|y b] Ha Hb Hl; try done. injection Hl as Hl.
  apply Forall_cons in Ha as [Hx Ha]. apply Forall_cons in Hb as [Hy Hb]. cbn [lex be_value]. rewrite Hl.
  destruct (Z.eqb_spec x y) as [->|Hn]; [rewrite IH by done; f_equal; lia|].
  pose proof (be_value_range a Ha) as Ra. pose proof (be_value_range b Hb) as Rb. rewrite Hl in Ra.
  set (B := (256 ^ _)%Z) in *. clearbody B. destruct (Z.lt_total x y) as [H|[H|H]]; [|done|].
  - rewrite !Z.sgn_neg; [done|nia|lia].
  - rewrite !Z.sgn_pos; [done|nia|lia].
Qed.

Lemma lookup_slice m s n x l : slice s n m = x :: l -> exists k, n = S k /\ m !! s = Some x /\ slice (S s) k m = l.
Proof.
  unfold slice. intros H. destruct n as [|n]; [done|]. exists n. split; [done|].
  destruct (m !! s) as [y|] eqn:E; [|apply lookup_ge_None in E; rewrite drop_ge in H by lia; done].
  rewrite (drop_S _ _ _ E) in H. by injection H as -> ->.
Qed.
Lemma load_lookup m s x : m !! s = Some x -> load m s = Done x.
Proof. intros H. unfold load. by rewrite H. Qed.

Lemma memcmp_lex n : forall m s1 s2, s1 + n <= length m -> s2 + n <= length m ->
  exists d, memcmp m s1 s2 n = Done d /\ Z.sgn d = lex (slice s1 n m) (slice s2 n m).
Proof.
  induction n as [|n IH]; intros m s1 s2 H1 H2; cbn [memcmp]; [by exists 0%Z|].
  destruct (load_done m s1) as (a & Ha & ->); [lia|]. destruct (load_done m s2) as (b & Hb & ->); [lia|]. cbn [res_bind].
  unfold slice. rewrite (drop_S _ _ _ Ha), (drop_S _ _ _ Hb). cbn [take lex].
  destruct (Z.eqb_spec a b) as [->|Hn]; cbn [negb]; [apply IH; lia|by exists (a - b)%Z].
Qed.

(** [memcmp] orders two strings of bytes as the numbers they are, the first
    byte the highest, and only equal ones are equal for it. *)
Theorem memcmp_orders m s1 s2 n : bytes m -> s1 + n <= length m -> s2 + n <= length m ->
  exists d, memcmp m s1 s2 n = Done d /\
    Z.sgn d = Z.sgn (be_value (slice s1 n m) - be_value (slice s2 n m)) /\
    (d = 0%Z <-> slice s1 n m = slice s2 n m).
Proof.
  intros Hb H1 H2. destruct (memcmp_lex n m s1 s2 H1 H2) as (d & E & Hd). exists d. split; [done|].
  rewrite Hd. split; [|rewrite <- lex_equal, <- Hd; by rewrite Z.sgn_null_iff].
  apply lex_be_value; unfold slice; [by apply Forall_take, Forall_drop..|]. rewrite !length_take, !length_drop. lia.
Qed.

Lemma memcmp_orders_witness : exists d, memcmp [1; 2; 1; 3]%Z 0 2 2 = Done d /\
  Z.sgn d = Z.sgn (be_value (slice 0 2 [1; 2; 1; 3]%Z) - be_value (slice 2 2 [1; 2; 1; 3]%Z)) /\
  (d = 0%Z <-> slice 0 2 [1; 2; 1; 3]%Z = slice 2 2 [1; 2; 1; 3]%Z).
Proof. apply memcmp_orders; [by apply bytes_all|cbn; lia|cbn; lia]. Defined.

(** The string [l] at [s] and the zero that ends it. *)
Fixpoint string_at (m : list Z) (s : nat) (l : list Z) : Prop :=
  match l with
  | [] => m !! s = Some 0%Z
  | x :: l => x <> 0%Z /\ m !! s = Some x /\ string_at m (S s) l
  end.

Lemma string_at_inside m l : forall s, string_at m s l -> s + length l < length m.
Proof.
  induction l as [|x l IH]; intros s; cbn [string_at length].
  - intros H%lookup_lt_Some. lia.
  - intros (_ & _ & H%IH). lia.
Qed.

Lemma strlen_loop_done m l fuel : forall s len, string_at m s l -> length l < fuel -> strlen_loop fuel m s len = Done (len + length l).
Proof.
  revert fuel. induction l as [|x l IH]; intros [|fuel] s len Hs Hf; cbn [length string_at strlen_loop] in *; try lia.
  - rewrite (load_lookup _ _ _ Hs). cbn [res_bind Z.eqb]. f_equal. lia.
  - destruct Hs as (Hx & Hl & Hs). rewrite (load_lookup _ _ _ Hl). cbn [res_bind]. rewrite (proj2 (Z.eqb_neq _ _) Hx).
    rewrite (IH fuel (S s) (S len) Hs) by lia. f_equal. lia.
Qed.
(** [strlen] is the number of bytes in front of the zero. *)
Theorem strlen_counts m s l : string_at m s l -> strlen m s = Done (length l).
Proof. intros H. pose proof (string_at_inside m l s H). apply (strlen_loop_done m l _ s 0 H). lia. Qed.

Lemma difference_lookup m s1 s2 a b : m !! s1 = Some a -> m !! s2 = Some b -> difference m s1 s2 = Done (a - b)%Z.
Proof. intros Ha Hb. unfold difference. by rewrite (load_lookup _ _ _ Ha), (load_lookup _ _ _ Hb). Qed.

(** The first byte of a string, its zero included. *)
Definition front (l : list Z) : Z := match l with [] => 0%Z | x :: _ => x end.
Lemma string_at_front m s l : string_at m s l -> m !! s = Some (front l).
Proof. by destruct l as [|x l]; [|intros (_ & H & _)]. Qed.
Lemma string_at_bytes m s l : bytes m -> string_at m s l -> Forall (fun x => 0 < x < 256)%Z l.
Proof.
  intros Hb. revert s. induction l as [|x l IH]; intros s H; [constructor|]. destruct H as (Hx & Hl & H).
  pose proof (Forall_lookup_1 _ _ _ _ Hb Hl) as Hbx. unfold is_byte in Hbx. constructor; [lia|by apply (IH (S s))].
Qed.
(** Where the strings differ first, the bytes do. *)
Lemma lex_front a b : Forall (fun x => 0 < x < 256)%Z a -> Forall (fun x => 0 < x < 256)%Z b ->
  front a <> front b \/ a = [] /\ b = [] -> Z.sgn (front a - front b) = lex a b.
Proof.
  intros Ha Hb H. destruct a as [|x a], b as [|y b]; cbn [front lex] in *; [done|..].
  - apply Forall_cons in Hb as [Hy _]. by rewrite Z.sgn_neg by lia.
  - apply Forall_cons in Ha as [Hx _]. by rewrite Z.sgn_pos by lia.
  - destruct H as [H|[[=] _]]. by rewrite (proj2 (Z.eqb_neq _ _) H).
Qed.

Lemma strcmp_loop_done m fuel : bytes m -> forall a b s1 s2, string_at m s1 a -> string_at m s2 b -> length a < fuel ->
  exists d, strcmp_loop fuel m s1 s2 = Done d /\ Z.sgn d = lex a b.
Proof.
  intros Hm. induction fuel as [|fuel IH]; intros a b s1 s2 Ha Hb Hf; [lia|]. cbn [strcmp_loop].
  pose proof (string_at_front _ _ _ Ha) as Fa. pose proof (string_at_front _ _ _ Hb) as Fb.
  assert (Hd : front a <> front b \/ a = [] /\ b = [] -> exists d, difference m s1 s2 = Done d /\ Z.sgn d = lex a b).
  { intros H. rewrite (difference_lookup _ _ _ _ _ Fa Fb). eexists. split; [done|].
    apply lex_front; [by eapply string_at_bytes..|done]. }
  rewrite (load_lookup _ _ _ Fa), (load_lookup _ _ _ Fb). cbn [res_bind]. destruct a as [|x a].
  - cbn [front Z.eqb] in *. apply Hd. destruct b as [|y b]; [by right|]. left. destruct Hb as (Hy & _). cbn [front]. congruence.
  - destruct Ha as (Hx & _ & Ha). cbn [front length] in *. rewrite (proj2 (Z.eqb_neq _ _) Hx).
    destruct (Z.eqb_spec x (front b)) as [E|Hn]; [|apply Hd; by left].
    destruct b as [|y b]; [done|]. cbn [front] in E. subst y. destruct Hb as (_ & _ & Hb).
    cbn [lex]. rewrite Z.eqb_refl. apply IH; [done..|lia].
Qed.
(** [strcmp] is the order of a dictionary. *)
Theorem strcmp_orders m s1 s2 a b : bytes m -> string_at m s1 a -> string_at m s2 b ->
  exists d, strcmp m s1 s2 = Done d /\ Z.sgn d = lex a b.
Proof. intros Hm Ha Hb. pose proof (string_at_inside m a s1 Ha). apply strcmp_loop_done; [done..|lia]. Qed.

Lemma strncmp_loop_done m n : bytes m -> forall a b s1 s2, string_at m s1 a -> string_at m s2 b -> 0 < n ->
  exists d, strncmp_loop n m s1 s2 = Done d /\ Z.sgn d = lex (take n a) (take n b).
Proof.
  intros Hm. induction n as [|n IH]; intros a b s1 s2 Ha Hb Hn; [lia|]. cbn [strncmp_loop].
  pose proof (string_at_front _ _ _ Ha) as Fa. pose proof (string_at_front _ _ _ Hb) as Fb.
  rewrite (load_lookup _ _ _ Fa), (load_lookup _ _ _ Fb). cbn [res_bind].
  rewrite (difference_lookup _ _ _ _ _ Fa Fb).
  destruct (Z.eqb_spec (front a) (front b)) as [E|Hne].
  - destruct a as [|x a], b as [|y b]; cbn [front] in *.
    + rewrite orb_true_r. eexists. by split.
    + destruct Hb as (Hy & _). congruence.
    + destruct Ha as (Hx & _). congruence.
    + subst y. destruct Ha as (Hx & _ & Ha), Hb as (_ & _ & Hb). cbn [take lex].
      rewrite (proj2 (Z.eqb_neq _ _) Hx), Z.eqb_refl, orb_false_r. destruct (Nat.eqb_spec n 0) as [->|H0].
      * eexists. split; [done|]. by rewrite Z.sub_diag.
      * apply IH; [done..|lia].
  - eexists. split; [done|]. rewrite <- (lex_front (take (S n) a) (take (S n) b)).
    + by destruct a, b.
    + eapply Forall_take, string_at_bytes; [done|exact Ha].
    + eapply Forall_take, string_at_bytes; [done|exact Hb].
    + left. by destruct a, b.
Qed.
(** [strncmp] is the order of a dictionary on the first bytes: with it equal to zero one string
    starts with the other one only if it has that many. *)
Theorem strncmp_orders m s1 s2 a b n : bytes m -> string_at m s1 a -> string_at m s2 b ->
  exists d, strncmp m s1 s2 n = Done d /\ Z.sgn d = lex (take n a) (take n b) /\ (d = 0%Z <-> take n a = take n b).
Proof.
  intros Hm Ha Hb. unfold strncmp. destruct (Nat.eqb_spec n 0) as [->|Hn]; [by exists 0%Z|].
  destruct (strncmp_loop_done m n Hm a b s1 s2 Ha Hb) as (d & E & Hd); [lia|]. exists d. do 2 (split; [done|]).
  rewrite <- lex_equal, <- Hd. by rewrite Z.sgn_null_iff.
Qed.

End Libc.
