(* ===== verification/Fifo.v ===== *)
(** * The queue of received HID packets (src/targets/tkey/src/fifo.c)

    [main] adds every 64-byte packet it reads from the USB endpoint to this
    ring buffer and the HID layer takes them out ([usbhid_recv]).  The ring is
    modelled with its three counters and its flat byte array; the contract is
    that of a bounded queue of packets. *)

From S2P Require Import Prelude.

Module Fifo.

Definition MSG_SIZE : nat := 64.
Definition NR_OF_MSG : Z := 10.

Record t := mk {
  write_ptr : Z;
  read_ptr : Z;
  size : Z;
  write_buf : list Z;
}.
#[export] Instance eta_t : Eta t :=
  fun s => mk (write_ptr s) (read_ptr s) (size s) (write_buf s).

Definition init : t := mk 0 0 0 (zeros (MSG_SIZE * 10)).

(** Returns the C return code and the new ring. *)
Definition hidmsg_add (msg : list Z) (s : t) : res (Z * t) :=
  if size s <? NR_OF_MSG then
    let! buf := mem_write (write_buf s) (Z.to_nat (write_ptr s) * MSG_SIZE) msg in
    let wp := u32 (write_ptr s + 1) in
    let wp := if wp >=? NR_OF_MSG then 0 else wp in
    Done (0, s <| write_buf := buf |> <| write_ptr := wp |> <| size := u32 (size s + 1) |>)
  else Done (-1, s).

(** Returns the C return code, the bytes copied to the caller and the new
    ring: the copy happens before the emptiness test, as in the code. *)
Definition hidmsg_take (s : t) : res (Z * list Z * t) :=
  let! msg := mem_read (write_buf s) (Z.to_nat (read_ptr s) * MSG_SIZE) MSG_SIZE in
  if size s >? 0 then
    let rp := u32 (read_ptr s + 1) in
    let rp := if rp >=? NR_OF_MSG then 0 else rp in
    Done (0, msg, s <| read_ptr := rp |> <| size := u32 (size s - 1) |>)
  else Done (-1, msg, s).

Definition hidmsg_size (s : t) : Z := size s.
Definition hidmsg_rhead (s : t) : Z := read_ptr s.
Definition hidmsg_whead (s : t) : Z := write_ptr s.

(** [usbhid_recv] (src/targets/tkey/src/device.c): the number of bytes
    received and the packet. *)
Definition usbhid_recv (s : t) : res (Z * list Z * t) :=
  if negb (hidmsg_size s =? 0) then
    let! (_, msg, s') := hidmsg_take s in Done (64, msg, s')
  else Done (0, [], s).

(** ** Well-formed rings and the queue they represent *)

Record wf (s : t) : Prop := {
  wf_rptr : 0 <= read_ptr s < NR_OF_MSG;
  wf_size : 0 <= size s <= NR_OF_MSG;
  wf_wptr : write_ptr s = (read_ptr s + size s) mod NR_OF_MSG;
  wf_buf : length (write_buf s) = (MSG_SIZE * 10)%nat;
}.

Definition slot (s : t) (i : Z) : list Z :=
  slice (Z.to_nat (i mod NR_OF_MSG) * MSG_SIZE) MSG_SIZE (write_buf s).

Definition queue (s : t) : list (list Z) :=
  (fun k => slot s (read_ptr s + Z.of_nat k)) <$> seq 0 (Z.to_nat (size s)).

(** A slice that an overwrite does not touch, and the one it writes. *)
Lemma slice_overwrite_other (l src : list Z) off a n :
  (off + length src <= length l)%nat ->
  (a + n <= off \/ off + length src <= a)%nat ->
  slice a n (take off l ++ src ++ drop (off + length src) l) = slice a n l.
Proof.
  intros Hfit Hdisj. unfold slice. apply list_eq. intros i.
  destruct (decide (i < n)%nat) as [Hi|Hi]; cycle 1.
  { rewrite !lookup_take_ge by lia. done. }
  rewrite !lookup_take_lt, !lookup_drop by lia.
  destruct Hdisj as [H|H].
  - rewrite lookup_app_l by (rewrite length_take; lia).
    rewrite lookup_take_lt by lia. done.
  - rewrite lookup_app_r by (rewrite length_take; lia).
    rewrite lookup_app_r by (rewrite length_take; lia).
    rewrite lookup_drop, length_take. f_equal. lia.
Qed.

Lemma slice_overwrite_same (l src : list Z) off :
  (off + length src <= length l)%nat ->
  slice off (length src) (take off l ++ src ++ drop (off + length src) l) = src.
Proof.
  intros Hfit. unfold slice.
  rewrite drop_app_length' by (rewrite length_take; lia).
  by rewrite take_app_length.
Qed.

Lemma mod_ring_lt i : 0 <= i mod NR_OF_MSG < NR_OF_MSG.
Proof. apply Z.mod_pos_bound. unfold NR_OF_MSG. lia. Qed.

(** The advance of a pointer, as the code writes it, is addition modulo the
    number of messages. *)
Lemma advance_mod p :
  0 <= p < NR_OF_MSG ->
  (if u32 (p + 1) >=? NR_OF_MSG then 0 else u32 (p + 1)) = (p + 1) mod NR_OF_MSG.
Proof.
  unfold NR_OF_MSG. intros Hp. rewrite u32_small by (unfold is_u32; lia).
  destruct (p + 1 >=? 10) eqn:E; zbool.
  - replace p with 9 by lia. done.
  - symmetry. apply Z.mod_small. lia.
Qed.

Lemma slots_disjoint (s : t) i j :
  i mod NR_OF_MSG <> j mod NR_OF_MSG ->
  (Z.to_nat (i mod NR_OF_MSG) * MSG_SIZE + MSG_SIZE <= Z.to_nat (j mod NR_OF_MSG) * MSG_SIZE
   \/ Z.to_nat (j mod NR_OF_MSG) * MSG_SIZE + MSG_SIZE <= Z.to_nat (i mod NR_OF_MSG) * MSG_SIZE)%nat.
Proof. pose proof (mod_ring_lt i). pose proof (mod_ring_lt j). unfold MSG_SIZE. lia. Qed.

Lemma wf_init : wf init.
Proof. split; unfold NR_OF_MSG; cbn; lia || done. Qed.

(** The add on a ring that is not full, spelled out. *)
Lemma hidmsg_add_room s msg :
  wf s -> size s < NR_OF_MSG -> length msg = MSG_SIZE ->
  let off := (Z.to_nat (write_ptr s) * MSG_SIZE)%nat in
  (off + length msg <= length (write_buf s))%nat /\
  hidmsg_add msg s =
    Done (0, mk ((write_ptr s + 1) mod NR_OF_MSG) (read_ptr s) (size s + 1)
               (take off (write_buf s) ++ msg ++ drop (off + length msg) (write_buf s))).
Proof.
  intros [Hr Hs Hw Hb] Hlt Hmsg off.
  pose proof (mod_ring_lt (read_ptr s + size s)) as Hm. rewrite <- Hw in Hm.
  assert (Hfit : (off + length msg <= length (write_buf s))%nat).
  { subst off. rewrite Hb, Hmsg. unfold MSG_SIZE, NR_OF_MSG in *. lia. }
  split; [done|]. unfold hidmsg_add.
  rewrite (proj2 (Z.ltb_lt _ _)) by done.
  rewrite mem_write_fits by done. cbn. rewrite advance_mod by done.
  rewrite (u32_small (size s + 1)) by (unfold is_u32, NR_OF_MSG in *; lia).
  done.
Qed.

(** A packet added to a ring that is not full is accepted (return code
    0), no byte is written outside the array, the ring stays well formed and
    the queue it represents gets the packet at its end, every packet already
    queued unchanged. *)
Theorem hidmsg_add_refines s msg :
  wf s -> size s < NR_OF_MSG -> length msg = MSG_SIZE ->
  exists s', hidmsg_add msg s = Done (0, s') /\ wf s' /\ queue s' = queue s ++ [msg].
Proof.
  intros Hwf Hlt Hmsg. destruct (hidmsg_add_room s msg Hwf Hlt Hmsg) as [Hfit ->].
  destruct Hwf as [Hr Hs Hw Hb]. eexists. split; [done|]. split.
  - split; cbn; try done; [unfold NR_OF_MSG in *; lia| |].
    + rewrite Hw, Zplus_mod_idemp_l. f_equal. lia.
    + by rewrite overwrite_length.
  - unfold queue; cbn.
    replace (Z.to_nat (size s + 1)) with (Z.to_nat (size s) + 1)%nat by lia.
    rewrite seq_app, fmap_app. f_equal; cbn.
    + apply list_fmap_ext. intros i k [-> Hk]%lookup_seq. unfold slot; cbn.
      apply slice_overwrite_other; [done|]. rewrite Hmsg, Hw.
      apply slots_disjoint; [done|]. unfold NR_OF_MSG in *.
      intros E. apply (f_equal (fun z => (z - read_ptr s) mod 10)) in E.
      rewrite !Zminus_mod_idemp_l in E.
      rewrite (Z.mod_small (read_ptr s + size s - read_ptr s)) in E by lia.
      rewrite Z.mod_small in E by lia. lia.
    + f_equal. unfold slot; cbn. rewrite Z2Nat.id by lia.
      rewrite <- Hw. pose proof (slice_overwrite_same _ _ _ Hfit) as E.
      rewrite Hmsg in E |- *. exact E.
Qed.

Lemma hidmsg_add_refines_witness :
  wf init /\ size init < NR_OF_MSG /\ length (zeros 64) = MSG_SIZE /\
  exists s', hidmsg_add (zeros 64) init = Done (0, s') /\ wf s' /\
             queue s' = queue init ++ [zeros 64].
Proof.
  split; [exact wf_init|]. split; [done|]. split; [done|].
  apply (hidmsg_add_refines init (zeros 64)); [exact wf_init|done|done].
Defined.

Lemma hidmsg_add_full s msg : size s = NR_OF_MSG -> hidmsg_add msg s = Done (-1, s).
Proof. intros H. unfold hidmsg_add. by rewrite H. Qed.

(** Taking from a non-empty ring returns the oldest packet (first in,
    first out), stays inside the array, and leaves a well-formed ring that
    represents the rest of the queue. *)
Theorem hidmsg_take_refines s msg q :
  wf s -> queue s = msg :: q ->
  exists s', hidmsg_take s = Done (0, msg, s') /\ wf s' /\ queue s' = q.
Proof.
  intros [Hr Hs Hw Hb] Hq. unfold queue in Hq.
  destruct (Z.to_nat (size s)) as [|n] eqn:En; [done|]. cbn in Hq.
  injection Hq as <- <-.
  unfold hidmsg_take, mem_read. rewrite decide_True; cycle 1.
  { rewrite Hb. unfold MSG_SIZE, NR_OF_MSG in *. lia. }
  cbn [res_bind]. rewrite (proj2 (Z.gtb_lt _ _)) by lia.
  rewrite advance_mod by done. eexists. split.
  { do 4 f_equal. unfold slot. rewrite Z.add_0_r, Z.mod_small by done. done. }
  rewrite u32_small by (unfold is_u32, NR_OF_MSG in *; lia).
  rsimpl. split.
  - split; cbn; try done; [apply mod_ring_lt|unfold NR_OF_MSG in *; lia|].
    rewrite Hw, Zplus_mod_idemp_l. f_equal. lia.
  - unfold queue; cbn. replace (Z.to_nat (size s - 1)) with n by lia.
    rewrite <- fmap_S_seq, <- list_fmap_compose. apply list_fmap_ext.
    intros i k _. unfold slot; cbn. rewrite Zplus_mod_idemp_l. do 4 f_equal. lia.
Qed.

Lemma hidmsg_take_refines_witness :
  exists s s', wf s /\ queue s = [replicate 64 7] /\
    hidmsg_take s = Done (0, replicate 64 7, s') /\ wf s' /\ queue s' = [].
Proof.
  pose (s := mk 1 0 1 (replicate 64 7 ++ zeros 576)).
  assert (Hs : wf s) by (split; unfold NR_OF_MSG; cbn; lia || done).
  assert (Hq : queue s = [replicate 64 7]) by (vm_compute; reflexivity).
  destruct (hidmsg_take_refines s _ _ Hs Hq) as (s' & H1 & H2 & H3).
  exists s, s'. done.
Defined.

(** An empty ring gives back -1 and is not changed. *)
Lemma hidmsg_take_empty s :
  wf s -> queue s = [] -> exists msg, hidmsg_take s = Done (-1, msg, s).
Proof.
  intros [Hr Hs Hw Hb] Hq. assert (Hz : size s = 0).
  { unfold queue in Hq. destruct (Z.to_nat (size s)) eqn:E; [lia|done]. }
  unfold hidmsg_take, mem_read. rewrite decide_True; cycle 1.
  { rewrite Hb. unfold MSG_SIZE, NR_OF_MSG in *. lia. }
  cbn [res_bind]. rewrite Hz. eexists. done.
Qed.

End Fifo.
