(* ===== verification/HidWrite.v ===== *)
(** * Sending CTAPHID messages (src/fido2/src/ctaphid.c, src/fido2/inc/ctaphid.h)

    [ctaphid_write] accumulates the bytes of a response in a 64-byte report,
    puts the channel and either the command and length (first report) or a
    sequence number (the others) in front, and sends each full report; a call
    without data flushes the last one.  The reference it is compared with,
    [frames], cuts a message into reports at once. *)

From S2P Require Import Prelude.

Module HidWrite.

(** ** Constants of ctaphid.h *)

Definition HID_MESSAGE_SIZE : nat := 64.
Definition CTAPHID_INIT_PAYLOAD_SIZE : nat := 57.
Definition CTAPHID_CONT_PAYLOAD_SIZE : nat := 59.
Definition TYPE_INIT : Z := 0x80.
Definition CTAPHID_PING : Z := 0x81.
Definition CTAPHID_MSG : Z := 0x83.
Definition CTAPHID_LOCK : Z := 0x84.
Definition CTAPHID_INIT : Z := 0x86.
Definition CTAPHID_WINK : Z := 0x88.
Definition CTAPHID_CBOR : Z := 0x90.
Definition CTAPHID_CANCEL : Z := 0x91.
Definition CTAPHID_ERROR : Z := 0xbf.
Definition CTAPHID_KEEPALIVE : Z := 0xbb.
Definition CTAPHID_WRITE_CERT : Z := 0xd1.
Definition CTAPHID_WRITE_KEY : Z := 0xd2.
Definition CTAPHID_REBOOT : Z := 0xd3.
Definition CTAPHID_GETRNG : Z := 0xe0.
Definition CTAPHID_GETVERSION : Z := 0xe1.
Definition CTAPHID_BROADCAST_CID : Z := 0xffffffff.
Definition CTAPHID_BUFFER_SIZE : Z := 1344.
Definition CTAPHID_PROTOCOL_VERSION : Z := 2.
Definition CTAP_CAPABILITIES : Z := Z.lor 0x01 0x04.
Definition CTAPHID_STATUS_IDLE : Z := 0.
Definition CTAPHID_STATUS_PROCESSING : Z := 1.
Definition CTAPHID_STATUS_UPNEEDED : Z := 2.

(** Status codes of ctap_errors.h that the HID layer sends. *)
Definition CTAP2_OK : Z := 0x00.
Definition CTAP1_ERR_INVALID_COMMAND : Z := 0x01.
Definition CTAP1_ERR_INVALID_LENGTH : Z := 0x03.
Definition CTAP1_ERR_INVALID_SEQ : Z := 0x04.
Definition CTAP1_ERR_TIMEOUT : Z := 0x05.
Definition CTAP1_ERR_CHANNEL_BUSY : Z := 0x06.
Definition CTAP1_ERR_INVALID_CHANNEL : Z := 0x0B.
Definition CTAP1_ERR_OTHER : Z := 0x7F.

(** ** The write buffer *)

Record wbuf := mkWb {
  wb_cmd : Z;
  wb_cid : Z;
  wb_bcnt : Z;
  wb_offset : nat;
  wb_bytes_written : Z;
  wb_seq : Z;
  wb_buf : list Z;
}.
#[export] Instance eta_wbuf : Eta wbuf := fun w =>
  mkWb (wb_cmd w) (wb_cid w) (wb_bcnt w) (wb_offset w) (wb_bytes_written w)
    (wb_seq w) (wb_buf w).

Definition ctaphid_write_buffer_init : wbuf :=
  mkWb 0 0 0 0 0 0 (zeros HID_MESSAGE_SIZE).

Definition bcnt_hi (w : wbuf) : Z := Z.shiftr (Z.land (wb_bcnt w) 0xff00) 8.
Definition bcnt_lo (w : wbuf) : Z := Z.shiftr (Z.land (wb_bcnt w) 0xff) 0.

(** [memmove(wb->buf, &wb->cid, 4)] then the command and the byte count. *)
Definition put_init_header (w : wbuf) : res wbuf :=
  let! b := mem_write (wb_buf w) 0 (le32 (wb_cid w)) in
  let! b := mem_write b 4 [wb_cmd w; bcnt_hi w; bcnt_lo w] in
  Done (w <| wb_buf := b |> <| wb_offset := (wb_offset w + 4 + 3)%nat |>).

Definition put_cont_header (w : wbuf) : res wbuf :=
  let! b := mem_write (wb_buf w) 0 (le32 (wb_cid w)) in
  let! b := mem_write b 4 [wb_seq w] in
  Done (w <| wb_buf := b |> <| wb_seq := u8 (wb_seq w + 1) |>
          <| wb_offset := (wb_offset w + 4 + 1)%nat |>).

(** One iteration of the loop of [ctaphid_write]: the new buffer and the
    reports handed to [usbhid_send]. *)
Definition write_byte (d : Z) (w : wbuf) : res (wbuf * list (list Z)) :=
  let! w :=
    if (wb_offset w =? 0)%nat then
      if wb_bytes_written w =? 0 then put_init_header w else put_cont_header w
    else Done w in
  let! b := mem_write (wb_buf w) (wb_offset w) [d] in
  let w := w <| wb_buf := b |> <| wb_offset := S (wb_offset w) |>
             <| wb_bytes_written := wb_bytes_written w + 1 |> in
  if (wb_offset w =? HID_MESSAGE_SIZE)%nat
  then Done (w <| wb_offset := 0%nat |>, [wb_buf w])
  else Done (w, []).

(** [ctaphid_write(wb, data, len)] with data. *)
Fixpoint ctaphid_write (data : list Z) (w : wbuf) : res (wbuf * list (list Z)) :=
  match data with
  | [] => Done (w, [])
  | d :: data =>
      let! (w, p) := write_byte d w in
      let! (w, ps) := ctaphid_write data w in
      Done (w, p ++ ps)
  end.

(** [ctaphid_write(wb, NULL, 0)]: flush. *)
Definition ctaphid_flush (w : wbuf) : res (wbuf * list (list Z)) :=
  let! w :=
    if (wb_offset w =? 0)%nat && (wb_bytes_written w =? 0)
    then put_init_header w else Done w in
  if (0 <? wb_offset w)%nat then
    let! b := mem_write (wb_buf w) (wb_offset w) (zeros (HID_MESSAGE_SIZE - wb_offset w)) in
    Done (w <| wb_buf := b |>, [b])
  else Done (w, []).

(** A whole response: [wb.cid], [wb.cmd], [wb.bcnt] set, the data written in
    the given pieces, then flushed. *)
Fixpoint write_pieces (pieces : list (list Z)) (w : wbuf) : res (wbuf * list (list Z)) :=
  match pieces with
  | [] => Done (w, [])
  | p :: pieces =>
      let! (w, s1) := ctaphid_write p w in
      let! (w, s2) := write_pieces pieces w in
      Done (w, s1 ++ s2)
  end.

Definition send_message (cid cmd bcnt : Z) (pieces : list (list Z)) : res (list (list Z)) :=
  let w := ctaphid_write_buffer_init <| wb_cid := cid |> <| wb_cmd := cmd |>
             <| wb_bcnt := bcnt |> in
  let! (w, s1) := write_pieces pieces w in
  let! (_, s2) := ctaphid_flush w in
  Done (s1 ++ s2).

Definition ctaphid_send_error (cid error : Z) : res (list (list Z)) :=
  send_message cid CTAPHID_ERROR 1 [[error]].

Definition ctaphid_update_status (buffer_cid status : Z) : res (list (list Z)) :=
  send_message buffer_cid CTAPHID_KEEPALIVE 1 [[status]].

(** The packed [CTAPHID_INIT_RESPONSE], 17 bytes; the application version is
    0.0.0 unless the build defines it (version.h). *)
Definition APP_VERSION_MAJ : Z := 0.
Definition APP_VERSION_MIN : Z := 0.
Definition APP_VERSION_PATCH : Z := 0.

Definition send_init_response (oldcid newcid : Z) (nonce : list Z) : res (list (list Z)) :=
  send_message oldcid CTAPHID_INIT 17
    [take 8 nonce ++ le32 newcid ++
     [CTAPHID_PROTOCOL_VERSION; APP_VERSION_MAJ; APP_VERSION_MIN; APP_VERSION_PATCH;
      CTAP_CAPABILITIES]].

(** ** Reference: cutting a message into reports *)

Definition pad64 (l : list Z) : list Z := l ++ zeros (HID_MESSAGE_SIZE - length l).

Definition init_hdr (cid cmd bcnt : Z) : list Z :=
  le32 cid ++ [cmd; Z.shiftr (Z.land bcnt 0xff00) 8; Z.shiftr (Z.land bcnt 0xff) 0].
Definition cont_hdr (cid seq : Z) : list Z := le32 cid ++ [seq].

(** Continuation reports for [data], from sequence number [seq]. [n] bounds
    their number; [length data] is always enough. *)
Fixpoint cont_frames (n : nat) (cid seq : Z) (data : list Z) : list (list Z) :=
  match n, data with
  | _, [] => []
  | O, _ => []
  | S n, _ =>
      pad64 (cont_hdr cid seq ++ take CTAPHID_CONT_PAYLOAD_SIZE data)
      :: cont_frames n cid (u8 (seq + 1)) (drop CTAPHID_CONT_PAYLOAD_SIZE data)
  end.

Definition frames (cid cmd bcnt : Z) (data : list Z) : list (list Z) :=
  pad64 (init_hdr cid cmd bcnt ++ take CTAPHID_INIT_PAYLOAD_SIZE data)
  :: cont_frames (length data) cid 0 (drop CTAPHID_INIT_PAYLOAD_SIZE data).

#[local] Ltac consts :=
  unfold HID_MESSAGE_SIZE, CTAPHID_CONT_PAYLOAD_SIZE, CTAPHID_INIT_PAYLOAD_SIZE in *.

(** ** The incremental writer agrees with the reference *)

Lemma ctaphid_write_app a b w :
  ctaphid_write (a ++ b) w =
  (let! (w, p) := ctaphid_write a w in
   let! (w, q) := ctaphid_write b w in Done (w, p ++ q)).
Proof.
  revert w. induction a as [|d a IH]; intros w; cbn.
  { by destruct (ctaphid_write b w) as [[]|]. }
  destruct (write_byte d w) as [[w1 p1]|]; cbn; [|done]. rewrite IH.
  destruct (ctaphid_write a w1) as [[w2 p2]|]; cbn; [|done].
  destruct (ctaphid_write b w2) as [[w3 p3]|]; cbn; [|done]. by rewrite app_assoc.
Qed.

Lemma write_pieces_concat ps w : write_pieces ps w = ctaphid_write (concat ps) w.
Proof.
  revert w. induction ps as [|p ps IH]; intros w; cbn; [done|].
  rewrite ctaphid_write_app. destruct (ctaphid_write p w) as [[w1 p1]|]; cbn; [|done].
  by rewrite IH.
Qed.

(** Overwriting right after a known prefix extends the prefix. *)
Lemma mem_write_prefix (buf pre src : list Z) :
  take (length pre) buf = pre -> (length pre + length src <= length buf)%nat ->
  exists buf', mem_write buf (length pre) src = Done buf' /\ length buf' = length buf /\
    take (length pre + length src) buf' = pre ++ src.
Proof.
  intros Hpre Hfit. eexists. rewrite mem_write_fits by done. split; [done|].
  split; [by apply overwrite_length|]. rewrite Hpre, app_assoc.
  apply take_app_length'. by rewrite length_app.
Qed.

(** Bytes that do not complete the current report. *)
Lemma write_fill data : forall pre cmd cid bcnt bw seq buf,
  length buf = HID_MESSAGE_SIZE -> pre <> [] ->
  (length pre + length data < HID_MESSAGE_SIZE)%nat -> take (length pre) buf = pre ->
  exists buf', ctaphid_write data (mkWb cmd cid bcnt (length pre) bw seq buf)
      = Done (mkWb cmd cid bcnt (length (pre ++ data)) (bw + Z.of_nat (length data)) seq buf', [])
    /\ length buf' = HID_MESSAGE_SIZE /\ take (length (pre ++ data)) buf' = pre ++ data.
Proof.
  induction data as [|d data IH]; intros pre cmd cid bcnt bw seq buf Hl Hne Hlt Hpre; cbn.
  { exists buf. by rewrite app_nil_r, Z.add_0_r. }
  cbn [length] in Hlt. unfold write_byte; cbn [wb_offset].
  rewrite (proj2 (Nat.eqb_neq _ _)) by (by destruct pre). cbn [res_bind wb_offset wb_buf].
  destruct (mem_write_prefix buf pre [d]) as (b1 & -> & Hl1 & Ht1);
    [done|unfold HID_MESSAGE_SIZE in *; cbn; lia|]. cbn [res_bind].
  rsimpl. cbn [wb_offset wb_cmd wb_cid wb_bcnt wb_bytes_written wb_seq wb_buf].
  rewrite (proj2 (Nat.eqb_neq _ _)) by lia. cbn [res_bind].
  replace (S (length pre)) with (length (pre ++ [d])) by (rewrite length_app; cbn; lia).
  destruct (IH (pre ++ [d]) cmd cid bcnt (bw + 1) seq b1) as (b2 & -> & Hl2 & Ht2).
  - congruence.
  - by destruct pre.
  - rewrite length_app; cbn; lia.
  - rewrite length_app. exact Ht1.
  - exists b2. cbn. rewrite <- app_assoc in *. cbn in *.
    split; [|done]. do 3 f_equal. lia.
Qed.

(** Bytes that complete the current report exactly. *)
Lemma write_complete data : forall pre cmd cid bcnt bw seq buf,
  length buf = HID_MESSAGE_SIZE -> pre <> [] -> data <> [] ->
  (length pre + length data = HID_MESSAGE_SIZE)%nat -> take (length pre) buf = pre ->
  ctaphid_write data (mkWb cmd cid bcnt (length pre) bw seq buf)
  = Done (mkWb cmd cid bcnt 0 (bw + Z.of_nat (length data)) seq (pre ++ data), [pre ++ data]).
Proof.
  intros pre cmd cid bcnt bw seq buf Hl Hne Hd Hlen Hpre.
  destruct (exists_last Hd) as (data' & d & ->). rewrite length_app in Hlen; cbn in Hlen.
  rewrite ctaphid_write_app.
  destruct (write_fill data' pre cmd cid bcnt bw seq buf) as (b & -> & Hlb & Htb);
    [done|done|lia|done|]. cbn [res_bind ctaphid_write].
  unfold write_byte; cbn [wb_offset]. rewrite (proj2 (Nat.eqb_neq _ _)) by (by destruct pre).
  cbn [res_bind wb_buf wb_offset].
  destruct (mem_write_prefix b (pre ++ data') [d]) as (b1 & -> & Hl1 & Ht1).
  { done. }
  { rewrite length_app; cbn. lia. }
  cbn [res_bind]. rsimpl.
  cbn [wb_offset wb_cmd wb_cid wb_bcnt wb_bytes_written wb_seq wb_buf].
  rewrite (proj2 (Nat.eqb_eq _ _)) by (rewrite length_app; lia). cbn.
  assert (b1 = pre ++ data' ++ [d]) as ->.
  { rewrite app_assoc, <- Ht1. symmetry. apply take_ge. rewrite length_app; cbn. lia. }
  replace (bw + Z.of_nat (length data') + 1) with (bw + Z.of_nat (length (data' ++ [d])))
    by (rewrite length_app; cbn; lia). done.
Qed.

(** The flush of a report in progress pads it with zeros. *)
Lemma flush_partial pre cmd cid bcnt bw seq buf :
  length buf = HID_MESSAGE_SIZE -> pre <> [] -> (length pre < HID_MESSAGE_SIZE)%nat ->
  take (length pre) buf = pre ->
  res_map snd (ctaphid_flush (mkWb cmd cid bcnt (length pre) bw seq buf)) = Done [pad64 pre].
Proof.
  intros Hl Hne Hlt Hpre. unfold ctaphid_flush; cbn [wb_offset wb_bytes_written].
  rewrite (proj2 (Nat.eqb_neq _ _)) by (by destruct pre). cbn [andb res_bind wb_offset wb_buf].
  rewrite (proj2 (Nat.ltb_lt _ _)) by (destruct pre; cbn; [done|lia]).
  destruct (mem_write_prefix buf pre (zeros (HID_MESSAGE_SIZE - length pre)))
    as (b & -> & Hlb & Htb); [done|rewrite zeros_length; lia|].
  cbn. do 2 f_equal. unfold pad64. rewrite <- Htb. symmetry. apply take_ge.
  rewrite zeros_length. lia.
Qed.

Lemma flush_nothing cmd cid bcnt bw seq buf :
  bw <> 0 -> res_map snd (ctaphid_flush (mkWb cmd cid bcnt 0 bw seq buf)) = Done [].
Proof.
  intros Hbw. unfold ctaphid_flush; cbn [wb_offset wb_bytes_written].
  rewrite (proj2 (Z.eqb_neq _ _)) by done. done.
Qed.

(** The reports of writing [data] and then flushing. *)
Definition write_flush (data : list Z) (w : wbuf) : res (list (list Z)) :=
  let! (w, s1) := ctaphid_write data w in
  res_map (app s1) (res_map snd (ctaphid_flush w)).

(** The rest of a report that has its header. *)
Lemma write_flush_report data rest hdr cmd cid bcnt bw seq buf :
  length buf = HID_MESSAGE_SIZE -> hdr <> [] -> 0 <= bw -> (length hdr < HID_MESSAGE_SIZE)%nat ->
  take (length hdr) buf = hdr ->
  (length data <= HID_MESSAGE_SIZE - length hdr)%nat -> data <> [] ->
  (length data = HID_MESSAGE_SIZE - length hdr \/ rest = [])%nat ->
  exists bw' buf', 0 < bw' /\ length buf' = HID_MESSAGE_SIZE /\
  write_flush (data ++ rest) (mkWb cmd cid bcnt (length hdr) bw seq buf)
  = res_map (cons (pad64 (hdr ++ data)))
      (match rest with
       | [] => Done []
       | _ => write_flush rest (mkWb cmd cid bcnt 0 bw' seq buf')
       end).
Proof.
  intros Hl Hne Hbw Hh Hpre Hle Hdata Hcase. unfold write_flush.
  rewrite ctaphid_write_app.
  assert (Hpos : (0 < length data)%nat) by (destruct data; cbn; [done|lia]).
  destruct (decide (length data = HID_MESSAGE_SIZE - length hdr)%nat) as [Hfull|Hpart].
  - rewrite (write_complete data hdr) by (done || lia).
    exists (bw + Z.of_nat (length data)), (hdr ++ data).
    split; [lia|]. split; [rewrite length_app; lia|]. cbn [res_bind].
    unfold pad64. rewrite length_app.
    replace (HID_MESSAGE_SIZE - (length hdr + length data))%nat with 0%nat by lia.
    cbn [zeros replicate]. rewrite app_nil_r.
    destruct rest as [|r rest]; cbn [ctaphid_write res_bind].
    { rewrite flush_nothing by lia. done. }
    destruct (write_byte r _) as [[w1 p1]|]; cbn; [|done].
    destruct (ctaphid_write rest w1) as [[w2 p2]|]; cbn; [|done].
    destruct (ctaphid_flush w2) as [[w3 p3]|]; cbn; done.
  - destruct Hcase as [?| ->]; [lia|].
    destruct (write_fill data hdr cmd cid bcnt bw seq buf) as (b & -> & Hlb & Htb);
      [done|done|lia|done|].
    exists 1, b. split; [lia|]. split; [done|]. cbn [res_bind ctaphid_write app].
    rewrite flush_partial; [done|done|by destruct hdr|rewrite length_app; lia|done].
Qed.

(** From a report boundary on, the writer emits the continuation reports. *)
Lemma write_flush_cont n : forall data cmd cid bcnt bw seq buf,
  (length data <= n)%nat -> length buf = HID_MESSAGE_SIZE -> 0 < bw -> data <> [] ->
  write_flush data (mkWb cmd cid bcnt 0 bw seq buf) = Done (cont_frames n cid seq data).
Proof.
  induction n as [|n IH]; intros data cmd cid bcnt bw seq buf Hn Hl Hbw Hd.
  { destruct data; [done|cbn in Hn; lia]. }
  set (hdr := cont_hdr cid seq). assert (Hh : length hdr = 5%nat) by done.
  assert (Hw : exists buf', length buf' = HID_MESSAGE_SIZE /\ take (length hdr) buf' = hdr /\
    write_flush data (mkWb cmd cid bcnt 0 bw seq buf)
    = write_flush data (mkWb cmd cid bcnt (length hdr) bw (u8 (seq + 1)) buf')).
  { destruct data as [|d data]; [done|]. unfold write_flush; cbn [ctaphid_write].
    unfold write_byte; cbn [wb_offset wb_bytes_written Nat.eqb].
    rewrite (proj2 (Z.eqb_neq bw 0)) by lia. unfold put_cont_header; cbn [wb_buf wb_cid wb_seq].
    destruct (mem_write_prefix buf [] (le32 cid)) as (b1 & H1 & Hl1 & Ht1);
      [done|rewrite Hl; cbn; unfold HID_MESSAGE_SIZE; lia|].
    cbn [length] in H1. rewrite H1; cbn [res_bind].
    destruct (mem_write_prefix b1 (le32 cid) [seq]) as (b2 & H2 & Hl2 & Ht2);
      [done|rewrite Hl1, Hl; cbn; unfold HID_MESSAGE_SIZE; lia|].
    cbn [le32 length] in H2. rewrite H2; cbn [res_bind]. rsimpl.
    exists b2. split; [lia|]. split; [done|]. reflexivity. }
  destruct Hw as (b1 & Hl1 & Ht1 & ->).
  destruct (write_flush_report (take CTAPHID_CONT_PAYLOAD_SIZE data)
    (drop CTAPHID_CONT_PAYLOAD_SIZE data) hdr cmd cid bcnt bw (u8 (seq + 1)) b1)
    as (bw' & b' & Hbw' & Hb' & Heq); try done.
  - lia.
  - rewrite Hh. consts; lia.
  - rewrite length_take, Hh. consts; lia.
  - by destruct data.
  - rewrite length_take. destruct (decide (CTAPHID_CONT_PAYLOAD_SIZE <= length data)%nat).
    + left. rewrite Hh. consts; lia.
    + right. apply drop_ge. lia.
  - rewrite take_drop in Heq. rewrite Heq. clear Heq.
    destruct data as [|d data]; [done|]. cbn [cont_frames].
    set (rest := drop CTAPHID_CONT_PAYLOAD_SIZE (d :: data)).
    assert (Hr : (length rest <= n)%nat).
    { subst rest. rewrite length_drop. unfold CTAPHID_CONT_PAYLOAD_SIZE in *; cbn [length] in *. lia. }
    destruct rest as [|r rest]; [by destruct n|].
    rewrite IH by done. done.
Qed.

Lemma send_message_done cid cmd bcnt pieces :
  send_message cid cmd bcnt pieces = Done (frames cid cmd bcnt (concat pieces)).
Proof.
  unfold send_message, frames. rewrite write_pieces_concat. set (data := concat pieces). rsimpl.
  cbn [ctaphid_write_buffer_init wb_cmd wb_cid wb_bcnt wb_offset wb_bytes_written wb_seq wb_buf].
  set (hdr := init_hdr cid cmd bcnt). assert (Hh : length hdr = 7%nat) by done.
  destruct data as [|d data']; [reflexivity|]. set (data := d :: data').
  assert (Hw : exists buf', length buf' = HID_MESSAGE_SIZE /\ take (length hdr) buf' = hdr /\
    (let! (w, s1) := ctaphid_write data (mkWb cmd cid bcnt 0 0 0 (zeros HID_MESSAGE_SIZE)) in
     let! (_, s2) := ctaphid_flush w in Done (s1 ++ s2))
    = write_flush data (mkWb cmd cid bcnt (length hdr) 0 0 buf')).
  { eexists (hdr ++ zeros 57). split; [reflexivity|]. split; [apply take_app_length|].
    unfold write_flush, data; cbn [ctaphid_write].
    change (write_byte d (mkWb cmd cid bcnt 0 0 0 (zeros HID_MESSAGE_SIZE)))
      with (write_byte d (mkWb cmd cid bcnt (length hdr) 0 0 (hdr ++ zeros 57))).
    destruct (write_byte d _) as [[w1 p1]|]; cbn; [|done].
    destruct (ctaphid_write data' w1) as [[w2 p2]|]; cbn; [|done].
    by destruct (ctaphid_flush w2) as [[w3 p3]|]; cbn. }
  destruct Hw as (b1 & Hl1 & Ht1 & ->).
  destruct (write_flush_report (take CTAPHID_INIT_PAYLOAD_SIZE data)
    (drop CTAPHID_INIT_PAYLOAD_SIZE data) hdr cmd cid bcnt 0 0 b1)
    as (bw' & b' & Hbw' & Hb' & Heq); try done.
  - rewrite Hh. consts; lia.
  - rewrite length_take, Hh. consts; lia.
  - rewrite length_take. destruct (decide (CTAPHID_INIT_PAYLOAD_SIZE <= length data)%nat).
    + left. rewrite Hh. consts; lia.
    + right. apply drop_ge. lia.
  - rewrite take_drop in Heq. rewrite Heq. clear Heq.
    set (rest := drop CTAPHID_INIT_PAYLOAD_SIZE data).
    assert (Hr : (length rest <= length data)%nat) by (subst rest; rewrite length_drop; lia).
    destruct rest as [|r rest]; [by destruct (length data)|].
    rewrite (write_flush_cont (length data)) by done. done.
Qed.

(** For every channel, command, announced length and data, and however
    the response is cut into successive [ctaphid_write] calls, the reports
    sent by the device are exactly the CTAPHID framing of the concatenated
    data: one initialization report and consecutive continuation reports,
    each 64 bytes, zero padded, and no byte is written outside the 64-byte
    report buffer. *)
Theorem send_message_frames cid cmd bcnt pieces :
  send_message cid cmd bcnt pieces = Done (frames cid cmd bcnt (concat pieces)).
Proof. apply send_message_done. Qed.

End HidWrite.
