(* ===== verification/CtapHid.v ===== *)
(** * The CTAPHID transport (src/fido2/src/ctaphid.c)

    Channel bookkeeping, reassembly of packets into a message, timeouts, and
    the dispatch of a complete message.  The layers above (CTAP2, U2F,
    attestation upload, random numbers, the clock) are the [client] of this
    file; their own state [U] is threaded through. *)

From S2P Require Import Prelude HidWrite.
Import HidWrite.

Module CtapHid.

Record CID := mkCID {
  cid_id : Z;
  last_used : Z;
  busy : Z;
  last_cmd : Z;
}.
#[export] Instance eta_CID : Eta CID :=
  fun c => mkCID (cid_id c) (last_used c) (busy c) (last_cmd c).

Inductive CTAP_STATE := IDLE | HANDLING_REQUEST.

Inductive CTAP_BUFFER_STATE := EMPTY | BUFFERING | BUFFERED | HID_ERROR | HID_IGNORE.
#[export] Instance CTAP_BUFFER_STATE_eq_dec : EqDecision CTAP_BUFFER_STATE.
Proof. solve_decision. Defined.

(** The static variables of the file; [next_cid] is the static counter of
    [get_new_cid], [is_busy] that of [ctaphid_handle_packet], [sent] the
    reports given to [usbhid_send], oldest first. *)
Record hid := mkHid {
  state : CTAP_STATE;
  CIDS : list CID;
  active_cid_timestamp : Z;
  ctap_buffer : list Z;
  ctap_buffer_cid : Z;
  ctap_buffer_cmd : Z;
  ctap_buffer_bcnt : Z;
  ctap_buffer_offset : Z;
  ctap_packet_seq : Z;
  next_cid : Z;
  is_busy : Z;
  sent : list (list Z);
}.
#[export] Instance eta_hid : Eta hid := fun h =>
  mkHid (state h) (CIDS h) (active_cid_timestamp h) (ctap_buffer h) (ctap_buffer_cid h)
    (ctap_buffer_cmd h) (ctap_buffer_bcnt h) (ctap_buffer_offset h) (ctap_packet_seq h)
    (next_cid h) (is_busy h) (sent h).

Definition CID_MAX : nat := 10.

(** Zero-initialized statics, as at program start. *)
Definition boot : hid :=
  mkHid IDLE (replicate CID_MAX (mkCID 0 0 0 0)) 0 (zeros (Z.to_nat CTAPHID_BUFFER_SIZE))
    0 0 0 0 0 1 0 [].

(** ** The layers above *)

(** What a request handler leaves behind: its status, the response buffer
    and length, the contents of [ctap_buffer] (the handlers get a pointer to
    it), and the status values it passed to [ctaphid_update_status]. *)
Record reply := mkReply {
  rp_status : Z;
  rp_data : list Z;
  rp_length : Z;
  rp_buffer : list Z;
  rp_updates : list Z;
}.

Record client (U : Type) := mkClient {
  cl_millis : U -> res (Z * U);
  cl_ctap_request : list Z -> Z -> U -> res (reply * U);
  cl_u2f_request : list Z -> U -> res (reply * U);
  cl_write_key : list Z -> Z -> U -> res (Z * U);
  cl_write_cert : list Z -> Z -> U -> res (Z * U);
  (** the bytes generated, [None] when the generator fails *)
  cl_generate_rng : Z -> U -> res (option (list Z) * U);
  cl_wink : U -> res (unit * U);
}.
#[export] Instance eta_client {U} : Eta (client U) := fun c =>
  mkClient U (cl_millis U c) (cl_ctap_request U c) (cl_u2f_request U c) (cl_write_key U c)
    (cl_write_cert U c) (cl_generate_rng U c) (cl_wink U c).
Arguments cl_millis {U} c u.
Arguments cl_ctap_request {U} c buf len u.
Arguments cl_u2f_request {U} c buf u.
Arguments cl_write_key {U} c buf len u.
Arguments cl_write_cert {U} c buf len u.
Arguments cl_generate_rng {U} c n u.
Arguments cl_wink {U} c u.

(** ** Packets *)

Definition pkt_cid (pkt : list Z) : Z := le32_dec pkt.
Definition pkt_cmd (pkt : list Z) : Z := nth 4 pkt 0.
Definition pkt_seq (pkt : list Z) : Z := nth 4 pkt 0.
Definition ctaphid_packet_len (pkt : list Z) : Z :=
  Z.lor (u16 (Z.shiftl (nth 5 pkt 0) 8)) (nth 6 pkt 0).
Definition init_payload (pkt : list Z) : list Z := drop 7 pkt.
Definition cont_payload (pkt : list Z) : list Z := drop 5 pkt.

Definition is_broadcast (pkt : list Z) : bool := pkt_cid pkt =? CTAPHID_BROADCAST_CID.
Definition is_init_pkt (pkt : list Z) : bool := pkt_cmd pkt =? CTAPHID_INIT.
Definition is_cont_pkt (pkt : list Z) : bool := Z.land (pkt_cmd pkt) TYPE_INIT =? 0.

(** ** The message buffer *)

Definition buffer_reset (h : hid) : hid :=
  h <| ctap_buffer_bcnt := 0 |> <| ctap_buffer_offset := 0 |>
    <| ctap_packet_seq := 0 |> <| ctap_buffer_cid := 0 |>.

Definition ctaphid_init (h : hid) : hid := buffer_reset (h <| state := IDLE |>).

Definition buffer_status (h : hid) : CTAP_BUFFER_STATE :=
  if ctap_buffer_bcnt h =? 0 then EMPTY
  else if ctap_buffer_offset h =? ctap_buffer_bcnt h then BUFFERED
  else BUFFERING.

Definition buffer_cmd (h : hid) : Z := ctap_buffer_cmd h.
Definition buffer_cid (h : hid) : Z := ctap_buffer_cid h.
Definition buffer_len (h : hid) : Z := ctap_buffer_bcnt h.

Inductive buffer_result := SUCESS | SEQUENCE_ERROR.

Definition buffer_packet (pkt : list Z) (h : hid) : res (buffer_result * hid) :=
  if negb (Z.land (pkt_cmd pkt) TYPE_INIT =? 0) then
    let bcnt := ctaphid_packet_len pkt in
    let pkt_len := if bcnt <? Z.of_nat CTAPHID_INIT_PAYLOAD_SIZE then bcnt
                   else Z.of_nat CTAPHID_INIT_PAYLOAD_SIZE in
    let h := h <| ctap_buffer_bcnt := bcnt |> <| ctap_buffer_cmd := pkt_cmd pkt |>
               <| ctap_buffer_cid := pkt_cid pkt |> <| ctap_buffer_offset := pkt_len |>
               <| ctap_packet_seq := -1 |> in
    let! src := mem_read (init_payload pkt) 0 (Z.to_nat pkt_len) in
    let! b := mem_write (ctap_buffer h) 0 src in
    Done (SUCESS, h <| ctap_buffer := b |>)
  else if ctap_buffer_offset h >? ctap_buffer_bcnt h then Done (SEQUENCE_ERROR, h)
  else
    let leftover := ctap_buffer_bcnt h - ctap_buffer_offset h in
    let diff := leftover - Z.of_nat CTAPHID_CONT_PAYLOAD_SIZE in
    let h := h <| ctap_packet_seq := ctap_packet_seq h + 1 |> in
    if negb (ctap_packet_seq h =? pkt_seq pkt) then Done (SEQUENCE_ERROR, h)
    else
      let n := if diff <=? 0 then leftover else Z.of_nat CTAPHID_CONT_PAYLOAD_SIZE in
      let! src := mem_read (cont_payload pkt) 0 (Z.to_nat n) in
      let! b := mem_write (ctap_buffer h) (Z.to_nat (ctap_buffer_offset h)) src in
      Done (SUCESS, h <| ctap_buffer := b |> <| ctap_buffer_offset := ctap_buffer_offset h + n |>).

(** ** Channel identifiers *)

(** The [do ... while] of [get_new_cid]; after three increments the counter
    has left both reserved values. *)
Fixpoint new_cid_loop (fuel : nat) (cid : Z) : Z :=
  let c := u32 (cid + 1) in
  if (c =? 0) || (c =? 0xffffffff) then
    match fuel with
    | O => c
    | S fuel => new_cid_loop fuel c
    end
  else c.

Definition get_new_cid (h : hid) : Z * hid :=
  let c := new_cid_loop 2 (next_cid h) in (c, h <| next_cid := c |>).

(** Index of the first of the searched entries with property [P]. *)
Definition find_cid (P : CID -> bool) (l : list CID) : option nat :=
  fst <$> list_find (fun c => P c = true) (take (CID_MAX - 1) l).

Definition cid_exists (cid : Z) (h : hid) : bool :=
  match find_cid (fun c => cid_id c =? cid) (CIDS h) with
  | Some _ => true
  | None => false
  end.

Definition cid_del (cid : Z) (h : hid) : Z * hid :=
  match find_cid (fun c => cid_id c =? cid) (CIDS h) with
  | Some i => (0, h <| CIDS := alter (fun c => c <| busy := 0 |>) i (CIDS h) |>)
  | None => (-1, h)
  end.

Section WithClient.
Context {U : Type} (cl : client U).

Definition add_cid (cid : Z) (h : hid) (u : U) : res (Z * hid * U) :=
  match find_cid (fun c => busy c =? 0) (CIDS h) with
  | Some i =>
      let! (t, u) := cl_millis cl u in
      Done (0, h <| CIDS := alter (fun c => c <| cid_id := cid |> <| busy := 1 |>
                                              <| last_used := t |>) i (CIDS h) |>, u)
  | None => Done (-1, h, u)
  end.

Definition cid_refresh (cid : Z) (h : hid) (u : U) : res (Z * hid * U) :=
  match find_cid (fun c => cid_id c =? cid) (CIDS h) with
  | Some i =>
      let! (t, u) := cl_millis cl u in
      Done (0, h <| CIDS := alter (fun c => c <| last_used := t |> <| busy := 1 |>) i (CIDS h) |>, u)
  | None => Done (-1, h, u)
  end.

Definition usbhid_send (ps : list (list Z)) (h : hid) : hid := h <| sent := sent h ++ ps |>.

(** The status and the output parameters of [ctaphid_buffer_packet]; [cmd]
    and [len] keep the zero the caller put in them unless they are set. *)
Record bufres := mkBr {
  br_status : CTAP_BUFFER_STATE;
  br_cmd : Z;
  br_cid : Z;
  br_len : Z;
}.

Definition handle_init_pkt (pkt : list Z) (h : hid) (u : U) : res (bufres * hid * U) :=
  let cid := pkt_cid pkt in
  if negb (ctaphid_packet_len pkt =? 8) then
    Done (mkBr HID_ERROR CTAP1_ERR_INVALID_LENGTH cid 0, h, u)
  else if cid =? 0 then
    Done (mkBr HID_ERROR CTAP1_ERR_INVALID_CHANNEL cid 0, h, u)
  else
    let h := ctaphid_init h in
    let! (ret, oldcid, newcid, h, u) :=
      if is_broadcast pkt then
        let '(newcid, h) := get_new_cid h in
        let! (ret, h, u) := add_cid newcid h u in
        Done (ret, CTAPHID_BROADCAST_CID, newcid, h, u)
      else
        let! (ret, h, u) :=
          if cid_exists cid h then cid_refresh cid h u else add_cid cid h u in
        Done (ret, cid, cid, h, u) in
    if ret =? -1 then
      Done (mkBr HID_ERROR CTAP1_ERR_CHANNEL_BUSY cid 0, h, u)
    else
      let! ps := send_init_response oldcid newcid (init_payload pkt) in
      let h := usbhid_send ps h in
      let h := snd (cid_del newcid h) in
      Done (mkBr HID_IGNORE 0 cid 0, h, u).

(** The tail shared by the accepted packets: the reassembly status. *)
Definition buffered_reply (pkt : list Z) (h : hid) (u : U) : res (bufres * hid * U) :=
  let! (r, h) := buffer_packet pkt h in
  match r with
  | SEQUENCE_ERROR => Done (mkBr HID_ERROR CTAP1_ERR_INVALID_SEQ (pkt_cid pkt) 0, h, u)
  | SUCESS =>
      let! (ret, h, u) := cid_refresh (pkt_cid pkt) h u in
      if negb (ret =? 0) then Fault FExit
      else Done (mkBr (buffer_status h) (buffer_cmd h) (pkt_cid pkt) (buffer_len h), h, u)
  end.

Definition ctaphid_buffer_packet (pkt : list Z) (h : hid) (u : U) : res (bufres * hid * U) :=
  let cid := pkt_cid pkt in
  let err e := mkBr HID_ERROR e cid 0 in
  let ignore := mkBr HID_IGNORE 0 cid 0 in
  if is_init_pkt pkt then handle_init_pkt pkt h u
  else if cid =? CTAPHID_BROADCAST_CID then Done (err CTAP1_ERR_INVALID_CHANNEL, h, u)
  else
    let! (h, u) :=
      if negb (cid_exists cid h) && negb (is_cont_pkt pkt) then
        match buffer_status h with
        | EMPTY => let! (_, h, u) := add_cid cid h u in Done (h, u)
        | _ => Done (h, u)
        end
      else Done (h, u) in
    if cid_exists cid h then
      match buffer_status h with
      | BUFFERING =>
          if (cid =? buffer_cid h) && negb (is_cont_pkt pkt)
          then Done (err CTAP1_ERR_INVALID_SEQ, h, u)
          else if negb (cid =? buffer_cid h) then
            if negb (is_cont_pkt pkt) then Done (err CTAP1_ERR_CHANNEL_BUSY, h, u)
            else Done (ignore, h, u)
          else buffered_reply pkt h u
      | bs =>
          if negb (is_cont_pkt pkt) then
            if ctaphid_packet_len pkt >? CTAPHID_BUFFER_SIZE
            then Done (err CTAP1_ERR_INVALID_LENGTH, h, u)
            else buffered_reply pkt h u
          else if match bs with EMPTY => true | _ => negb (cid =? buffer_cid h) end
               then Done (ignore, h, u)
               else buffered_reply pkt h u
      end
    else if is_cont_pkt pkt then Done (ignore, h, u)
    else Done (err CTAP1_ERR_CHANNEL_BUSY, h, u).

(** ** Timeouts *)

(** The body of the loop of [ctaphid_check_timeouts], for slot [i]. *)
Definition check_timeout_slot (i : nat) (c : CID) (h : hid) (u : U) : res (hid * U) :=
  if negb (busy c =? 0) then
    let! (t, u) := cl_millis cl u in
    if u64 (t - last_used c) >=? 750 then
      let! ps := ctaphid_send_error (cid_id c) CTAP1_ERR_TIMEOUT in
      let h := usbhid_send ps h in
      let h := h <| CIDS := alter (fun c => c <| busy := 0 |>) i (CIDS h) |> in
      Done ((if cid_id c =? buffer_cid h then buffer_reset h else h), u)
    else Done (h, u)
  else Done (h, u).

Fixpoint check_timeouts_from (n i : nat) (h : hid) (u : U) : res (hid * U) :=
  match n with
  | O => Done (h, u)
  | S n =>
      match CIDS h !! i with
      | None => Fault FOutOfBounds
      | Some c =>
          let! (h, u) := check_timeout_slot i c h u in
          check_timeouts_from n (S i) h u
      end
  end.

Definition ctaphid_check_timeouts (h : hid) (u : U) : res (hid * U) :=
  check_timeouts_from CID_MAX 0 h u.

(** ** Dispatch *)

(** The keepalive reports a handler caused, in order. *)
Fixpoint send_updates (l : list Z) (h : hid) : res hid :=
  match l with
  | [] => Done h
  | s :: l =>
      let! ps := ctaphid_update_status (buffer_cid h) s in
      send_updates l (usbhid_send ps h)
  end.

(** [ctaphid_write(&wb, resp.data, resp.length)] reads that many bytes of
    the response buffer. *)
Definition resp_bytes (r : reply) : res (list Z) :=
  mem_read (rp_data r) 0 (Z.to_nat (rp_length r)).

Definition send_error_to (cid e : Z) (h : hid) : res hid :=
  let! ps := ctaphid_send_error cid e in Done (usbhid_send ps h).

(** [ctaphid_custom_command]: the returned flag and the new state. *)
Definition ctaphid_custom_command (cid cmd len : Z) (h : hid) (u : U)
    : res (Z * hid * U) :=
  let upload (f : list Z -> Z -> U -> res (Z * U)) :=
    if len =? 0 then
      let! h := send_error_to cid CTAP1_ERR_INVALID_LENGTH h in Done (0, h, u)
    else
      let! (ret, u) := f (ctap_buffer h) len u in
      let status := if ret <? 0 then CTAP1_ERR_OTHER else CTAP2_OK in
      let! ps := send_message cid cmd 1 [[status]] in
      Done (1, usbhid_send ps h, u) in
  if cmd =? CTAPHID_WRITE_KEY then upload (cl_write_key cl)
  else if cmd =? CTAPHID_WRITE_CERT then upload (cl_write_cert cl)
  else if cmd =? CTAPHID_REBOOT then Fault FAssert
  else if cmd =? CTAPHID_GETRNG then
    let b0 := nth 0 (ctap_buffer h) 0 in
    let bcnt := if b0 =? 0 then 57 else b0 in
    let! buf := mem_write (ctap_buffer h) 0 (zeros (Z.to_nat bcnt)) in
    let! (rnd, u) := cl_generate_rng cl bcnt u in
    let! buf := match rnd with
                | Some l => mem_write buf 0 l
                | None => Done buf
                end in
    let! data := mem_read buf 0 (Z.to_nat bcnt) in
    let! ps := send_message cid cmd bcnt [data] in
    Done (1, usbhid_send ps (h <| ctap_buffer := buf |>), u)
  else if cmd =? CTAPHID_GETVERSION then
    let! buf := mem_write (ctap_buffer h) 0
                  [APP_VERSION_MAJ; APP_VERSION_MIN; APP_VERSION_PATCH; 0] in
    let! data := mem_read buf 0 4 in
    let! ps := send_message cid cmd 4 [data] in
    Done (1, usbhid_send ps (h <| ctap_buffer := buf |>), u)
  else Done (0, h, u).

(** The end of [ctaphid_handle_packet] after the switch. *)
Definition finish_packet (cid cmd : Z) (h : hid) (u : U) : res (Z * hid * U) :=
  let h := buffer_reset (snd (cid_del cid h)) in
  Done ((if is_busy h =? 0 then cmd else 0), h, u).

(** The CBOR and MSG cases: length and busy checks, the request, the
    response with [prefix] in front of the response data. *)
Definition request_case (cid cmd len : Z) (prefix : reply -> list (list Z))
    (call : list Z -> U -> res (reply * U)) (h : hid) (u : U) : res (Z * hid * U) :=
  if len =? 0 then
    let! h := send_error_to cid CTAP1_ERR_INVALID_LENGTH h in Done (0, h, u)
  else if negb (is_busy h =? 0) then
    let! h := send_error_to cid CTAP1_ERR_CHANNEL_BUSY h in Done (0, h, u)
  else
    let h := h <| is_busy := 1 |> in
    let! (r, u) := call (ctap_buffer h) u in
    let! h := send_updates (rp_updates r) (h <| ctap_buffer := rp_buffer r |>) in
    let pre := prefix r in
    let total := rp_length r + Z.of_nat (length (concat pre)) in
    if total >? 0xffff then
      let! h := send_error_to cid CTAP1_ERR_INVALID_LENGTH h in Done (0, h, u)
    else
      let! data := resp_bytes r in
      let! ps := send_message cid cmd (u16 total) (pre ++ [data]) in
      finish_packet cid cmd (usbhid_send ps h <| is_busy := 0 |>) u.

(** The [switch (cmd)] of [ctaphid_handle_packet] and what follows it. *)
Definition dispatch_message (cid cmd len : Z) (h : hid) (u : U) : res (Z * hid * U) :=
  if cmd =? CTAPHID_INIT then Fault FExit
  else if cmd =? CTAPHID_PING then
    let! data := mem_read (ctap_buffer h) 0 (Z.to_nat len) in
    let! ps := send_message cid cmd len [data] in
    finish_packet cid cmd (usbhid_send ps h) u
  else if cmd =? CTAPHID_WINK then
    let! (_, u) := cl_wink cl u in
    let! ps := send_message cid cmd 0 [] in
    finish_packet cid cmd (usbhid_send ps h) u
  else if cmd =? CTAPHID_CBOR then
    request_case cid cmd len (fun r => [[u8 (rp_status r)]])
      (fun buf => cl_ctap_request cl buf len) h u
  else if cmd =? CTAPHID_MSG then
    request_case cid cmd len (fun _ => []) (cl_u2f_request cl) h u
  else if cmd =? CTAPHID_CANCEL then finish_packet cid cmd (h <| is_busy := 0 |>) u
  else
    let! (ret, h, u) := ctaphid_custom_command cid cmd len h u in
    let! h := if negb (ret =? 0) then Done (h <| is_busy := 0 |>)
              else send_error_to cid CTAP1_ERR_INVALID_COMMAND h in
    finish_packet cid cmd h u.

Definition ctaphid_handle_packet (pkt : list Z) (h : hid) (u : U) : res (Z * hid * U) :=
  let! (br, h, u) := ctaphid_buffer_packet pkt h u in
  let cid := br_cid br in
  let cmd := br_cmd br in
  match br_status br with
  | HID_IGNORE => Done (0, h, u)
  | HID_ERROR =>
      let h := snd (cid_del cid h) in
      let h := if cmd =? CTAP1_ERR_INVALID_SEQ then buffer_reset h else h in
      let! h := send_error_to cid cmd h in
      Done (0, h, u)
  | BUFFERING =>
      let! (t, u) := cl_millis cl u in
      Done (0, h <| active_cid_timestamp := t |>, u)
  | EMPTY | BUFFERED => dispatch_message cid cmd (br_len br) h u
  end.

End WithClient.

End CtapHid.
