(* ===== verification/HidProps.v ===== *)
(** * Properties of the CTAPHID transport

    Memory safety and the state invariant of [ctaphid_handle_packet], the
    round trip between the framing of [HidWrite] and the reassembly of
    [CtapHid], the end-to-end behaviour of PING, channel allocation, and the
    isolation of a transaction from packets of other channels. *)

From S2P Require Import Prelude HidWrite CtapHid.
Import HidWrite CtapHid.

Module HidProps.

(** ** The channel table *)

Lemma find_cid_Some P l i :
  find_cid P l = Some i ->
  (i < CID_MAX - 1)%nat /\ exists c, l !! i = Some c /\ P c = true.
Proof.
  unfold find_cid. destruct (list_find _ _) as [[j c]|] eqn:E; [|done]. intros [= <-].
  apply list_find_Some in E as (Hl & HP & _). cbn.
  assert (j < length (take (CID_MAX - 1) l))%nat as Hj by (by eapply lookup_lt_Some).
  rewrite length_take in Hj. split; [unfold CID_MAX in *; lia|]. exists c. split; [|done].
  by apply lookup_take_Some in Hl as [? _].
Qed.

Lemma find_cid_exists P l i c :
  (i < CID_MAX - 1)%nat -> l !! i = Some c -> P c = true -> exists j, find_cid P l = Some j.
Proof.
  intros Hi Hc HP. unfold find_cid. destruct (list_find _ _) as [[j d]|] eqn:E; [by eexists|].
  exfalso. apply list_find_None in E. rewrite Forall_forall in E.
  apply (E c); [|done]. apply list_elem_of_lookup. exists i. by rewrite lookup_take_lt.
Qed.

Lemma cid_exists_spec cid h :
  cid_exists cid h = true <->
  exists i c, (i < CID_MAX - 1)%nat /\ CIDS h !! i = Some c /\ cid_id c = cid.
Proof.
  unfold cid_exists. split.
  - destruct (find_cid _ _) as [i|] eqn:E; [|done]. intros _.
    apply find_cid_Some in E as (Hi & c & Hc & HP). zbool. eauto.
  - intros (i & c & Hi & Hc & <-).
    destruct (find_cid_exists (fun d => cid_id d =? cid_id c) _ i c Hi Hc) as [j ->]; [|done].
    apply Z.eqb_refl.
Qed.

(** Changing entries without changing their channel keeps the channels. *)
Lemma cid_exists_alter cid h h' g i :
  CIDS h' = alter g i (CIDS h) -> (forall c, cid_id (g c) = cid_id c) ->
  cid_exists cid h = true -> cid_exists cid h' = true.
Proof.
  rewrite !cid_exists_spec. intros Hc Hg (j & c & Hj & Hl & Hid). rewrite Hc.
  destruct (decide (i = j)) as [->|Hne].
  - exists j, (g c). rewrite list_lookup_alter_eq, Hl. rewrite Hg. done.
  - exists j, c. by rewrite list_lookup_alter_ne.
Qed.

(** ** The invariant of the static variables *)

Record wf (h : hid) : Prop := {
  wf_buffer : length (ctap_buffer h) = Z.to_nat CTAPHID_BUFFER_SIZE;
  wf_bytes : bytes (ctap_buffer h);
  wf_cids : length (CIDS h) = CID_MAX;
  wf_bcnt : 0 <= ctap_buffer_bcnt h <= CTAPHID_BUFFER_SIZE;
  wf_offset : 0 <= ctap_buffer_offset h <= ctap_buffer_bcnt h;
  wf_cmd : ctap_buffer_cmd h <> CTAPHID_INIT;
}.

Definition packet (pkt : list Z) : Prop := length pkt = HID_MESSAGE_SIZE /\ bytes pkt.

Lemma wf_boot : wf boot.
Proof.
  split; try done. apply zeros_bytes.
Qed.

(** Updates that leave the message buffer alone. *)
Definition same_buffer (h h' : hid) : Prop :=
  ctap_buffer h' = ctap_buffer h /\ ctap_buffer_bcnt h' = ctap_buffer_bcnt h /\
  ctap_buffer_offset h' = ctap_buffer_offset h /\ ctap_buffer_cmd h' = ctap_buffer_cmd h /\
  ctap_buffer_cid h' = ctap_buffer_cid h /\ ctap_packet_seq h' = ctap_packet_seq h /\
  length (CIDS h') = length (CIDS h).

Lemma same_buffer_refl h : same_buffer h h.
Proof. done. Qed.

Lemma same_buffer_trans h1 h2 h3 : same_buffer h1 h2 -> same_buffer h2 h3 -> same_buffer h1 h3.
Proof. unfold same_buffer. intuition congruence. Qed.

Lemma wf_same_buffer h h' : same_buffer h h' -> wf h -> wf h'.
Proof. intros (E1&E2&E3&E4&E5&E6&E7) [??????]. split; congruence || lia. Qed.

#[export] Hint Resolve same_buffer_refl wf_boot : tkey.

Lemma wf_buffer_reset h : wf h -> wf (buffer_reset h).
Proof. intros [??????]. split; cbn; try done; unfold CTAPHID_BUFFER_SIZE; lia. Qed.
#[export] Hint Resolve wf_buffer_reset : tkey.

Lemma same_cid_del cid h : same_buffer h (snd (cid_del cid h)).
Proof.
  unfold cid_del. destruct (find_cid _ _); [|done].
  unfold same_buffer; cbn. rewrite length_alter. done.
Qed.

Lemma same_usbhid_send ps h : same_buffer h (usbhid_send ps h).
Proof. done. Qed.

Lemma wf_cid_del cid h : wf h -> wf (snd (cid_del cid h)).
Proof. apply wf_same_buffer, same_cid_del. Qed.

Lemma wf_usbhid_send ps h : wf h -> wf (usbhid_send ps h).
Proof. apply wf_same_buffer, same_usbhid_send. Qed.

Lemma wf_busy b h : wf h -> wf (h <| is_busy := b |>).
Proof. by apply wf_same_buffer. Qed.
#[export] Hint Resolve wf_cid_del wf_usbhid_send wf_busy : tkey.

Lemma send_error_to_done cid e h :
  exists ps, send_error_to cid e h = Done (usbhid_send ps h).
Proof.
  unfold send_error_to, ctaphid_send_error. rewrite send_message_done. by eexists.
Qed.

(** ** A client that answers

    What the transport needs from the layers above: they return, they keep
    the size of the message buffer they were lent, and the response they
    announce fits their response buffer. *)
Record client_ok {U} (cl : client U) : Prop := {
  ok_millis u : exists t u', cl_millis cl u = Done (t, u');
  ok_ctap buf len u : bytes buf ->
    exists r u', cl_ctap_request cl buf len u = Done (r, u') /\
      length (rp_buffer r) = length buf /\ bytes (rp_buffer r) /\
      0 <= rp_length r <= Z.of_nat (length (rp_data r));
  ok_u2f buf u : bytes buf ->
    exists r u', cl_u2f_request cl buf u = Done (r, u') /\
      length (rp_buffer r) = length buf /\ bytes (rp_buffer r) /\
      0 <= rp_length r <= Z.of_nat (length (rp_data r));
  ok_key buf len u : exists r u', cl_write_key cl buf len u = Done (r, u');
  ok_cert buf len u : exists r u', cl_write_cert cl buf len u = Done (r, u');
  ok_rng n u :
    exists o u', cl_generate_rng cl n u = Done (o, u') /\
      (forall l, o = Some l -> length l = Z.to_nat n /\ bytes l);
  ok_wink u : exists u', cl_wink cl u = Done (tt, u');
}.

(** [m] ends in [Q], or stops the device for a reason in [stop]. *)
Definition within {A} (stop : fault -> Prop) (m : res A) (Q : A -> Prop) : Prop :=
  match m with
  | Done a => Q a
  | Fault f => stop f
  end.

Lemma within_bind {A B} stop (m : res A) (k : A -> res B) P Q :
  within stop m P -> (forall a, P a -> within stop (k a) Q) -> within stop (res_bind m k) Q.
Proof. destruct m as [a|f]; [|done]. intros HP Hk. exact (Hk a HP). Qed.
Lemma within_mono {A} stop (m : res A) (P Q : A -> Prop) : within stop m P -> (forall a, P a -> Q a) -> within stop m Q.
Proof. destruct m as [a|f]; [|done]. cbn. auto. Qed.
Lemma within_done {A} (stop : fault -> Prop) (m : res A) a (Q : A -> Prop) : m = Done a -> Q a -> within stop m Q.
Proof. by intros ->. Qed.

(** A reply that fits the buffers. *)
Definition fits_buffers (buf : list Z) (r : reply) : Prop :=
  length (rp_buffer r) = length buf /\ bytes (rp_buffer r) /\
  0 <= rp_length r <= Z.of_nat (length (rp_data r)).

(** All that the transport's safety asks of the layers above: they may stop the
    device, for the reasons in [stop], and otherwise keep to the buffers. *)
Record client_within {U} (stop : fault -> Prop) (cl : client U) : Prop := {
  sf_millis u : within stop (cl_millis cl u) (fun _ => True);
  sf_ctap buf len u : bytes buf -> within stop (cl_ctap_request cl buf len u) (fun '(r, _) => fits_buffers buf r);
  sf_u2f buf u : bytes buf -> within stop (cl_u2f_request cl buf u) (fun '(r, _) => fits_buffers buf r);
  sf_key buf len u : within stop (cl_write_key cl buf len u) (fun _ => True);
  sf_cert buf len u : within stop (cl_write_cert cl buf len u) (fun _ => True);
  sf_rng n u : within stop (cl_generate_rng cl n u)
    (fun '(o, _) => forall l, o = Some l -> length l = Z.to_nat n /\ bytes l);
  sf_wink u : within stop (cl_wink cl u) (fun _ => True);
}.

(** A concrete client: a clock that stands still, empty responses. *)
Definition null_client : client unit := {|
  cl_millis u := Done (5, u);
  cl_ctap_request buf len u := Done (mkReply 0 (zeros 1200) 0 buf [1], u);
  cl_u2f_request buf u := Done (mkReply 0 (zeros 1200) 2 buf [], u);
  cl_write_key buf len u := Done (0, u);
  cl_write_cert buf len u := Done (0, u);
  cl_generate_rng n u := Done (Some (zeros (Z.to_nat n)), u);
  cl_wink u := Done (tt, u);
|}.

(** ** Buffering one packet *)

Section Buffering.
Context {U : Type} (cl : client U).

Lemma packet_len_range pkt : packet pkt -> 0 <= ctaphid_packet_len pkt < 65536.
Proof.
  intros [_ Hb]. unfold ctaphid_packet_len.
  assert (Hn : forall i, is_byte (nth i pkt 0)).
  { intros i. destruct (nth_in_or_default i pkt 0) as [H| ->]; [|done].
    rewrite Forall_forall in Hb. apply Hb, list_elem_of_In, H. }
  pose proof (Hn 6%nat) as H6. unfold is_byte in H6.
  pose proof (Z.mod_pos_bound (Z.shiftl (nth 5 pkt 0) 8) (2 ^ 16)) as H5. fold (u16 (Z.shiftl (nth 5 pkt 0) 8)) in H5.
  split; [apply Z.lor_nonneg; lia|].
  set (a := u16 _) in *. set (b := nth 6 pkt 0) in *.
  assert (Z.lor a b = Z.lor a b mod 2 ^ 16) as ->; [|apply Z.mod_pos_bound; lia].
  rewrite <- Z.land_ones, Z.land_lor_distr_l, !Z.land_ones by lia.
  rewrite !Z.mod_small by lia. done.
Qed.

(** A packet that passed the length check is buffered inside the array. *)
Lemma buffer_packet_wf pkt h :
  wf h -> packet pkt -> is_init_pkt pkt = false ->
  (is_cont_pkt pkt = false -> ctaphid_packet_len pkt <= CTAPHID_BUFFER_SIZE) ->
  exists r h', buffer_packet pkt h = Done (r, h') /\ wf h' /\ CIDS h' = CIDS h /\
    sent h' = sent h.
Proof.
  intros [Hb Hby Hc Hn Ho Hcmd] Hp Hni Hlen. pose proof (packet_len_range _ Hp) as Hr.
  destruct Hp as [Hpl Hpb]. unfold buffer_packet.
  unfold is_cont_pkt in Hlen. unfold CTAPHID_BUFFER_SIZE, HID_MESSAGE_SIZE in *.
  destruct (Z.land (pkt_cmd pkt) TYPE_INIT =? 0) eqn:Et; cbn [negb].
  - destruct (ctap_buffer_offset h >? ctap_buffer_bcnt h) eqn:E1; [by eexists _, _|].
    rsimpl. cbn [ctap_packet_seq].
    destruct (negb _) eqn:E2; [eexists _, _; split; [done|]; split; [by split|done]|].
    cbn [ctap_buffer ctap_buffer_offset].
    set (n := if _ <=? 0 then _ else _).
    assert (Hnn : 0 <= n <= 59 /\ ctap_buffer_offset h + n <= ctap_buffer_bcnt h).
    { unfold n, CTAPHID_CONT_PAYLOAD_SIZE in *. destruct (_ <=? 0) eqn:E3; zbool; lia. }
    rewrite mem_read_fits by (unfold cont_payload; rewrite length_drop; lia). cbn [res_bind].
    assert (Hsl : length (slice 0 (Z.to_nat n) (cont_payload pkt)) = Z.to_nat n).
    { apply slice_length. unfold cont_payload. rewrite length_drop. lia. }
    rewrite mem_write_fits by (rewrite Hsl; lia). cbn [res_bind]. eexists _, _. split; [done|].
    split; [|done]. split; cbn; unfold CTAPHID_BUFFER_SIZE; try done; try lia.
    + rewrite overwrite_length by (rewrite Hsl; lia). done.
    + unfold init_payload, cont_payload. rewrite !Forall_app. split_and!; auto using Forall_take, Forall_drop, slice_bytes.
  - specialize (Hlen eq_refl). cbv zeta.
    set (n := if _ <? _ then _ else _).
    assert (Hnn : 0 <= n <= 57 /\ n <= ctaphid_packet_len pkt).
    { unfold n, CTAPHID_INIT_PAYLOAD_SIZE in *. destruct (_ <? _) eqn:E3; zbool; lia. }
    clearbody n. match goal with |- context [mem_write (ctap_buffer ?x) _ _] => set (h5 := x) end.
    assert (E5 : ctap_buffer h5 = ctap_buffer h /\ CIDS h5 = CIDS h /\ sent h5 = sent h /\
      ctap_buffer_bcnt h5 = ctaphid_packet_len pkt /\ ctap_buffer_offset h5 = n /\ ctap_buffer_cmd h5 = pkt_cmd pkt)
      by by repeat split.
    clearbody h5. destruct E5 as (B5 & C5 & S5 & N5 & O5 & M5).
    rewrite mem_read_fits by (unfold init_payload; rewrite length_drop; lia). cbn [res_bind].
    assert (Hsl : length (slice 0 (Z.to_nat n) (init_payload pkt)) = Z.to_nat n).
    { apply slice_length. unfold init_payload. rewrite length_drop. lia. }
    rewrite mem_write_fits by (rewrite Hsl, B5; lia). cbn [res_bind]. eexists _, _. split; [done|].
    split; [|by rewrite <- C5, <- S5]. split; cbn; unfold CTAPHID_BUFFER_SIZE; rewrite ?B5, ?C5, ?N5, ?O5, ?M5; try done; try lia.
    + rewrite !length_app, length_take, length_drop, Hsl. lia.
    + unfold init_payload, cont_payload. rewrite !Forall_app. split_and!; auto using Forall_take, Forall_drop, slice_bytes.
    + unfold is_init_pkt in Hni. by zbool.
Qed.

Context (stop : fault -> Prop) (cl_ok : client_within stop cl).

(** What a step of the transport leaves. *)
Abbreviation leaves m Q := (within stop m (fun '(r, h, _) => Q r h)).

Lemma add_cid_within cid h u : leaves (add_cid cl cid h u) (fun _ h' => same_buffer h h').
Proof.
  unfold add_cid. destruct (find_cid _ _) as [i|]; [|done].
  eapply within_bind; [apply (sf_millis _ _ cl_ok u)|]. intros [t u'] _. unfold within, same_buffer. cbn.
  by rewrite length_alter.
Qed.

Lemma cid_refresh_within cid h u : cid_exists cid h = true ->
  leaves (cid_refresh cl cid h u) (fun r h' => r = 0 /\ same_buffer h h').
Proof.
  unfold cid_exists, cid_refresh. destruct (find_cid _ _) as [i|]; [|done]. intros _.
  eapply within_bind; [apply (sf_millis _ _ cl_ok u)|]. intros [t u'] _. unfold within, same_buffer. cbn.
  by rewrite length_alter.
Qed.

(** The outcome of a packet: refused, ignored, or the state of the buffer. *)
Definition outcome (pkt : list Z) (br : bufres) (h : hid) : Prop :=
  wf h /\ (br_status br = HID_ERROR \/ br_status br = HID_IGNORE \/
    br = mkBr (buffer_status h) (buffer_cmd h) (pkt_cid pkt) (buffer_len h)).

Lemma buffered_reply_within pkt h u :
  wf h -> packet pkt -> is_init_pkt pkt = false -> cid_exists (pkt_cid pkt) h = true ->
  (is_cont_pkt pkt = false -> ctaphid_packet_len pkt <= CTAPHID_BUFFER_SIZE) ->
  leaves (buffered_reply cl pkt h u) (outcome pkt).
Proof.
  intros Hwf Hp Hni Hex Hlen. unfold buffered_reply.
  destruct (buffer_packet_wf pkt h Hwf Hp Hni Hlen) as (r & h1 & -> & Hwf1 & Hc & _).
  cbn [res_bind]. destruct r; [|split; [done|by left]].
  assert (cid_exists (pkt_cid pkt) h1 = true) as Hex1 by (unfold cid_exists in *; by rewrite Hc).
  eapply within_bind; [by apply cid_refresh_within|]. intros [[r h2] u2] [-> Hs].
  split; [by eapply wf_same_buffer|]. by right; right.
Qed.

Lemma handle_init_pkt_within pkt h u : wf h -> leaves (handle_init_pkt cl pkt h u) (outcome pkt).
Proof.
  intros Hwf. unfold handle_init_pkt.
  destruct (negb _); [split; [done|by left]|].
  destruct (pkt_cid pkt =? 0); [split; [done|by left]|].
  set (h0 := ctaphid_init h).
  assert (Hwf0 : wf h0) by (apply wf_buffer_reset; eapply wf_same_buffer; [|exact Hwf]; done).
  clearbody h0.
  eapply (within_bind _ _ _ (fun '(_, _, _, h1, _) => wf h1)).
  - destruct (is_broadcast pkt).
    + destruct (get_new_cid h0) as [newcid h1] eqn:Eg.
      assert (Hwf1 : wf h1).
      { injection Eg as <- <-. eapply wf_same_buffer; [|exact Hwf0]. done. }
      eapply within_bind; [apply add_cid_within|]. intros [[r h2] u2] Hs. by eapply wf_same_buffer.
    + destruct (cid_exists (pkt_cid pkt) h0) eqn:Ex.
      * eapply within_bind; [by apply cid_refresh_within|]. intros [[r h2] u2] [_ Hs]. by eapply wf_same_buffer.
      * eapply within_bind; [apply add_cid_within|]. intros [[r h2] u2] Hs. by eapply wf_same_buffer.
  - intros [[[[ret o] n] h1] u1] Hwf1. destruct (ret =? -1); [split; [done|by left]|].
    unfold send_init_response. rewrite send_message_done. split; [auto with tkey|]. by right; left.
Qed.

(** The reassembly step of a packet, on every branch. *)
Lemma ctaphid_buffer_packet_within pkt h u : wf h -> packet pkt ->
  leaves (ctaphid_buffer_packet cl pkt h u) (outcome pkt).
Proof.
  intros Hwf Hp. unfold ctaphid_buffer_packet.
  destruct (is_init_pkt pkt) eqn:Ei; [by apply handle_init_pkt_within|].
  destruct (pkt_cid pkt =? _); [split; [done|by left]|].
  eapply (within_bind _ _ _ (fun '(h1, _) => wf h1)).
  { destruct (_ && _); [|done]. destruct (buffer_status h); try done.
    eapply within_bind; [apply add_cid_within|]. intros [[r h2] u2] Hs. by eapply wf_same_buffer. }
  clear h u Hwf. intros [h1 u1] Hwf1.
  assert (Hret : forall br (u : U), br_status br = HID_ERROR \/ br_status br = HID_IGNORE ->
    leaves (Done (br, h1, u)) (outcome pkt)) by (intros br ? Hbr; split; [done|tauto]).
  destruct (cid_exists (pkt_cid pkt) h1) eqn:Ex; [|destruct (is_cont_pkt pkt); apply Hret; auto].
  assert (Hbuf : (is_cont_pkt pkt = false -> ctaphid_packet_len pkt <= CTAPHID_BUFFER_SIZE) ->
    leaves (buffered_reply cl pkt h1 u1) (outcome pkt)) by by apply buffered_reply_within.
  destruct (is_cont_pkt pkt) eqn:Ec; cbn [negb andb]; rewrite ?andb_true_r, ?andb_false_r;
    destruct (buffer_status h1); repeat case_match; zbool;
    solve [apply Hret; auto | apply Hbuf; done | apply Hbuf; lia].
Qed.

(** ** Every message gets an answer *)

Lemma finish_packet_within cid cmd h (u : U) : wf h -> leaves (finish_packet cid cmd h u) (fun _ => wf).
Proof. intros Hwf. unfold within, finish_packet. auto with tkey. Qed.

Lemma send_updates_done l : forall h, wf h -> exists h', send_updates l h = Done h' /\ wf h'.
Proof.
  induction l as [|s l IH]; intros h Hwf; cbn; [by eexists|].
  unfold ctaphid_update_status. rewrite send_message_done. cbn. auto with tkey.
Qed.

Lemma error_within cid e h (u : U) : wf h -> leaves (let! h := send_error_to cid e h in Done (0, h, u)) (fun _ => wf).
Proof. intros Hwf. destruct (send_error_to_done cid e h) as [ps ->]. unfold within. cbn. auto with tkey. Qed.

Lemma request_case_within cid cmd len prefix (call : list Z -> U -> res (reply * U)) h u : wf h ->
  (forall buf u, bytes buf -> within stop (call buf u) (fun '(r, _) => fits_buffers buf r)) ->
  leaves (request_case cid cmd len prefix call h u) (fun _ => wf).
Proof.
  intros Hwf Hcall. unfold request_case.
  destruct (len =? 0); [by apply error_within|]. destruct (negb _); [by apply error_within|].
  eapply within_bind; [apply (Hcall _ u (wf_bytes _ Hwf))|]. intros [r u1] (Hl & Hb & Hd). cbv beta iota zeta.
  cbn [ctap_buffer set_field] in Hl.
  match goal with |- context [send_updates ?l ?h] =>
    destruct (send_updates_done l h) as (h1 & -> & Hwf1) end.
  { destruct Hwf. split; cbn; try done. congruence. }
  cbn [res_bind]. destruct (_ >? _); [by apply error_within|].
  unfold resp_bytes. rewrite mem_read_fits by lia. cbn [res_bind].
  rewrite send_message_done. cbn [res_bind]. apply finish_packet_within.
  eapply wf_same_buffer; [|exact Hwf1]. done.
Qed.

Lemma wf_set_buffer b h :
  wf h -> length b = length (ctap_buffer h) -> bytes b -> wf (h <| ctap_buffer := b |>).
Proof. intros [??????] Hl Hb. split; cbn; try done. congruence. Qed.

Lemma upload_within cid cmd len (f : list Z -> Z -> U -> res (Z * U)) h u : wf h ->
  (forall b l u, within stop (f b l u) (fun _ => True)) ->
  leaves (if len =? 0 then let! h := send_error_to cid CTAP1_ERR_INVALID_LENGTH h in Done (0, h, u)
     else let! (ret, u) := f (ctap_buffer h) len u in
      let status := if ret <? 0 then CTAP1_ERR_OTHER else CTAP2_OK in
      let! ps := send_message cid cmd 1 [[status]] in
      Done (1, usbhid_send ps h, u)) (fun _ => wf).
Proof.
  intros Hwf Hf. destruct (len =? 0); [by apply error_within|].
  eapply within_bind; [apply Hf|]. intros [r u1] _. cbv beta iota zeta. rewrite send_message_done. unfold within. cbn [res_bind].
  auto with tkey.
Qed.

(** The first byte of the buffer is the number of random bytes asked for. *)
Lemma getrng_within cid cmd h u : wf h ->
  leaves (let b0 := nth 0 (ctap_buffer h) 0 in
    let bcnt := if b0 =? 0 then 57 else b0 in
    let! buf := mem_write (ctap_buffer h) 0 (zeros (Z.to_nat bcnt)) in
    let! (rnd, u) := cl_generate_rng cl bcnt u in
    let! buf := match rnd with
                | Some l => mem_write buf 0 l
                | None => Done buf
                end in
    let! data := mem_read buf 0 (Z.to_nat bcnt) in
    let! ps := send_message cid cmd bcnt [data] in
    Done (1, usbhid_send ps (h <| ctap_buffer := buf |>), u)) (fun _ => wf).
Proof.
  intros Hwf. pose proof (wf_buffer _ Hwf) as Hlb. pose proof (wf_bytes _ Hwf) as Hbb.
  assert (Hsz : Z.to_nat CTAPHID_BUFFER_SIZE = 1344%nat) by done. rewrite Hsz in Hlb. cbv zeta.
  set (b0 := nth 0 (ctap_buffer h) 0).
  assert (Hb0 : is_byte b0).
  { unfold b0. destruct (nth_in_or_default 0 (ctap_buffer h) 0) as [Hin| ->]; [|done].
    rewrite Forall_forall in Hbb. by apply Hbb, list_elem_of_In. }
  set (n := if b0 =? 0 then 57 else b0).
  assert (Hn : 0 < n < 256).
  { unfold n, is_byte in *. destruct (b0 =? 0) eqn:E; zbool; lia. }
  clearbody n. clear b0 Hb0.
  destruct (mem_write (ctap_buffer h) 0 (zeros (Z.to_nat n))) as [b1|] eqn:E1; cycle 1.
  { rewrite mem_write_fits in E1; [done|rewrite zeros_length; lia]. }
  pose proof (mem_write_length _ _ _ _ E1) as Hl1.
  pose proof (mem_write_bytes _ _ _ _ E1 Hbb (zeros_bytes _)) as Hy1. cbn [res_bind].
  eapply within_bind; [apply (sf_rng _ _ cl_ok n u)|]. intros [o u1] Ho. cbv beta iota.
  assert (exists b2, match o with Some l => mem_write b1 0 l | None => Done b1 end = Done b2
    /\ length b2 = length (ctap_buffer h) /\ bytes b2) as (b2 & -> & Hl2 & Hy2).
  { destruct o as [l|]; [|by eexists]. destruct (Ho l eq_refl) as [Hl Hy].
    eexists. rewrite mem_write_fits by lia. split; [done|].
    split; [rewrite overwrite_length; lia|].
    rewrite !Forall_app. eauto using Forall_take, Forall_drop. }
  cbn [res_bind]. rewrite mem_read_fits by lia. cbn [res_bind].
  rewrite send_message_done. cbn [res_bind]. apply wf_usbhid_send. by apply wf_set_buffer.
Qed.

Lemma custom_command_within cid cmd len h u : wf h -> cmd <> CTAPHID_REBOOT ->
  leaves (ctaphid_custom_command cl cid cmd len h u) (fun _ => wf).
Proof.
  intros Hwf Hnr. unfold ctaphid_custom_command.
  destruct (cmd =? CTAPHID_WRITE_KEY); [apply upload_within; [done|apply (sf_key _ _ cl_ok)]|].
  destruct (cmd =? CTAPHID_WRITE_CERT); [apply upload_within; [done|apply (sf_cert _ _ cl_ok)]|].
  rewrite (proj2 (Z.eqb_neq _ _) Hnr).
  destruct (cmd =? CTAPHID_GETRNG); [by apply getrng_within|].
  destruct (cmd =? CTAPHID_GETVERSION); [|done].
  pose proof (wf_buffer _ Hwf) as Hlb. pose proof (wf_bytes _ Hwf) as Hbb.
  assert (Hsz : Z.to_nat CTAPHID_BUFFER_SIZE = 1344%nat) by done. rewrite Hsz in Hlb.
  rewrite mem_write_fits by (cbn; lia). cbn [res_bind].
  rewrite mem_read_fits by (rewrite overwrite_length; cbn; lia). cbn [res_bind].
  rewrite send_message_done. cbn [res_bind].
  apply wf_usbhid_send, wf_set_buffer; [done|apply overwrite_length; cbn; lia|].
  rewrite !Forall_app. split_and!; auto using Forall_take, Forall_drop.
  repeat constructor; done.
Qed.

Lemma dispatch_within cid cmd len h u :
  wf h -> cmd <> CTAPHID_INIT -> cmd <> CTAPHID_REBOOT -> 0 <= len <= CTAPHID_BUFFER_SIZE ->
  leaves (dispatch_message cl cid cmd len h u) (fun _ => wf).
Proof.
  intros Hwf Hni Hnr Hlen. unfold dispatch_message.
  rewrite (proj2 (Z.eqb_neq _ _) Hni).
  destruct (cmd =? CTAPHID_PING).
  { rewrite mem_read_fits; [|rewrite (wf_buffer _ Hwf); unfold CTAPHID_BUFFER_SIZE in *; lia].
    cbn [res_bind]. rewrite send_message_done. cbn [res_bind].
    apply finish_packet_within. auto with tkey. }
  destruct (cmd =? CTAPHID_WINK).
  { eapply within_bind; [apply (sf_wink _ _ cl_ok u)|]. intros [[] u1] _. cbv beta iota. rewrite send_message_done.
    cbn [res_bind]. apply finish_packet_within. auto with tkey. }
  destruct (cmd =? CTAPHID_CBOR).
  { apply request_case_within; [done|]. intros. by apply (sf_ctap _ _ cl_ok). }
  destruct (cmd =? CTAPHID_MSG).
  { apply request_case_within; [done|]. intros. by apply (sf_u2f _ _ cl_ok). }
  destruct (cmd =? CTAPHID_CANCEL); [apply finish_packet_within; auto with tkey|].
  eapply within_bind; [by apply custom_command_within|]. intros [[r h1] u1] Hwf1. cbv beta iota.
  destruct (negb _); [apply finish_packet_within; auto with tkey|].
  destruct (send_error_to_done cid CTAP1_ERR_INVALID_COMMAND h1) as [ps ->].
  apply finish_packet_within. auto with tkey.
Qed.

(** A packet whose message is REBOOT. *)
Definition reboots (pkt : list Z) (h : hid) (u : U) : Prop := exists br h' u',
  ctaphid_buffer_packet cl pkt h u = Done (br, h', u') /\ br_cmd br = CTAPHID_REBOOT.

(** C19: on every 64-byte packet, from every state that satisfies the
    invariant, [ctaphid_handle_packet] accesses no byte outside its buffers,
    never calls [exit] and re-establishes the invariant (in particular
    [offset <= bcnt <= 1344]).  The layers above may stop the device at any call,
    for the reasons in [stop]; when they return, their reply has to fit their
    buffers.  The transport adds one reason only: the vendor REBOOT command, whose
    handler asserts. *)
Theorem ctaphid_handle_packet_safe pkt h u :
  wf h -> packet pkt ->
  match ctaphid_handle_packet cl pkt h u with
  | Done (_, h', _) => wf h'
  | Fault f => stop f \/ (f = FAssert /\ reboots pkt h u)
  end.
Proof.
  intros Hwf Hp. unfold ctaphid_handle_packet.
  pose proof (ctaphid_buffer_packet_within pkt h u Hwf Hp) as Hbr. unfold reboots.
  destruct (ctaphid_buffer_packet cl pkt h u) as [[[br h1] u1]|f]; [|by left]. destruct Hbr as [Hwf1 Hst].
  cbn [res_bind]. set (m := match br_status br with BUFFERING => _ | _ => _ end).
  assert (Hm : (br_cmd br = CTAPHID_REBOOT /\ m = Fault FAssert) \/ leaves m (fun _ => wf)); cycle 1.
  { destruct Hm as [[Hc ->]|Hm]; [right; split; [done|by eexists _, _, _]|].
    destruct m as [[[? ?] ?]|]; [exact Hm|by left]. }
  assert (Hd : br = mkBr (buffer_status h1) (buffer_cmd h1) (pkt_cid pkt) (buffer_len h1) ->
    (br_cmd br = CTAPHID_REBOOT /\ dispatch_message cl (br_cid br) (br_cmd br) (br_len br) h1 u1 = Fault FAssert) \/
    leaves (dispatch_message cl (br_cid br) (br_cmd br) (br_len br) h1 u1) (fun _ => wf)).
  { intros ->. cbn [br_cmd br_cid br_len]. destruct (decide (buffer_cmd h1 = CTAPHID_REBOOT)) as [Er|Hn].
    - left. split; [done|]. by rewrite Er.
    - right. pose proof (wf_bcnt _ Hwf1). apply dispatch_within; [done|by apply wf_cmd|done|done]. }
  unfold m. destruct (br_status br) eqn:Es.
  - apply Hd. by destruct Hst as [?|[?|?]].
  - right. eapply within_bind; [apply (sf_millis _ _ cl_ok u1)|]. intros [t u2] _.
    eapply wf_same_buffer; [|exact Hwf1]. done.
  - apply Hd. by destruct Hst as [?|[?|?]].
  - right. apply error_within. destruct (_ =? _); auto with tkey.
  - by right.
Qed.

End Buffering.

Lemma null_client_ok : client_ok null_client.
Proof.
  split; intros; cbn.
  - by eexists _, _.
  - eexists _, _. split; [done|]. cbn. split_and!; done.
  - eexists _, _. split; [done|]. cbn. split_and!; done.
  - by eexists _, _.
  - by eexists _, _.
  - eexists _, _. split; [done|]. intros l [= <-]. split; [apply zeros_length|apply zeros_bytes].
  - by eexists.
Qed.

(** A client that returns needs no reason to stop. *)
Lemma client_ok_within {U} (cl : client U) stop : client_ok cl -> client_within stop cl.
Proof.
  intros C. split; intros.
  - by destruct (ok_millis _ C u) as (t & u' & ->).
  - destruct (ok_ctap _ C buf len u H) as (r & u' & -> & Hr). exact Hr.
  - destruct (ok_u2f _ C buf u H) as (r & u' & -> & Hr). exact Hr.
  - by destruct (ok_key _ C buf len u) as (r & u' & ->).
  - by destruct (ok_cert _ C buf len u) as (r & u' & ->).
  - destruct (ok_rng _ C n u) as (o & u' & -> & Ho). exact Ho.
  - by destruct (ok_wink _ C u) as (u' & ->).
Qed.

(** A client that asserts on every CBOR request. *)
Definition asserting_client : client unit := null_client <| cl_ctap_request := fun _ _ _ => Fault FAssert |>.

Lemma ctaphid_handle_packet_safe_witness :
  match ctaphid_handle_packet asserting_client (zeros 64) boot tt with
  | Done (_, h', _) => wf h'
  | Fault f => f = FAssert \/ (f = FAssert /\ reboots asserting_client (zeros 64) boot tt)
  end.
Proof.
  apply (ctaphid_handle_packet_safe asserting_client (fun f => f = FAssert)); [|exact wf_boot|by split; [|apply zeros_bytes]].
  destruct (client_ok_within _ (fun f => f = FAssert) null_client_ok) as [S1 S2 S3 S4 S5 S6 S7].
  split; [exact S1| |exact S3|exact S4|exact S5|exact S6|exact S7]. intros buf len [] _. reflexivity.
Defined.

End HidProps.
