(* ===== verification/HidRoundTrip.v ===== *)
(** * Framing and reassembly are inverse, and PING echoes

    [frames] (what the device sends, and what a host must send) is fed packet
    by packet to [ctaphid_handle_packet]; the message that comes out of the
    reassembly buffer is the one that was framed. *)

From S2P Require Import Prelude HidWrite CtapHid HidProps.
Import HidWrite CtapHid HidProps.

Module HidRoundTrip.

(** ** Reading the fields of a framed packet back *)

Lemma take_length_take (l : list Z) n : take (length (take n l)) l = take n l.
Proof.
  rewrite length_take. destruct (decide (n <= length l)%nat).
  - f_equal. lia.
  - rewrite !take_ge by lia. done.
Qed.

Lemma init_frame_fields cid cmd bcnt p pkt :
  is_u32 cid -> is_byte cmd -> 0 <= bcnt < 65536 ->
  (length p <= CTAPHID_INIT_PAYLOAD_SIZE)%nat ->
  pkt = pad64 (init_hdr cid cmd bcnt ++ p) ->
  pkt_cid pkt = cid /\ pkt_cmd pkt = cmd /\ ctaphid_packet_len pkt = bcnt /\
  slice 0 (length p) (init_payload pkt) = p /\ length pkt = HID_MESSAGE_SIZE.
Proof.
  intros Hcid Hcmd Hb Hp ->. split_and!.
  - unfold pkt_cid, pad64, init_hdr. rewrite <- !app_assoc. by apply le32_dec_le32.
  - done.
  - unfold ctaphid_packet_len; cbn. by apply u16_split_join.
  - unfold slice, init_payload, pad64. set (z := zeros _).
    change (drop 7 ((init_hdr cid cmd bcnt ++ p) ++ z)) with (p ++ z).
    rewrite drop_0. by rewrite take_app_length.
  - unfold pad64. rewrite length_app, zeros_length, length_app.
    unfold CTAPHID_INIT_PAYLOAD_SIZE, HID_MESSAGE_SIZE in *. cbn [init_hdr le32 app length]. lia.
Qed.

Lemma cont_frame_fields cid seq p pkt :
  is_u32 cid -> (length p <= CTAPHID_CONT_PAYLOAD_SIZE)%nat ->
  pkt = pad64 (cont_hdr cid seq ++ p) ->
  pkt_cid pkt = cid /\ pkt_cmd pkt = seq /\
  slice 0 (length p) (cont_payload pkt) = p /\ length pkt = HID_MESSAGE_SIZE.
Proof.
  intros Hcid Hp ->. split_and!.
  - unfold pkt_cid, pad64, cont_hdr. rewrite <- !app_assoc. by apply le32_dec_le32.
  - done.
  - unfold slice, cont_payload, pad64. set (z := zeros _).
    change (drop 5 ((cont_hdr cid seq ++ p) ++ z)) with (p ++ z).
    rewrite drop_0. by rewrite take_app_length.
  - unfold pad64. rewrite length_app, zeros_length, length_app.
    unfold CTAPHID_CONT_PAYLOAD_SIZE, HID_MESSAGE_SIZE in *. cbn [cont_hdr le32 app length]. lia.
Qed.

(** A byte below 128 has the continuation type. *)
Lemma seq_is_cont s : 0 <= s < 128 -> Z.land s TYPE_INIT = 0.
Proof.
  intros Hs. unfold TYPE_INIT. apply Z.bits_inj'. intros n Hn.
  rewrite Z.land_spec, Z.bits_0. change 0x80 with (2 ^ 7).
  rewrite Z.pow2_bits_eqb by lia. destruct (7 =? n) eqn:E; zbool; [|apply andb_false_r].
  rewrite andb_true_r. subst n. rewrite <- (Z.mod_small s (2 ^ 7)) by lia.
  apply Z.mod_pow2_bits_high. lia.
Qed.

Section RoundTrip.
Context {U : Type} (cl : client U) (cl_ok : client_ok cl).
Context (cid cmd : Z) (data : list Z).
Hypothesis cid_u32 : is_u32 cid.
Hypothesis cid_not_broadcast : cid <> CTAPHID_BROADCAST_CID.
Hypothesis cmd_byte : is_byte cmd.
Hypothesis cmd_type_init : Z.land cmd TYPE_INIT <> 0.
Hypothesis cmd_not_init : cmd <> CTAPHID_INIT.
Hypothesis data_fits : Z.of_nat (length data) <= CTAPHID_BUFFER_SIZE.

Abbreviation L := (Z.of_nat (length data)).

(** The buffer holds the first [off] bytes of the message and waits for
    sequence number [s]. *)
Record receiving (off : nat) (s : Z) (h : hid) : Prop := {
  rc_len : length (ctap_buffer h) = Z.to_nat CTAPHID_BUFFER_SIZE;
  rc_bcnt : ctap_buffer_bcnt h = L;
  rc_off : ctap_buffer_offset h = Z.of_nat off;
  rc_cmd : ctap_buffer_cmd h = cmd;
  rc_cid : ctap_buffer_cid h = cid;
  rc_seq : ctap_packet_seq h = s - 1;
  rc_known : cid_exists cid h = true;
  rc_data : take off (ctap_buffer h) = take off data;
}.

Lemma receiving_same off s h h' :
  same_buffer h h' -> cid_exists cid h' = true -> receiving off s h -> receiving off s h'.
Proof. intros (E1&E2&E3&E4&E5&E6&E7) ? [????????]. split; congruence. Qed.

Lemma receiving_status off s h :
  receiving off s h -> (off <= length data)%nat -> data <> [] ->
  buffer_status h = if decide (off = length data) then BUFFERED else BUFFERING.
Proof.
  intros [????????] Hle Hne. unfold buffer_status. rewrite rc_bcnt0, rc_off0.
  destruct data as [|d l]; [done|]. cbn [length] in *.
  rewrite (proj2 (Z.eqb_neq (Z.of_nat (S (length l))) 0)) by lia.
  case_decide; [subst; by rewrite Z.eqb_refl|].
  by rewrite (proj2 (Z.eqb_neq (Z.of_nat off) _)) by lia.
Qed.

(** The first packet of a message puts the buffer in the receiving state. *)
Lemma buffer_init_frame h :
  wf h -> cid_exists cid h = true ->
  let pkt := pad64 (init_hdr cid cmd L ++ take CTAPHID_INIT_PAYLOAD_SIZE data) in
  exists h', buffer_packet pkt h = Done (SUCESS, h') /\ CIDS h' = CIDS h /\ sent h' = sent h /\
    is_busy h' = is_busy h /\
    receiving (Nat.min CTAPHID_INIT_PAYLOAD_SIZE (length data)) 0 h'.
Proof.
  intros Hwf Hex pkt. set (p := take CTAPHID_INIT_PAYLOAD_SIZE data).
  assert (Hpl : length p = Nat.min CTAPHID_INIT_PAYLOAD_SIZE (length data)) by apply length_take.
  unfold CTAPHID_BUFFER_SIZE in *.
  destruct (init_frame_fields cid cmd L p pkt) as (Hc & Hm & Hl & Hs & Hlen);
    [done|done|lia|lia|done|].
  pose proof (wf_buffer _ Hwf) as Hb. unfold CTAPHID_BUFFER_SIZE in *.
  unfold buffer_packet. rewrite Hm, (proj2 (Z.eqb_neq _ _) cmd_type_init). cbn [negb].
  rewrite Hl, Hc. cbv zeta.
  set (n := if L <? _ then _ else _).
  assert (Hn : n = Z.of_nat (length p)).
  { unfold n. rewrite Hpl. unfold CTAPHID_INIT_PAYLOAD_SIZE in *. destruct (_ <? _) eqn:E; zbool; lia. }
  clearbody n. match goal with |- context [mem_write (ctap_buffer ?x) _ _] => set (h5 := x) end.
  assert (E5 : ctap_buffer h5 = ctap_buffer h /\ CIDS h5 = CIDS h /\ sent h5 = sent h /\ is_busy h5 = is_busy h /\
    ctap_buffer_bcnt h5 = L /\ ctap_buffer_offset h5 = n /\ ctap_buffer_cmd h5 = cmd /\ ctap_buffer_cid h5 = cid /\
    ctap_packet_seq h5 = -1) by by repeat split.
  clearbody h5. destruct E5 as (B5 & C5 & S5 & I5 & N5 & O5 & M5 & K5 & Q5). subst n. rewrite Nat2Z.id.
  rewrite mem_read_fits; cycle 1.
  { unfold init_payload. rewrite length_drop, Hlen, Hpl. unfold CTAPHID_INIT_PAYLOAD_SIZE, HID_MESSAGE_SIZE. lia. }
  cbn [res_bind]. rewrite Hs.
  rewrite mem_write_fits by (rewrite B5, Hb, Hpl; unfold CTAPHID_INIT_PAYLOAD_SIZE; lia).
  cbn [res_bind]. eexists. split; [done|]. split; [done|]. split; [done|]. split; [done|].
  split; cbn [set_field ctap_buffer ctap_buffer_bcnt ctap_buffer_offset ctap_buffer_cmd ctap_buffer_cid ctap_packet_seq];
    rewrite ?B5, ?N5, ?O5, ?M5, ?K5, ?Q5; try done.
  - rewrite overwrite_length; [done|]. rewrite Hb, Hpl. unfold CTAPHID_INIT_PAYLOAD_SIZE; lia.
  - by rewrite Hpl.
  - revert Hex. unfold cid_exists. by rewrite <- C5.
  - rewrite take_0, app_nil_l, <- Hpl, take_app_length. unfold p.
    symmetry. apply take_length_take.
Qed.

(** A continuation packet with the expected number appends its payload. *)
Lemma buffer_cont_frame off s h :
  receiving off s h -> 0 <= s < 128 -> (off < length data)%nat ->
  let p := take CTAPHID_CONT_PAYLOAD_SIZE (drop off data) in
  let pkt := pad64 (cont_hdr cid s ++ p) in
  exists h', buffer_packet pkt h = Done (SUCESS, h') /\ CIDS h' = CIDS h /\ sent h' = sent h /\
    is_busy h' = is_busy h /\ receiving (off + length p) (s + 1) h'.
Proof.
  intros [Hb Hbc Ho Hcm Hci Hsq Hk Hd] Hs Hoff p pkt.
  assert (Hpl : length p = Nat.min CTAPHID_CONT_PAYLOAD_SIZE (length data - off)).
  { unfold p. rewrite length_take, length_drop. done. }
  destruct (cont_frame_fields cid s p pkt) as (Hc & Hm & Hsl & Hlen);
    [done|rewrite Hpl; lia|done|].
  unfold buffer_packet. rewrite Hm, seq_is_cont by done. cbn [Z.eqb negb].
  rewrite Hbc, Ho. destruct (_ >? _) eqn:E1; zbool; [lia|]. rsimpl. cbn [ctap_packet_seq].
  unfold pkt_seq. fold (pkt_cmd pkt). rewrite Hm, Hsq.
  replace (s - 1 + 1) with s by lia. rewrite Z.eqb_refl. cbn [negb ctap_buffer ctap_buffer_offset].
  set (n := if _ <=? 0 then _ else _).
  assert (Hn : n = Z.of_nat (length p)).
  { unfold n. rewrite Hpl. unfold CTAPHID_CONT_PAYLOAD_SIZE in *. destruct (_ <=? 0) eqn:E; zbool; lia. }
  clearbody n. subst n. rewrite !Nat2Z.id.
  rewrite mem_read_fits; cycle 1.
  { unfold cont_payload. rewrite length_drop, Hlen, Hpl.
    unfold CTAPHID_CONT_PAYLOAD_SIZE, HID_MESSAGE_SIZE. lia. }
  cbn [res_bind]. rewrite Hsl, Ho, Nat2Z.id. unfold CTAPHID_BUFFER_SIZE in *.
  rewrite mem_write_fits by (rewrite Hb, Hpl; lia).
  cbn [res_bind]. eexists. split; [done|]. cbn [CIDS sent is_busy].
  split; [done|]. split; [done|]. split; [done|]. split; cbn [ctap_buffer ctap_buffer_bcnt
    ctap_buffer_offset ctap_buffer_cmd ctap_buffer_cid ctap_packet_seq]; try done; try lia.
  - rewrite overwrite_length; [done|]. rewrite Hb, Hpl. lia.
  - rewrite app_assoc, take_app_length'; [|rewrite length_app, length_take; lia].
    rewrite Hd. unfold p. rewrite <- take_take_drop. by rewrite take_length_take.
Qed.

(** The refresh of the channel after a packet was buffered. *)
Lemma buffered_reply_receiving pkt h h1 u off s :
  pkt_cid pkt = cid -> buffer_packet pkt h = Done (SUCESS, h1) -> receiving off s h1 ->
  exists h' u', buffered_reply cl pkt h u = Done (mkBr (buffer_status h') cmd cid L, h', u') /\
    receiving off s h' /\ sent h' = sent h1 /\ is_busy h' = is_busy h1.
Proof.
  intros Hc Hb Hr. unfold buffered_reply. rewrite Hb, Hc. cbn [res_bind].
  pose proof (rc_known _ _ _ Hr) as Hk. unfold cid_refresh. unfold cid_exists in Hk.
  destruct (find_cid _ _) as [i|] eqn:Ef; [|done].
  destruct (ok_millis _ cl_ok u) as (t & u1 & ->). cbn [res_bind Z.eqb negb].
  set (h2 := h1 <| CIDS := _ |>).
  assert (Hr2 : receiving off s h2).
  { eapply receiving_same; [|eapply (cid_exists_alter cid h1); [done|done|apply Hr]|exact Hr].
    unfold same_buffer, h2; cbn. by rewrite length_alter. }
  exists h2, u1. split; [|done]. destruct Hr2.
  unfold buffer_cmd, buffer_len. congruence.
Qed.

(** One continuation packet through [ctaphid_buffer_packet]. *)
Lemma receive_cont off s h u :
  receiving off s h -> 0 <= s < 128 -> (off < length data)%nat ->
  let p := take CTAPHID_CONT_PAYLOAD_SIZE (drop off data) in
  let pkt := pad64 (cont_hdr cid s ++ p) in
  exists h' u', ctaphid_buffer_packet cl pkt h u
      = Done (mkBr (buffer_status h') cmd cid L, h', u') /\
    receiving (off + length p) (s + 1) h' /\ sent h' = sent h /\ is_busy h' = is_busy h.
Proof.
  intros Hr Hs Hoff p pkt.
  destruct (buffer_cont_frame off s h Hr Hs Hoff) as (h1 & Hbp & Hcs & Hse & Hbu & Hr1).
  fold p in Hbp, Hr1. fold pkt in Hbp.
  destruct (cont_frame_fields cid s p pkt) as (Hc & Hm & _ & _);
    [done|unfold p; rewrite length_take; lia|done|].
  assert (Hbs : buffer_status h = BUFFERING).
  { assert (data <> []) by (intros E; rewrite E in Hoff; cbn in Hoff; lia).
    rewrite (receiving_status off s) by (done || lia). rewrite decide_False by lia. done. }
  unfold ctaphid_buffer_packet, is_init_pkt, is_cont_pkt. rewrite Hc, Hm.
  rewrite seq_is_cont by done. rewrite (rc_known _ _ _ Hr), Hbs.
  unfold CTAPHID_INIT. rewrite (proj2 (Z.eqb_neq s 0x86)) by lia.
  rewrite (proj2 (Z.eqb_neq _ _) cid_not_broadcast). cbn [Z.eqb negb andb res_bind].
  rewrite (rc_known _ _ _ Hr), Hbs. unfold buffer_cid. rewrite (rc_cid _ _ _ Hr), Z.eqb_refl.
  cbn [negb andb]. destruct (buffered_reply_receiving pkt h h1 u _ _ Hc Hbp Hr1)
    as (h2 & u2 & -> & Hr2 & E1 & E2).
  exists h2, u2. split; [done|]. split; [done|]. split; congruence.
Qed.

(** A channel that is known or can still be allocated. *)
Definition can_open (h : hid) : Prop :=
  cid_exists cid h = true \/ find_cid (fun c => busy c =? 0) (CIDS h) <> None.

Lemma receive_init h u :
  wf h -> buffer_status h = EMPTY -> can_open h ->
  let pkt := pad64 (init_hdr cid cmd L ++ take CTAPHID_INIT_PAYLOAD_SIZE data) in
  exists h' u', ctaphid_buffer_packet cl pkt h u
      = Done (mkBr (buffer_status h') cmd cid L, h', u') /\
    receiving (Nat.min CTAPHID_INIT_PAYLOAD_SIZE (length data)) 0 h' /\ sent h' = sent h /\
    is_busy h' = is_busy h.
Proof.
  intros Hwf Hbs Hopen pkt.
  destruct (init_frame_fields cid cmd L (take CTAPHID_INIT_PAYLOAD_SIZE data) pkt)
    as (Hc & Hm & Hl & _ & _);
    [done|done|unfold CTAPHID_BUFFER_SIZE in *; lia|rewrite length_take; lia|done|].
  unfold ctaphid_buffer_packet, is_init_pkt, is_cont_pkt. rewrite Hc, Hm, Hl.
  rewrite (proj2 (Z.eqb_neq _ _) cmd_not_init), (proj2 (Z.eqb_neq _ _) cid_not_broadcast).
  rewrite (proj2 (Z.eqb_neq _ _) cmd_type_init). cbn [negb]. rewrite andb_true_r, Hbs.
  assert (Hadd : exists h1 u1,
    (if negb (cid_exists cid h)
     then let! (_, h, u) := add_cid cl cid h u in Done (h, u) else Done (h, u))
    = Done (h1, u1) /\ same_buffer h h1 /\ sent h1 = sent h /\ is_busy h1 = is_busy h /\
      cid_exists cid h1 = true).
  { destruct (cid_exists cid h) eqn:Ex; cbn [negb]; [by eexists _, _|].
    destruct Hopen as [?|Hfree]; [congruence|]. unfold add_cid.
    destruct (find_cid _ _) as [i|] eqn:Ef; [|done].
    destruct (ok_millis _ cl_ok u) as (t & u1 & ->). cbn [res_bind].
    eexists _, _. split; [done|]. split; [|split; [done|split; [done|]]].
    - unfold same_buffer; cbn. by rewrite length_alter.
    - apply cid_exists_spec. apply find_cid_Some in Ef as (Hi & c & Hci & _).
      eexists i, _. split; [done|]. cbn. rewrite list_lookup_alter_eq, Hci. done. }
  destruct Hadd as (h1 & u1 & -> & Hsb & Hse & Hbu & Hex). cbn [res_bind]. rewrite Hex.
  assert (buffer_status h1 = EMPTY) as ->.
  { destruct Hsb as (_ & E2 & E3 & _). unfold buffer_status in *. by rewrite E2, E3. }
  cbn [negb]. destruct (_ >? _) eqn:E; zbool; [lia|].
  destruct (buffer_init_frame h1 (wf_same_buffer _ _ Hsb Hwf) Hex)
    as (h2 & Hbp & _ & Hs2 & Hb2 & Hr2).
  destruct (buffered_reply_receiving pkt h1 h2 u1 _ _ Hc Hbp Hr2)
    as (h3 & u3 & -> & Hr3 & E3 & E4).
  exists h3, u3. split; [done|]. split; [done|]. split; congruence.
Qed.

(** Packets handed to the transport one after the other. *)
Fixpoint feed (pkts : list (list Z)) (h : hid) (u : U) : res (hid * U) :=
  match pkts with
  | [] => Done (h, u)
  | pkt :: pkts =>
      let! (_, h, u) := ctaphid_handle_packet cl pkt h u in feed pkts h u
  end.

(** The whole message is in the buffer and nothing was sent meanwhile. *)
Definition delivered (h h' : hid) : Prop :=
  ctap_buffer_cmd h' = cmd /\ ctap_buffer_cid h' = cid /\ ctap_buffer_bcnt h' = L /\
  length (ctap_buffer h') = Z.to_nat CTAPHID_BUFFER_SIZE /\
  slice 0 (length data) (ctap_buffer h') = data /\ sent h' = sent h /\ is_busy h' = is_busy h.

Lemma receiving_delivered s h h' :
  receiving (length data) s h' -> sent h' = sent h -> is_busy h' = is_busy h -> delivered h h'.
Proof.
  intros [????????] ??. split_and!; try done. unfold slice. rewrite drop_0, rc_data0.
  by apply take_ge.
Qed.

(** Feeding the packets of a message ends in the dispatch of that message. *)
Definition dispatches (pkts : list (list Z)) (h : hid) (u : U) : Prop :=
  exists h' u', delivered h h' /\
    feed pkts h u = (let! (_, h, u) := dispatch_message cl cid cmd L h' u' in Done (h, u)).

Lemma feed_cont n : forall off s h u,
  receiving off s h -> 0 <= s -> Z.of_nat off = 57 + 59 * s -> (off < length data)%nat ->
  (length data - off <= n)%nat ->
  exists h' u', delivered h h' /\
    feed (cont_frames n cid s (drop off data)) h u
    = (let! (_, h, u) := dispatch_message cl cid cmd L h' u' in Done (h, u)).
Proof.
  induction n as [|n IH]; intros off s h u Hr Hs Hos Hoff Hn; [lia|].
  unfold CTAPHID_BUFFER_SIZE in data_fits.
  destruct (drop off data) as [|d0 l0] eqn:Ed.
  { apply (f_equal length) in Ed. rewrite length_drop in Ed. cbn in Ed. lia. }
  cbn [cont_frames]. rewrite <- Ed. clear d0 l0 Ed.
  destruct (receive_cont off s h u Hr ltac:(lia) Hoff) as (h1 & u1 & Hbp & Hr1 & E1 & E2).
  set (p := take CTAPHID_CONT_PAYLOAD_SIZE (drop off data)) in *.
  assert (Hpl : length p = Nat.min CTAPHID_CONT_PAYLOAD_SIZE (length data - off)).
  { unfold p. rewrite length_take, length_drop. done. }
  assert (Hne : data <> []) by (intros E; rewrite E in Hoff; cbn in Hoff; lia).
  cbn [feed]. unfold ctaphid_handle_packet. rewrite Hbp. cbn [res_bind br_cid br_cmd br_status br_len].
  rewrite (receiving_status _ _ _ Hr1) by (done || lia). rewrite drop_drop.
  unfold CTAPHID_CONT_PAYLOAD_SIZE in *.
  case_decide as Hfull.
  - rewrite drop_ge by lia. exists h1, u1. split.
    + rewrite Hfull in Hr1. by eapply receiving_delivered.
    + assert (cont_frames n cid (u8 (s + 1)) [] = []) as -> by (by destruct n).
      cbn [feed]. done.
  - destruct (ok_millis _ cl_ok u1) as (t & u2 & ->). cbn [res_bind].
    assert (off + length p = off + 59)%nat as Ep by lia. rewrite Ep in Hr1.
    assert (Hu8 : u8 (s + 1) = s + 1) by (apply u8_small; unfold is_byte; lia). rewrite Hu8.
    destruct (IH (off + 59)%nat (s + 1) (h1 <| active_cid_timestamp := t |>) u2)
      as (h3 & u3 & Hd & Hf); try lia.
    { by destruct Hr1; split. }
    exists h3, u3. split; [|exact Hf]. destruct Hd as (?&?&?&?&?&Hs3&Hb3).
    cbn in Hs3, Hb3. split_and!; congruence.
Qed.

Lemma feed_frames h u :
  wf h -> buffer_status h = EMPTY -> can_open h -> data <> [] ->
  dispatches (frames cid cmd L data) h u.
Proof.
  intros Hwf Hbs Hopen Hne. unfold dispatches, frames. cbn [feed].
  unfold ctaphid_handle_packet.
  destruct (receive_init h u Hwf Hbs Hopen) as (h1 & u1 & -> & Hr1 & E1 & E2).
  cbn [res_bind br_cid br_cmd br_status br_len].
  rewrite (receiving_status _ _ _ Hr1) by (done || lia).
  unfold CTAPHID_INIT_PAYLOAD_SIZE in *. case_decide as Hfull.
  - rewrite drop_ge by lia. exists h1, u1. split.
    + rewrite Hfull in Hr1. by eapply receiving_delivered.
    + assert (cont_frames (length data) cid 0 [] = []) as -> by (by destruct (length data)).
      done.
  - destruct (ok_millis _ cl_ok u1) as (t & u2 & ->). cbn [res_bind].
    rewrite Nat.min_l in Hr1 by lia.
    destruct (feed_cont (length data) 57 0 (h1 <| active_cid_timestamp := t |>) u2)
      as (h3 & u3 & Hd & Hf); try lia.
    { by destruct Hr1; split. }
    exists h3, u3. split; [|exact Hf]. destruct Hd as (?&?&?&?&?&Hs3&Hb3).
    cbn in Hs3, Hb3. split_and!; congruence.
Qed.

(** C18: whatever the device's own sender produces for a message of 1 to 1344
    bytes (however the data is cut into writes), feeding those packets to an
    idle device reassembles the same channel, command, length and bytes and
    dispatches exactly that message, having sent nothing before. *)
Theorem framing_roundtrip pieces pkts h u :
  concat pieces = data -> send_message cid cmd L pieces = Done pkts ->
  wf h -> buffer_status h = EMPTY -> can_open h -> data <> [] ->
  dispatches pkts h u.
Proof.
  intros Hc. rewrite send_message_done, Hc. intros [= <-]. apply feed_frames.
Qed.

End RoundTrip.

Lemma boot_can_open cid : can_open cid boot.
Proof. right. done. Qed.

Lemma framing_roundtrip_witness :
  dispatches null_client 5 CTAPHID_PING (replicate 100 7)
    (frames 5 CTAPHID_PING 100 (replicate 100 7)) boot tt.
Proof.
  apply (framing_roundtrip null_client null_client_ok 5 CTAPHID_PING (replicate 100 7))
    with (pieces := [replicate 60 7; replicate 40 7]); try done.
  - apply wf_boot.
  - apply boot_can_open.
Defined.

(** C21: a PING message of 1 to 1344 bytes sent to an idle device, on a
    channel that is open or can be opened, is echoed: the device's output
    grows by exactly the packets it received, and it is idle again. *)
Theorem ping_echo {U} (cl : client U) cid data h u :
  client_ok cl -> is_u32 cid -> cid <> CTAPHID_BROADCAST_CID ->
  0 < Z.of_nat (length data) <= CTAPHID_BUFFER_SIZE ->
  wf h -> buffer_status h = EMPTY -> can_open cid h ->
  let pkts := frames cid CTAPHID_PING (Z.of_nat (length data)) data in
  exists h' u', feed cl pkts h u = Done (h', u') /\
    sent h' = sent h ++ pkts /\ buffer_status h' = EMPTY.
Proof.
  intros Hok Hu Hb Hd Hwf Hbs Ho pkts.
  assert (Hne : data <> []) by (intros ->; cbn in Hd; lia).
  destruct (feed_frames cl Hok cid CTAPHID_PING data Hu Hb ltac:(done) ltac:(done)
    ltac:(done) (proj2 Hd) h u Hwf Hbs Ho Hne) as (h1 & u1 & Hdel & Hf).
  destruct Hdel as (Hc & Hi & Hn & Hl & Hs & Hse & Hbu).
  unfold pkts. rewrite Hf. unfold dispatch_message. cbn [CTAPHID_PING CTAPHID_INIT Z.eqb Pos.eqb].
  rewrite Nat2Z.id. rewrite mem_read_fits; [|unfold CTAPHID_BUFFER_SIZE in *; lia].
  cbn [res_bind]. rewrite Hs, send_message_done. cbn [res_bind concat app].
  rewrite app_nil_r. eexists _, _. split; [done|].
  split; [|done]. cbn. unfold cid_del. destruct (find_cid _ _); cbn; by rewrite Hse.
Qed.

Lemma ping_echo_witness :
  exists h' u', feed null_client (frames 9 CTAPHID_PING 3 [1; 2; 3]) boot tt = Done (h', u') /\
    sent h' = sent boot ++ frames 9 CTAPHID_PING 3 [1; 2; 3] /\ buffer_status h' = EMPTY.
Proof.
  apply (ping_echo null_client 9 [1; 2; 3] boot tt null_client_ok); try done.
  - apply wf_boot.
  - apply boot_can_open.
Defined.

End HidRoundTrip.
