(* ===== verification/HidChannels.v ===== *)
(** * Channels: allocation, isolation of a transaction, timeouts

    What one channel can do to another: packets of other channels while a
    message is being reassembled, channel allocation with INIT, and the
    expiry of channels. *)

From S2P Require Import Prelude HidWrite CtapHid HidProps HidRoundTrip.
Import HidWrite CtapHid HidProps HidRoundTrip.

Module HidChannels.

(** The message buffer, without the channel table. *)
Definition same_message (h h' : hid) : Prop :=
  ctap_buffer h' = ctap_buffer h /\ ctap_buffer_bcnt h' = ctap_buffer_bcnt h /\
  ctap_buffer_offset h' = ctap_buffer_offset h /\ ctap_buffer_cmd h' = ctap_buffer_cmd h /\
  ctap_buffer_cid h' = ctap_buffer_cid h /\ ctap_packet_seq h' = ctap_packet_seq h /\
  is_busy h' = is_busy h.

Lemma same_message_cid_del cid h : same_message h (snd (cid_del cid h)).
Proof. unfold cid_del. by destruct (find_cid _ _). Qed.

Lemma cid_del_sent cid h : sent (snd (cid_del cid h)) = sent h.
Proof. unfold cid_del. by destruct (find_cid _ _). Qed.

(** What a packet of another channel is answered with during a transaction. *)
Definition foreign_answer (pkt : list Z) : list (list Z) :=
  if pkt_cid pkt =? CTAPHID_BROADCAST_CID
  then frames (pkt_cid pkt) CTAPHID_ERROR 1 [CTAP1_ERR_INVALID_CHANNEL]
  else if is_cont_pkt pkt then []
  else frames (pkt_cid pkt) CTAPHID_ERROR 1 [CTAP1_ERR_CHANNEL_BUSY].

Lemma send_error_to_frames cid e h :
  send_error_to cid e h = Done (usbhid_send (frames cid CTAPHID_ERROR 1 [e]) h).
Proof.
  unfold send_error_to, ctaphid_send_error. by rewrite send_message_done.
Qed.

(** A packet of another channel that is not INIT leaves the message. *)
Lemma foreign_packet {U} (cl : client U) pkt h u :
  buffer_status h = BUFFERING -> pkt_cid pkt <> buffer_cid h -> is_init_pkt pkt = false ->
  exists h', ctaphid_handle_packet cl pkt h u = Done (0, h', u) /\
    same_message h h' /\ sent h' = sent h ++ foreign_answer pkt.
Proof.
  intros Hbs Hcid Hni. unfold ctaphid_handle_packet, ctaphid_buffer_packet, foreign_answer.
  rewrite Hni. destruct (pkt_cid pkt =? CTAPHID_BROADCAST_CID).
  { cbn [res_bind br_status br_cid br_cmd]. rewrite send_error_to_frames. cbn [res_bind].
    eexists. split; [done|]. split; [apply same_message_cid_del|]. cbn. by rewrite cid_del_sent. }
  rewrite Hbs. destruct (cid_exists (pkt_cid pkt) h) eqn:Ex, (is_cont_pkt pkt) eqn:Ec;
    cbn [negb andb res_bind]; rewrite ?Ex, ?Hbs, ?(proj2 (Z.eqb_neq _ _) Hcid);
    cbn [negb andb res_bind br_status br_cid br_cmd].
  - eexists. split; [done|]. by rewrite app_nil_r.
  - rewrite send_error_to_frames. cbn [res_bind].
    eexists. split; [done|]. split; [apply same_message_cid_del|]. cbn. by rewrite cid_del_sent.
  - eexists. split; [done|]. by rewrite app_nil_r.
  - rewrite send_error_to_frames. cbn [res_bind].
    eexists. split; [done|]. split; [apply same_message_cid_del|]. cbn. by rewrite cid_del_sent.
Qed.

(** A well-formed INIT. *)
Definition starts_over (pkt : list Z) : bool :=
  is_init_pkt pkt && (ctaphid_packet_len pkt =? 8) && negb (pkt_cid pkt =? 0).

(** It drops the message, whatever channel it is for. *)
Lemma init_drops {U} stop (cl : client U) pkt h u : client_within stop cl -> starts_over pkt = true ->
  within stop (ctaphid_handle_packet cl pkt h u) (fun '(_, h', _) => buffer_status h' = EMPTY).
Proof.
  intros C [[Hi Hl]%andb_true_iff Hz]%andb_true_iff. unfold ctaphid_handle_packet, ctaphid_buffer_packet, handle_init_pkt.
  rewrite Hi, Hl. apply negb_true_iff in Hz. rewrite Hz. cbn [negb].
  set (h0 := ctaphid_init h). assert (H0 : ctap_buffer_bcnt h0 = 0) by done. clearbody h0.
  assert (Hs : forall h1 h2, same_buffer h1 h2 -> ctap_buffer_bcnt h1 = 0 -> ctap_buffer_bcnt h2 = 0) by (intros h1 h2 (_ & -> & _); done).
  assert (He : forall h1, ctap_buffer_bcnt h1 = 0 -> buffer_status h1 = EMPTY) by (intros h1 E; unfold buffer_status; by rewrite E).
  apply (within_bind _ _ _ (fun '(br, h1, _) => ctap_buffer_bcnt h1 = 0 /\
    (br_status br = HID_IGNORE \/ br_status br = HID_ERROR))).
  - eapply (within_bind _ _ _ (fun '(_, _, _, h1, _) => ctap_buffer_bcnt h1 = 0)).
    + destruct (is_broadcast pkt); [destruct (get_new_cid h0) as [n h1] eqn:Eg|destruct (cid_exists (pkt_cid pkt) h0) eqn:Ex].
      * injection Eg as <- <-. eapply within_bind; [by eapply add_cid_within|]. intros [[r h2] u2] Hb. by eapply Hs.
      * eapply within_bind; [by eapply cid_refresh_within|]. intros [[r h2] u2] [_ Hb]. by eapply Hs.
      * eapply within_bind; [by eapply add_cid_within|]. intros [[r h2] u2] Hb. by eapply Hs.
    + intros [[[[ret o] n] h1] u1] H1. destruct (ret =? -1); [split; [done|by right]|].
      unfold send_init_response. rewrite send_message_done. split; [|by left].
      eapply Hs; [apply same_cid_del|done].
  - intros [[br h1] u1] [H1 [-> | ->]]; [by apply He|]. rewrite send_error_to_frames. apply He. cbn.
    destruct (br_cmd br =? _); [done|]. eapply Hs; [apply same_cid_del|done].
Qed.


(** A device that received the first packet of a 100-byte PING on channel 5. *)
Definition mid_ping : hid :=
  match ctaphid_handle_packet null_client
    (pad64 (init_hdr 5 CTAPHID_PING 100 ++ replicate 57 7)) boot tt with
  | Done (_, h, _) => h
  | Fault _ => boot
  end.

(** PING on another channel, a short INIT, and INIT. *)
Definition foreign_ping : list Z := pad64 (init_hdr 6 CTAPHID_PING 1 ++ [1]).
Definition foreign_short_init : list Z := pad64 (init_hdr 6 CTAPHID_INIT 7 ++ replicate 7 3).
Definition foreign_init : list Z := pad64 (init_hdr 6 CTAPHID_INIT 8 ++ replicate 8 3).


(** ** Channel identifiers *)

(** Channel identifiers handed out by [get_new_cid] are 32-bit values
    different from the reserved 0 and 0xffffffff, from every counter value;
    the loop ends after at most three increments. *)
Theorem get_new_cid_valid h c h' :
  get_new_cid h = (c, h') ->
  is_u32 c /\ c <> 0 /\ c <> CTAPHID_BROADCAST_CID /\ next_cid h' = c.
Proof.
  unfold get_new_cid, CTAPHID_BROADCAST_CID. intros [= <- <-]. cbn [set_field next_cid].
  assert (Hloop : forall fuel x, is_u32 (new_cid_loop fuel x)).
  { induction fuel as [|fuel IH]; intros x; cbn [new_cid_loop]; destruct (_ || _); auto with tkey. }
  split; [exact (Hloop 2%nat (next_cid h))|]. split; [|split; [|done]].
  all: set (a := u32 (next_cid h + 1)); assert (Ha : is_u32 a) by apply u32_range; clearbody a.
  all: unfold u32, is_u32 in *.
  all: destruct ((a =? 0) || (a =? 4294967295)) eqn:E1;
    [|apply orb_false_iff in E1 as [??]; zbool; lia].
  all: assert (a = 0 \/ a = 4294967295) as [-> | ->] by
    (apply orb_true_iff in E1 as [?|?]; zbool; lia); vm_compute; discriminate.
Qed.

Lemma get_new_cid_valid_witness :
  get_new_cid boot = (2, boot <| next_cid := 2 |>) /\
  is_u32 2 /\ 2 <> 0 /\ 2 <> CTAPHID_BROADCAST_CID /\ next_cid (boot <| next_cid := 2 |>) = 2.
Proof.
  split; [reflexivity|]. apply (get_new_cid_valid boot 2 (boot <| next_cid := 2 |>)). reflexivity.
Defined.

(** INIT on the broadcast channel, with the 8-byte nonce and a free slot,
    is answered on the broadcast channel with the nonce, the freshly allocated
    channel and the protocol data, and the channel is known afterwards; the
    pending reassembly of any channel is dropped. *)
Theorem init_broadcast_answer {U} (cl : client U) nonce h u :
  client_ok cl -> length nonce = 8%nat ->
  find_cid (fun c => busy c =? 0) (CIDS h) <> None ->
  let newcid := fst (get_new_cid h) in
  exists h' u', ctaphid_handle_packet cl
      (pad64 (init_hdr CTAPHID_BROADCAST_CID CTAPHID_INIT 8 ++ nonce)) h u = Done (0, h', u') /\
    sent h' = sent h ++ frames CTAPHID_BROADCAST_CID CTAPHID_INIT 17
      (nonce ++ le32 newcid ++ [CTAPHID_PROTOCOL_VERSION; 0; 0; 0; CTAP_CAPABILITIES]) /\
    cid_exists newcid h' = true /\ buffer_status h' = EMPTY.
Proof.
  intros Hok Hn Hfree newcid. set (pkt := pad64 _).
  destruct (init_frame_fields CTAPHID_BROADCAST_CID CTAPHID_INIT 8 nonce pkt)
    as (Hc & Hm & Hl & Hs & _);
    [done|done|done|rewrite Hn; unfold CTAPHID_INIT_PAYLOAD_SIZE; lia|done|].
  unfold ctaphid_handle_packet, ctaphid_buffer_packet, is_init_pkt, handle_init_pkt, is_broadcast.
  rewrite Hm, Hl, Hc. cbn [Z.eqb Pos.eqb CTAPHID_INIT CTAPHID_BROADCAST_CID negb].
  change (get_new_cid (ctaphid_init h)) with
    (newcid, ctaphid_init h <| next_cid := newcid |>). cbn [fst snd].
  unfold add_cid. rsimpl. unfold ctaphid_init, buffer_reset; cbn [CIDS].
  destruct (find_cid _ _) as [i|] eqn:Ef; [|done].
  destruct (ok_millis _ Hok u) as (t & u1 & ->). cbn [res_bind Z.eqb].
  unfold send_init_response. rewrite send_message_done. cbn [res_bind br_status].
  eexists _, _. split; [done|].
  apply find_cid_Some in Ef as (Hi & c & Hci & _). split; [|split].
  - rewrite cid_del_sent. cbn [sent usbhid_send set_field concat]. f_equal.
    rewrite app_nil_r. unfold slice in Hs. rewrite drop_0, Hn in Hs. by rewrite Hs.
  - unfold cid_del. destruct (find_cid _ _) eqn:E2; cbn [snd].
    + eapply cid_exists_alter; [done|done|]. apply cid_exists_spec.
      eexists i, _. cbn. rewrite list_lookup_alter_eq, Hci. done.
    + apply cid_exists_spec.
      eexists i, _. cbn. rewrite list_lookup_alter_eq, Hci. done.
  - unfold cid_del. by destruct (find_cid _ _).
Qed.

Lemma init_broadcast_answer_witness :
  exists h' u', ctaphid_handle_packet null_client
      (pad64 (init_hdr CTAPHID_BROADCAST_CID CTAPHID_INIT 8 ++ replicate 8 3)) boot tt
      = Done (0, h', u') /\
    sent h' = sent boot ++ frames CTAPHID_BROADCAST_CID CTAPHID_INIT 17
      (replicate 8 3 ++ le32 2 ++ [CTAPHID_PROTOCOL_VERSION; 0; 0; 0; CTAP_CAPABILITIES]) /\
    cid_exists 2 h' = true /\ buffer_status h' = EMPTY.
Proof.
  apply (init_broadcast_answer null_client (replicate 8 3) boot tt null_client_ok); done.
Defined.

(** Channel 0 is reserved and INIT refuses it, but a table that was never
    used answers on it: its zero entries count as channel 0. *)
Lemma channel_zero_accepted :
  exists h' u', feed null_client (frames 0 CTAPHID_PING 1 [7]) boot tt = Done (h', u') /\
    sent h' = frames 0 CTAPHID_PING 1 [7].
Proof. eexists _, _. split; [vm_compute; reflexivity|vm_compute; reflexivity]. Qed.

(** ** Timeouts *)

Definition expired (t : Z) (c : CID) : bool :=
  negb (busy c =? 0) && (u64 (t - last_used c) >=? 750).
Definition expire (t : Z) (c : CID) : CID := if expired t c then c <| busy := 0 |> else c.
Definition timeout_frames (t : Z) (c : CID) : list (list Z) :=
  if expired t c then frames (cid_id c) CTAPHID_ERROR 1 [CTAP1_ERR_TIMEOUT] else [].

(** The message buffer after the expiry of the channels [l]. *)
Definition drop_expired (t : Z) (l : list CID) (h : hid) : hid :=
  if existsb (fun c => expired t c && (cid_id c =? buffer_cid h)) l then buffer_reset h else h.

Lemma buffer_reset_idem h : buffer_reset (buffer_reset h) = buffer_reset h.
Proof. done. Qed.

(** [ctaphid_check_timeouts] from slot [length pre] on. *)
Lemma check_timeouts_spec {U} (cl : client U) t l : forall pre h u,
  (forall u, exists u', cl_millis cl u = Done (t, u')) -> CIDS h = pre ++ l ->
  exists u', check_timeouts_from cl (length l) (length pre) h u
    = Done ((drop_expired t l h) <| CIDS := pre ++ (expire t <$> l) |>
              <| sent := sent h ++ concat (timeout_frames t <$> l) |>, u').
Proof.
  induction l as [|c l IH]; intros pre h u Hclk Hc; cbn [length check_timeouts_from].
  { exists u. unfold drop_expired; cbn. rewrite !app_nil_r in *. rewrite <- Hc. by destruct h. }
  rewrite Hc, list_lookup_middle by done.
  assert (Hstep : exists h1 u1,
    check_timeout_slot cl (length pre) c h u = Done (h1, u1) /\
    h1 = (drop_expired t [c] h) <| CIDS := pre ++ expire t c :: l |>
                              <| sent := sent h ++ timeout_frames t c |>).
  { unfold check_timeout_slot, drop_expired, expire, timeout_frames, existsb, expired.
    destruct (negb (busy c =? 0)) eqn:Eb; cbn [andb orb].
    - destruct (Hclk u) as [u1 ->]. cbn [res_bind].
      destruct (_ >=? _); cbn [andb orb]; rewrite ?orb_false_r.
      + unfold ctaphid_send_error. rewrite send_message_done. cbn [res_bind].
        eexists _, _. split; [done|]. cbn. rewrite Hc.
        replace (length pre) with (length pre + 0)%nat by lia. rewrite alter_app_r.
        unfold buffer_cid. destruct (cid_id c =? ctap_buffer_cid h); cbn; reflexivity.
      + eexists _, _. split; [done|]. rewrite app_nil_r, <- Hc. by destruct h.
    - eexists _, _. split; [done|]. rewrite app_nil_r, <- Hc. by destruct h. }
  destruct Hstep as (h1 & u1 & Hs & Hh1). rewrite Hs. cbn [res_bind].
  destruct (IH (pre ++ [expire t c]) h1 u1 Hclk) as [u2 Hu2].
  { rewrite Hh1. cbn. by rewrite <- app_assoc. }
  rewrite length_app, Nat.add_comm in Hu2. cbn [length Nat.add] in Hu2. rewrite Hu2.
  exists u2. do 2 f_equal. rewrite Hh1. cbn [fmap list_fmap concat].
  unfold drop_expired. cbn [existsb]. rewrite <- app_assoc. rewrite orb_false_r.
  destruct (expired t c && (cid_id c =? buffer_cid h)) eqn:E; cbn; rewrite <- app_assoc.
  - by destruct (existsb _ l).
  - by destruct (existsb _ l).
Qed.

(** With the clock at [t], [ctaphid_check_timeouts] frees exactly the
    channels that were busy for 750 ms or more, answers each of them TIMEOUT
    in table order, and drops the pending message exactly when its channel is
    one of them. *)
Theorem check_timeouts_functional {U} (cl : client U) t h u :
  (forall u, exists u', cl_millis cl u = Done (t, u')) -> length (CIDS h) = CID_MAX ->
  exists u', ctaphid_check_timeouts cl h u
    = Done ((drop_expired t (CIDS h) h) <| CIDS := expire t <$> CIDS h |>
              <| sent := sent h ++ concat (timeout_frames t <$> CIDS h) |>, u').
Proof.
  intros Hclk Hl. unfold ctaphid_check_timeouts. rewrite <- Hl.
  exact (check_timeouts_spec cl t (CIDS h) [] h u Hclk eq_refl).
Qed.

Lemma check_timeouts_functional_witness :
  exists h u', CIDS h !! 0%nat = Some (mkCID 9 0 1 0) /\
    ctaphid_check_timeouts (null_client <| cl_millis := fun u => Done (750, u) |>) h tt
    = Done ((drop_expired 750 (CIDS h) h) <| CIDS := expire 750 <$> CIDS h |>
              <| sent := sent h ++ concat (timeout_frames 750 <$> CIDS h) |>, u').
Proof.
  exists (boot <| CIDS := mkCID 9 0 1 0 :: replicate 9 (mkCID 0 0 0 0) |>).
  destruct (check_timeouts_functional (null_client <| cl_millis := fun u => Done (750, u) |>)
    750 (boot <| CIDS := mkCID 9 0 1 0 :: replicate 9 (mkCID 0 0 0 0) |>) tt) as [u' H].
  - intros u. by exists u.
  - done.
  - exists u'. split; [done|exact H].
Defined.

End HidChannels.
