(* ===== verification/Sha256.v ===== *)
(** * SHA-256 (src/crypto/sha256/sha256.c)

    The incremental hash: a 64-byte block buffer that [sha256_update] fills
    byte by byte and [sha256_final] pads.  The reference [sha256] pads the
    whole message at once and folds the compression function over its blocks,
    as FIPS 180-4 states it. *)

From S2P Require Import Prelude.

Module Sha256.

Definition ROTRIGHT (a b : Z) : Z := Z.lor (Z.shiftr a b) (u32 (Z.shiftl a (32 - b))).
Definition CH (x y z : Z) : Z := Z.lxor (Z.land x y) (Z.land (u32 (Z.lnot x)) z).
Definition MAJ (x y z : Z) : Z := Z.lxor (Z.lxor (Z.land x y) (Z.land x z)) (Z.land y z).
Definition EP0 (x : Z) : Z := Z.lxor (Z.lxor (ROTRIGHT x 2) (ROTRIGHT x 13)) (ROTRIGHT x 22).
Definition EP1 (x : Z) : Z := Z.lxor (Z.lxor (ROTRIGHT x 6) (ROTRIGHT x 11)) (ROTRIGHT x 25).
Definition SIG0 (x : Z) : Z := Z.lxor (Z.lxor (ROTRIGHT x 7) (ROTRIGHT x 18)) (Z.shiftr x 3).
Definition SIG1 (x : Z) : Z := Z.lxor (Z.lxor (ROTRIGHT x 17) (ROTRIGHT x 19)) (Z.shiftr x 10).

(** The table of the source, a row per line. *)
Definition k : list Z := Eval cbv in concat [
  [ 0x428a2f98; 0x71374491; 0xb5c0fbcf; 0xe9b5dba5; 0x3956c25b; 0x59f111f1; 0x923f82a4; 0xab1c5ed5 ];
  [ 0xd807aa98; 0x12835b01; 0x243185be; 0x550c7dc3; 0x72be5d74; 0x80deb1fe; 0x9bdc06a7; 0xc19bf174 ];
  [ 0xe49b69c1; 0xefbe4786; 0x0fc19dc6; 0x240ca1cc; 0x2de92c6f; 0x4a7484aa; 0x5cb0a9dc; 0x76f988da ];
  [ 0x983e5152; 0xa831c66d; 0xb00327c8; 0xbf597fc7; 0xc6e00bf3; 0xd5a79147; 0x06ca6351; 0x14292967 ];
  [ 0x27b70a85; 0x2e1b2138; 0x4d2c6dfc; 0x53380d13; 0x650a7354; 0x766a0abb; 0x81c2c92e; 0x92722c85 ];
  [ 0xa2bfe8a1; 0xa81a664b; 0xc24b8b70; 0xc76c51a3; 0xd192e819; 0xd6990624; 0xf40e3585; 0x106aa070 ];
  [ 0x19a4c116; 0x1e376c08; 0x2748774c; 0x34b0bcb5; 0x391c0cb3; 0x4ed8aa4a; 0x5b9cca4f; 0x682e6ff3 ];
  [ 0x748f82ee; 0x78a5636f; 0x84c87814; 0x8cc70208; 0x90befffa; 0xa4506ceb; 0xbef9a3f7; 0xc67178f2 ]].

(** [WORD state[8]], and the working variables [a] to [h]. *)
Record words := mkW {
  w0 : Z; w1 : Z; w2 : Z; w3 : Z; w4 : Z; w5 : Z; w6 : Z; w7 : Z;
}.

Record SHA256_CTX := mkCtx {
  data : list Z;
  datalen : Z;
  bitlen : Z;
  st : words;
}.
#[export] Instance eta_ctx : Eta SHA256_CTX :=
  fun c => mkCtx (data c) (datalen c) (bitlen c) (st c).

(** [m[i]] for [i < 16]: big-endian words of the block. *)
Definition load_word (blk : list Z) (i : nat) : Z :=
  let d n := nth (4 * i + n) blk 0 in
  Z.lor (Z.lor (Z.lor (u32 (Z.shiftl (d 0%nat) 24)) (Z.shiftl (d 1%nat) 16))
               (Z.shiftl (d 2%nat) 8)) (d 3%nat).

(** [m[i]] for [i] from the current length of [m] on, [n] more words. *)
Fixpoint extend_schedule (n : nat) (m : list Z) : list Z :=
  match n with
  | O => m
  | S n =>
      let i := length m in
      let w := u32 (SIG1 (nth (i - 2) m 0) + nth (i - 7) m 0
                    + SIG0 (nth (i - 15) m 0) + nth (i - 16) m 0) in
      extend_schedule n (m ++ [w])
  end.

Definition schedule (blk : list Z) : list Z :=
  extend_schedule 48 (load_word blk <$> seq 0 16).

Definition round (v : words) (ki mi : Z) : words :=
  let t1 := u32 (w7 v + EP1 (w4 v) + CH (w4 v) (w5 v) (w6 v) + ki + mi) in
  let t2 := u32 (EP0 (w0 v) + MAJ (w0 v) (w1 v) (w2 v)) in
  mkW (u32 (t1 + t2)) (w0 v) (w1 v) (w2 v) (u32 (w3 v + t1)) (w4 v) (w5 v) (w6 v).

Fixpoint rounds (ks ms : list Z) (v : words) : words :=
  match ks, ms with
  | ki :: ks, mi :: ms => rounds ks ms (round v ki mi)
  | _, _ => v
  end.

Definition sha256_transform (s : words) (blk : list Z) : words :=
  let v := rounds k (schedule blk) s in
  mkW (u32 (w0 s + w0 v)) (u32 (w1 s + w1 v)) (u32 (w2 s + w2 v)) (u32 (w3 s + w3 v))
      (u32 (w4 s + w4 v)) (u32 (w5 s + w5 v)) (u32 (w6 s + w6 v)) (u32 (w7 s + w7 v)).

Definition H0 : words :=
  mkW 0x6a09e667 0xbb67ae85 0x3c6ef372 0xa54ff53a 0x510e527f 0x9b05688c 0x1f83d9ab 0x5be0cd19.

(** [sha256_init] leaves the block buffer as it is. *)
Definition sha256_init (c : SHA256_CTX) : SHA256_CTX := mkCtx (data c) 0 0 H0.

(** A context as it stands in memory before [sha256_init]: any content. *)
Definition fresh_ctx : SHA256_CTX := mkCtx (zeros 64) 0 0 (mkW 0 0 0 0 0 0 0 0).

Definition update_byte (b : Z) (c : SHA256_CTX) : res SHA256_CTX :=
  let! d := mem_write (data c) (Z.to_nat (datalen c)) [b] in
  let c := c <| data := d |> <| datalen := u32 (datalen c + 1) |> in
  if datalen c =? 64
  then Done (c <| st := sha256_transform (st c) d |> <| bitlen := u64 (bitlen c + 512) |>
               <| datalen := 0 |>)
  else Done c.

Fixpoint sha256_update (l : list Z) (c : SHA256_CTX) : res SHA256_CTX :=
  match l with
  | [] => Done c
  | b :: l => let! c := update_byte b c in sha256_update l c
  end.

(** The eight length bytes at the end of the last block, first one first. *)
Definition be64 (z : Z) : list Z :=
  [u8 (Z.shiftr z 56); u8 (Z.shiftr z 48); u8 (Z.shiftr z 40); u8 (Z.shiftr z 32);
   u8 (Z.shiftr z 24); u8 (Z.shiftr z 16); u8 (Z.shiftr z 8); u8 z].

Definition be32 (z : Z) : list Z :=
  (fun i => Z.land (Z.shiftr z (24 - i * 8)) 0xff) <$> [0; 1; 2; 3].

Definition digest (s : words) : list Z :=
  be32 (w0 s) ++ be32 (w1 s) ++ be32 (w2 s) ++ be32 (w3 s) ++
  be32 (w4 s) ++ be32 (w5 s) ++ be32 (w6 s) ++ be32 (w7 s).

(** [sha256_final]: the hash and the context it leaves. *)
Definition sha256_final (c : SHA256_CTX) : res (list Z * SHA256_CTX) :=
  let i := Z.to_nat (datalen c) in
  let! c :=
    if datalen c <? 56 then
      let! d := mem_write (data c) i (0x80 :: zeros (56 - S i)) in
      Done (c <| data := d |>)
    else
      let! d := mem_write (data c) i (0x80 :: zeros (64 - S i)) in
      let s := sha256_transform (st c) d in
      let! d := mem_write d 0 (zeros 56) in
      Done (c <| data := d |> <| st := s |>) in
  let c := c <| bitlen := u64 (bitlen c + u32 (datalen c * 8)) |> in
  let! d := mem_write (data c) 56 (be64 (bitlen c)) in
  let s := sha256_transform (st c) d in
  Done (digest s, c <| data := d |> <| st := s |>).

(** ** Reference *)

Fixpoint absorb (n : nat) (s : words) (l : list Z) : words :=
  match n with
  | O => s
  | S n => absorb n (sha256_transform s (take 64 l)) (drop 64 l)
  end.

Definition pad_zeros (len : nat) : nat := Z.to_nat ((55 - Z.of_nat len) mod 64).

Definition pad (msg : list Z) : list Z :=
  msg ++ 0x80 :: zeros (pad_zeros (length msg)) ++ be64 (8 * Z.of_nat (length msg)).

Definition sha256 (msg : list Z) : list Z :=
  digest (absorb (length (pad msg) / 64) H0 (pad msg)).

(** The digest of the three bytes of the string abc, from FIPS 180-2. *)
Example sha256_abc :
  (let! c := sha256_update [97; 98; 99] (sha256_init fresh_ctx) in
   let! (h, _) := sha256_final c in Done h)
  = Done [0xba;0x78;0x16;0xbf;0x8f;0x01;0xcf;0xea;0x41;0x41;0x40;0xde;0x5d;0xae;0x22;0x23;
          0xb0;0x03;0x61;0xa3;0x96;0x17;0x7a;0x9c;0xb4;0x10;0xff;0x61;0xf2;0x00;0x15;0xad].
Proof. vm_compute. reflexivity. Qed.

(** ** Folding blocks *)

#[local] Opaque sha256_transform.
#[local] Arguments Nat.modulo : simpl never.
#[local] Arguments Nat.div : simpl never.
#[local] Arguments Nat.mul : simpl never.
#[local] Arguments zeros : simpl never.

Lemma absorb_ignores_tail n : forall s l t,
  (64 * n <= length l)%nat -> absorb n s (l ++ t) = absorb n s l.
Proof.
  induction n as [|n IH]; intros s l t Hl; cbn [absorb]; [done|].
  rewrite take_app_le, drop_app_le by lia. apply IH. rewrite length_drop. lia.
Qed.

Lemma absorb_take n s l :
  (64 * n <= length l)%nat -> absorb n s (take (64 * n) l) = absorb n s l.
Proof.
  intros H. rewrite <- (take_drop (64 * n) l) at 2.
  by rewrite absorb_ignores_tail by (rewrite length_take; lia).
Qed.

Lemma absorb_snoc n : forall s l blk,
  length l = (64 * n)%nat -> length blk = 64%nat ->
  absorb (S n) s (l ++ blk) = sha256_transform (absorb n s l) blk.
Proof.
  induction n as [|n IH]; intros s l blk Hl Hb.
  - destruct l; [|cbn in Hl; lia]. cbn [app absorb]. by rewrite firstn_all2 by lia.
  - change (absorb (S (S n)) s (l ++ blk))
      with (absorb (S n) (sha256_transform s (take 64 (l ++ blk))) (drop 64 (l ++ blk))).
    rewrite take_app_le, drop_app_le by lia. rewrite IH; [done| |done].
    rewrite length_drop. lia.
Qed.

(** ** The context represents the bytes hashed so far *)

Record rep (c : SHA256_CTX) (msg : list Z) : Prop := {
  rep_data : length (data c) = 64%nat;
  rep_len : datalen c = Z.of_nat (length msg mod 64);
  rep_bits : bitlen c = u64 (512 * Z.of_nat (length msg / 64));
  rep_tail : take (length msg mod 64) (data c) = drop (64 * (length msg / 64)) msg;
  rep_st : st c = absorb (length msg / 64) H0 msg;
}.

Lemma rep_init c : length (data c) = 64%nat -> rep (sha256_init c) [].
Proof. intros H. split; done. Qed.

Lemma divmod64 n : (n = 64 * (n / 64) + n mod 64 /\ n mod 64 < 64)%nat.
Proof. split; [apply Nat.div_mod_eq|apply Nat.mod_upper_bound]; lia. Qed.

(** The block that the buffer holds. *)
Lemma rep_split c msg : rep c msg ->
  msg = take (64 * (length msg / 64)) msg ++ take (length msg mod 64) (data c).
Proof. intros R. rewrite (rep_tail _ _ R). by rewrite take_drop. Qed.

Lemma u64_add_mul a b : u64 (u64 a + b) = u64 (a + b).
Proof. unfold u64. by rewrite Zplus_mod_idemp_l. Qed.

Lemma update_byte_rep c msg b : rep c msg ->
  exists c', update_byte b c = Done c' /\ rep c' (msg ++ [b]).
Proof.
  intros R. destruct (divmod64 (length msg)) as [E Hlt].
  pose proof (rep_data _ _ R) as Hd. pose proof (rep_split _ _ R) as Hs.
  unfold update_byte. rewrite (rep_len _ _ R), Nat2Z.id.
  rewrite mem_write_fits by (cbn; lia). cbn [res_bind set_field datalen data st bitlen].
  set (r := (length msg mod 64)%nat) in *. set (n := (length msg / 64)%nat) in *.
  assert (Hl : length (msg ++ [b]) = (64 * n + S r)%nat) by (rewrite length_app; cbn [length]; lia).
  assert (Ht : length (take (64 * n) msg) = (64 * n)%nat) by (rewrite length_take; lia).
  assert (Hm : msg ++ [b] = take (64 * n) msg ++ take r (data c) ++ [b])
    by (rewrite app_assoc; by rewrite <- Hs).
  rewrite u32_small by (unfold is_u32; lia).
  destruct (_ =? 64) eqn:E64; zbool.
  - assert (r = 63)%nat as Hr by lia. eexists; split; [done|].
    assert (Hq : (length (msg ++ [b]) / 64 = S n)%nat).
    { rewrite Hl, Hr. replace (64 * n + 64)%nat with (S n * 64)%nat by lia. by apply Nat.div_mul. }
    assert (Hz : (length (msg ++ [b]) mod 64 = 0)%nat).
    { rewrite Hl, Hr. replace (64 * n + 64)%nat with (S n * 64)%nat by lia. by apply Nat.Div0.mod_mul. }
    split; cbn [data datalen bitlen st]; rewrite ?Hq, ?Hz.
    + rewrite overwrite_length; cbn [length]; lia.
    + done.
    + rewrite (rep_bits _ _ R), u64_add_mul. f_equal. lia.
    + rewrite (drop_ge (msg ++ [b])); [done|]. rewrite Hl. lia.
    + rewrite (rep_st _ _ R). fold n. rewrite Hm, absorb_snoc; [|done|].
      * rewrite (drop_ge (data c)) by (cbn [length]; lia). rewrite app_nil_r.
        by rewrite absorb_take by lia.
      * rewrite length_app, length_take. cbn [length]. lia.
  - assert (r < 63)%nat as Hr by lia. eexists; split; [done|].
    assert (Hq : (length (msg ++ [b]) / 64 = n)%nat).
    { rewrite Hl, Nat.mul_comm, Nat.div_add_l by lia. rewrite Nat.div_small; lia. }
    assert (Hz : (length (msg ++ [b]) mod 64 = S r)%nat).
    { rewrite Hl, Nat.mul_comm, Nat.add_comm, Nat.Div0.mod_add. apply Nat.mod_small. lia. }
    split; cbn [data datalen bitlen st]; rewrite ?Hq, ?Hz.
    + rewrite overwrite_length; cbn [length]; lia.
    + lia.
    + apply (rep_bits _ _ R).
    + replace (S r) with (r + 1)%nat by lia.
      rewrite Hm, drop_app_length' by lia.
      rewrite take_app_add' by (rewrite length_take; lia). done.
    + rewrite absorb_ignores_tail by lia. apply (rep_st _ _ R).
Qed.

Lemma update_rep l : forall c msg, rep c msg ->
  exists c', sha256_update l c = Done c' /\ rep c' (msg ++ l).
Proof.
  induction l as [|b l IH]; intros c msg R; cbn [sha256_update].
  { exists c. by rewrite app_nil_r. }
  destruct (update_byte_rep c msg b R) as (c1 & -> & R1). cbn [res_bind].
  destruct (IH _ _ R1) as (c2 & H2 & R2). exists c2. by rewrite <- app_assoc in R2.
Qed.

(** ** The padding *)

Lemma u8_shiftr_u64 z s : 0 <= s <= 56 -> u8 (Z.shiftr (u64 z) s) = u8 (Z.shiftr z s).
Proof.
  intros Hs. unfold u8, u64. apply Z.bits_inj'. intros i Hi.
  destruct (decide (i < 8)).
  - rewrite !Z.mod_pow2_bits_low, !Z.shiftr_spec, Z.mod_pow2_bits_low by lia. done.
  - rewrite !Z.mod_pow2_bits_high by lia. done.
Qed.

Lemma be64_u64 z : be64 (u64 z) = be64 z.
Proof.
  unfold be64. rewrite !u8_shiftr_u64 by lia. do 7 f_equal.
  pose proof (u8_shiftr_u64 z 0) as H. rewrite !Z.shiftr_0_r in H. rewrite H; [done|lia].
Qed.

Lemma bits_total c msg : rep c msg ->
  be64 (u64 (bitlen c + u32 (datalen c * 8))) = be64 (8 * Z.of_nat (length msg)).
Proof.
  intros R. destruct (divmod64 (length msg)) as [E Hlt].
  rewrite (rep_bits _ _ R), (rep_len _ _ R), u64_add_mul, be64_u64. f_equal.
  rewrite u32_small by (unfold is_u32; lia). lia.
Qed.

(** The padding for a last block with room for the length. *)
Lemma pad_short (msg : list Z) : (length msg mod 64 < 56)%nat ->
  pad_zeros (length msg) = (55 - length msg mod 64)%nat.
Proof.
  intros H. unfold pad_zeros. destruct (divmod64 (length msg)) as [E Hlt].
  replace (55 - Z.of_nat (length msg))
    with (Z.of_nat (55 - length msg mod 64) + - Z.of_nat (length msg / 64) * 64) by lia.
  rewrite Z.mod_add by lia. rewrite Z.mod_small by lia. apply Nat2Z.id.
Qed.

Lemma pad_long (msg : list Z) : (56 <= length msg mod 64)%nat ->
  pad_zeros (length msg) = (119 - length msg mod 64)%nat.
Proof.
  intros H. unfold pad_zeros. destruct (divmod64 (length msg)) as [E Hlt].
  replace (55 - Z.of_nat (length msg))
    with (Z.of_nat (119 - length msg mod 64) + - (Z.of_nat (length msg / 64) + 1) * 64) by lia.
  rewrite Z.mod_add by lia. rewrite Z.mod_small by lia. apply Nat2Z.id.
Qed.

Lemma absorb_pad1 msg tl : length (drop (64 * (length msg / 64)) msg ++ tl) = 64%nat ->
  digest (absorb (length (msg ++ tl) / 64) H0 (msg ++ tl))
  = digest (sha256_transform (absorb (length msg / 64) H0 msg)
              (drop (64 * (length msg / 64)) msg ++ tl)).
Proof.
  intros Hb. destruct (divmod64 (length msg)) as [E Hlt].
  set (n := (length msg / 64)%nat) in *.
  assert (Ht : length (take (64 * n) msg) = (64 * n)%nat) by (rewrite length_take; lia).
  assert (Hm : msg ++ tl = take (64 * n) msg ++ (drop (64 * n) msg ++ tl))
    by (by rewrite app_assoc, take_drop).
  assert (Hq : (length (msg ++ tl) / 64 = S n)%nat).
  { rewrite Hm, length_app, Ht, Hb. replace (64 * n + 64)%nat with (S n * 64)%nat by lia.
    by apply Nat.div_mul. }
  rewrite Hq, Hm, absorb_snoc by done.
  by rewrite absorb_take by lia.
Qed.

Lemma absorb_pad2 msg t1 t2 : length (drop (64 * (length msg / 64)) msg ++ t1) = 64%nat ->
  length t2 = 64%nat ->
  digest (absorb (length (msg ++ t1 ++ t2) / 64) H0 (msg ++ t1 ++ t2))
  = digest (sha256_transform
      (sha256_transform (absorb (length msg / 64) H0 msg)
              (drop (64 * (length msg / 64)) msg ++ t1)) t2).
Proof.
  intros Hb H2. destruct (divmod64 (length msg)) as [E Hlt].
  set (n := (length msg / 64)%nat) in *.
  assert (Ht : length (take (64 * n) msg) = (64 * n)%nat) by (rewrite length_take; lia).
  assert (Hm : msg ++ t1 ++ t2 = (take (64 * n) msg ++ (drop (64 * n) msg ++ t1)) ++ t2)
    by (by rewrite !app_assoc, take_drop).
  assert (Hq : (length (msg ++ t1 ++ t2) / 64 = S (S n))%nat).
  { rewrite Hm, !length_app, Ht, H2. rewrite length_app in Hb.
    replace (64 * n + (length (drop (64 * n) msg) + length t1) + 64)%nat
      with (S (S n) * 64)%nat by lia.
    by apply Nat.div_mul. }
  rewrite Hq, Hm, absorb_snoc; [|rewrite length_app, Ht, Hb; lia|done].
  rewrite absorb_snoc by done.
  by rewrite absorb_take by lia.
Qed.

(** Writes that reach a known end of the buffer. *)
Lemma write_until (d src : list Z) i e :
  (i + length src = e)%nat -> (e <= length d)%nat ->
  exists d', mem_write d i src = Done d' /\ take e d' = take i d ++ src /\ length d' = length d.
Proof.
  intros He Hd. rewrite mem_write_fits by lia. eexists. split; [done|]. split.
  - rewrite app_assoc. apply take_app_length'. rewrite length_app, length_take. lia.
  - apply overwrite_length. lia.
Qed.

Lemma write_length_field (d t : list Z) :
  length d = 64%nat -> length t = 8%nat -> mem_write d 56 t = Done (take 56 d ++ t).
Proof.
  intros Hd Ht. rewrite mem_write_fits by lia. rewrite drop_ge by lia. by rewrite app_nil_r.
Qed.

Lemma final_short c msg : rep c msg -> datalen c < 56 ->
  exists c', sha256_final c = Done (sha256 msg, c') /\ length (data c') = 64%nat.
Proof.
  intros R E56. destruct (divmod64 (length msg)) as [E Hlt].
  pose proof (rep_data _ _ R) as Hd. pose proof (bits_total _ _ R) as Hb.
  unfold sha256_final. rewrite (proj2 (Z.ltb_lt _ _) E56).
  rewrite (rep_len _ _ R) in *. rewrite Nat2Z.id.
  destruct (write_until (data c) (0x80 :: zeros (56 - S (length msg mod 64)))
    (length msg mod 64) 56) as (d & -> & Htk & Hl).
  { cbn [length]. rewrite zeros_length. lia. } { lia. }
  cbn [res_bind set_field data datalen bitlen st]. rewrite (rep_len _ _ R).
  rewrite write_length_field by (rewrite ?Hl; done). cbn [res_bind].
  assert (Hblk : take 56 d ++ be64 (8 * Z.of_nat (length msg)) =
    drop (64 * (length msg / 64)) msg ++
    (0x80 :: zeros (pad_zeros (length msg)) ++ be64 (8 * Z.of_nat (length msg)))).
  { rewrite Htk, (rep_tail _ _ R), pad_short by lia. rewrite <- app_assoc. cbn [app].
    do 3 f_equal. }
  rewrite Hb, (rep_st _ _ R). eexists. split.
  - do 2 f_equal. unfold sha256, pad. rewrite Hblk. symmetry. apply absorb_pad1.
    rewrite <- Hblk, length_app, length_take, Hl, Hd. done.
  - cbn [data]. rewrite length_app, length_take, Hl, Hd. done.
Qed.

Lemma final_long c msg : rep c msg -> 56 <= datalen c ->
  exists c', sha256_final c = Done (sha256 msg, c') /\ length (data c') = 64%nat.
Proof.
  intros R E56. destruct (divmod64 (length msg)) as [E Hlt].
  pose proof (rep_data _ _ R) as Hd. pose proof (bits_total _ _ R) as Hb.
  unfold sha256_final. rewrite (proj2 (Z.ltb_ge _ _) E56).
  rewrite (rep_len _ _ R) in *. rewrite Nat2Z.id.
  destruct (write_until (data c) (0x80 :: zeros (64 - S (length msg mod 64)))
    (length msg mod 64) 64) as (d & -> & Htk & Hl).
  { cbn [length]. rewrite zeros_length. lia. } { lia. }
  cbn [res_bind]. rewrite take_ge in Htk by lia.
  destruct (write_until d (zeros 56) 0 56) as (d2 & -> & Htk2 & Hl2); [done|lia|].
  cbn [res_bind set_field data datalen bitlen st]. rewrite (rep_len _ _ R).
  rewrite write_length_field by (rewrite ?Hl2, ?Hl; done). cbn [res_bind].
  rewrite Hb, (rep_st _ _ R), Htk2. eexists. split.
  - do 2 f_equal. unfold sha256, pad. rewrite pad_long by lia.
    replace (zeros (119 - length msg mod 64)) with (zeros (64 - S (length msg mod 64)) ++ zeros 56).
    2:{ unfold zeros. rewrite <- replicate_add. f_equal. lia. }
    rewrite <- (app_assoc (zeros _)), app_comm_cons.
    rewrite absorb_pad2; [|rewrite <- (rep_tail _ _ R)|done].
    + by rewrite <- (rep_tail _ _ R), Htk.
    + etransitivity; [|rewrite <- Hd; exact Hl]. by rewrite Htk.
  - cbn [data]. done.
Qed.

(** [sha256_final] returns the reference digest. *)
Lemma final_rep c msg : rep c msg ->
  exists c', sha256_final c = Done (sha256 msg, c') /\ length (data c') = 64%nat.
Proof.
  intros R. destruct (decide (datalen c < 56)).
  - by apply final_short.
  - apply final_long; [done|lia].
Qed.

Lemma digest_length s : length (digest s) = 32%nat.
Proof. done. Qed.

Lemma sha256_length msg : length (sha256 msg) = 32%nat.
Proof. done. Qed.

Lemma be32_bytes z : bytes (be32 z).
Proof.
  unfold be32. cbn. repeat constructor; rewrite land_ff; apply Z.mod_pos_bound; lia.
Qed.

Lemma sha256_bytes msg : bytes (sha256 msg).
Proof. unfold sha256, digest. repeat (apply Forall_app_2; [apply be32_bytes|]). apply be32_bytes. Qed.
#[export] Hint Resolve sha256_bytes : tkey.

(** A sequence of [sha256_update] calls. *)
Fixpoint update_all (ps : list (list Z)) (c : SHA256_CTX) : res SHA256_CTX :=
  match ps with
  | [] => Done c
  | p :: ps => let! c := sha256_update p c in update_all ps c
  end.

Lemma update_all_rep ps : forall c msg, rep c msg ->
  exists c', update_all ps c = Done c' /\ rep c' (msg ++ concat ps).
Proof.
  induction ps as [|p ps IH]; intros c msg R; cbn [update_all concat].
  { exists c. by rewrite app_nil_r. }
  destruct (update_rep p c msg R) as (c1 & -> & R1). cbn [res_bind].
  destruct (IH _ _ R1) as (c2 & H2 & R2). exists c2. by rewrite <- app_assoc in R2.
Qed.

(** C23: hashing a message in any pieces with [sha256_init], [sha256_update]
    and [sha256_final], from any earlier content of the context, gives the
    FIPS 180-4 digest of the concatenation: no length of the pieces, of the
    last block or of the whole message makes the buffering or the padding
    wrong. *)
Theorem sha256_streaming (c : SHA256_CTX) ps :
  length (data c) = 64%nat ->
  exists c1 c2, update_all ps (sha256_init c) = Done c1 /\
    sha256_final c1 = Done (sha256 (concat ps), c2).
Proof.
  intros Hd. destruct (update_all_rep ps _ [] (rep_init c Hd)) as (c1 & H1 & R1).
  destruct (final_rep _ _ R1) as (c2 & H2 & _). exists c1, c2. done.
Qed.

Lemma sha256_streaming_witness :
  exists c1 c2, update_all [replicate 60 7; []; [1; 2; 3; 4; 5]] (sha256_init fresh_ctx) = Done c1 /\
    sha256_final c1 = Done (sha256 (concat [replicate 60 7; []; [1; 2; 3; 4; 5]]), c2).
Proof. apply (sha256_streaming fresh_ctx). reflexivity. Defined.

End Sha256.
