(* ===== verification/Blockwise.v ===== *)
(** * Input in blocks (src/crypto/cifra/src/blockwise.c)

    Data of any length for a function that takes blocks of [nblock] bytes: what
    does not fill a block waits in [partial].  Nothing uses [cf_blockwise_xor], nor
    [cf_blockwise_accumulate_final] with another function for the last block. *)

From S2P Require Import Prelude.

Module Blockwise.

#[local] Open Scope nat_scope.

(** [partial], [npartial] and what [process] works on. *)
Record acc (C : Type) := mkAcc {
  partial : list Z;
  npartial : nat;
  ctx : C;
}.
Arguments mkAcc {C}.
Arguments partial {C}.
Arguments npartial {C}.
Arguments ctx {C}.
#[export] Instance eta_acc C : Eta (acc C) := fun a => mkAcc (partial a) (npartial a) (ctx a).

Section Blockwise.
Context {C : Type} (nblock : nat).

(** Data is copied behind what waits, as much as there is space for.  What is left of it. *)
Definition take_in (inp : list Z) (a : acc C) : res (list Z * acc C) :=
  let taken := Nat.min (nblock - npartial a) (length inp) in
  let! p := mem_write (partial a) (npartial a) (take taken inp) in
  Done (drop taken inp, a <| partial := p |> <| npartial := npartial a + taken |>).

Section Process.
Context (process process_final : C -> list Z -> C).

(** [while (nbytes >= nblock)] *)
Fixpoint whole_blocks (fuel : nat) (inp : list Z) (a : acc C) : res (list Z * acc C) :=
  if length inp <? nblock then Done (inp, a)
  else
    match fuel with
    | O => Fault FAssert
    | S fuel =>
        if negb (npartial a =? 0) then Fault FAssert
        else
          whole_blocks fuel (drop nblock inp)
            (a <| ctx := (if length inp =? nblock then process_final else process) (ctx a) (take nblock inp) |>)
    end.

(** [while (nbytes)] *)
Fixpoint buffer_rest (fuel : nat) (inp : list Z) (a : acc C) : res (acc C) :=
  if length inp =? 0 then Done a
  else
    match fuel with
    | O => Fault FAssert
    | S fuel =>
        let! (inp, a) := take_in inp a in
        if npartial a <? nblock then buffer_rest fuel inp a else Fault FAssert
    end.

Definition cf_blockwise_accumulate_final (inp : list Z) (a : acc C) : res (acc C) :=
  if negb (npartial a <? nblock) then Fault FAssert
  else
    let! (inp, a) :=
      if negb (npartial a =? 0) && negb (length inp =? 0) then
        let! (inp, a) := take_in inp a in
        if npartial a =? nblock then
          Done (inp, a <| ctx := (if length inp =? 0 then process_final else process) (ctx a) (partial a) |> <| npartial := 0 |>)
        else Done (inp, a)
      else Done (inp, a) in
    let! (inp, a) := whole_blocks (length inp) inp a in
    buffer_rest (length inp) inp a.
End Process.

Context (process : C -> list Z -> C).

Definition cf_blockwise_accumulate : list Z -> acc C -> res (acc C) := cf_blockwise_accumulate_final process process.

(** [nbytes] times [byte]; a block that was filled with it once is not filled again. *)
Fixpoint acc_byte_loop (fuel : nat) (byte : Z) (nbytes : nat) (filled : bool) (a : acc C) : res (acc C) :=
  if nbytes =? 0 then Done a
  else
    match fuel with
    | O => Fault FAssert
    | S fuel =>
        let start := npartial a in
        let count := Nat.min nbytes (nblock - start) in
        let! a :=
          if negb filled then
            let! p := mem_write (partial a) start (replicate count byte) in Done (a <| partial := p |>)
          else Done a in
        let filled := filled || ((start =? 0) && (count =? nblock)) in
        let a :=
          if start + count =? nblock then a <| ctx := process (ctx a) (partial a) |> <| npartial := 0 |>
          else a <| npartial := npartial a + count |> in
        acc_byte_loop fuel byte (nbytes - count) filled a
    end.
Definition cf_blockwise_acc_byte (byte : Z) (nbytes : nat) (a : acc C) : res (acc C) :=
  acc_byte_loop nbytes byte nbytes false a.

Definition cf_blockwise_acc_pad (fbyte mbyte lbyte : Z) (nbytes : nat) (a : acc C) : res (acc C) :=
  match nbytes with
  | 0 => Done a
  | 1 => cf_blockwise_accumulate [Z.lxor fbyte lbyte] a
  | 2 => let! a := cf_blockwise_accumulate [fbyte] a in cf_blockwise_accumulate [lbyte] a
  | _ =>
      let! a := cf_blockwise_accumulate [fbyte] a in
      if negb (lbyte =? mbyte)%Z then
        let! a := cf_blockwise_acc_byte mbyte (nbytes - 2) a in cf_blockwise_accumulate [lbyte] a
      else cf_blockwise_acc_byte mbyte (nbytes - 1) a
  end.

(** ** What was taken in *)

(** The function over [n] blocks. *)
Fixpoint absorb (n : nat) (c : C) (l : list Z) : C :=
  match n with
  | O => c
  | S n => absorb n (process c (take nblock l)) (drop nblock l)
  end.

Lemma absorb_block n : forall c l blk, length l = nblock * n -> length blk = nblock ->
  absorb (S n) c (l ++ blk) = process (absorb n c l) blk.
Proof.
  induction n as [|n IH]; intros c l blk Hl Hb.
  - destruct l; [|cbn in Hl; lia]. cbn [app absorb]. by rewrite firstn_all2 by lia.
  - change (absorb (S (S n)) c (l ++ blk)) with (absorb (S n) (process c (take nblock (l ++ blk))) (drop nblock (l ++ blk))).
    rewrite take_app_le, drop_app_le by lia. apply IH; [rewrite length_drop; lia|done].
Qed.

(** [msg] was taken in since the context was [c0]: its whole blocks were processed, the rest waits, maybe a
    whole block. *)
Definition loose (c0 : C) (a : acc C) (msg : list Z) : Prop :=
  length (partial a) = nblock /\ npartial a <= nblock /\
  exists n bs, length bs = nblock * n /\ msg = bs ++ take (npartial a) (partial a) /\ ctx a = absorb n c0 bs.
Definition rep (c0 : C) (a : acc C) (msg : list Z) : Prop := npartial a < nblock /\ loose c0 a msg.

Lemma rep_start c0 p : 0 < nblock -> length p = nblock -> rep c0 (mkAcc p 0 c0) [].
Proof. intros H Hp. split; [done|]. split; [done|]. split; [cbn; lia|]. exists 0, []. split; [cbn; lia|done]. Qed.

(** The blocks and the length of what was taken in. *)
Lemma rep_length c0 a msg : rep c0 a msg -> npartial a = length msg mod nblock /\
  exists bs, length bs = nblock * (length msg / nblock) /\ msg = bs ++ take (npartial a) (partial a) /\
    ctx a = absorb (length msg / nblock) c0 bs.
Proof.
  intros (Hlt & Lp & _ & n & bs & Lb & Hm & Hc).
  assert (Hl : length msg = nblock * n + npartial a) by (rewrite Hm, length_app, length_take; lia).
  assert (Hd : length msg / nblock = n) by (symmetry; by apply (Nat.div_unique _ _ _ (npartial a))).
  split; [by apply (Nat.mod_unique _ _ n)|]. exists bs. by rewrite Hd.
Qed.

Lemma take_in_done c0 inp a msg : loose c0 a msg -> exists t a', take_in inp a = Done (drop t inp, a') /\
  t = Nat.min (nblock - npartial a) (length inp) /\ npartial a' = npartial a + t /\ loose c0 a' (msg ++ take t inp).
Proof.
  intros (Lp & Hle & n & bs & Lb & Hm & Hc). unfold take_in. set (t := Nat.min _ _).
  assert (Lt : length (take t inp) = t) by (rewrite length_take; lia).
  rewrite mem_write_fits by lia. cbn [res_bind]. eexists t, _. split; [done|]. split; [done|]. split; [done|].
  unfold loose. cbn [partial npartial ctx set_field eta eta_acc].
  split; [rewrite overwrite_length; lia|]. split; [lia|]. exists n, bs. split; [done|]. split; [|done].
  rewrite Hm, <- app_assoc. f_equal. rewrite app_assoc, take_app_length'; [done|]. rewrite length_app, length_take. lia.
Qed.

(** A whole block that waits is processed. *)
Lemma flush_done c0 a msg : loose c0 a msg -> npartial a = nblock -> 0 < nblock ->
  rep c0 (a <| ctx := process (ctx a) (partial a) |> <| npartial := 0 |>) msg.
Proof.
  intros (Lp & _ & n & bs & Lb & Hm & Hc) Hn Hb. split; [done|]. split; [done|]. split; [cbn; lia|].
  exists (S n), msg. cbn [npartial partial ctx set_field eta eta_acc]. rewrite Hn, take_ge in Hm by lia. rewrite take_0, app_nil_r.
  split; [rewrite Hm, length_app; lia|]. split; [done|]. rewrite Hm, absorb_block by done. cbn. by rewrite Hc.
Qed.

Lemma whole_blocks_done c0 process_final fuel : (forall c b, process_final c b = process c b) -> 0 < nblock -> forall inp a msg,
  length inp <= fuel -> loose c0 a msg -> npartial a = 0 \/ length inp < nblock -> exists t a',
  whole_blocks process process_final fuel inp a = Done (drop t inp, a') /\ loose c0 a' (msg ++ take t inp) /\
  npartial a' = npartial a /\ length (drop t inp) < nblock.
Proof.
  intros Hf Hb. induction fuel as [|fuel IH]; intros inp a msg Hl R Hz; cbn [whole_blocks].
  - exists 0, a. rewrite (proj2 (Nat.ltb_lt _ _)) by lia. rewrite drop_0, take_0, app_nil_r. split_and!; try done; lia.
  - destruct (Nat.ltb_spec (length inp) nblock) as [Hlt|Hge].
    + exists 0, a. rewrite drop_0, take_0, app_nil_r. done.
    + destruct Hz as [Hz|]; [|lia]. rewrite Hz. cbn [Nat.eqb negb].
      set (a1 := a <| ctx := _ |>).
      assert (R1 : loose c0 a1 (msg ++ take nblock inp)).
      { destruct R as (Lp & Hle & n & bs & Lb & Hm & Hc). rewrite Hz, take_0, app_nil_r in Hm. subst bs.
        unfold loose, a1. cbn [partial npartial ctx set_field eta eta_acc]. split; [done|]. split; [done|].
        exists (S n), (msg ++ take nblock inp). rewrite length_app, length_take, Hz, take_0, app_nil_r. split; [lia|]. split; [done|].
        rewrite absorb_block by (rewrite ?length_take; lia). rewrite Hc. by destruct (_ =? _). }
      destruct (IH (drop nblock inp) a1 _ ltac:(rewrite length_drop; lia) R1 (or_introl Hz)) as (t & a' & E & R' & Hn & Hlen).
      exists (nblock + t), a'. rewrite <- drop_drop. split; [exact E|]. split; [|split; [by rewrite Hn|done]].
      by rewrite <- take_take_drop, app_assoc.
Qed.

Lemma buffer_rest_done c0 fuel inp a msg : rep c0 a msg -> npartial a + length inp < nblock -> length inp <= fuel ->
  exists a', buffer_rest fuel inp a = Done a' /\ rep c0 a' (msg ++ inp).
Proof.
  intros [Hlt R] Hl Hf. assert (Hnil : forall fuel (a : acc C), buffer_rest fuel [] a = Done a) by by intros [].
  destruct inp as [|x inp]; [exists a; by rewrite Hnil, app_nil_r|].
  destruct fuel as [|fuel]; [cbn in Hf; lia|]. cbn [buffer_rest]. change (length (x :: inp) =? 0) with false. cbv iota.
  destruct (take_in_done c0 (x :: inp) a msg R) as (t & a' & -> & Ht & Hn & R'). cbn [res_bind].
  assert (t = length (x :: inp)) as -> by lia. rewrite firstn_all in R'. rewrite (proj2 (Nat.ltb_lt _ _)) by lia.
  rewrite skipn_all, Hnil. exists a'. split; [done|]. split; [lia|done].
Qed.

(** Whatever is accumulated was taken in. *)
Lemma accumulate_rep c0 inp a msg : rep c0 a msg ->
  exists a', cf_blockwise_accumulate inp a = Done a' /\ rep c0 a' (msg ++ inp).
Proof.
  intros [Hlt R]. assert (Hb : 0 < nblock) by lia. unfold cf_blockwise_accumulate, cf_blockwise_accumulate_final.
  rewrite (proj2 (Nat.ltb_lt _ _) Hlt). cbn [negb].
  assert (Hend : forall inp a msg, rep c0 a msg -> npartial a = 0 \/ length inp = 0 -> exists a',
    (let! (inp, a) := whole_blocks process process (length inp) inp a in buffer_rest (length inp) inp a) = Done a' /\
    rep c0 a' (msg ++ inp)).
  { clear inp a msg Hlt R. intros inp a msg [Hlt R] Hz.
    destruct (whole_blocks_done c0 process (length inp) (fun _ _ => eq_refl) Hb inp a msg (le_n _) R) as (t & a' & -> & R' & Hn & Hl);
      [lia|]. cbn [res_bind].
    destruct (buffer_rest_done c0 (length (drop t inp)) (drop t inp) a' _ (conj (eq_ind_r (fun n => n < nblock) Hlt Hn) R'))
      as (a2 & -> & R2); [|done|].
    - rewrite Hn. rewrite length_drop in *. lia.
    - exists a2. split; [done|]. by rewrite <- app_assoc, take_drop in R2. }
  destruct (Nat.eqb_spec (npartial a) 0) as [Hz|Hz]; cbn [negb andb res_bind]; [by apply Hend; [|left]|].
  destruct (Nat.eqb_spec (length inp) 0) as [Hi|Hi]; cbn [negb andb res_bind]; [by apply Hend; [|right]|].
  destruct (take_in_done c0 inp a msg R) as (t & a' & -> & Ht & Hn & R'). cbn [res_bind].
  assert (Hm : msg ++ inp = (msg ++ take t inp) ++ drop t inp) by (by rewrite <- app_assoc, take_drop). rewrite Hm.
  destruct (Nat.eqb_spec (npartial a') nblock) as [Hf|Hf]; cbn [res_bind].
  - replace (if length (drop t inp) =? 0 then process else process) with process by by destruct (_ =? _).
    apply Hend; [by apply flush_done|by left].
  - apply Hend; [split; [destruct R'; lia|done]|]. right. rewrite length_drop. lia.
Qed.

(** [count] bytes are put behind what waits. *)
Lemma put_done c0 a msg p count byte : rep c0 a msg -> count <= nblock - npartial a -> length p = nblock ->
  take (npartial a + count) p = take (npartial a) (partial a) ++ replicate count byte ->
  loose c0 (mkAcc p (npartial a + count) (ctx a)) (msg ++ replicate count byte).
Proof.
  intros (Hlt & Lp & _ & n & bs & Lb & Hm & Hc) Hn Hp Ht. unfold loose. cbn [partial npartial ctx].
  split; [done|]. split; [lia|]. exists n, bs. split; [done|]. split; [|done]. by rewrite Ht, Hm, app_assoc.
Qed.

Lemma acc_byte_loop_rep c0 byte fuel : forall nbytes filled a msg, rep c0 a msg -> nbytes <= fuel ->
  nbytes = 0 \/ (filled = true -> npartial a = 0 /\ partial a = replicate nblock byte) ->
  exists a', acc_byte_loop fuel byte nbytes filled a = Done a' /\ rep c0 a' (msg ++ replicate nbytes byte).
Proof.
  induction fuel as [|fuel IH]; intros nbytes filled a msg R Hf Hinv.
  { assert (nbytes = 0) as -> by lia. exists a. cbn. by rewrite app_nil_r. }
  cbn [acc_byte_loop]. destruct (Nat.eqb_spec nbytes 0) as [->|H0]; [exists a; cbn; by rewrite app_nil_r|].
  destruct Hinv as [|Hinv]; [done|]. pose proof (proj1 R) as Hlt. pose proof (proj1 (proj2 R)) as Lp.
  set (count := Nat.min nbytes (nblock - npartial a)).
  assert (Hw : exists p, (if negb filled then let! p := mem_write (partial a) (npartial a) (replicate count byte) in Done (a <| partial := p |>)
      else Done a) = Done (a <| partial := p |>) /\ length p = nblock /\
      take (npartial a + count) p = take (npartial a) (partial a) ++ replicate count byte /\
      (npartial a = 0 -> count = nblock -> p = replicate nblock byte)).
  { destruct filled; cbn [negb].
    - destruct (Hinv eq_refl) as [Hz Hp]. exists (partial a). split; [by destruct a|]. split; [done|]. rewrite Hz, Hp. split; [|done].
      rewrite take_0. cbn [Nat.add app]. apply take_replicate_le || rewrite take_replicate. f_equal. lia.
    - rewrite mem_write_fits by (rewrite length_replicate; lia). cbn [res_bind]. eexists. split; [done|].
      split; [rewrite overwrite_length; [done|rewrite length_replicate; lia]|]. split.
      + rewrite app_assoc. apply take_app_length'. rewrite length_app, length_take, length_replicate. lia.
      + intros Hz ->. rewrite Hz, take_0, length_replicate, drop_ge by lia. cbn [app]. by rewrite app_nil_r. }
  destruct Hw as (p & -> & Hp & Ht & Hfull). cbn [res_bind].
  pose proof (put_done c0 a msg p count byte R ltac:(lia) Hp Ht) as R1.
  replace (replicate nbytes byte) with (replicate count byte ++ replicate (nbytes - count) byte)
    by (rewrite <- replicate_add; f_equal; lia).
  rewrite app_assoc. destruct (Nat.eqb_spec (npartial a + count) nblock) as [He|He].
  - apply IH; [|lia|].
    + pose proof (flush_done c0 _ _ R1 He ltac:(lia)) as R2. exact R2.
    + right. intros Hfl. cbn [npartial partial set_field eta eta_acc]. split; [done|].
      destruct filled.
      * destruct (Hinv eq_refl) as [Hz _]. apply Hfull; lia.
      * cbn [orb] in Hfl. apply andb_true_iff in Hfl as [Hz Hcn]. apply Hfull; [by apply Nat.eqb_eq|by apply Nat.eqb_eq].
  - apply IH; [|lia|left; lia]. split; [cbn; lia|exact R1].
Qed.

Lemma acc_byte_rep c0 byte nbytes a msg : rep c0 a msg ->
  exists a', cf_blockwise_acc_byte byte nbytes a = Done a' /\ rep c0 a' (msg ++ replicate nbytes byte).
Proof. intros R. by apply acc_byte_loop_rep; [|lia|right]. Qed.

(** The first, the middle and the last bytes of a padding. *)
Definition pad_bytes (fbyte mbyte lbyte : Z) (nbytes : nat) : list Z :=
  match nbytes with
  | 0 => []
  | 1 => [Z.lxor fbyte lbyte]
  | S (S n) => fbyte :: replicate n mbyte ++ [lbyte]
  end.

Lemma acc_pad_rep c0 fbyte mbyte lbyte nbytes a msg : rep c0 a msg ->
  exists a', cf_blockwise_acc_pad fbyte mbyte lbyte nbytes a = Done a' /\ rep c0 a' (msg ++ pad_bytes fbyte mbyte lbyte nbytes).
Proof.
  intros R. unfold cf_blockwise_acc_pad, pad_bytes. destruct nbytes as [|[|n]].
  - exists a. by rewrite app_nil_r.
  - by apply accumulate_rep.
  - destruct (accumulate_rep c0 [fbyte] a msg R) as (a1 & E1 & R1). destruct n as [|n].
    + rewrite E1. cbn [res_bind]. destruct (accumulate_rep c0 [lbyte] a1 _ R1) as (a2 & E2 & R2). exists a2.
      split; [done|]. by rewrite <- app_assoc in R2.
    + rewrite E1. cbn [res_bind]. destruct (Z.eqb_spec lbyte mbyte) as [->|Hn]; cbn [negb].
      * destruct (acc_byte_rep c0 mbyte (S (S (S n)) - 1) a1 _ R1) as (a2 & E2 & R2). exists a2. split; [done|].
        rewrite <- app_assoc in R2. replace (S (S (S n)) - 1) with (S n + 1) in R2 by lia. by rewrite replicate_add in R2.
      * destruct (acc_byte_rep c0 mbyte (S (S (S n)) - 2) a1 _ R1) as (a2 & -> & R2). cbn [res_bind].
        destruct (accumulate_rep c0 [lbyte] a2 _ R2) as (a3 & E3 & R3). exists a3. split; [done|].
        rewrite <- !app_assoc in R3. replace (S (S (S n)) - 2) with (S n) in R3 by lia. exact R3.
Qed.

End Blockwise.

(** ** A stream of blocks *)

Section Stream.
Context {C : Type} (nblock : nat).
(** [process] fills [partial]. *)
Context (process : C -> list Z -> C * list Z).

Definition refill (a : acc C) : acc C :=
  if npartial a =? 0 then let (c, p) := process (ctx a) (partial a) in mkAcc p nblock c else a.

(** [while (nbytes)]: what is written to [outb]. *)
Fixpoint xor_loop (fuel : nat) (inb : list Z) (a : acc C) : res (list Z * acc C) :=
  if length inb =? 0 then Done ([], a)
  else
    match fuel with
    | O => Fault FAssert
    | S fuel =>
        let a := refill a in
        let offset := nblock - npartial a in
        let taken := Nat.min (npartial a) (length inb) in
        let! b := mem_read (partial a) offset taken in
        let! (outb, a) := xor_loop fuel (drop taken inb) (a <| npartial := npartial a - taken |>) in
        Done (zip_with Z.lxor (take taken inb) b ++ outb, a)
    end.
Definition cf_blockwise_xor (inp : list Z) (a : acc C) : res (list Z * acc C) :=
  if negb (npartial a <? nblock) then Fault FAssert else xor_loop (length inp) inp a.

(** A byte at a time. *)
Fixpoint xor_bytes (inp : list Z) (a : acc C) : res (list Z * acc C) :=
  match inp with
  | [] => Done ([], a)
  | x :: inp =>
      let a := refill a in
      let! b := mem_read (partial a) (nblock - npartial a) 1 in
      let! (out, a) := xor_bytes inp (a <| npartial := npartial a - 1 |>) in
      Done (zip_with Z.lxor [x] b ++ out, a)
  end.

Lemma refill_more a : 0 < npartial a -> refill a = a.
Proof. intros H. unfold refill. destruct (Nat.eqb_spec (npartial a) 0); [lia|done]. Qed.

Lemma xor_bytes_chunk c : forall rest a, length (partial a) = nblock -> length c <= npartial a <= nblock ->
  xor_bytes (c ++ rest) a =
    (let! (out, a') := xor_bytes rest (a <| npartial := npartial a - length c |>) in
     Done (zip_with Z.lxor c (slice (nblock - npartial a) (length c) (partial a)) ++ out, a')).
Proof.
  induction c as [|x c IH]; intros rest a Lp Hc; cbn [length app] in *.
  - rewrite Nat.sub_0_r. replace (a <| npartial := npartial a |>) with a by by destruct a.
    by destruct (xor_bytes rest a) as [[out a']|].
  - cbn [xor_bytes]. rewrite refill_more by lia. rewrite mem_read_fits by lia. cbn [res_bind].
    rewrite IH by (cbn [partial npartial set_field eta eta_acc]; lia). cbn [partial npartial ctx set_field eta eta_acc].
    replace (npartial a - 1 - length c) with (npartial a - S (length c)) by lia.
    destruct (lookup_lt_is_Some_2 (partial a) (nblock - npartial a)) as [b Hb]; [lia|].
    unfold slice. rewrite (drop_S _ _ _ Hb). replace (nblock - (npartial a - 1)) with (S (nblock - npartial a)) by lia.
    cbn [take]. rewrite take_0. cbn [zip_with app]. by destruct (xor_bytes rest _) as [[out a']|].
Qed.

(** However the input is cut, each of its bytes meets the next byte of the blocks. *)
Lemma xor_loop_bytes fuel : (forall c p, length (snd (process c p)) = nblock) -> 0 < nblock -> forall inb a,
  length (partial a) = nblock -> npartial a <= nblock -> length inb <= fuel -> xor_loop fuel inb a = xor_bytes inb a.
Proof.
  intros Hp Hb. induction fuel as [|fuel IH]; intros inb a Lp Hn Hf; [by destruct inb; [|cbn in Hf; lia]|].
  cbn [xor_loop]. destruct inb as [|x inb]; [done|]. change (length (x :: inb) =? 0) with false. cbv iota.
  assert (R : 0 < npartial (refill a) <= nblock /\ length (partial (refill a)) = nblock).
  { unfold refill. destruct (Nat.eqb_spec (npartial a) 0); [|lia]. pose proof (Hp (ctx a) (partial a)).
    by destruct (process (ctx a) (partial a)). }
  assert (E : xor_bytes (x :: inb) a = xor_bytes (x :: inb) (refill a)).
  { cbn [xor_bytes]. by rewrite (refill_more (refill a)) by lia. }
  rewrite E. clear E. generalize dependent (refill a). clear a Lp Hn. intros a (Hn & Lp).
  set (taken := Nat.min _ _). assert (Ht : 0 < taken <= length (x :: inb) /\ taken <= npartial a) by (cbn [length] in *; lia).
  clearbody taken. rewrite mem_read_fits by lia. cbn [res_bind].
  rewrite IH by (cbn [partial npartial set_field eta eta_acc]; rewrite ?length_drop; lia).
  rewrite <- (take_drop taken (x :: inb)) at 2. rewrite xor_bytes_chunk by (rewrite ?length_take; lia).
  by rewrite length_take_le by lia.
Qed.

Lemma xor_bytes_app x : forall y a,
  xor_bytes (x ++ y) a = (let! (o1, a) := xor_bytes x a in let! (o2, a) := xor_bytes y a in Done (o1 ++ o2, a)).
Proof.
  induction x as [|b x IH]; intros y a; cbn [app xor_bytes res_bind]; [by destruct (xor_bytes y a) as [[o a']|]|].
  destruct (mem_read _ _ _) as [k|]; cbn [res_bind]; [|done]. rewrite IH.
  destruct (xor_bytes x _) as [[o1 a1]|]; cbn [res_bind]; [|done].
  destruct (xor_bytes y a1) as [[o2 a2]|]; cbn [res_bind]; [|done]. by rewrite app_assoc.
Qed.
End Stream.

End Blockwise.
