(* ===== verification/Sha512.v ===== *)
(** * SHA-512 (src/crypto/cifra/src/sha512.c)

    The incremental hash over [Blockwise].  [sha512_update_block] keeps sixteen
    words of the message schedule in a ring; the reference [sha512] pads the
    whole message at once and uses the schedule of eighty words of FIPS 180-4. *)

From S2P Require Import Prelude Sha256 Blockwise.
Import Sha256(words, mkW, w0, w1, w2, w3, w4, w5, w6, w7) Blockwise.

Module Sha512.

Definition rotr64 (x n : Z) : Z := Z.lor (Z.shiftr x n) (u64 (Z.shiftl x (64 - n))).
Definition read32_be (buf : list Z) : Z :=
  let b n := nth n buf 0 in
  Z.lor (Z.lor (Z.lor (u32 (Z.shiftl (b 0%nat) 24)) (Z.shiftl (b 1%nat) 16)) (Z.shiftl (b 2%nat) 8)) (b 3%nat).
Definition read64_be (buf : list Z) : Z := Z.lor (Z.shiftl (read32_be buf) 32) (read32_be (drop 4 buf)).
Definition write64_be (v : Z) : list Z :=
  [Z.land (Z.shiftr v 56) 0xff; Z.land (Z.shiftr v 48) 0xff; Z.land (Z.shiftr v 40) 0xff; Z.land (Z.shiftr v 32) 0xff;
   Z.land (Z.shiftr v 24) 0xff; Z.land (Z.shiftr v 16) 0xff; Z.land (Z.shiftr v 8) 0xff; Z.land v 0xff].

(** The table of the source, a row per two lines. *)
Definition K : list Z := Eval cbv in concat [
  [ 0x428a2f98d728ae22; 0x7137449123ef65cd; 0xb5c0fbcfec4d3b2f; 0xe9b5dba58189dbbc ];
  [ 0x3956c25bf348b538; 0x59f111f1b605d019; 0x923f82a4af194f9b; 0xab1c5ed5da6d8118 ];
  [ 0xd807aa98a3030242; 0x12835b0145706fbe; 0x243185be4ee4b28c; 0x550c7dc3d5ffb4e2 ];
  [ 0x72be5d74f27b896f; 0x80deb1fe3b1696b1; 0x9bdc06a725c71235; 0xc19bf174cf692694 ];
  [ 0xe49b69c19ef14ad2; 0xefbe4786384f25e3; 0x0fc19dc68b8cd5b5; 0x240ca1cc77ac9c65 ];
  [ 0x2de92c6f592b0275; 0x4a7484aa6ea6e483; 0x5cb0a9dcbd41fbd4; 0x76f988da831153b5 ];
  [ 0x983e5152ee66dfab; 0xa831c66d2db43210; 0xb00327c898fb213f; 0xbf597fc7beef0ee4 ];
  [ 0xc6e00bf33da88fc2; 0xd5a79147930aa725; 0x06ca6351e003826f; 0x142929670a0e6e70 ];
  [ 0x27b70a8546d22ffc; 0x2e1b21385c26c926; 0x4d2c6dfc5ac42aed; 0x53380d139d95b3df ];
  [ 0x650a73548baf63de; 0x766a0abb3c77b2a8; 0x81c2c92e47edaee6; 0x92722c851482353b ];
  [ 0xa2bfe8a14cf10364; 0xa81a664bbc423001; 0xc24b8b70d0f89791; 0xc76c51a30654be30 ];
  [ 0xd192e819d6ef5218; 0xd69906245565a910; 0xf40e35855771202a; 0x106aa07032bbd1b8 ];
  [ 0x19a4c116b8d2d0c8; 0x1e376c085141ab53; 0x2748774cdf8eeb99; 0x34b0bcb5e19b48a8 ];
  [ 0x391c0cb3c5c95a63; 0x4ed8aa4ae3418acb; 0x5b9cca4f7763e373; 0x682e6ff3d6b2b8a3 ];
  [ 0x748f82ee5defb2fc; 0x78a5636f43172f60; 0x84c87814a1f0ab72; 0x8cc702081a6439ec ];
  [ 0x90befffa23631e28; 0xa4506cebde82bde9; 0xbef9a3f7b2c67915; 0xc67178f2e372532b ];
  [ 0xca273eceea26619c; 0xd186b8c721c0c207; 0xeada7dd6cde0eb1e; 0xf57d4f7fee6ed178 ];
  [ 0x06f067aa72176fba; 0x0a637dc5a2c898a6; 0x113f9804bef90dae; 0x1b710b35131c471b ];
  [ 0x28db77f523047d84; 0x32caab7b40c72493; 0x3c9ebe0a15c9bebc; 0x431d67c49c100d4c ];
  [ 0x4cc5d4becb3e42b6; 0x597f299cfc657e2a; 0x5fcb6fab3ad6faec; 0x6c44198c4a475817 ]].

Definition CH (x y z : Z) : Z := Z.lxor (Z.land x y) (Z.land (u64 (Z.lnot x)) z).
Definition MAJ (x y z : Z) : Z := Z.lxor (Z.lxor (Z.land x y) (Z.land x z)) (Z.land y z).
Definition BSIG0 (x : Z) : Z := Z.lxor (Z.lxor (rotr64 x 28) (rotr64 x 34)) (rotr64 x 39).
Definition BSIG1 (x : Z) : Z := Z.lxor (Z.lxor (rotr64 x 14) (rotr64 x 18)) (rotr64 x 41).
Definition SSIG0 (x : Z) : Z := Z.lxor (Z.lxor (rotr64 x 1) (rotr64 x 8)) (Z.shiftr x 7).
Definition SSIG1 (x : Z) : Z := Z.lxor (Z.lxor (rotr64 x 19) (rotr64 x 61)) (Z.shiftr x 6).

Definition CF_SHA512_HASHSZ : nat := 64.
Definition CF_SHA512_BLOCKSZ : nat := 128.
Definition CF_SHA384_HASHSZ : nat := 48.

(** [H] and [blocks], a [uint32_t]; [partial] and [npartial] are those of [acc]. *)
Record hash_state := mkHash {
  H : words;
  blocks : Z;
}.
Definition cf_sha512_context : Type := acc hash_state.

Definition zeroed (h : words) : cf_sha512_context := mkAcc (zeros CF_SHA512_BLOCKSZ) 0 (mkHash h 0).
Definition H512 : words :=
  mkW 0x6a09e667f3bcc908 0xbb67ae8584caa73b 0x3c6ef372fe94f82b 0xa54ff53a5f1d36f1
      0x510e527fade682d1 0x9b05688c2b3e6c1f 0x1f83d9abfb41bd6b 0x5be0cd19137e2179.
Definition H384 : words :=
  mkW 0xcbbb9d5dc1059ed8 0x629a292a367cd507 0x9159015a3070dd17 0x152fecd8f70e5939
      0x67332667ffc00b31 0x8eb44a8768581511 0xdb0c2e0d64f98fa7 0x47b5481dbefa4fa4.
Definition cf_sha512_init : cf_sha512_context := zeroed H512.
Definition cf_sha384_init : cf_sha512_context := zeroed H384.

(** What a turn of the loop does to [a] to [h]. *)
Definition round (v : words) (Kt Wt : Z) : words :=
  let T1 := u64 (w7 v + BSIG1 (w4 v) + CH (w4 v) (w5 v) (w6 v) + Kt + Wt) in
  let T2 := u64 (BSIG0 (w0 v) + MAJ (w0 v) (w1 v) (w2 v)) in
  mkW (u64 (T1 + T2)) (w0 v) (w1 v) (w2 v) (u64 (w3 v + T1)) (w4 v) (w5 v) (w6 v).

(** [for (size_t t = 0; t < 80; t++)] with the constants from [t] on. *)
Fixpoint block_loop (ks : list Z) (t : nat) (inp W : list Z) (v : words) : words :=
  match ks with
  | [] => v
  | Kt :: ks =>
      let w i := nth ((t - i) mod 16) W 0 in
      let (Wt, inp) :=
        if (t <? 16)%nat then (read64_be inp, drop 8 inp)
        else (u64 (SSIG1 (w 2%nat) + w 7%nat + SSIG0 (w 15%nat) + w 16%nat), inp) in
      block_loop ks (S t) inp (<[(t mod 16)%nat := Wt]> W) (round v Kt Wt)
  end.

(** [W] has no initializer; no word of it is read before it is written. *)
Definition compress (h : words) (inp : list Z) : words :=
  let v := block_loop K 0 inp (zeros 16) h in
  mkW (u64 (w0 h + w0 v)) (u64 (w1 h + w1 v)) (u64 (w2 h + w2 v)) (u64 (w3 h + w3 v))
      (u64 (w4 h + w4 v)) (u64 (w5 h + w5 v)) (u64 (w6 h + w6 v)) (u64 (w7 h + w7 v)).
Definition sha512_update_block (s : hash_state) (inp : list Z) : hash_state :=
  mkHash (compress (H s) inp) (u32 (blocks s + 1)).

Definition cf_sha512_update (c : cf_sha512_context) (data : list Z) : res cf_sha512_context :=
  cf_blockwise_accumulate CF_SHA512_BLOCKSZ sha512_update_block data c.

Definition digest (h : words) : list Z :=
  write64_be (w0 h) ++ write64_be (w1 h) ++ write64_be (w2 h) ++ write64_be (w3 h) ++
  write64_be (w4 h) ++ write64_be (w5 h) ++ write64_be (w6 h) ++ write64_be (w7 h).

(** The hash and the context that is left. *)
Definition cf_sha512_digest_final (c : cf_sha512_context) : res (list Z * cf_sha512_context) :=
  let digested_bytes := u64 (u64 (blocks (ctx c) * Z.of_nat CF_SHA512_BLOCKSZ) + Z.of_nat (npartial c)) in
  let digested_bits := u64 (digested_bytes * 8) in
  let padbytes := (CF_SHA512_BLOCKSZ - Z.to_nat (u64 (digested_bytes + 16)) mod CF_SHA512_BLOCKSZ)%nat in
  let! c := cf_blockwise_acc_pad CF_SHA512_BLOCKSZ sha512_update_block 0x80 0 0 padbytes c in
  let! c := cf_sha512_update c (write64_be 0) in
  let! c := cf_sha512_update c (write64_be digested_bits) in
  if negb (npartial c =? 0)%nat then Fault FAssert
  else Done (digest (H (ctx c)), zeroed (mkW 0 0 0 0 0 0 0 0)).

Definition cf_sha512_digest (c : cf_sha512_context) : res (list Z) :=
  let! (hash, _) := cf_sha512_digest_final c in Done hash.
Definition cf_sha384_update : cf_sha512_context -> list Z -> res cf_sha512_context := cf_sha512_update.
Definition cf_sha384_digest (c : cf_sha512_context) : res (list Z) :=
  let! full := cf_sha512_digest c in mem_read full 0 CF_SHA384_HASHSZ.
Definition cf_sha384_digest_final (c : cf_sha512_context) : res (list Z * cf_sha512_context) :=
  let! (full, c) := cf_sha512_digest_final c in let! h := mem_read full 0 CF_SHA384_HASHSZ in Done (h, c).

(** The static context of crypto.c. *)
Definition fido2_crypto_sha512_init (c : cf_sha512_context) : cf_sha512_context := cf_sha512_init.
Definition fido2_crypto_sha512_update (data : list Z) (c : cf_sha512_context) : res cf_sha512_context := cf_sha512_update c data.
Definition fido2_crypto_sha512_final (c : cf_sha512_context) : res (list Z * cf_sha512_context) := cf_sha512_digest_final c.

(** ** Reference *)

(** The words of the schedule from the number of words of [m] on, [n] more. *)
Fixpoint extend_schedule (n : nat) (m : list Z) : list Z :=
  match n with
  | O => m
  | S n =>
      let w i := nth (length m - i) m 0 in
      extend_schedule n (m ++ [u64 (SSIG1 (w 2%nat) + w 7%nat + SSIG0 (w 15%nat) + w 16%nat)])
  end.
Definition schedule (blk : list Z) : list Z := extend_schedule 64 ((fun t => read64_be (drop (8 * t) blk)) <$> seq 0 16).

Fixpoint rounds (ks ws : list Z) (v : words) : words :=
  match ks, ws with
  | Kt :: ks, Wt :: ws => rounds ks ws (round v Kt Wt)
  | _, _ => v
  end.
Definition transform (h : words) (blk : list Z) : words :=
  let v := rounds K (schedule blk) h in
  mkW (u64 (w0 h + w0 v)) (u64 (w1 h + w1 v)) (u64 (w2 h + w2 v)) (u64 (w3 h + w3 v))
      (u64 (w4 h + w4 v)) (u64 (w5 h + w5 v)) (u64 (w6 h + w6 v)) (u64 (w7 h + w7 v)).

Fixpoint transform_all (n : nat) (h : words) (l : list Z) : words :=
  match n with
  | O => h
  | S n => transform_all n (transform h (take 128 l)) (drop 128 l)
  end.

(** [z] in 16 bytes, the most significant first. *)
Definition be128 (z : Z) : list Z := (fun i => u8 (Z.shiftr z (8 * (15 - Z.of_nat i)))) <$> seq 0 16.
Definition pad_zeros (len : nat) : nat := Z.to_nat ((111 - Z.of_nat len) mod 128).
Definition pad (msg : list Z) : list Z :=
  msg ++ 0x80 :: zeros (pad_zeros (length msg)) ++ be128 (8 * Z.of_nat (length msg)).

(** FIPS 180-4, from an initial hash value. *)
Definition sha2 (h : words) (msg : list Z) : list Z :=
  digest (transform_all (length (pad msg) / 128) h (pad msg)).
Definition sha512 (msg : list Z) : list Z := sha2 H512 msg.
Definition sha384 (msg : list Z) : list Z := take 48 (sha2 H384 msg).

(** The digest of the three bytes of the string abc, from FIPS 180-2. *)
Example sha512_abc :
  (let! c := cf_sha512_update cf_sha512_init [97; 98; 99] in cf_sha512_digest c)
  = Done (concat (write64_be <$> [0xddaf35a193617aba; 0xcc417349ae204131; 0x12e6fa4e89a97ea2; 0x0a9eeee64b55d39a;
      0x2192992a274fc1a8; 0x36ba3c23a3feebbd; 0x454d4423643ce80e; 0x2a9ac94fa54ca49f])).
Proof. vm_compute. reflexivity. Qed.

(** ** The schedule *)

Lemma extend_prefix n : forall m, exists r, extend_schedule n m = m ++ r.
Proof.
  induction n as [|n IH]; intros m; cbn [extend_schedule]; [exists []; by rewrite app_nil_r|].
  destruct (IH (m ++ [u64 (SSIG1 (nth (length m - 2) m 0) + nth (length m - 7) m 0 +
    SSIG0 (nth (length m - 15) m 0) + nth (length m - 16) m 0)])) as [r ->]. eexists. by rewrite <- app_assoc.
Qed.
Lemma extend_length n : forall m, length (extend_schedule n m) = (length m + n)%nat.
Proof. induction n as [|n IH]; intros m; cbn [extend_schedule]; [lia|]. rewrite IH, length_app. cbn [length]. lia. Qed.

Definition next_word (m : list Z) (t : nat) : Z :=
  u64 (SSIG1 (nth (t - 2) m 0) + nth (t - 7) m 0 + SSIG0 (nth (t - 15) m 0) + nth (t - 16) m 0).

Lemma extend_nth n : forall m t, (16 <= length m)%nat -> (length m <= t < length m + n)%nat ->
  nth t (extend_schedule n m) 0 = next_word (extend_schedule n m) t.
Proof.
  induction n as [|n IH]; intros m t Hm Ht; [lia|]. cbn [extend_schedule]. set (m1 := m ++ [_]).
  assert (L1 : length m1 = S (length m)) by (unfold m1; rewrite length_app; cbn [length]; lia).
  destruct (decide (t = length m)) as [->|Hn]; [|apply IH; lia].
  destruct (extend_prefix n m1) as [r ->]. unfold m1, next_word. rewrite <- app_assoc.
  rewrite (app_nth2 m) by lia. rewrite Nat.sub_diag. cbn [app nth]. by rewrite !(app_nth1 m) by lia.
Qed.

Lemma schedule_length blk : length (schedule blk) = 80%nat.
Proof. unfold schedule. rewrite extend_length. done. Qed.
Lemma schedule_first blk t : (t < 16)%nat -> nth t (schedule blk) 0 = read64_be (drop (8 * t) blk).
Proof.
  intros Ht. unfold schedule. destruct (extend_prefix 64 ((fun t => read64_be (drop (8 * t) blk)) <$> seq 0 16)) as [r ->].
  rewrite app_nth1 by (rewrite length_fmap, length_seq; lia).
  apply nth_lookup_Some. rewrite list_lookup_fmap, lookup_seq_lt by lia. done.
Qed.
Lemma schedule_next blk t : (16 <= t < 80)%nat -> nth t (schedule blk) 0 = next_word (schedule blk) t.
Proof. intros Ht. unfold schedule. apply extend_nth; rewrite length_fmap, length_seq; lia. Qed.

(** The ring holds the last sixteen words of the schedule [m]. *)
Definition ring (m W : list Z) (t : nat) : Prop :=
  length W = 16%nat /\ forall j, (j < t)%nat -> (t <= j + 16)%nat -> nth (j mod 16) W 0 = nth j m 0.

Lemma ring_start m W : length W = 16%nat -> ring m W 0.
Proof. intros H. split; [done|]. lia. Qed.
Lemma ring_step m W t : ring m W t -> ring m (<[(t mod 16)%nat := nth t m 0]> W) (S t).
Proof.
  intros [HW H]. split; [by rewrite length_insert|]. intros j Hj Hj'. pose proof (Nat.mod_upper_bound t 16 ltac:(lia)).
  destruct (decide (j = t)) as [->|Hn].
  - apply nth_lookup_Some. by rewrite list_lookup_insert_eq by lia.
  - rewrite <- (H j) by lia. rewrite !nth_lookup. f_equal. apply list_lookup_insert_ne.
    intros Heq. pose proof (Nat.div_mod_eq t 16). pose proof (Nat.div_mod_eq j 16). lia.
Qed.

(** The sixteen words are enough, whatever the schedule. *)
Lemma block_loop_rounds blk m : length m = 80%nat -> (forall t, (t < 16)%nat -> nth t m 0 = read64_be (drop (8 * t) blk)) ->
  (forall t, (16 <= t < 80)%nat -> nth t m 0 = next_word m t) ->
  forall ks t inp W v, (t + length ks = 80)%nat -> ring m W t ->
  ((t < 16)%nat -> inp = drop (8 * t) blk) -> block_loop ks t inp W v = rounds ks (drop t m) v.
Proof.
  intros Lm Hfirst Hnext. induction ks as [|Kt ks IH]; intros t inp W v Ht HR Hinp; [by destruct (drop t m)|].
  cbn [length] in Ht. destruct (lookup_lt_is_Some_2 m t) as [w Hw]; [lia|].
  rewrite (drop_S _ _ _ Hw). apply (nth_lookup_Some _ _ 0) in Hw as Hn.
  pose proof (ring_step m W t HR) as HR'. rewrite Hn in HR'. cbn [rounds block_loop].
  destruct (Nat.ltb_spec t 16) as [Hlt|Hge].
  - rewrite (Hinp Hlt), <- Hfirst, Hn by done. apply IH; [lia|done|].
    intros _. rewrite drop_drop. f_equal. lia.
  - destruct HR as [HW HR]. rewrite !HR by lia. pose proof (Hnext t ltac:(lia)) as Hs. rewrite Hn in Hs. unfold next_word in Hs.
    rewrite <- Hs. apply IH; [lia|done|lia].
Qed.

Lemma compress_transform h blk : compress h blk = transform h blk.
Proof.
  unfold compress, transform.
  rewrite (block_loop_rounds blk (schedule blk) (schedule_length blk) (schedule_first blk) (schedule_next blk));
    [by rewrite drop_0|done|by apply ring_start|].
  intros _. by rewrite Nat.mul_0_r, drop_0.
Qed.

(** ** The whole message *)

Lemma absorb_hash n : forall h b l, is_u32 b ->
  absorb 128 sha512_update_block n (mkHash h b) l = mkHash (transform_all n h l) (u32 (b + Z.of_nat n)).
Proof.
  induction n as [|n IH]; intros h b l Hb; cbn [absorb transform_all].
  - rewrite Z.add_0_r. by rewrite u32_small.
  - unfold sha512_update_block at 2. cbn [H blocks]. rewrite compress_transform, IH by apply u32_range. f_equal.
    unfold u32. rewrite Zplus_mod_idemp_l. f_equal. lia.
Qed.

(** [msg] was hashed from the initial value [h] on. *)
Definition hashed (h : words) : cf_sha512_context -> list Z -> Prop := rep 128 sha512_update_block (mkHash h 0).

Lemma hashed_init h : hashed h (zeroed h) [].
Proof. apply rep_start; [lia|done]. Qed.
Lemma hashed_update h c msg p : hashed h c msg -> exists c', cf_sha512_update c p = Done c' /\ hashed h c' (msg ++ p).
Proof. apply accumulate_rep. Qed.

Lemma hashed_blocks h c msg : hashed h c msg ->
  blocks (ctx c) = u32 (Z.of_nat (length msg / 128)) /\ npartial c = (length msg mod 128)%nat.
Proof.
  intros R. destruct (rep_length _ _ _ _ _ R) as (Hn & bs & _ & _ & Hc). split; [|done].
  by rewrite Hc, absorb_hash.
Qed.
Lemma hashed_full h c msg k : hashed h c msg -> length msg = (128 * k)%nat ->
  npartial c = 0%nat /\ H (ctx c) = transform_all k h msg.
Proof.
  intros R Hl. destruct (rep_length _ _ _ _ _ R) as (Hn & bs & Hbs & Hm & Hc).
  assert (Hk : (length msg / 128 = k)%nat) by (rewrite Hl, Nat.mul_comm; by apply Nat.div_mul).
  assert (Hz : npartial c = 0%nat) by (rewrite Hn, Hl, Nat.mul_comm; by apply Nat.Div0.mod_mul).
  split; [done|]. rewrite Hz, take_0, app_nil_r in Hm. subst bs. by rewrite Hc, Hk, absorb_hash.
Qed.

Lemma write64_be_zero_and z : 0 <= z < 2 ^ 64 -> write64_be 0 ++ write64_be z = be128 z.
Proof.
  intros Hz. assert (Hs : forall s, 64 <= s -> Z.shiftr z s = 0).
  { intros s Hs. rewrite Z.shiftr_div_pow2 by lia. apply Z.div_small. split; [lia|].
    apply (Z.lt_le_trans _ (2 ^ 64)); [lia|]. apply Z.pow_le_mono_r; lia. }
  change (be128 z) with [u8 (Z.shiftr z 120); u8 (Z.shiftr z 112); u8 (Z.shiftr z 104); u8 (Z.shiftr z 96); u8 (Z.shiftr z 88); u8 (Z.shiftr z 80); u8 (Z.shiftr z 72); u8 (Z.shiftr z 64); 
    u8 (Z.shiftr z 56); u8 (Z.shiftr z 48); u8 (Z.shiftr z 40); u8 (Z.shiftr z 32); u8 (Z.shiftr z 24); u8 (Z.shiftr z 16); u8 (Z.shiftr z 8); u8 (Z.shiftr z 0)].
  unfold write64_be. cbn [app]. rewrite (Hs 120), (Hs 112), (Hs 104), (Hs 96), (Hs 88), (Hs 80), (Hs 72), (Hs 64), Z.shiftr_0_r, !land_ff by lia. done.
Qed.

Lemma pad_bytes_zeros n : pad_bytes 0x80 0 0 (S n) = 0x80 :: zeros n.
Proof. destruct n as [|n]; [done|]. cbn [pad_bytes]. unfold zeros. f_equal. symmetry. exact (replicate_S_end n 0). Qed.

Lemma pad_length msg : exists k, length (pad msg) = (128 * k)%nat.
Proof.
  exists (Z.to_nat (1 - (111 - Z.of_nat (length msg)) / 128)).
  unfold pad, pad_zeros, zeros. rewrite length_app. cbn [length]. rewrite length_app, length_replicate.
  change (length (be128 _)) with 16%nat. pose proof (Z.div_mod (111 - Z.of_nat (length msg)) 128 ltac:(lia)).
  pose proof (Z.mod_pos_bound (111 - Z.of_nat (length msg)) 128 ltac:(lia)). lia.
Qed.

(** What [cf_sha512_digest_final] returns, up to the length that [blocks] can count. *)
Lemma digest_final_done h c msg : hashed h c msg -> Z.of_nat (length msg) < 2 ^ 39 ->
  cf_sha512_digest_final c = Done (sha2 h msg, zeroed (mkW 0 0 0 0 0 0 0 0)).
Proof.
  intros R Hl. destruct (hashed_blocks h c msg R) as [Hb Hn].
  assert (Hlen : u64 (u64 (blocks (ctx c) * 128) + Z.of_nat (npartial c)) = Z.of_nat (length msg)).
  { pose proof (Nat.div_mod_eq (length msg) 128). pose proof (Nat.mod_upper_bound (length msg) 128 ltac:(lia)).
    rewrite Hb, Hn, (u32_small (Z.of_nat (length msg / 128))) by (split; lia). 
    unfold u64. rewrite (Z.mod_small (_ * 128)), Z.mod_small by lia. lia. }
  unfold cf_sha512_digest_final. change (Z.of_nat CF_SHA512_BLOCKSZ) with 128. rewrite Hlen. clear Hlen.
  set (padbytes := (CF_SHA512_BLOCKSZ - _)%nat).
  assert (Hp : padbytes = S (pad_zeros (length msg))).
  { unfold padbytes, pad_zeros, CF_SHA512_BLOCKSZ. clear padbytes. unfold u64. rewrite Z.mod_small by lia.
    pose proof (Nat.div_mod_eq (Z.to_nat (Z.of_nat (length msg) + 16)) 128).
    pose proof (Nat.mod_upper_bound (Z.to_nat (Z.of_nat (length msg) + 16)) 128 ltac:(lia)).
    pose proof (Z.div_mod (111 - Z.of_nat (length msg)) 128 ltac:(lia)).
    pose proof (Z.mod_pos_bound (111 - Z.of_nat (length msg)) 128 ltac:(lia)). lia. }
  rewrite Hp. clearbody padbytes. clear Hp padbytes.
  destruct (acc_pad_rep CF_SHA512_BLOCKSZ sha512_update_block (mkHash h 0) 0x80 0 0 (S (pad_zeros (length msg))) c msg R) as (c1 & -> & R1). cbn [res_bind].
  rewrite pad_bytes_zeros in R1.
  destruct (hashed_update h c1 _ (write64_be 0) R1) as (c2 & -> & R2). cbn [res_bind].
  destruct (hashed_update h c2 _ (write64_be (u64 (Z.of_nat (length msg) * 8))) R2) as (c3 & -> & R3). cbn [res_bind].
  assert (Hm : u64 (Z.of_nat (length msg) * 8) = 8 * Z.of_nat (length msg)) by (unfold u64; rewrite Z.mod_small; lia).
  rewrite Hm, <- !app_assoc, write64_be_zero_and in R3 by lia. cbn [app] in R3.
  change (hashed h c3 (pad msg)) in R3. destruct (pad_length msg) as [k Hk].
  destruct (hashed_full h c3 _ k R3 Hk) as [-> ->]. cbn [Nat.eqb negb]. unfold sha2. rewrite Hk, (Nat.mul_comm 128), Nat.div_mul by lia. done.
Qed.

(** A sequence of [fido2_crypto_sha512_update] calls. *)
Fixpoint update_all (ps : list (list Z)) (c : cf_sha512_context) : res cf_sha512_context :=
  match ps with
  | [] => Done c
  | p :: ps => let! c := fido2_crypto_sha512_update p c in update_all ps c
  end.
Lemma update_all_hashed h ps : forall c msg, hashed h c msg ->
  exists c', update_all ps c = Done c' /\ hashed h c' (msg ++ concat ps).
Proof.
  induction ps as [|p ps IH]; intros c msg R; cbn [update_all concat]; [exists c; by rewrite app_nil_r|].
  destruct (hashed_update h c msg p R) as (c1 & E & R1). unfold fido2_crypto_sha512_update. rewrite E. cbn [res_bind].
  destruct (IH _ _ R1) as (c2 & H2 & R2). exists c2. by rewrite <- app_assoc in R2.
Qed.

(** C24: whatever the context held and in whatever pieces a message of less than
    2^39 bytes is given to [fido2_crypto_sha512_update] between
    [fido2_crypto_sha512_init] and [fido2_crypto_sha512_final], the result is the
    FIPS 180-4 digest of the whole message, no assertion of blockwise.c or of the
    padding fails, and the context is left zeroed. *)
Theorem sha512_streaming c ps : Z.of_nat (length (concat ps)) < 2 ^ 39 ->
  (let! c := update_all ps (fido2_crypto_sha512_init c) in fido2_crypto_sha512_final c)
  = Done (sha512 (concat ps), zeroed (mkW 0 0 0 0 0 0 0 0)).
Proof.
  intros Hl. destruct (update_all_hashed H512 ps _ [] (hashed_init H512)) as (c1 & E & R).
  unfold fido2_crypto_sha512_init, cf_sha512_init. rewrite E. cbn [res_bind]. by apply digest_final_done.
Qed.

Lemma sha512_streaming_witness :
  (let! c := update_all [replicate 100 7; []; replicate 30 9] (fido2_crypto_sha512_init (zeroed H384)) in fido2_crypto_sha512_final c)
  = Done (sha512 (concat [replicate 100 7; []; replicate 30 9]), zeroed (mkW 0 0 0 0 0 0 0 0)).
Proof. apply (sha512_streaming (zeroed H384)). reflexivity. Defined.

(** SHA-384 is the same hash from other initial values, cut short; the context of the caller is not changed by a digest. *)
Theorem sha384_digest_done ps : Z.of_nat (length (concat ps)) < 2 ^ 39 ->
  (let! c := update_all ps cf_sha384_init in cf_sha384_digest c) = Done (sha384 (concat ps)).
Proof.
  intros Hl. destruct (update_all_hashed H384 ps _ [] (hashed_init H384)) as (c1 & E & R).
  unfold cf_sha384_init. rewrite E. cbn [res_bind]. unfold cf_sha384_digest, cf_sha512_digest.
  rewrite (digest_final_done H384 c1 _ R Hl). cbn [res_bind]. done.
Qed.

End Sha512.
