(* ===== verification/Aes.v ===== *)
(** * AES-256 with CBC and CTR modes (src/crypto/tiny-AES-c/aes.c)

    Built with [AES256 = 1] (targets/tkey_app.mk): [Nk = 8], [Nr = 14].  A
    state is the 16 bytes of the buffer, [state[i][j]] its byte [4 * i + j].
    The main results: [InvCipher] inverts [Cipher], so CBC decryption inverts
    CBC encryption, and CTR mode xors the data with a key stream that does not
    depend on it. *)

From S2P Require Import Prelude.
From Stdlib Require Import Btauto.

Module Aes.

Definition Nb : nat := 4.
Definition Nk : nat := 8.
Definition Nr : nat := 14.
Definition AES_BLOCKLEN : nat := 16.
Definition AES_keyExpSize : nat := 240.

Definition sbox : list Z :=
  [0x63;0x7c;0x77;0x7b;0xf2;0x6b;0x6f;0xc5;0x30;0x01;0x67;0x2b;0xfe;0xd7;0xab;0x76;
   0xca;0x82;0xc9;0x7d;0xfa;0x59;0x47;0xf0;0xad;0xd4;0xa2;0xaf;0x9c;0xa4;0x72;0xc0;
   0xb7;0xfd;0x93;0x26;0x36;0x3f;0xf7;0xcc;0x34;0xa5;0xe5;0xf1;0x71;0xd8;0x31;0x15;
   0x04;0xc7;0x23;0xc3;0x18;0x96;0x05;0x9a;0x07;0x12;0x80;0xe2;0xeb;0x27;0xb2;0x75;
   0x09;0x83;0x2c;0x1a;0x1b;0x6e;0x5a;0xa0;0x52;0x3b;0xd6;0xb3;0x29;0xe3;0x2f;0x84;
   0x53;0xd1;0x00;0xed;0x20;0xfc;0xb1;0x5b;0x6a;0xcb;0xbe;0x39;0x4a;0x4c;0x58;0xcf;
   0xd0;0xef;0xaa;0xfb;0x43;0x4d;0x33;0x85;0x45;0xf9;0x02;0x7f;0x50;0x3c;0x9f;0xa8;
   0x51;0xa3;0x40;0x8f;0x92;0x9d;0x38;0xf5;0xbc;0xb6;0xda;0x21;0x10;0xff;0xf3;0xd2;
   0xcd;0x0c;0x13;0xec;0x5f;0x97;0x44;0x17;0xc4;0xa7;0x7e;0x3d;0x64;0x5d;0x19;0x73;
   0x60;0x81;0x4f;0xdc;0x22;0x2a;0x90;0x88;0x46;0xee;0xb8;0x14;0xde;0x5e;0x0b;0xdb;
   0xe0;0x32;0x3a;0x0a;0x49;0x06;0x24;0x5c;0xc2;0xd3;0xac;0x62;0x91;0x95;0xe4;0x79;
   0xe7;0xc8;0x37;0x6d;0x8d;0xd5;0x4e;0xa9;0x6c;0x56;0xf4;0xea;0x65;0x7a;0xae;0x08;
   0xba;0x78;0x25;0x2e;0x1c;0xa6;0xb4;0xc6;0xe8;0xdd;0x74;0x1f;0x4b;0xbd;0x8b;0x8a;
   0x70;0x3e;0xb5;0x66;0x48;0x03;0xf6;0x0e;0x61;0x35;0x57;0xb9;0x86;0xc1;0x1d;0x9e;
   0xe1;0xf8;0x98;0x11;0x69;0xd9;0x8e;0x94;0x9b;0x1e;0x87;0xe9;0xce;0x55;0x28;0xdf;
   0x8c;0xa1;0x89;0x0d;0xbf;0xe6;0x42;0x68;0x41;0x99;0x2d;0x0f;0xb0;0x54;0xbb;0x16].

Definition rsbox : list Z :=
  [0x52;0x09;0x6a;0xd5;0x30;0x36;0xa5;0x38;0xbf;0x40;0xa3;0x9e;0x81;0xf3;0xd7;0xfb;
   0x7c;0xe3;0x39;0x82;0x9b;0x2f;0xff;0x87;0x34;0x8e;0x43;0x44;0xc4;0xde;0xe9;0xcb;
   0x54;0x7b;0x94;0x32;0xa6;0xc2;0x23;0x3d;0xee;0x4c;0x95;0x0b;0x42;0xfa;0xc3;0x4e;
   0x08;0x2e;0xa1;0x66;0x28;0xd9;0x24;0xb2;0x76;0x5b;0xa2;0x49;0x6d;0x8b;0xd1;0x25;
   0x72;0xf8;0xf6;0x64;0x86;0x68;0x98;0x16;0xd4;0xa4;0x5c;0xcc;0x5d;0x65;0xb6;0x92;
   0x6c;0x70;0x48;0x50;0xfd;0xed;0xb9;0xda;0x5e;0x15;0x46;0x57;0xa7;0x8d;0x9d;0x84;
   0x90;0xd8;0xab;0x00;0x8c;0xbc;0xd3;0x0a;0xf7;0xe4;0x58;0x05;0xb8;0xb3;0x45;0x06;
   0xd0;0x2c;0x1e;0x8f;0xca;0x3f;0x0f;0x02;0xc1;0xaf;0xbd;0x03;0x01;0x13;0x8a;0x6b;
   0x3a;0x91;0x11;0x41;0x4f;0x67;0xdc;0xea;0x97;0xf2;0xcf;0xce;0xf0;0xb4;0xe6;0x73;
   0x96;0xac;0x74;0x22;0xe7;0xad;0x35;0x85;0xe2;0xf9;0x37;0xe8;0x1c;0x75;0xdf;0x6e;
   0x47;0xf1;0x1a;0x71;0x1d;0x29;0xc5;0x89;0x6f;0xb7;0x62;0x0e;0xaa;0x18;0xbe;0x1b;
   0xfc;0x56;0x3e;0x4b;0xc6;0xd2;0x79;0x20;0x9a;0xdb;0xc0;0xfe;0x78;0xcd;0x5a;0xf4;
   0x1f;0xdd;0xa8;0x33;0x88;0x07;0xc7;0x31;0xb1;0x12;0x10;0x59;0x27;0x80;0xec;0x5f;
   0x60;0x51;0x7f;0xa9;0x19;0xb5;0x4a;0x0d;0x2d;0xe5;0x7a;0x9f;0x93;0xc9;0x9c;0xef;
   0xa0;0xe0;0x3b;0x4d;0xae;0x2a;0xf5;0xb0;0xc8;0xeb;0xbb;0x3c;0x83;0x53;0x99;0x61;
   0x17;0x2b;0x04;0x7e;0xba;0x77;0xd6;0x26;0xe1;0x69;0x14;0x63;0x55;0x21;0x0c;0x7d].

Definition Rcon : list Z :=
  [0x8d;0x01;0x02;0x04;0x08;0x10;0x20;0x40;0x80;0x1b;0x36].

Definition getSBoxValue (n : Z) : Z := nth (Z.to_nat n) sbox 0.
Definition getSBoxInvert (n : Z) : Z := nth (Z.to_nat n) rsbox 0.

(** ** Key schedule *)

Definition RotWord (t : list Z) : list Z :=
  match t with
  | [a; b; c; d] => [b; c; d; a]
  | _ => t
  end.
Definition SubWord (t : list Z) : list Z := getSBoxValue <$> t.

(** The word [tempa] of step [i], from the round keys so far. *)
Definition schedule_word (i : nat) (rk : list Z) : list Z :=
  let tempa := slice ((i - 1) * 4) 4 rk in
  let tempa :=
    if (i mod Nk =? 0)%nat then
      let t := SubWord (RotWord tempa) in
      match t with
      | a :: t => Z.lxor a (nth (i / Nk) Rcon 0) :: t
      | [] => []
      end
    else tempa in
  if (i mod Nk =? 4)%nat then SubWord tempa else tempa.

Definition xor_bytes (a b : list Z) : list Z := zip_with Z.lxor a b.

(** Steps [i], [i + 1], ..., [n] of them. *)
Fixpoint expand_from (n i : nat) (rk : list Z) : list Z :=
  match n with
  | O => rk
  | S n =>
      expand_from n (S i) (rk ++ xor_bytes (slice ((i - Nk) * 4) 4 rk) (schedule_word i rk))
  end.

Definition KeyExpansion (key : list Z) : list Z :=
  expand_from (Nb * (Nr + 1) - Nk) Nk (take (4 * Nk) key).

Record AES_ctx := mkAes {
  RoundKey : list Z;
  Iv : list Z;
}.
#[export] Instance eta_AES_ctx : Eta AES_ctx := fun c => mkAes (RoundKey c) (Iv c).

Definition AES_init_ctx (c : AES_ctx) (key : list Z) : AES_ctx :=
  c <| RoundKey := KeyExpansion key |>.
Definition AES_init_ctx_iv (key iv : list Z) : AES_ctx :=
  mkAes (KeyExpansion key) (take AES_BLOCKLEN iv).
Definition AES_ctx_set_iv (c : AES_ctx) (iv : list Z) : AES_ctx :=
  c <| Iv := take AES_BLOCKLEN iv |>.

(** ** The rounds *)

Definition AddRoundKey (round : nat) (rk : list Z) (s : list Z) : list Z :=
  xor_bytes s (slice (round * Nb * 4) 16 rk).

Definition SubBytes (s : list Z) : list Z := getSBoxValue <$> s.
Definition InvSubBytes (s : list Z) : list Z := getSBoxInvert <$> s.

(** [state[i][j]], read and written. *)
Definition get (s : list Z) (i j : nat) : Z := nth (4 * i + j) s 0.
Definition put (i j : nat) (v : Z) (s : list Z) : list Z := <[(4 * i + j)%nat := v]> s.

Definition ShiftRows (s : list Z) : list Z :=
  let temp := get s 0 1 in
  let s := put 0 1 (get s 1 1) s in
  let s := put 1 1 (get s 2 1) s in
  let s := put 2 1 (get s 3 1) s in
  let s := put 3 1 temp s in
  let temp := get s 0 2 in
  let s := put 0 2 (get s 2 2) s in
  let s := put 2 2 temp s in
  let temp := get s 1 2 in
  let s := put 1 2 (get s 3 2) s in
  let s := put 3 2 temp s in
  let temp := get s 0 3 in
  let s := put 0 3 (get s 3 3) s in
  let s := put 3 3 (get s 2 3) s in
  let s := put 2 3 (get s 1 3) s in
  put 1 3 temp s.

Definition InvShiftRows (s : list Z) : list Z :=
  let temp := get s 3 1 in
  let s := put 3 1 (get s 2 1) s in
  let s := put 2 1 (get s 1 1) s in
  let s := put 1 1 (get s 0 1) s in
  let s := put 0 1 temp s in
  let temp := get s 0 2 in
  let s := put 0 2 (get s 2 2) s in
  let s := put 2 2 temp s in
  let temp := get s 1 2 in
  let s := put 1 2 (get s 3 2) s in
  let s := put 3 2 temp s in
  let temp := get s 0 3 in
  let s := put 0 3 (get s 1 3) s in
  let s := put 1 3 (get s 2 3) s in
  let s := put 2 3 (get s 3 3) s in
  put 3 3 temp s.

Definition xtime (x : Z) : Z :=
  u8 (Z.lxor (Z.shiftl x 1) (Z.land (Z.shiftr x 7) 1 * 0x1b)).

(** One column of [MixColumns]. *)
Definition mix_column (s : list Z) (i : nat) : list Z :=
  let t := get s i 0 in
  let Tmp := Z.lxor (Z.lxor (Z.lxor (get s i 0) (get s i 1)) (get s i 2)) (get s i 3) in
  let Tm := xtime (Z.lxor (get s i 0) (get s i 1)) in
  let s := put i 0 (Z.lxor (get s i 0) (Z.lxor Tm Tmp)) s in
  let Tm := xtime (Z.lxor (get s i 1) (get s i 2)) in
  let s := put i 1 (Z.lxor (get s i 1) (Z.lxor Tm Tmp)) s in
  let Tm := xtime (Z.lxor (get s i 2) (get s i 3)) in
  let s := put i 2 (Z.lxor (get s i 2) (Z.lxor Tm Tmp)) s in
  let Tm := xtime (Z.lxor (get s i 3) t) in
  put i 3 (Z.lxor (get s i 3) (Z.lxor Tm Tmp)) s.

Definition MixColumns (s : list Z) : list Z := fold_left mix_column [0; 1; 2; 3]%nat s.

Definition Multiply (x y : Z) : Z :=
  Z.lxor (Z.lxor (Z.lxor (Z.lxor
    (Z.land y 1 * x)
    (Z.land (Z.shiftr y 1) 1 * xtime x))
    (Z.land (Z.shiftr y 2) 1 * xtime (xtime x)))
    (Z.land (Z.shiftr y 3) 1 * xtime (xtime (xtime x))))
    (Z.land (Z.shiftr y 4) 1 * xtime (xtime (xtime (xtime x)))).

Definition inv_mix_column (s : list Z) (i : nat) : list Z :=
  let a := get s i 0 in
  let b := get s i 1 in
  let c := get s i 2 in
  let d := get s i 3 in
  let row w x y z :=
    Z.lxor (Z.lxor (Z.lxor (Multiply a w) (Multiply b x)) (Multiply c y)) (Multiply d z) in
  let s := put i 0 (row 0x0e 0x0b 0x0d 0x09) s in
  let s := put i 1 (row 0x09 0x0e 0x0b 0x0d) s in
  let s := put i 2 (row 0x0d 0x09 0x0e 0x0b) s in
  put i 3 (row 0x0b 0x0d 0x09 0x0e) s.

Definition InvMixColumns (s : list Z) : list Z := fold_left inv_mix_column [0; 1; 2; 3]%nat s.

(** ** The block cipher *)

Definition cipher_round (rk : list Z) (s : list Z) (round : nat) : list Z :=
  AddRoundKey round rk (MixColumns (ShiftRows (SubBytes s))).

Definition Cipher (rk : list Z) (s : list Z) : list Z :=
  let s := AddRoundKey 0 rk s in
  let s := fold_left (cipher_round rk) (seq 1 (Nr - 1)) s in
  AddRoundKey Nr rk (ShiftRows (SubBytes s)).

Definition inv_cipher_round (rk : list Z) (s : list Z) (round : nat) : list Z :=
  InvMixColumns (AddRoundKey round rk (InvSubBytes (InvShiftRows s))).

Definition InvCipher (rk : list Z) (s : list Z) : list Z :=
  let s := AddRoundKey Nr rk s in
  let s := fold_left (inv_cipher_round rk) (rev (seq 1 (Nr - 1))) s in
  AddRoundKey 0 rk (InvSubBytes (InvShiftRows s)).

(** ** CBC: [n] blocks of the memory at [buf] *)

Definition XorWithIv (buf iv : list Z) : list Z := xor_bytes buf iv.

Definition blocks_of (len : Z) : nat := Z.to_nat ((len + 15) / 16).

Fixpoint cbc_encrypt_blocks (n : nat) (rk iv buf : list Z) : res (list Z * list Z) :=
  match n with
  | O => Done (iv, buf)
  | S n =>
      let! blk := mem_read buf 0 AES_BLOCKLEN in
      let c := Cipher rk (XorWithIv blk iv) in
      let! (iv, rest) := cbc_encrypt_blocks n rk c (drop AES_BLOCKLEN buf) in
      Done (iv, c ++ rest)
  end.

Definition AES_CBC_encrypt_buffer (c : AES_ctx) (buf : list Z) (len : Z)
    : res (AES_ctx * list Z) :=
  let! (iv, out) := cbc_encrypt_blocks (blocks_of len) (RoundKey c) (Iv c) buf in
  Done (c <| Iv := iv |>, out).

Fixpoint cbc_decrypt_blocks (n : nat) (rk iv buf : list Z) : res (list Z * list Z) :=
  match n with
  | O => Done (iv, buf)
  | S n =>
      let! storeNextIv := mem_read buf 0 AES_BLOCKLEN in
      let p := XorWithIv (InvCipher rk storeNextIv) iv in
      let! (iv, rest) := cbc_decrypt_blocks n rk storeNextIv (drop AES_BLOCKLEN buf) in
      Done (iv, p ++ rest)
  end.

Definition AES_CBC_decrypt_buffer (c : AES_ctx) (buf : list Z) (len : Z)
    : res (AES_ctx * list Z) :=
  let! (iv, out) := cbc_decrypt_blocks (blocks_of len) (RoundKey c) (Iv c) buf in
  Done (c <| Iv := iv |>, out).

(** ** CTR *)

(** The inner [for (bi = 15; bi >= 0; --bi)], on the reversed counter. *)
Fixpoint incr_rev (l : list Z) : list Z :=
  match l with
  | [] => []
  | b :: l => if b =? 255 then 0 :: incr_rev l else u8 (b + 1) :: l
  end.
Definition incr_iv (iv : list Z) : list Z := rev (incr_rev (rev iv)).

(** The loop over the data; [bi] is the index into the key stream block and
    [enc] the block cipher under the round keys of the context. *)
Fixpoint ctr_bytes (enc : list Z -> list Z) (l : list Z) (bi : nat) (buffer iv : list Z)
    : list Z * list Z :=
  match l with
  | [] => ([], iv)
  | b :: l =>
      let '(bi, buffer, iv) :=
        if (bi =? AES_BLOCKLEN)%nat then (0%nat, enc iv, incr_iv iv)
        else (bi, buffer, iv) in
      let '(out, iv') := ctr_bytes enc l (S bi) buffer iv in
      (Z.lxor b (nth bi buffer 0) :: out, iv')
  end.

Definition AES_CTR_xcrypt_buffer (c : AES_ctx) (buf : list Z) (len : Z)
    : res (AES_ctx * list Z) :=
  let! l := mem_read buf 0 (Z.to_nat len) in
  let '(out, iv) := ctr_bytes (Cipher (RoundKey c)) l AES_BLOCKLEN (zeros AES_BLOCKLEN) (Iv c) in
  Done (c <| Iv := iv |>, out ++ drop (Z.to_nat len) buf).

(** FIPS 197, appendix C.3. *)
Example fips197_c3 :
  Cipher (KeyExpansion (Z.of_nat <$> seq 0 32)) ((fun i => 17 * Z.of_nat i) <$> seq 0 16)
  = [0x8e;0xa2;0xb7;0xca;0x51;0x67;0x45;0xbf;0xea;0xfc;0x49;0x90;0x4b;0x49;0x60;0x89].
Proof. vm_compute. reflexivity. Qed.

(** ** Bytes under xor *)

Lemma is_byte_mod z : is_byte z <-> z mod 2 ^ 8 = z.
Proof.
  unfold is_byte. split; [intros; apply Z.mod_small; lia|].
  intros <-. apply Z.mod_pos_bound. lia.
Qed.

Lemma lxor_mod a b k : 0 <= k -> Z.lxor a b mod 2 ^ k = Z.lxor (a mod 2 ^ k) (b mod 2 ^ k).
Proof.
  intros Hk. apply Z.bits_inj'. intros n Hn. rewrite Z.lxor_spec.
  destruct (decide (n < k)).
  - rewrite !Z.mod_pow2_bits_low, Z.lxor_spec by lia. done.
  - rewrite !Z.mod_pow2_bits_high by lia. done.
Qed.

Lemma lxor_byte a b : is_byte a -> is_byte b -> is_byte (Z.lxor a b).
Proof. rewrite !is_byte_mod. intros Ha Hb. by rewrite lxor_mod, Ha, Hb by lia. Qed.
#[export] Hint Resolve lxor_byte : tkey.

Lemma lxor_cancel a b : Z.lxor (Z.lxor a b) b = a.
Proof. by rewrite Z.lxor_assoc, Z.lxor_nilpotent, Z.lxor_0_r. Qed.

Lemma xor_bytes_length a b : (length a <= length b)%nat -> length (xor_bytes a b) = length a.
Proof. intros. unfold xor_bytes. rewrite length_zip_with. lia. Qed.

Lemma xor_bytes_bytes a b : bytes a -> bytes b -> bytes (xor_bytes a b).
Proof.
  intros Ha. revert b. induction Ha as [|x a Hx Ha IH]; intros b Hb; [by constructor|].
  destruct Hb as [|y b Hy Hb]; [by constructor|]. constructor; [by apply lxor_byte|by apply IH].
Qed.

Lemma xor_bytes_cancel a : forall b,
  (length a <= length b)%nat -> xor_bytes (xor_bytes a b) b = a.
Proof.
  induction a as [|x a IH]; intros [|y b] Hl; cbn in *; try done; try lia.
  f_equal; [apply lxor_cancel|apply IH; lia].
Qed.

(** ** A state: 16 bytes *)

Definition block (s : list Z) : Prop := length s = 16%nat /\ bytes s.
Definition round_keys (rk : list Z) : Prop := length rk = AES_keyExpSize /\ bytes rk.

(** The 16 bytes of a state, named. *)
Lemma state_cases (s : list Z) : length s = 16%nat ->
  exists a0 a1 a2 a3 a4 a5 a6 a7 a8 a9 a10 a11 a12 a13 a14 a15,
    s = [a0; a1; a2; a3; a4; a5; a6; a7; a8; a9; a10; a11; a12; a13; a14; a15].
Proof.
  intros Hl. do 16 (destruct s as [|? s]; [discriminate Hl|]). destruct s; [|discriminate Hl].
  by repeat eexists.
Qed.
Ltac name_state s Hl :=
  destruct (state_cases s Hl) as (?&?&?&?&?&?&?&?&?&?&?&?&?&?&?&?& ->).

Lemma AddRoundKey_block r rk s :
  (r <= Nr)%nat -> round_keys rk -> block s -> block (AddRoundKey r rk s).
Proof.
  unfold Nr, block, round_keys, AddRoundKey, AES_keyExpSize. intros Hr [Hk Hb] [Hl Hs].
  split; [|eauto using xor_bytes_bytes with tkey].
  rewrite xor_bytes_length; [done|]. rewrite slice_length; unfold Nb; lia.
Qed.

Lemma AddRoundKey_involutive r rk s :
  (r <= Nr)%nat -> round_keys rk -> block s -> AddRoundKey r rk (AddRoundKey r rk s) = s.
Proof.
  unfold Nr, block, round_keys, AddRoundKey, AES_keyExpSize. intros Hr [Hk Hb] [Hl Hs].
  apply xor_bytes_cancel. rewrite slice_length; unfold Nb; lia.
Qed.

(** A property of all bytes, checked on each. *)
Lemma byte_forall (P : Z -> bool) :
  forallb (fun n => P (Z.of_nat n)) (seq 0 256) = true -> forall b, is_byte b -> P b = true.
Proof.
  rewrite forallb_forall. unfold is_byte. intros H b Hb. rewrite <- (Z2Nat.id b) by lia.
  apply H. apply in_seq. lia.
Qed.

Lemma sbox_byte b : is_byte b -> is_byte (getSBoxValue b).
Proof.
  intros Hb. apply (bool_decide_eq_true (is_byte (getSBoxValue b))).
  revert b Hb. apply byte_forall. vm_compute. reflexivity.
Qed.

Lemma sbox_inverse b : is_byte b -> getSBoxInvert (getSBoxValue b) = b.
Proof.
  intros Hb. apply Z.eqb_eq. revert b Hb. apply byte_forall. vm_compute. reflexivity.
Qed.

Lemma SubBytes_block s : block s -> block (SubBytes s).
Proof.
  intros [Hl Hb]. split; [by unfold SubBytes; rewrite length_fmap|].
  apply Forall_fmap. eapply Forall_impl; [done|]. apply sbox_byte.
Qed.

Lemma InvSubBytes_SubBytes s : block s -> InvSubBytes (SubBytes s) = s.
Proof.
  intros [_ Hb]. unfold InvSubBytes, SubBytes. induction Hb; [done|]. cbn.
  f_equal; [by apply sbox_inverse|done].
Qed.

Lemma ShiftRows_block s : block s -> block (ShiftRows s).
Proof.
  intros [Hl Hb]. name_state s Hl. split; [done|].
  cbv -[is_byte]. repeat rewrite Forall_cons in Hb. repeat rewrite Forall_cons. tauto.
Qed.

Lemma InvShiftRows_ShiftRows s : block s -> InvShiftRows (ShiftRows s) = s.
Proof. intros [Hl _]. name_state s Hl. reflexivity. Qed.

(** ** The columns: arithmetic in GF(2^8) *)

Lemma land_1_bit x : Z.land x 1 = Z.b2z (Z.testbit x 0).
Proof. change 1 with (Z.ones 1) at 1. rewrite Z.land_ones by lia. by rewrite <- Z.bit0_mod. Qed.

(** [xtime] is linear. *)
Lemma xtime_lxor a b : xtime (Z.lxor a b) = Z.lxor (xtime a) (xtime b).
Proof.
  unfold xtime, u8. rewrite <- lxor_mod by lia. f_equal.
  rewrite !land_1_bit, !Z.shiftr_spec, Z.lxor_spec, Z.shiftl_lxor by lia.
  generalize (Z.shiftl a 1) (Z.shiftl b 1). intros p q.
  destruct (Z.testbit a _), (Z.testbit b _); cbn [xorb Z.b2z]; apply Z.bits_inj'; intros n _;
    rewrite ?Z.mul_1_l, ?Z.mul_0_l, ?Z.lxor_spec, ?Z.bits_0; btauto.
Qed.

Lemma xtime_byte x : is_byte (xtime x).
Proof. apply u8_byte. Qed.
#[export] Hint Resolve xtime_byte : tkey.

#[local] Arguments xtime : simpl never.
#[local] Arguments Multiply : simpl never.

(** The four products of [InvMixColumns]. *)
#[local] Ltac multiply_const :=
  unfold Multiply;
  repeat match goal with |- context [Z.land ?a 1] =>
    let b := eval vm_compute in (Z.land a 1) in change (Z.land a 1) with b end;
  by rewrite ?Z.mul_0_l, ?Z.mul_1_l, ?Z.lxor_0_l, ?Z.lxor_0_r.
Lemma Multiply_0e x : Multiply x 0x0e = Z.lxor (Z.lxor (xtime x) (xtime (xtime x))) (xtime (xtime (xtime x))).
Proof.
  multiply_const.
Qed.
Lemma Multiply_0b x : Multiply x 0x0b = Z.lxor (Z.lxor x (xtime x)) (xtime (xtime (xtime x))).
Proof.
  multiply_const.
Qed.
Lemma Multiply_0d x : Multiply x 0x0d = Z.lxor (Z.lxor x (xtime (xtime x))) (xtime (xtime (xtime x))).
Proof.
  multiply_const.
Qed.
Lemma Multiply_09 x : Multiply x 0x09 = Z.lxor x (xtime (xtime (xtime x))).
Proof.
  multiply_const.
Qed.

(** An identity between xors of atoms. *)
Ltac xor_ring := apply Z.bits_inj'; intros ? _; rewrite ?Z.lxor_spec; btauto.

(** A byte of a mixed column, [t] being the xor of the column. *)
Definition mixed (t a b : Z) : Z := Z.lxor a (Z.lxor (xtime (Z.lxor a b)) t).

(** The first row of the inverse matrix on a mixed column. *)
Lemma inv_mix_row t a b c d : t = Z.lxor (Z.lxor (Z.lxor a b) c) d ->
  Z.lxor (Z.lxor (Z.lxor (Multiply (mixed t a b) 0x0e) (Multiply (mixed t b c) 0x0b))
    (Multiply (mixed t c d) 0x0d)) (Multiply (mixed t d a) 0x09) = a.
Proof.
  intros ->. unfold mixed. rewrite Multiply_0e, Multiply_0b, Multiply_0d, Multiply_09, !xtime_lxor.
  xor_ring.
Qed.

Lemma lxor_rot a b c d :
  Z.lxor (Z.lxor (Z.lxor a b) c) d = Z.lxor (Z.lxor (Z.lxor b c) d) a.
Proof. xor_ring. Qed.

#[local] Ltac inv_mix_solve :=
  first [apply inv_mix_row; xor_ring | etransitivity; [apply lxor_rot|inv_mix_solve]].

Definition mix4 (a b c d : Z) : list Z :=
  let t := Z.lxor (Z.lxor (Z.lxor a b) c) d in
  [mixed t a b; mixed t b c; mixed t c d; mixed t d a].

Definition inv_mix4 (a b c d : Z) : list Z :=
  let row w x y z :=
    Z.lxor (Z.lxor (Z.lxor (Multiply a w) (Multiply b x)) (Multiply c y)) (Multiply d z) in
  [row 0x0e 0x0b 0x0d 0x09; row 0x09 0x0e 0x0b 0x0d; row 0x0d 0x09 0x0e 0x0b;
   row 0x0b 0x0d 0x09 0x0e].

Lemma inv_mix4_mix4 a b c d :
  match mix4 a b c d with
  | [w; x; y; z] => inv_mix4 w x y z = [a; b; c; d]
  | _ => False
  end.
Proof. unfold mix4, inv_mix4. repeat f_equal; inv_mix_solve. Qed.

(** [MixColumns] and its inverse work on each column. *)
Lemma MixColumns_columns a0 a1 a2 a3 b0 b1 b2 b3 c0 c1 c2 c3 d0 d1 d2 d3 :
  MixColumns [a0; a1; a2; a3; b0; b1; b2; b3; c0; c1; c2; c3; d0; d1; d2; d3]
  = mix4 a0 a1 a2 a3 ++ mix4 b0 b1 b2 b3 ++ mix4 c0 c1 c2 c3 ++ mix4 d0 d1 d2 d3.
Proof. reflexivity. Qed.

Lemma InvMixColumns_columns a0 a1 a2 a3 b0 b1 b2 b3 c0 c1 c2 c3 d0 d1 d2 d3 :
  InvMixColumns [a0; a1; a2; a3; b0; b1; b2; b3; c0; c1; c2; c3; d0; d1; d2; d3]
  = inv_mix4 a0 a1 a2 a3 ++ inv_mix4 b0 b1 b2 b3 ++ inv_mix4 c0 c1 c2 c3 ++ inv_mix4 d0 d1 d2 d3.
Proof. reflexivity. Qed.

Lemma InvMixColumns_MixColumns s : block s -> InvMixColumns (MixColumns s) = s.
Proof.
  intros [Hl _]. name_state s Hl. rewrite MixColumns_columns. unfold mix4; cbn [app].
  rewrite InvMixColumns_columns. by rewrite !(inv_mix4_mix4 _ _ _ _).
Qed.

Lemma mix4_bytes a b c d : bytes [a; b; c; d] -> bytes (mix4 a b c d).
Proof.
  rewrite !Forall_cons. intros (?&?&?&?&_).
  repeat (constructor; [unfold mixed; auto 7 with tkey|]). constructor.
Qed.

Lemma MixColumns_block s : block s -> block (MixColumns s).
Proof.
  intros [Hl Hb]. name_state s Hl. split; [done|]. rewrite MixColumns_columns.
  rewrite !Forall_cons in Hb. destruct_and!.
  do 3 (apply Forall_app_2; [apply mix4_bytes; by rewrite !Forall_cons|]).
  apply mix4_bytes. by rewrite !Forall_cons.
Qed.

(** ** The cipher and its inverse *)

#[local] Opaque AddRoundKey SubBytes InvSubBytes ShiftRows InvShiftRows MixColumns InvMixColumns.

(** Unfolding with an abstract step keeps the step folded. *)
Lemma fold_left_step {A B} (f : A -> B -> A) b l a :
  fold_left f (b :: l) a = fold_left f l (f a b).
Proof. done. Qed.

Section Keyed.
Context (rk : list Z) (Hrk : round_keys rk).

Lemma cipher_rounds_block rs : forall s,
  Forall (fun r => (r <= Nr)%nat) rs -> block s -> block (fold_left (cipher_round rk) rs s).
Proof.
  induction rs as [|r rs IH]; intros s Hr Hs; [done|].
  rewrite fold_left_step. inversion Hr; subst. apply IH; [done|]. by apply AddRoundKey_block, MixColumns_block, ShiftRows_block, SubBytes_block.
Qed.

Lemma inv_rounds rs s :
  Forall (fun r => (r <= Nr)%nat) rs -> block s ->
  fold_left (inv_cipher_round rk) (rev rs)
    (ShiftRows (SubBytes (fold_left (cipher_round rk) rs s))) = ShiftRows (SubBytes s).
Proof.
  induction rs as [|r rs IH] using rev_ind; intros Hr Hs; [done|].
  apply Forall_app in Hr as [Hrs Hr]. inversion Hr; subst.
  rewrite rev_app_distr, (fold_left_app (cipher_round rk)). cbn [rev app].
  rewrite !fold_left_step.
  change (fold_left (cipher_round rk) [] ?x) with x.
  pose proof (cipher_rounds_block rs s Hrs Hs) as Hb.
  set (x := fold_left (cipher_round rk) rs s) in *.
  replace (inv_cipher_round rk (ShiftRows (SubBytes (cipher_round rk x r))) r)
    with (ShiftRows (SubBytes x)); [by apply IH|].
  pose proof (ShiftRows_block _ (SubBytes_block _ Hb)) as Hb1.
  pose proof (MixColumns_block _ Hb1) as Hb2.
  assert (Hb3 : block (cipher_round rk x r)) by (by apply AddRoundKey_block).
  unfold inv_cipher_round. rewrite InvShiftRows_ShiftRows by (by apply SubBytes_block).
  rewrite InvSubBytes_SubBytes by done. unfold cipher_round.
  rewrite AddRoundKey_involutive by done. by rewrite InvMixColumns_MixColumns by done.
Qed.

Lemma rounds_le : Forall (fun r => (r <= Nr)%nat) (seq 1 (Nr - 1)).
Proof. apply List.Forall_forall. intros r Hr%in_seq. unfold Nr in *. lia. Qed.

Lemma Cipher_block s : block s -> block (Cipher rk s).
Proof.
  intros Hs. unfold Cipher. apply AddRoundKey_block; [done..|].
  apply ShiftRows_block, SubBytes_block, cipher_rounds_block; [apply rounds_le|].
  apply AddRoundKey_block; [unfold Nr; lia|done..].
Qed.

Lemma InvCipher_Cipher s : block s -> InvCipher rk (Cipher rk s) = s.
Proof.
  intros Hs. unfold InvCipher, Cipher.
  assert (Ha : block (AddRoundKey 0 rk s)) by (apply AddRoundKey_block; [unfold Nr; lia|done..]).
  rewrite AddRoundKey_involutive; [|done|done|].
  2:{ apply ShiftRows_block, SubBytes_block, cipher_rounds_block; [apply rounds_le|done]. }
  rewrite inv_rounds by (apply rounds_le || done).
  rewrite InvShiftRows_ShiftRows by (by apply SubBytes_block).
  rewrite InvSubBytes_SubBytes by done.
  apply AddRoundKey_involutive; [unfold Nr; lia|done..].
Qed.

#[local] Opaque Cipher InvCipher.

(** ** CBC *)

Lemma mem_read_front (a b : list Z) n :
  length a = n -> mem_read (a ++ b) 0 n = Done a.
Proof.
  intros Ha. unfold mem_read, slice. rewrite decide_True by (rewrite length_app; lia).
  by rewrite drop_0, take_app_length'.
Qed.

Lemma cbc_roundtrip n : forall iv p q,
  block iv -> bytes p -> length p = (16 * n)%nat ->
  exists c iv1 iv2, cbc_encrypt_blocks n rk iv (p ++ q) = Done (iv1, c ++ q) /\
    bytes c /\ length c = length p /\
    forall q', cbc_decrypt_blocks n rk iv (c ++ q') = Done (iv2, p ++ q').
Proof.
  induction n as [|n IH]; intros iv p q Hiv Hp Hl.
  { destruct p; [|done]. exists [], iv, iv. done. }
  assert (exists b r, p = b ++ r /\ length b = 16%nat) as (b & r & -> & Hb).
  { exists (take 16 p), (drop 16 p). rewrite take_drop, length_take. split; [done|lia]. }
  apply Forall_app in Hp as [Hb' Hr]. rewrite length_app in Hl.
  assert (Hx : block (XorWithIv b iv)).
  { destruct Hiv. split; [|by apply xor_bytes_bytes].
    unfold XorWithIv. rewrite xor_bytes_length; lia. }
  pose proof (Cipher_block _ Hx) as Hc. set (c0 := Cipher rk (XorWithIv b iv)) in *.
  destruct (IH c0 r q Hc Hr ltac:(lia)) as (c & iv1 & iv2 & He & Hcb & Hcl & Hd).
  exists (c0 ++ c), iv1, iv2. destruct Hc as [Hc1 Hc2]. repeat split.
  - cbn [cbc_encrypt_blocks]. rewrite <- app_assoc, mem_read_front by done. cbn [res_bind].
    fold c0. rewrite drop_app_length' by done. rewrite He. cbn [res_bind]. by rewrite <- app_assoc.
  - by apply Forall_app.
  - rewrite !length_app. lia.
  - intros q'. cbn [cbc_decrypt_blocks]. rewrite <- app_assoc, mem_read_front by done.
    cbn [res_bind]. rewrite drop_app_length' by done. rewrite Hd. cbn [res_bind].
    unfold c0. rewrite InvCipher_Cipher by done. unfold XorWithIv.
    rewrite xor_bytes_cancel by (destruct Hiv; lia). by rewrite <- app_assoc.
Qed.

End Keyed.

(** ** CTR: the key stream *)

Section Ctr.
Context (enc : list Z -> list Z) (Henc : forall v, block v -> block (enc v)).

(** The first [n] blocks of the key stream from counter [iv]. *)
Fixpoint key_stream (n : nat) (iv : list Z) : list Z :=
  match n with
  | O => []
  | S n => enc iv ++ key_stream n (incr_iv iv)
  end.

Lemma incr_rev_block l : bytes l -> bytes (incr_rev l) /\ length (incr_rev l) = length l.
Proof.
  induction 1 as [|b l Hb Hl [IH1 IH2]]; cbn; [by split|]. destruct (b =? 255); cbn.
  - rewrite IH2. split; [|done]. constructor; [done|done].
  - split; [|done]. constructor; [apply u8_byte|done].
Qed.

Lemma incr_iv_block iv : block iv -> block (incr_iv iv).
Proof.
  intros [Hl Hb]. unfold incr_iv. destruct (incr_rev_block (rev iv)) as [H1 H2].
  { by apply Forall_rev. }
  split; [rewrite length_rev, H2, length_rev; done|by apply Forall_rev].
Qed.

Lemma key_stream_length n : forall v, block v -> length (key_stream n v) = (16 * n)%nat.
Proof.
  induction n as [|n IH]; intros v Hv; [done|]. cbn [key_stream].
  rewrite length_app, IH by (by apply incr_iv_block). rewrite (proj1 (Henc _ Hv)). lia.
Qed.

Lemma xor_bytes_cons b l k ks : xor_bytes (b :: l) (k :: ks) = Z.lxor b k :: xor_bytes l ks.
Proof. done. Qed.

(** From index [bi] of a key stream block on. *)
Lemma ctr_bytes_stream l : forall n bi buffer iv,
  block iv -> length buffer = 16%nat -> (bi <= 16)%nat -> (length l <= 16 - bi + 16 * n)%nat ->
  exists iv', ctr_bytes enc l bi buffer iv
    = (xor_bytes l (drop bi buffer ++ key_stream n iv), iv').
Proof.
  induction l as [|b l IH]; intros n bi buffer iv Hiv Hbf Hbi Hn; [by exists iv|].
  cbn [ctr_bytes length] in *. unfold AES_BLOCKLEN in *.
  destruct (bi =? 16)%nat eqn:E.
  - apply Nat.eqb_eq in E. destruct n as [|n]; [lia|].
    pose proof (Henc _ Hiv) as [Hc _]. pose proof (incr_iv_block _ Hiv) as Hi.
    destruct (IH n 1%nat (enc iv) (incr_iv iv) Hi Hc ltac:(lia) ltac:(lia)) as (iv' & ->).
    exists iv'. rewrite (drop_ge buffer) by lia. cbn [app key_stream].
    destruct (enc iv) as [|c0 c]; [done|]. cbn [drop app nth]. by rewrite xor_bytes_cons.
  - apply Nat.eqb_neq in E.
    destruct (IH n (S bi) buffer iv Hiv Hbf ltac:(lia) ltac:(lia)) as (iv' & ->).
    exists iv'. destruct (nth_lookup_or_length buffer bi 0) as [Hk|Hk]; [|lia].
    rewrite (drop_S buffer _ bi Hk). cbn [app]. by rewrite xor_bytes_cons.
Qed.

End Ctr.

(** The counter is a big-endian number, incremented modulo its size. *)
Fixpoint le_value (l : list Z) : Z :=
  match l with
  | [] => 0
  | b :: l => b + 256 * le_value l
  end.
Definition counter_value (iv : list Z) : Z := le_value (rev iv).

Lemma le_value_range l : bytes l -> 0 <= le_value l < 256 ^ Z.of_nat (length l).
Proof.
  induction 1 as [|b l Hb Hl IH]; cbn [le_value length]; [done|].
  unfold is_byte in Hb. rewrite Nat2Z.inj_succ, Z.pow_succ_r by lia. lia.
Qed.

Lemma incr_rev_value l : bytes l ->
  le_value (incr_rev l) = (le_value l + 1) mod 256 ^ Z.of_nat (length l).
Proof.
  induction 1 as [|b l Hb Hl IH]; cbn [le_value incr_rev length]; [by rewrite Z.mod_1_r|].
  pose proof (le_value_range l Hl) as Hr. unfold is_byte in Hb.
  rewrite Nat2Z.inj_succ, Z.pow_succ_r by lia.
  destruct (b =? 255) eqn:E; zbool; cbn [le_value].
  - rewrite IH. subst b. replace (255 + 256 * le_value l + 1) with (256 * (le_value l + 1)) by lia.
    rewrite Zmult_mod_distr_l. lia.
  - rewrite u8_small by (unfold is_byte; lia). rewrite Z.mod_small; lia.
Qed.

Lemma incr_iv_value iv : block iv -> counter_value (incr_iv iv) = (counter_value iv + 1) mod 2 ^ 128.
Proof.
  intros [Hl Hb]. unfold counter_value, incr_iv. rewrite rev_involutive.
  rewrite incr_rev_value by (by apply Forall_rev). by rewrite length_rev, Hl.
Qed.

(** ** The key schedule fills the 240 bytes *)

Lemma SubWord_bytes t : bytes t -> bytes (SubWord t) /\ length (SubWord t) = length t.
Proof.
  intros H. unfold SubWord. split; [|by rewrite length_fmap].
  apply Forall_fmap. eapply Forall_impl; [done|]. apply sbox_byte.
Qed.

Lemma RotWord_bytes t : bytes t -> bytes (RotWord t) /\ length (RotWord t) = length t.
Proof.
  intros H. destruct t as [|a [|b [|c [|d [|e t]]]]]; try done. split; [|done].
  rewrite !Forall_cons in H. cbn. rewrite !Forall_cons. tauto.
Qed.

Lemma Rcon_byte i : is_byte (nth i Rcon 0).
Proof. apply nth_byte. unfold Rcon. repeat (constructor; [done|]). constructor. Qed.

Lemma schedule_word_bytes i rk : bytes rk -> (1 <= i)%nat -> length rk = (4 * i)%nat ->
  bytes (schedule_word i rk) /\ length (schedule_word i rk) = 4%nat.
Proof.
  intros Hb Hi Hl. unfold schedule_word.
  set (t0 := slice ((i - 1) * 4) 4 rk).
  assert (H0 : bytes t0 /\ length t0 = 4%nat).
  { split; [by apply slice_bytes|]. apply slice_length. lia. }
  set (t1 := if (i mod Nk =? 0)%nat then _ else t0).
  assert (H1 : bytes t1 /\ length t1 = 4%nat).
  { unfold t1. destruct (_ =? 0)%nat; [|done]. destruct H0 as [H0 L0].
    destruct (RotWord_bytes t0 H0) as [Hr Lr]. destruct (SubWord_bytes _ Hr) as [Hs Ls].
    destruct (SubWord (RotWord t0)) as [|a t]; [cbn in Ls; lia|]. inversion Hs; subst.
    split; [|cbn in *; lia]. constructor; [apply lxor_byte; [done|apply Rcon_byte]|done]. }
  destruct (_ =? 4)%nat; [|done]. destruct (SubWord_bytes t1 (proj1 H1)) as [? ->]. tauto.
Qed.

Lemma expand_from_bytes n : forall i rk,
  bytes rk -> (8 <= i)%nat -> length rk = (4 * i)%nat ->
  bytes (expand_from n i rk) /\ length (expand_from n i rk) = (4 * (i + n))%nat.
Proof.
  induction n as [|n IH]; intros i rk Hb Hi Hl; cbn [expand_from]; [split; [done|lia]|].
  destruct (schedule_word_bytes i rk Hb ltac:(lia) Hl) as [Hw Lw].
  assert (Ls : length (slice ((i - Nk) * 4) 4 rk) = 4%nat)
    by (apply slice_length; unfold Nk; lia).
  destruct (IH (S i) (rk ++ xor_bytes (slice ((i - Nk) * 4) 4 rk) (schedule_word i rk))) as [H1 H2].
  - apply Forall_app_2; [done|]. apply xor_bytes_bytes; [by apply slice_bytes|done].
  - lia.
  - rewrite length_app, xor_bytes_length, Ls by lia. lia.
  - split; [done|]. rewrite H2. lia.
Qed.

Lemma KeyExpansion_round_keys key :
  bytes key -> (32 <= length key)%nat -> round_keys (KeyExpansion key).
Proof.
  intros Hb Hl. unfold KeyExpansion.
  destruct (expand_from_bytes (Nb * (Nr + 1) - Nk) Nk (take (4 * Nk) key)) as [H1 H2].
  - by apply Forall_take.
  - done.
  - rewrite length_take. unfold Nk. lia.
  - split; [rewrite H2; done|done].
Qed.

(** ** The modes, on a key *)

Lemma blocks_of_mul n : blocks_of (16 * Z.of_nat n) = n.
Proof.
  unfold blocks_of. rewrite Z.mul_comm, Z.div_add_l by lia. change (15 / 16) with 0. lia.
Qed.

(** ** Several calls on one context

    A mode that keeps its IV in the context, as a function on [n] blocks that
    goes on where it stopped. *)

Definition whole (p : list Z) : Prop := exists n, length p = (16 * n)%nat.

(** One call for each part, with the context the call before has left. *)
Fixpoint calls (f : AES_ctx -> list Z -> Z -> res (AES_ctx * list Z)) (c : AES_ctx) (ps : list (list Z))
    : res (AES_ctx * list (list Z)) :=
  match ps with
  | [] => Done (c, [])
  | p :: ps =>
      let! (c, o) := f c p (Z.of_nat (length p)) in
      let! (c, os) := calls f c ps in
      Done (c, o :: os)
  end.

Section Calls.
Context (blocks : nat -> list Z -> list Z -> list Z -> res (list Z * list Z)).

Definition mode_call (c : AES_ctx) (buf : list Z) (len : Z) : res (AES_ctx * list Z) :=
  let! (iv, out) := blocks (blocks_of len) (RoundKey c) (Iv c) buf in Done (c <| Iv := iv |>, out).

Context (Hnil : forall rk iv buf, blocks 0 rk iv buf = Done (iv, buf))
  (Hsplit : forall n1 n2 rk iv a b, length a = (16 * n1)%nat ->
     blocks (n1 + n2) rk iv (a ++ b)
     = (let! (iv1, o1) := blocks n1 rk iv a in
        let! (iv2, o2) := blocks n2 rk iv1 b in Done (iv2, o1 ++ o2))).

(** The parts, called one after the other, do what one call on the whole does. *)
Lemma calls_concat ps : Forall whole ps -> forall c c' out,
  mode_call c (concat ps) (Z.of_nat (length (concat ps))) = Done (c', out) ->
  exists os, calls mode_call c ps = Done (c', os) /\ concat os = out.
Proof.
  assert (Hb : forall n, blocks_of (Z.of_nat (16 * n)) = n) by (intros n; rewrite Nat2Z.inj_mul; apply blocks_of_mul).
  induction 1 as [|p ps [n Hn] Hw IH]; intros c c' out.
  - unfold mode_call. change (blocks_of (Z.of_nat (length (concat [])))) with 0%nat. rewrite Hnil. cbn. intros [= <- <-].
    exists []. split; [|done]. by destruct c.
  - assert (exists m, length (concat ps) = (16 * m)%nat) as [m Hm].
    { clear -Hw. induction Hw as [|q qs [k Hk] _ [m IH]]; [by exists 0%nat|]. exists (k + m)%nat.
      cbn. rewrite length_app. lia. }
    cbn [concat calls]. unfold mode_call at 1 2. rewrite length_app, Hn, Hm, <- Nat.mul_add_distr_l, !Hb, Hsplit by done.
    destruct (blocks n (RoundKey c) (Iv c) p) as [[iv1 o1]|f]; cbn [res_bind]; [|done].
    destruct (blocks m (RoundKey c) iv1 (concat ps)) as [[iv2 o2]|f] eqn:E2; cbn [res_bind]; [|done].
    intros [= <- <-]. destruct (IH (c <| Iv := iv1 |>) (c <| Iv := iv2 |>) o2) as (os & Eo & <-).
    { unfold mode_call. rewrite Hm, Hb. cbn [RoundKey Iv set_field]. by rewrite E2. }
    rewrite Eo. cbn [res_bind]. by exists (o1 :: os).
Qed.

End Calls.

Lemma first_block (a b : list Z) n : length a = (16 * S n)%nat -> exists x r,
  a = x ++ r /\ length r = (16 * n)%nat /\ mem_read a 0 AES_BLOCKLEN = Done x /\
  mem_read (a ++ b) 0 AES_BLOCKLEN = Done x /\ drop AES_BLOCKLEN a = r /\ drop AES_BLOCKLEN (a ++ b) = r ++ b.
Proof.
  intros Ha. unfold AES_BLOCKLEN. exists (take 16 a), (drop 16 a).
  assert (Hx : length (take 16 a) = 16%nat) by (rewrite length_take; lia).
  split; [by rewrite take_drop|]. split; [rewrite length_drop; lia|].
  assert (E : a ++ b = take 16 a ++ drop 16 a ++ b) by (by rewrite app_assoc, take_drop).
  split; [rewrite <- (take_drop 16 a) at 1; by apply mem_read_front|].
  split; [rewrite E; by apply mem_read_front|]. split; [done|]. rewrite E at 1. by rewrite drop_app_length'.
Qed.

Lemma cbc_encrypt_split n1 : forall n2 rk iv a b, length a = (16 * n1)%nat ->
  cbc_encrypt_blocks (n1 + n2) rk iv (a ++ b)
  = (let! (iv1, o1) := cbc_encrypt_blocks n1 rk iv a in
     let! (iv2, o2) := cbc_encrypt_blocks n2 rk iv1 b in Done (iv2, o1 ++ o2)).
Proof.
  induction n1 as [|n1 IH]; intros n2 rk iv a b Ha.
  { destruct a; [|done]. cbn. by destruct (cbc_encrypt_blocks _ _ _ _) as [[]|]. }
  destruct (first_block a b n1 Ha) as (x & r & _ & Hr & E1 & E2 & E3 & E4).
  cbn [Nat.add cbc_encrypt_blocks]. rewrite E1, E2, E3, E4. cbn [res_bind]. rewrite IH by done.
  destruct (cbc_encrypt_blocks n1 _ _ _) as [[iv1 o1]|f]; cbn [res_bind]; [|done].
  destruct (cbc_encrypt_blocks n2 _ _ _) as [[iv2 o2]|f]; cbn [res_bind]; [|done]. by rewrite app_assoc.
Qed.

Lemma cbc_decrypt_split n1 : forall n2 rk iv a b, length a = (16 * n1)%nat ->
  cbc_decrypt_blocks (n1 + n2) rk iv (a ++ b)
  = (let! (iv1, o1) := cbc_decrypt_blocks n1 rk iv a in
     let! (iv2, o2) := cbc_decrypt_blocks n2 rk iv1 b in Done (iv2, o1 ++ o2)).
Proof.
  induction n1 as [|n1 IH]; intros n2 rk iv a b Ha.
  { destruct a; [|done]. cbn. by destruct (cbc_decrypt_blocks _ _ _ _) as [[]|]. }
  destruct (first_block a b n1 Ha) as (x & r & _ & Hr & E1 & E2 & E3 & E4).
  cbn [Nat.add cbc_decrypt_blocks]. rewrite E1, E2, E3, E4. cbn [res_bind]. rewrite IH by done.
  destruct (cbc_decrypt_blocks n1 _ _ _) as [[iv1 o1]|f]; cbn [res_bind]; [|done].
  destruct (cbc_decrypt_blocks n2 _ _ _) as [[iv2 o2]|f]; cbn [res_bind]; [|done]. by rewrite app_assoc.
Qed.

(** C25: with a 32-byte key and any 16-byte IV, [AES_CBC_decrypt_buffer]
    recovers every whole number of blocks that [AES_CBC_encrypt_buffer]
    encrypted under the same key and IV, neither leaves the buffer, and
    neither touches the memory behind it.  The IV is carried from call to
    call: encrypting the message in parts, each with the context the last one
    left, gives the same cipher text and the same context, and however the
    cipher text is cut into whole blocks, decrypting the parts in the same way
    gives the message. *)
Theorem cbc_decrypt_encrypt key iv ps q :
  bytes key -> (32 <= length key)%nat -> block iv -> Forall bytes ps -> Forall whole ps ->
  let p := concat ps in
  let len := Z.of_nat (length p) in
  let ctx := AES_init_ctx_iv key iv in
  exists c c1 c2,
    AES_CBC_encrypt_buffer ctx (p ++ q) len = Done (c1, c ++ q) /\ length c = length p /\
    AES_CBC_decrypt_buffer ctx (c ++ q) len = Done (c2, p ++ q) /\
    (exists es, calls AES_CBC_encrypt_buffer ctx ps = Done (c1, es) /\ concat es = c) /\
    (forall es, concat es = c -> Forall whole es ->
       exists os, calls AES_CBC_decrypt_buffer ctx es = Done (c2, os) /\ concat os = p).
Proof.
  intros Hk Hkl Hiv Hp Hw p len ctx. pose proof (KeyExpansion_round_keys key Hk Hkl) as Hrk.
  assert (exists n, length p = (16 * n)%nat) as [n Hn].
  { unfold p. clear -Hw. induction Hw as [|x xs [k Hx] _ [m IH]]; [by exists 0%nat|]. exists (k + m)%nat.
    cbn. rewrite length_app. lia. }
  assert (Hb : bytes p) by (unfold p; clear -Hp; induction Hp; cbn; [constructor|by apply Forall_app]).
  destruct (cbc_roundtrip _ Hrk n iv p q Hiv Hb Hn) as (c & iv1 & iv2 & He & Hcb & Hcl & Hd).
  destruct (cbc_roundtrip _ Hrk n iv p [] Hiv Hb Hn) as (c' & iv1' & iv2' & He' & _).
  assert (El : blocks_of len = n) by (unfold len; rewrite Hn, Nat2Z.inj_mul; apply blocks_of_mul).
  assert (Ei : Iv ctx = iv) by (unfold ctx, AES_init_ctx_iv, AES_BLOCKLEN; cbn; apply take_ge; destruct Hiv; lia).
  pose proof (cbc_encrypt_split n 0 (KeyExpansion key) iv p q Hn) as Hs. rewrite Nat.add_0_r in Hs.
  rewrite <- (app_nil_r p) in Hs at 2. rewrite He, He' in Hs. cbn in Hs. rewrite app_nil_r in Hs.
  injection Hs as <- Hs%app_inv_tail. subst c'.
  exists c, (ctx <| Iv := iv1 |>), (ctx <| Iv := iv2 |>).
  unfold AES_CBC_encrypt_buffer at 1, AES_CBC_decrypt_buffer at 1. rewrite El, Ei.
  change (RoundKey ctx) with (KeyExpansion key). rewrite He, Hd. do 3 (split; [done|]). split.
  - apply (calls_concat cbc_encrypt_blocks); [done|apply cbc_encrypt_split|done|].
    fold p. unfold mode_call. fold len. rewrite El, Ei. change (RoundKey ctx) with (KeyExpansion key).
    rewrite <- (app_nil_r p) at 1. by rewrite He', app_nil_r.
  - intros es Hes Hwe. apply (calls_concat cbc_decrypt_blocks); [done|apply cbc_decrypt_split|done|].
    rewrite Hes, Hcl. unfold mode_call. fold len. rewrite El, Ei. change (RoundKey ctx) with (KeyExpansion key).
    rewrite <- (app_nil_r c) at 1. by rewrite Hd, app_nil_r.
Qed.

Lemma cbc_decrypt_encrypt_witness :
  let ctx := AES_init_ctx_iv (replicate 32 9) (zeros 16) in
  let p := replicate 32 5 ++ replicate 16 7 in
  exists c c1 c2,
    AES_CBC_encrypt_buffer ctx (p ++ [1]) 48 = Done (c1, c ++ [1]) /\
    AES_CBC_decrypt_buffer ctx (c ++ [1]) 48 = Done (c2, p ++ [1]) /\
    exists es, calls AES_CBC_encrypt_buffer ctx [replicate 32 5; replicate 16 7] = Done (c1, es) /\ concat es = c.
Proof.
  destruct (cbc_decrypt_encrypt (replicate 32 9) (zeros 16) [replicate 32 5; replicate 16 7] [1])
    as (c & c1 & c2 & E & _ & D & S & _).
  - by apply Forall_replicate.
  - done.
  - split; [done|by apply zeros_bytes].
  - constructor; [by apply Forall_replicate|constructor; [by apply Forall_replicate|constructor]].
  - repeat constructor; [by exists 2%nat|by exists 1%nat].
  - exists c, c1, c2. split; [exact E|]. split; [exact D|exact S].
Defined.

(** [crypto_aes256_ctr_xcrypt_buffer] (src/fido2/src/crypto.c) on a buffer of
    exactly [length] bytes. *)
Definition crypto_aes256_ctr_xcrypt_buffer (key iv buf : list Z) : res (list Z) :=
  let! (_, out) := AES_CTR_xcrypt_buffer (AES_init_ctx_iv key iv) buf (Z.of_nat (length buf)) in
  Done out.

Lemma ctr_xcrypt_stream key iv buf n :
  bytes key -> (32 <= length key)%nat -> block iv -> (length buf <= 16 * n)%nat ->
  crypto_aes256_ctr_xcrypt_buffer key iv buf
  = Done (xor_bytes buf (key_stream (Cipher (KeyExpansion key)) n iv)).
Proof.
  intros Hk Hkl Hiv Hn. pose proof (KeyExpansion_round_keys key Hk Hkl) as Hrk.
  unfold crypto_aes256_ctr_xcrypt_buffer, AES_CTR_xcrypt_buffer, AES_init_ctx_iv, AES_BLOCKLEN.
  cbn [RoundKey Iv]. rewrite Nat2Z.id, (take_ge iv) by (destruct Hiv; lia).
  rewrite <- (app_nil_r buf) at 1. rewrite mem_read_front by done. cbn [res_bind].
  destruct (ctr_bytes_stream _ (Cipher_block _ Hrk) buf n 16 (zeros 16) iv) as (iv' & ->); [done..|lia|].
  cbn [res_bind]. rewrite (drop_ge (zeros 16)) by done. rewrite (drop_ge buf) by lia.
  by rewrite app_nil_r.
Qed.

(** CTR encryption xors the buffer with the encryptions of the
    successive counter values of the IV, so applying it twice with the same
    key and IV gives the buffer back; this is how the state file, the
    credential metadata and the attestation key are stored and read. *)
Theorem ctr_xcrypt_involutive key iv buf :
  bytes key -> (32 <= length key)%nat -> block iv ->
  exists c, crypto_aes256_ctr_xcrypt_buffer key iv buf = Done c /\
    c = xor_bytes buf (key_stream (Cipher (KeyExpansion key)) (length buf) iv) /\
    crypto_aes256_ctr_xcrypt_buffer key iv c = Done buf.
Proof.
  intros Hk Hkl Hiv. pose proof (KeyExpansion_round_keys key Hk Hkl) as Hrk.
  pose proof (key_stream_length _ (Cipher_block _ Hrk)) as Hs.
  exists (xor_bytes buf (key_stream (Cipher (KeyExpansion key)) (length buf) iv)).
  rewrite (ctr_xcrypt_stream key iv buf (length buf)) by (done || lia). do 2 (split; [done|]).
  rewrite (ctr_xcrypt_stream key iv _ (length buf)); [|done..|].
  - f_equal. apply xor_bytes_cancel. rewrite Hs by done. lia.
  - rewrite xor_bytes_length; [lia|]. rewrite Hs by done. lia.
Qed.

Lemma ctr_xcrypt_involutive_witness :
  exists c, crypto_aes256_ctr_xcrypt_buffer (replicate 32 9) (replicate 16 255) [1; 2; 3] = Done c /\
    c = xor_bytes [1; 2; 3] (key_stream (Cipher (KeyExpansion (replicate 32 9))) 3 (replicate 16 255)) /\
    crypto_aes256_ctr_xcrypt_buffer (replicate 32 9) (replicate 16 255) c = Done [1; 2; 3].
Proof.
  apply (ctr_xcrypt_involutive (replicate 32 9) (replicate 16 255) [1; 2; 3]);
    [by apply Forall_replicate|done|]. split; [done|by apply Forall_replicate].
Defined.

End Aes.
