(* ===== verification/Crypto.v ===== *)
(** * Hashing, key derivation and comparison (src/fido2/src/crypto.c)

    The wrappers over SHA-256 and AES that the rest of the firmware calls:
    the hash and HMAC that share one static context, HKDF, the device MAC,
    constant-time comparison and the range check of P-256 scalars. *)

From S2P Require Import Prelude Sha256 Aes.
Import Sha256 Aes.

Module Crypto.

Definition CRYPTO_KEY_LEN : Z := 32.

(** ** Comparison *)

(** The loop of [secure_memeq]: [diff |= p1[i] ^ p2[i]]. *)
Definition memeq_diff (a b : list Z) : Z :=
  fold_left (fun diff x => u8 (Z.lor diff x)) (zip_with Z.lxor a b) 0.

Definition secure_memeq (a b : list Z) (n : nat) : res Z :=
  let! x := mem_read a 0 n in
  let! y := mem_read b 0 n in
  Done (b2z (memeq_diff x y =? 0)).

(** [memcmp] on buffers of equal length: the sign of the first difference. *)
Fixpoint memcmp (a b : list Z) : Z :=
  match a, b with
  | x :: a, y :: b => if x =? y then memcmp a b else x - y
  | _, _ => 0
  end.

Definition SECP256R1_N : list Z :=
  [0xFF; 0xFF; 0xFF; 0xFF; 0x00; 0x00; 0x00; 0x00; 0xFF; 0xFF; 0xFF;
   0xFF; 0xFF; 0xFF; 0xFF; 0xFF; 0xBC; 0xE6; 0xFA; 0xAD; 0xA7; 0x17;
   0x9E; 0x84; 0xF3; 0xB9; 0xCA; 0xC2; 0xFC; 0x63; 0x25; 0x51].

(** The loop looks for a non-zero byte and then compares with the order. *)
Fixpoint scalar_scan (l : list Z) (cmp : Z) : Z :=
  match l with
  | [] => 0
  | x :: l => if negb (x =? 0) then b2z (cmp <? 0) else scalar_scan l cmp
  end.

Definition crypto_ecc256_is_valid_scalar (s : list Z) : res Z :=
  let! s := mem_read s 0 32 in
  Done (scalar_scan s (memcmp s SECP256R1_N)).

(** ** SHA-256 and HMAC over the static context *)

Definition crypto_sha256_init (c : SHA256_CTX) : SHA256_CTX := sha256_init c.
Definition crypto_sha256_update (l : list Z) (c : SHA256_CTX) : res SHA256_CTX := sha256_update l c.
Definition crypto_sha256_final (c : SHA256_CTX) : res (list Z * SHA256_CTX) := sha256_final c.

(** One shot, with a context of its own. *)
Definition crypto_sha256 (l : list Z) : res (list Z) :=
  let! c := sha256_update l (sha256_init fresh_ctx) in
  let! (h, _) := sha256_final c in
  Done h.

(** [buf] of the HMAC functions: the key, zero padded, xored with [x]. *)
Definition hmac_block (key : list Z) (x : Z) : res (list Z) :=
  let! buf := mem_write (zeros 64) 0 key in
  Done ((fun b => Z.lxor b x) <$> buf).

Definition crypto_sha256_hmac_init (key : list Z) (klen : Z) (c : SHA256_CTX) : res SHA256_CTX :=
  if klen >? 64 then Fault FExit
  else
    let! k := mem_read key 0 (Z.to_nat klen) in
    let! buf := hmac_block k 0x36 in
    crypto_sha256_update buf (crypto_sha256_init c).

Definition crypto_sha256_hmac_final (key : list Z) (klen : Z) (c : SHA256_CTX)
    : res (list Z * SHA256_CTX) :=
  let! (h, c) := crypto_sha256_final c in
  if klen >? 64 then Fault FExit
  else
    let! k := mem_read key 0 (Z.to_nat klen) in
    let! buf := hmac_block k 0x5c in
    let! c := crypto_sha256_update buf (crypto_sha256_init c) in
    let! c := crypto_sha256_update h c in
    crypto_sha256_final c.

(** ** Device MAC *)

Definition crypto_compute_device_mac (mac_key data : list Z) (mac_len : nat) (c : SHA256_CTX)
    : res (list Z * SHA256_CTX) :=
  let! c := crypto_sha256_hmac_init mac_key CRYPTO_KEY_LEN c in
  let! c := crypto_sha256_update data c in
  let! (buf, c) := crypto_sha256_hmac_final mac_key CRYPTO_KEY_LEN c in
  let! mac := mem_read buf 0 mac_len in
  Done (mac, c).

Definition crypto_verify_device_mac (mac_key data mac : list Z) (mac_len : nat) (c : SHA256_CTX)
    : res (Z * SHA256_CTX) :=
  let! (local_mac, c) := crypto_compute_device_mac mac_key data mac_len c in
  let! m := mem_read mac 0 mac_len in
  Done (b2z (memcmp local_mac m =? 0), c).

(** ** HKDF *)

Definition crypto_hkdf_extract_sha256 (salt : option (list Z)) (ikm : list Z) (c : SHA256_CTX)
    : res (list Z * SHA256_CTX) :=
  let salt := match salt with
              | Some (x :: l) => x :: l
              | _ => zeros 32
              end in
  let klen := u8 (Z.of_nat (length salt)) in
  let! c := crypto_sha256_hmac_init salt klen c in
  let! c := crypto_sha256_update ikm c in
  crypto_sha256_hmac_final salt klen c.

(** The [while (remaining > 0)] loop; [okm] collects what was copied.
    [remaining] is below 256, so eight iterations end it. *)
Fixpoint hkdf_expand_loop (fuel : nat) (prk info t okm : list Z) (remaining counter : Z)
    (c : SHA256_CTX) : res (list Z * SHA256_CTX) :=
  if remaining >? 0 then
    match fuel with
    | O => Fault FExit
    | S fuel =>
        let! c := crypto_sha256_hmac_init prk 32 c in
        let! c := crypto_sha256_update t c in
        let! c := crypto_sha256_update info c in
        let! c := crypto_sha256_update [counter] c in
        let! (t, c) := crypto_sha256_hmac_final prk 32 c in
        let to_copy := if remaining >? 32 then 32 else remaining in
        let! piece := mem_read t 0 (Z.to_nat to_copy) in
        hkdf_expand_loop fuel prk info t (okm ++ piece) (u8 (remaining - to_copy)) (u8 (counter + 1)) c
    end
  else Done (okm, c).

Definition crypto_hkdf_expand_sha256 (prk info : list Z) (okm_len : Z) (c : SHA256_CTX)
    : res (list Z * SHA256_CTX) :=
  hkdf_expand_loop 8 prk info [] [] okm_len 1 c.

(** ** Derived keys *)

Definition crypto_derive_credential_key (key_cred_priv data data2 : list Z) (c : SHA256_CTX)
    : res (list Z * SHA256_CTX) :=
  let! c := crypto_sha256_hmac_init key_cred_priv 32 c in
  let! c := crypto_sha256_update data c in
  let! c := crypto_sha256_update data2 c in
  crypto_sha256_hmac_final key_cred_priv 32 c.

(** The domain separation strings, with their terminating zero ([sizeof]). *)
Definition info_attestation_enc : list Z := [97; 116; 116; 95; 101; 110; 99; 0].
Definition info_pin_enc : list Z := [112; 105; 110; 95; 101; 110; 99; 0].
Definition info_device_mac : list Z := [100; 101; 118; 105; 99; 101; 95; 109; 97; 99; 0].
Definition info_cred_priv : list Z := [99; 114; 101; 100; 95; 112; 114; 105; 118; 0].
Definition info_cred_mac : list Z := [99; 114; 101; 100; 95; 109; 97; 99; 0].
Definition info_meta_enc : list Z := [109; 101; 116; 97; 95; 101; 110; 99; 0].
Definition info_hmac_ext : list Z := [104; 109; 97; 99; 95; 101; 120; 116; 0].

Record device_keys := mkDeviceKeys {
  key_attestation_enc : list Z;
  key_pin_enc : list Z;
  key_device_mac : list Z;
}.
Record session_keys := mkSessionKeys {
  key_cred_priv : list Z;
  key_cred_mac : list Z;
  key_meta_enc : list Z;
  key_hmac_ext : list Z;
}.

(** The derivation part of [crypto_derive_device_keys]; loading the
    attestation key follows it. *)
Definition crypto_derive_device_keys (device_secret : list Z) (c : SHA256_CTX)
    : res (device_keys * SHA256_CTX) :=
  let! (a, c) := crypto_hkdf_expand_sha256 device_secret info_attestation_enc 32 c in
  let! (p, c) := crypto_hkdf_expand_sha256 device_secret info_pin_enc 32 c in
  let! (m, c) := crypto_hkdf_expand_sha256 device_secret info_device_mac 32 c in
  Done (mkDeviceKeys a p m, c).

Definition crypto_derive_session_keys (device_secret salt : list Z) (c : SHA256_CTX)
    : res (session_keys * SHA256_CTX) :=
  let! (prk, c) := crypto_hkdf_extract_sha256 (Some salt) device_secret c in
  let! (p, c) := crypto_hkdf_expand_sha256 prk info_cred_priv 32 c in
  let! (m, c) := crypto_hkdf_expand_sha256 prk info_cred_mac 32 c in
  let! (e, c) := crypto_hkdf_expand_sha256 prk info_meta_enc 32 c in
  let! (h, c) := crypto_hkdf_expand_sha256 prk info_hmac_ext 32 c in
  Done (mkSessionKeys p m e h, c).

(** ** AES over the static [aes_ctx] *)

Definition set_nonce (nonce : option (list Z)) (c : AES_ctx) : AES_ctx :=
  match nonce with
  | None => c <| Iv := zeros 16 |>
  | Some n => c <| Iv := take 16 n |>
  end.
Definition crypto_aes256_init (key : list Z) (nonce : option (list Z)) (c : AES_ctx) : AES_ctx :=
  set_nonce nonce (AES_init_ctx c key).
Definition crypto_aes256_reset_iv (nonce : option (list Z)) (c : AES_ctx) : AES_ctx :=
  set_nonce nonce c.
Definition crypto_aes256_decrypt (buf : list Z) (len : Z) (c : AES_ctx) : res (AES_ctx * list Z) :=
  AES_CBC_decrypt_buffer c buf len.
Definition crypto_aes256_encrypt (buf : list Z) (len : Z) (c : AES_ctx) : res (AES_ctx * list Z) :=
  AES_CBC_encrypt_buffer c buf len.

(** ** References: RFC 2104 and RFC 5869 *)

Definition hmac_pad (key : list Z) (x : Z) : list Z :=
  (fun b => Z.lxor b x) <$> (key ++ zeros (64 - length key)).
Definition hmac (key msg : list Z) : list Z :=
  sha256 (hmac_pad key 0x5c ++ sha256 (hmac_pad key 0x36 ++ msg)).

(** [T(i+1) || T(i+2) || ... || T(i+n)] after [T(i) = t]. *)
Fixpoint hkdf_T (n : nat) (prk info t : list Z) (i : Z) : list Z :=
  match n with
  | O => []
  | S n =>
      let t := hmac prk (t ++ info ++ [u8 i]) in
      t ++ hkdf_T n prk info t (i + 1)
  end.
Definition hkdf_expand (prk info : list Z) (len : Z) : list Z :=
  take (Z.to_nat len) (hkdf_T 8 prk info [] 1).

(** ** The comparison functions *)

Lemma lxor_zero a b : Z.lxor a b = 0 <-> a = b.
Proof. split; [apply Z.lxor_eq|intros ->; apply Z.lxor_nilpotent]. Qed.

Lemma lor_byte a b : is_byte a -> is_byte b -> is_byte (Z.lor a b).
Proof.
  rewrite !is_byte_mod. intros Ha Hb. rewrite <- Ha, <- Hb at 2.
  rewrite <- !Z.land_ones by lia. by rewrite <- Z.land_lor_distr_l.
Qed.

Lemma memeq_diff_zero l : forall d, bytes l -> is_byte d ->
  fold_left (fun diff x => u8 (Z.lor diff x)) l d = 0 <-> d = 0 /\ Forall (fun x => x = 0) l.
Proof.
  induction l as [|x l IH]; intros d Hl Hd; cbn [fold_left].
  { split; [intros ->; by split|by intros [-> _]]. }
  inversion Hl; subst. rewrite IH by (done || apply u8_byte). rewrite Forall_cons.
  rewrite u8_small by (by apply lor_byte). rewrite Z.lor_eq_0_iff. tauto.
Qed.

Lemma zip_lxor_zero a : forall b, length a = length b ->
  Forall (fun x => x = 0) (zip_with Z.lxor a b) <-> a = b.
Proof.
  induction a as [|x a IH]; intros [|y b] Hl; try done.
  cbn. rewrite Forall_cons, IH by (cbn in Hl; lia). rewrite lxor_zero.
  split; [by intros [-> ->]|by intros [= -> ->]].
Qed.

(** [secure_memeq] answers 1 exactly when the first [n] bytes agree. *)
Lemma secure_memeq_correct a b n :
  bytes a -> bytes b -> (n <= length a)%nat -> (n <= length b)%nat ->
  secure_memeq a b n = Done (b2z (bool_decide (take n a = take n b))).
Proof.
  intros Ha Hb Hla Hlb. unfold secure_memeq. rewrite !mem_read_fits by lia. cbn [res_bind].
  unfold slice. rewrite !drop_0. do 2 f_equal. apply eq_true_iff_eq.
  rewrite Z.eqb_eq, bool_decide_eq_true. unfold memeq_diff. rewrite memeq_diff_zero.
  - rewrite zip_lxor_zero; [tauto|]. rewrite !length_take. lia.
  - apply xor_bytes_bytes; by apply Forall_take.
  - done.
Qed.

Lemma memcmp_be a : forall b, bytes a -> bytes b -> length a = length b ->
  (memcmp a b <? 0) = (be_value a <? be_value b).
Proof.
  induction a as [|x a IH]; intros [|y b] Ha Hb Hl; try done. cbn in Hl.
  inversion Ha; inversion Hb; subst. cbn [memcmp be_value].
  assert (Hab : length a = length b) by lia. rewrite Hab.
  pose proof (be_value_range a ltac:(done)) as Ra. pose proof (be_value_range b ltac:(done)) as Rb.
  rewrite Hab in Ra. destruct (x =? y) eqn:E; zbool.
  - subst y. rewrite IH by done. apply eq_true_iff_eq. rewrite !Z.ltb_lt. lia.
  - apply eq_true_iff_eq. rewrite !Z.ltb_lt. unfold is_byte in *. nia.
Qed.

Lemma memcmp_zero a : forall b, length a = length b -> memcmp a b = 0 <-> a = b.
Proof.
  induction a as [|x a IH]; intros [|y b] Hl; try done. cbn. cbn in Hl.
  destruct (x =? y) eqn:E; zbool.
  - subst y. rewrite IH by lia. split; [by intros ->|by intros [= ->]].
  - split; [lia|]. intros [= -> ->]. done.
Qed.

Lemma scalar_scan_value l cmp : bytes l ->
  scalar_scan l cmp = b2z ((0 <? be_value l) && (cmp <? 0)).
Proof.
  induction 1 as [|x l Hx Hl IH]; [done|]. cbn [scalar_scan be_value].
  pose proof (be_value_range l Hl). unfold is_byte in Hx.
  destruct (x =? 0) eqn:E; zbool; cbn [negb].
  - subst x. rewrite IH. done.
  - replace (0 <? _) with true; [done|]. symmetry. apply Z.ltb_lt. nia.
Qed.

(** The order of P-256. *)
Definition p256_order : Z := 0xFFFFFFFF00000000FFFFFFFFFFFFFFFFBCE6FAADA7179E84F3B9CAC2FC632551.

Lemma SECP256R1_N_value : be_value SECP256R1_N = p256_order.
Proof. vm_compute. reflexivity. Qed.

Lemma SECP256R1_N_bytes : bytes SECP256R1_N.
Proof. unfold SECP256R1_N. repeat (constructor; [done|]). constructor. Qed.

(** [crypto_ecc256_is_valid_scalar] accepts exactly the 32-byte
    big-endian numbers from 1 to the order of P-256 minus 1. *)
Theorem is_valid_scalar_correct s :
  bytes s -> length s = 32%nat ->
  crypto_ecc256_is_valid_scalar s = Done (b2z ((1 <=? be_value s) && (be_value s <? p256_order))).
Proof.
  intros Hs Hl. unfold crypto_ecc256_is_valid_scalar. rewrite mem_read_fits by lia.
  unfold slice. cbn [res_bind]. rewrite drop_0, take_ge by lia.
  rewrite scalar_scan_value by done.
  rewrite memcmp_be by (done || apply SECP256R1_N_bytes). rewrite SECP256R1_N_value.
  do 3 f_equal. apply eq_true_iff_eq. rewrite Z.ltb_lt, Z.leb_le. lia.
Qed.

Lemma is_valid_scalar_correct_witness :
  crypto_ecc256_is_valid_scalar (zeros 31 ++ [1])
    = Done (b2z ((1 <=? be_value (zeros 31 ++ [1])) && (be_value (zeros 31 ++ [1]) <? p256_order))).
Proof.
  apply (is_valid_scalar_correct (zeros 31 ++ [1])); [|done].
  apply Forall_app_2; [by apply zeros_bytes|]. by constructor.
Defined.

(** ** The hash functions compute the references *)

Definition ctx_ok (c : SHA256_CTX) : Prop := length (data c) = 64%nat.

Lemma rep_ok c msg : rep c msg -> ctx_ok c.
Proof. apply rep_data. Qed.

Lemma crypto_sha256_correct l : crypto_sha256 l = Done (sha256 l).
Proof.
  unfold crypto_sha256. destruct (update_rep l _ [] (rep_init fresh_ctx eq_refl)) as (c & -> & R).
  cbn [res_bind]. by destruct (final_rep _ _ R) as (c' & -> & _).
Qed.

Lemma hmac_block_pad key x : (length key <= 64)%nat -> hmac_block key x = Done (hmac_pad key x).
Proof.
  intros H. unfold hmac_block. rewrite mem_write_fits by (rewrite zeros_length; lia).
  cbn [res_bind]. unfold hmac_pad. do 2 f_equal. cbn [take app Nat.add].
  unfold zeros. by rewrite drop_replicate.
Qed.

Lemma hmac_init_rep key c : ctx_ok c -> (length key <= 64)%nat ->
  exists c', crypto_sha256_hmac_init key (Z.of_nat (length key)) c = Done c' /\
    rep c' (hmac_pad key 0x36).
Proof.
  intros Hc Hk. unfold crypto_sha256_hmac_init. destruct (_ >? 64) eqn:E; zbool; [lia|].
  rewrite Nat2Z.id, mem_read_fits by lia. unfold slice. cbn [res_bind].
  rewrite drop_0, take_ge, hmac_block_pad by lia. cbn [res_bind].
  apply (update_rep _ _ [] (rep_init c Hc)).
Qed.

Lemma hmac_final_rep key msg c : rep c (hmac_pad key 0x36 ++ msg) -> (length key <= 64)%nat ->
  exists c', crypto_sha256_hmac_final key (Z.of_nat (length key)) c = Done (hmac key msg, c') /\
    ctx_ok c'.
Proof.
  intros R Hk. unfold crypto_sha256_hmac_final, crypto_sha256_final, crypto_sha256_update, crypto_sha256_init.
  destruct (final_rep _ _ R) as (c1 & -> & H1). cbn [res_bind].
  destruct (_ >? 64) eqn:E; zbool; [lia|].
  rewrite Nat2Z.id, mem_read_fits by lia. unfold slice. cbn [res_bind].
  rewrite drop_0, take_ge, hmac_block_pad by lia. cbn [res_bind].
  destruct (update_rep (hmac_pad key 0x5c) _ [] (rep_init c1 H1)) as (c2 & -> & R2).
  cbn [res_bind].
  destruct (update_rep (sha256 (hmac_pad key 0x36 ++ msg)) _ _ R2) as (c3 & -> & R3).
  cbn [res_bind]. destruct (final_rep _ _ R3) as (c4 & -> & H4). by exists c4.
Qed.

Lemma hmac_length key msg : length (hmac key msg) = 32%nat.
Proof. done. Qed.
Lemma hmac_bytes key msg : bytes (hmac key msg).
Proof. apply sha256_bytes. Qed.
#[export] Hint Resolve hmac_bytes : tkey.

#[local] Opaque hmac sha256.

(** One HMAC over the pieces [ps], on the shared context. *)
Definition hmac_pieces (key : list Z) (klen : Z) (ps : list (list Z)) (c : SHA256_CTX)
    : res (list Z * SHA256_CTX) :=
  let! c := crypto_sha256_hmac_init key klen c in
  let! c := update_all ps c in
  crypto_sha256_hmac_final key klen c.

Lemma hmac_pieces_correct key ps c : ctx_ok c -> (length key <= 64)%nat ->
  exists c', hmac_pieces key (Z.of_nat (length key)) ps c = Done (hmac key (concat ps), c') /\ ctx_ok c'.
Proof.
  intros Hc Hk. unfold hmac_pieces. destruct (hmac_init_rep key c Hc Hk) as (c1 & -> & R1).
  cbn [res_bind]. destruct (update_all_rep ps _ _ R1) as (c2 & -> & R2). cbn [res_bind].
  by apply hmac_final_rep.
Qed.



(** ** HKDF *)

(** One iteration: the three updates between [hmac_init] and [hmac_final]. *)
Lemma hmac3_correct key a b d c : ctx_ok c -> length key = 32%nat ->
  exists c1 c2 c3 c4 c5,
    crypto_sha256_hmac_init key 32 c = Done c1 /\ crypto_sha256_update a c1 = Done c2 /\
    crypto_sha256_update b c2 = Done c3 /\ crypto_sha256_update d c3 = Done c4 /\
    crypto_sha256_hmac_final key 32 c4 = Done (hmac key (a ++ b ++ d), c5) /\ ctx_ok c5.
Proof.
  intros Hc Hk. change 32 with (Z.of_nat 32). rewrite <- Hk.
  destruct (hmac_init_rep key c Hc ltac:(lia)) as (c1 & H1 & R1).
  destruct (update_rep a _ _ R1) as (c2 & H2 & R2).
  destruct (update_rep b _ _ R2) as (c3 & H3 & R3).
  destruct (update_rep d _ _ R3) as (c4 & H4 & R4). rewrite <- !app_assoc in R4.
  destruct (hmac_final_rep key _ c4 R4 ltac:(lia)) as (c5 & H5 & R5).
  by exists c1, c2, c3, c4, c5.
Qed.

Lemma hkdf_T_length n prk info : forall t i, length (hkdf_T n prk info t i) = (32 * n)%nat.
Proof.
  induction n as [|n IH]; intros t i; [done|]. cbn [hkdf_T].
  rewrite length_app, hmac_length, IH. lia.
Qed.

Lemma hkdf_expand_loop_correct n prk info (Hprk : length prk = 32%nat) :
  forall t okm remaining counter c,
  ctx_ok c -> 0 <= remaining -> remaining <= 32 * Z.of_nat n -> remaining < 256 ->
  1 <= counter -> counter + Z.of_nat n < 256 ->
  exists c', hkdf_expand_loop n prk info t okm remaining counter c
    = Done (okm ++ take (Z.to_nat remaining) (hkdf_T n prk info t counter), c') /\ ctx_ok c'.
Proof.
  induction n as [|n IH]; intros t okm remaining counter c Hc H0 Hn H256 H1 Hcn;
    cbn [hkdf_expand_loop].
  { destruct (remaining >? 0) eqn:E; zbool; [lia|]. exists c. cbn. rewrite take_nil, app_nil_r. done. }
  destruct (remaining >? 0) eqn:E; zbool; cycle 1.
  { exists c. replace remaining with 0 by lia. cbn. rewrite app_nil_r. done. }
  destruct (hmac3_correct prk t info [counter] c Hc Hprk)
    as (c1 & c2 & c3 & c4 & c5 & -> & H2 & H3 & H4 & H5 & Hc5).
  cbn [res_bind]. rewrite H2. cbn [res_bind]. rewrite H3. cbn [res_bind]. rewrite H4.
  cbn [res_bind]. rewrite H5. cbn [res_bind hkdf_T].
  rewrite (u8_small counter) by (unfold is_byte; lia).
  set (t' := hmac prk (t ++ info ++ [counter])).
  assert (Ht : length t' = 32%nat) by apply hmac_length.
  rewrite mem_read_fits by (destruct (remaining >? 32) eqn:E32; zbool; lia). unfold slice.
  rewrite drop_0. cbn [res_bind]. destruct (remaining >? 32) eqn:E32; zbool.
  - destruct (IH t' (okm ++ take (Z.to_nat 32) t') (u8 (remaining - 32)) (u8 (counter + 1)) c5)
      as (c6 & H6 & Hc6); [done|rewrite ?u8_small by (unfold is_byte; lia); lia..|].
    rewrite !u8_small in H6 by (unfold is_byte; lia). exists c6. split; [|done].
    rewrite !u8_small by (unfold is_byte; lia). rewrite H6. do 2 f_equal. rewrite <- app_assoc. f_equal. rewrite (take_ge t') by lia.
    rewrite take_app_ge by lia. do 2 f_equal. lia.
  - replace (remaining - remaining) with 0 by lia.
    destruct (IH t' (okm ++ take (Z.to_nat remaining) t') (u8 0) (u8 (counter + 1)) c5)
      as (c6 & H6 & Hc6); [done|rewrite ?u8_small by (unfold is_byte; lia); lia..|].
    rewrite !u8_small in H6 by (unfold is_byte; lia). exists c6. split; [|done].
    rewrite !u8_small by (unfold is_byte; lia). rewrite H6. cbn [take Z.to_nat]. rewrite app_nil_r. do 2 f_equal.
    by rewrite take_app_le by lia.
Qed.

(** The loop of [crypto_hkdf_expand_sha256] ends and produces the first
    [okm_len] bytes of RFC 5869's T(1) || T(2) || ..., for every output length
    an 8-bit counter can ask for. *)
Theorem hkdf_expand_correct prk info okm_len c :
  ctx_ok c -> length prk = 32%nat -> 0 <= okm_len < 256 ->
  exists c', crypto_hkdf_expand_sha256 prk info okm_len c = Done (hkdf_expand prk info okm_len, c') /\
    length (hkdf_expand prk info okm_len) = Z.to_nat okm_len.
Proof.
  intros Hc Hp Hl. unfold crypto_hkdf_expand_sha256, hkdf_expand.
  destruct (hkdf_expand_loop_correct 8 prk info Hp [] [] okm_len 1 c) as (c' & -> & _);
    [done|lia..|]. exists c'. split; [done|]. rewrite length_take, hkdf_T_length. lia.
Qed.

Lemma hkdf_expand_correct_witness :
  exists c', crypto_hkdf_expand_sha256 (replicate 32 7) info_pin_enc 255 fresh_ctx
      = Done (hkdf_expand (replicate 32 7) info_pin_enc 255, c') /\
    length (hkdf_expand (replicate 32 7) info_pin_enc 255) = Z.to_nat 255.
Proof.
  apply (hkdf_expand_correct (replicate 32 7) info_pin_enc 255 fresh_ctx); [done|done|lia].
Defined.

(** ** Device MAC *)

Lemma compute_device_mac_correct mac_key d n c :
  ctx_ok c -> length mac_key = 32%nat -> (n <= 32)%nat ->
  exists c', crypto_compute_device_mac mac_key d n c = Done (take n (hmac mac_key d), c') /\ ctx_ok c'.
Proof.
  intros Hc Hk Hn. unfold crypto_compute_device_mac, CRYPTO_KEY_LEN.
  change 32 with (Z.of_nat 32). rewrite <- Hk.
  destruct (hmac_init_rep mac_key c Hc ltac:(lia)) as (c1 & -> & R1). cbn [res_bind].
  unfold crypto_sha256_update. destruct (update_rep d _ _ R1) as (c2 & -> & R2). cbn [res_bind].
  destruct (hmac_final_rep mac_key d c2 R2 ltac:(lia)) as (c3 & -> & H3). cbn [res_bind].
  rewrite mem_read_fits by (rewrite hmac_length; lia). unfold slice. rewrite drop_0. by exists c3.
Qed.

(** [crypto_verify_device_mac] answers 1 exactly on the truncated
    HMAC-SHA256 that [crypto_compute_device_mac] returns for the data, so what
    was sealed verifies and any other tag is refused. *)
Theorem device_mac_verifies mac_key d mac n c1 c2 :
  ctx_ok c1 -> ctx_ok c2 -> length mac_key = 32%nat -> (n <= 32)%nat -> (n <= length mac)%nat ->
  exists m c1' c2',
    crypto_compute_device_mac mac_key d n c1 = Done (m, c1') /\
    crypto_verify_device_mac mac_key d mac n c2 = Done (b2z (bool_decide (take n mac = m)), c2').
Proof.
  intros Hc1 Hc2 Hk Hn Hm. unfold crypto_verify_device_mac.
  destruct (compute_device_mac_correct mac_key d n c1 Hc1 Hk Hn) as (c1' & -> & _).
  destruct (compute_device_mac_correct mac_key d n c2 Hc2 Hk Hn) as (c2' & -> & _).
  cbn [res_bind]. rewrite mem_read_fits by lia. unfold slice. rewrite drop_0. cbn [res_bind].
  exists (take n (hmac mac_key d)), c1', c2'. split; [done|]. do 3 f_equal.
  apply eq_true_iff_eq. rewrite Z.eqb_eq, bool_decide_eq_true.
  rewrite memcmp_zero by (rewrite !length_take, hmac_length; lia). done.
Qed.

Lemma device_mac_verifies_witness :
  exists m c1' c2',
    crypto_compute_device_mac (replicate 32 1) [5; 6] 16 fresh_ctx = Done (m, c1') /\
    crypto_verify_device_mac (replicate 32 1) [5; 6] (zeros 16) 16 fresh_ctx
      = Done (b2z (bool_decide (take 16 (zeros 16) = m)), c2').
Proof.
  apply (device_mac_verifies (replicate 32 1) [5; 6] (zeros 16) 16 fresh_ctx fresh_ctx);
    try done; cbn; lia.
Defined.

(** ** The key hierarchy *)

Lemma hkdf_expand32 prk info c : ctx_ok c -> length prk = 32%nat ->
  exists c', crypto_hkdf_expand_sha256 prk info 32 c = Done (hkdf_expand prk info 32, c') /\ ctx_ok c'.
Proof.
  intros Hc Hp. destruct (hkdf_expand_loop_correct 8 prk info Hp [] [] 32 1 c) as (c' & H & Hc');
    [done|lia..|]. by exists c'.
Qed.

Lemma hkdf_extract_correct salt ikm c : ctx_ok c -> (1 <= length salt <= 64)%nat ->
  exists c', crypto_hkdf_extract_sha256 (Some salt) ikm c = Done (hmac salt ikm, c') /\ ctx_ok c'.
Proof.
  intros Hc Hs. unfold crypto_hkdf_extract_sha256. destruct salt as [|x salt]; [cbn in Hs; lia|].
  set (s := x :: salt) in *. rewrite u8_small by (unfold is_byte; lia).
  destruct (hmac_init_rep s c Hc ltac:(lia)) as (c1 & -> & R1). cbn [res_bind].
  unfold crypto_sha256_update. destruct (update_rep ikm _ _ R1) as (c2 & -> & R2). cbn [res_bind].
  apply (hmac_final_rep s ikm c2 R2). lia.
Qed.

(** The session keys are HKDF-SHA256 of the device secret under the
    stored salt, one per domain separation string, and depend on nothing
    else: the same salt gives the same keys after a restart. *)
Theorem session_keys_correct device_secret salt c :
  ctx_ok c -> (1 <= length salt <= 64)%nat ->
  exists c', crypto_derive_session_keys device_secret salt c
    = Done (let prk := hmac salt device_secret in
            mkSessionKeys (hkdf_expand prk info_cred_priv 32) (hkdf_expand prk info_cred_mac 32)
              (hkdf_expand prk info_meta_enc 32) (hkdf_expand prk info_hmac_ext 32), c').
Proof.
  intros Hc Hs. unfold crypto_derive_session_keys.
  destruct (hkdf_extract_correct salt device_secret c Hc Hs) as (c0 & -> & H0). cbn [res_bind].
  pose proof (hmac_length salt device_secret) as Hp.
  destruct (hkdf_expand32 _ info_cred_priv c0 H0 Hp) as (c1 & -> & H1). cbn [res_bind].
  destruct (hkdf_expand32 _ info_cred_mac c1 H1 Hp) as (c2 & -> & H2). cbn [res_bind].
  destruct (hkdf_expand32 _ info_meta_enc c2 H2 Hp) as (c3 & -> & H3). cbn [res_bind].
  destruct (hkdf_expand32 _ info_hmac_ext c3 H3 Hp) as (c4 & -> & H4). cbn [res_bind].
  by exists c4.
Qed.

Lemma session_keys_correct_witness :
  exists c', crypto_derive_session_keys (replicate 32 1) (replicate 32 2) fresh_ctx
    = Done (let prk := hmac (replicate 32 2) (replicate 32 1) in
            mkSessionKeys (hkdf_expand prk info_cred_priv 32) (hkdf_expand prk info_cred_mac 32)
              (hkdf_expand prk info_meta_enc 32) (hkdf_expand prk info_hmac_ext 32), c').
Proof.
  apply (session_keys_correct (replicate 32 1) (replicate 32 2) fresh_ctx); [done|cbn; lia].
Defined.

End Crypto.
