(* ===== verification/Vli.v ===== *)
(** * Long integers of micro-ecc (src/crypto/micro-ecc/uECC.c)

    A [uECC_word_t *] is the list of its 32-bit words, least significant first.
    The target is built with [uECC_PLATFORM=0], which selects 32-bit words, no
    assembly, big-endian byte strings and no separate squaring. Results may
    overlap operands in C only where every word is read before it is written. *)

From S2P Require Import Prelude.

#[local] Open Scope Z_scope.

Module Vli.

Definition uECC_WORD_BITS : Z := 32.
Definition HIGH_BIT_SET : Z := 0x80000000.

Abbreviation words := (Forall is_u32).

(** The number the words stand for. *)
Fixpoint vli_value (l : list Z) : Z :=
  match l with
  | [] => 0
  | w :: l => w + 2 ^ 32 * vli_value l
  end.

Definition uECC_vli_clear (num_words : nat) : list Z := zeros num_words.

Definition uECC_vli_isZero (vli : list Z) : bool := fold_left Z.lor vli 0 =? 0.

Definition uECC_vli_testBit (vli : list Z) (bit : Z) : bool :=
  negb (Z.land (nth (Z.to_nat (Z.shiftr bit 5)) vli 0) (Z.shiftl 1 (Z.land bit 0x1f)) =? 0).

(** The search from the top for a digit that is not zero. *)
Fixpoint vli_numDigits (vli : list Z) : nat :=
  match vli with
  | [] => 0
  | w :: vli => match vli_numDigits vli with
                | O => if (w =? 0)%Z then 0 else 1
                | n => S n
                end
  end%nat.

(** [for (i = 0; digit; ++i) digit >>= 1;] ends within 32 rounds. *)
Fixpoint count_bits (fuel : nat) (digit i : Z) : Z :=
  match fuel with
  | O => i
  | S fuel => if digit =? 0 then i else count_bits fuel (Z.shiftr digit 1) (i + 1)
  end.
Definition uECC_vli_numBits (vli : list Z) : Z :=
  match vli_numDigits vli with
  | O => 0
  | S n => Z.shiftl (Z.of_nat n) 5 + count_bits 32 (nth n vli 0) 0
  end.

(** The sign of the difference, from the top. *)
Fixpoint uECC_vli_cmp_unsafe (left right : list Z) : Z :=
  match left, right with
  | x :: l, y :: r =>
      let c := uECC_vli_cmp_unsafe l r in
      if c =? 0 then (if x >? y then 1 else if x <? y then -1 else 0) else c
  | _, _ => 0
  end.

Definition uECC_vli_equal (left right : list Z) : bool :=
  fold_left Z.lor (zip_with Z.lxor left right) 0 =? 0.

(** [vli >> 1], from the top: the words below get the carry of the word above. *)
Fixpoint rshift1_loop (vli : list Z) : list Z * Z :=
  match vli with
  | [] => ([], 0)
  | w :: vli =>
      let '(high, carry) := rshift1_loop vli in
      (Z.lor (Z.shiftr w 1) carry :: high, u32 (Z.shiftl w 31))
  end.
Definition uECC_vli_rshift1 (vli : list Z) : list Z := (rshift1_loop vli).1.

Fixpoint add_loop (left right : list Z) (carry : Z) : list Z * Z :=
  match left, right with
  | x :: l, y :: r =>
      let sum := u32 (x + y + carry) in
      let '(result, carry) := add_loop l r (if sum =? x then carry else b2z (sum <? x)) in
      (sum :: result, carry)
  | _, _ => ([], carry)
  end.
(** The sum and the carry. *)
Definition uECC_vli_add (left right : list Z) : list Z * Z := add_loop left right 0.

Fixpoint sub_loop (left right : list Z) (borrow : Z) : list Z * Z :=
  match left, right with
  | x :: l, y :: r =>
      let diff := u32 (x - y - borrow) in
      let '(result, borrow) := sub_loop l r (if diff =? x then borrow else b2z (diff >? x)) in
      (diff :: result, borrow)
  | _, _ => ([], borrow)
  end.
(** The difference and the borrow. *)
Definition uECC_vli_sub (left right : list Z) : list Z * Z := sub_loop left right 0.

Definition uECC_vli_cmp (left right : list Z) : Z :=
  let '(tmp, borrow) := uECC_vli_sub left right in
  let neg := b2z (negb (borrow =? 0)) in
  let equal := uECC_vli_isZero tmp in
  b2z (negb equal) - 2 * neg.

(** [*r0], [*r1] and [*r2]. *)
Definition accu : Type := Z * Z * Z.
Definition muladd (a b : Z) (r : accu) : accu :=
  let '(r0, r1, r2) := r in
  let p := u64 (a * b) in
  let r01 := u64 (Z.lor (Z.shiftl r1 32) r0 + p) in
  (u32 r01, Z.shiftr r01 32, u32 (r2 + b2z (r01 <? p))).

(** The inner loop of [uECC_vli_mult]: [n] products from index [i] on. *)
Fixpoint mult_column (left right : list Z) (k n i : nat) (r : accu) : accu :=
  match n with
  | O => r
  | S n => mult_column left right k n (S i) (muladd (nth i left 0) (nth (k - i) right 0) r)
  end.
(** The digits from [k] on: the first loop for [k < num_words], then the second. *)
Fixpoint mult_loop (left right : list Z) (num_words n k : nat) (r : accu) : list Z :=
  match n with
  | O => [r.1.1]
  | S n =>
      let '(r0, r1, r2) :=
        if (k <? num_words)%nat then mult_column left right k (k + 1) 0 r
        else mult_column left right k (2 * num_words - 1 - k) (k + 1 - num_words) r in
      r0 :: mult_loop left right num_words n (S k) (r1, r2, 0)
  end.
Definition uECC_vli_mult (left right : list Z) : list Z :=
  let num_words := length left in
  mult_loop left right num_words (2 * num_words - 1) 0 (0, 0, 0).

Definition uECC_vli_modAdd (left right mod_ : list Z) : list Z :=
  let '(result, carry) := uECC_vli_add left right in
  if negb (carry =? 0) || negb (uECC_vli_cmp_unsafe mod_ result =? 1)
  then (uECC_vli_sub result mod_).1 else result.

Definition uECC_vli_modSub (left right mod_ : list Z) : list Z :=
  let '(result, l_borrow) := uECC_vli_sub left right in
  if negb (l_borrow =? 0) then (uECC_vli_add result mod_).1 else result.

(** ** Division *)

(** [mod << bit_shift] with the carry of each word; the last one is dropped. *)
Fixpoint shift_words (l : list Z) (bit_shift carry : Z) : list Z :=
  match l with
  | [] => []
  | w :: l => Z.lor (u32 (Z.shiftl w bit_shift)) carry :: shift_words l bit_shift (Z.shiftr w (32 - bit_shift))
  end.

(** [mod_multiple >> 1], the two halves one after the other. *)
Definition halve (num_words : nat) (m : list Z) : list Z :=
  let low := uECC_vli_rshift1 (take num_words m) in
  let high := drop num_words m in
  let top := nth (num_words - 1) low 0 in
  <[(num_words - 1)%nat := Z.lor top (u32 (Z.shiftl (nth 0 high 0) 31))]> low ++ uECC_vli_rshift1 high.

(** The loop over [shift]: [v] is [v[index]], the smallest remainder so far; the
    difference replaces it when there is no borrow. *)
Fixpoint mmod_loop (num_words rounds : nat) (v mod_multiple : list Z) : list Z :=
  match rounds with
  | O => v
  | S rounds =>
      let '(diff, borrow) := uECC_vli_sub v mod_multiple in
      mmod_loop num_words rounds (if borrow =? 0 then diff else v) (halve num_words mod_multiple)
  end.

Definition uECC_vli_mmod (product mod_ : list Z) : list Z :=
  let num_words := length mod_ in
  let shift := Z.of_nat num_words * 2 * uECC_WORD_BITS - uECC_vli_numBits mod_ in
  let word_shift := Z.to_nat (shift / uECC_WORD_BITS) in
  let bit_shift := shift mod uECC_WORD_BITS in
  let mod_multiple := uECC_vli_clear word_shift ++
    (if bit_shift >? 0 then shift_words mod_ bit_shift 0 else mod_) in
  take num_words (mmod_loop num_words (Z.to_nat (shift + 1)) product mod_multiple).

Definition uECC_vli_modMult (left right mod_ : list Z) : list Z := uECC_vli_mmod (uECC_vli_mult left right) mod_.

(** ** Inversion *)

Definition EVEN (vli : list Z) : bool := Z.land (nth 0 vli 0) 1 =? 0.

Definition vli_modInv_update (uv mod_ : list Z) : list Z :=
  let '(uv, carry) := if negb (EVEN uv) then uECC_vli_add uv mod_ else (uv, 0) in
  let uv := uECC_vli_rshift1 uv in
  let top := (length uv - 1)%nat in
  if negb (carry =? 0) then <[top := Z.lor (nth top uv 0) HIGH_BIT_SET]> uv else uv.

(** [u - v] modulo [mod], the carry and the borrow being dropped. *)
Definition sub_update (u v mod_ : list Z) : list Z :=
  let u := if uECC_vli_cmp_unsafe u v <? 0 then (uECC_vli_add u mod_).1 else u in
  vli_modInv_update (uECC_vli_sub u v).1 mod_.

(** The [while] loop; every round takes a bit from [a] or [b].  [None] when
    the fuel ends. *)
Fixpoint modInv_loop (fuel : nat) (a b u v mod_ : list Z) : option (list Z) :=
  let cmpResult := uECC_vli_cmp_unsafe a b in
  if cmpResult =? 0 then Some u
  else
    match fuel with
    | O => None
    | S fuel =>
        if EVEN a then modInv_loop fuel (uECC_vli_rshift1 a) b (vli_modInv_update u mod_) v mod_
        else if EVEN b then modInv_loop fuel a (uECC_vli_rshift1 b) u (vli_modInv_update v mod_) mod_
        else if cmpResult >? 0 then
          modInv_loop fuel (uECC_vli_rshift1 (uECC_vli_sub a b).1) b (sub_update u v mod_) v mod_
        else
          modInv_loop fuel a (uECC_vli_rshift1 (uECC_vli_sub b a).1) u (sub_update v u mod_) mod_
    end.

(** The loop ends within a round for every bit of the two operands
    ([VliProps.modInv_ends]), so the default is never taken. *)
Definition uECC_vli_modInv (input mod_ : list Z) : list Z :=
  let num_words := length mod_ in
  if uECC_vli_isZero input then uECC_vli_clear num_words
  else default [] (modInv_loop (64 * num_words) input mod_ (1 :: zeros (num_words - 1)) (zeros num_words) mod_).

(** ** Bytes *)

Fixpoint native_bytes (native : list Z) (n : nat) : list Z :=
  match n with
  | O => []
  | S b => u8 (Z.shiftr (nth (b / 4) native 0) (8 * Z.of_nat (b mod 4))) :: native_bytes native b
  end.
Definition uECC_vli_nativeToBytes (num_bytes : nat) (native : list Z) : list Z := native_bytes native num_bytes.

(** The byte of index [i] from the end goes to word [b / 4]. *)
Fixpoint bytes_native (native bs : list Z) (b : nat) : list Z :=
  match bs with
  | [] => native
  | x :: bs =>
      let b := (b - 1)%nat in
      bytes_native (<[(b / 4)%nat := Z.lor (nth (b / 4) native 0) (u32 (Z.shiftl x (8 * Z.of_nat (b mod 4))))]> native) bs b
  end.
Definition uECC_vli_bytesToNative (bs : list Z) : list Z :=
  bytes_native (uECC_vli_clear ((length bs + 3) / 4)) bs (length bs).

End Vli.
