(* ===== verification/VliProps.v ===== *)
(** * Arithmetic of the long integers

    What the word operations of [Vli] do to the numbers the words stand for. *)

From S2P Require Import Prelude.
From S2P Require Import Vli.

#[local] Open Scope Z_scope.

Module VliProps.
Export Vli.

(** Numbers of [n] words are below [cap n]. *)
Definition cap (n : nat) : Z := 2 ^ (32 * Z.of_nat n).

Lemma cap_0 : cap 0 = 1.
Proof. reflexivity. Qed.
Lemma cap_S n : cap (S n) = 2 ^ 32 * cap n.
Proof. unfold cap. rewrite <- Z.pow_add_r by lia. f_equal. lia. Qed.
Lemma cap_add n m : cap (n + m) = cap n * cap m.
Proof. unfold cap. rewrite <- Z.pow_add_r by lia. f_equal. lia. Qed.
Lemma cap_pos n : 0 < cap n.
Proof. unfold cap. apply Z.pow_pos_nonneg; lia. Qed.

Lemma words_cons w l : words (w :: l) -> 0 <= w < 2 ^ 32 /\ words l.
Proof. intros [H1 H2]%Forall_cons. by split. Qed.

Lemma value_range l : words l -> 0 <= vli_value l < cap (length l).
Proof.
  induction l as [|w l IH]; intros H; cbn [vli_value length].
  - rewrite cap_0. lia.
  - apply words_cons in H as [Hw Hl]. rewrite cap_S. specialize (IH Hl). lia.
Qed.

Lemma value_app l k : vli_value (l ++ k) = vli_value l + cap (length l) * vli_value k.
Proof.
  induction l as [|w l IH]; cbn [app vli_value length].
  - rewrite cap_0. lia.
  - rewrite IH, cap_S. ring.
Qed.

Lemma value_zeros n : vli_value (zeros n) = 0.
Proof. induction n as [|n IH]; [done|]. change (0 + 2 ^ 32 * vli_value (zeros n) = 0). rewrite IH. lia. Qed.

Lemma zeros_words n : words (zeros n).
Proof. apply Forall_replicate. unfold is_u32. lia. Qed.

Lemma value_inj l k : words l -> words k -> length l = length k -> vli_value l = vli_value k -> l = k.
Proof.
  revert k. induction l as [|x l IH]; intros [|y k] Hl Hk Hn; try done.
  cbn [vli_value]. apply words_cons in Hl as [Hx Hl]. apply words_cons in Hk as [Hy Hk]. intros E.
  assert (x = y) as -> by lia. f_equal. apply IH; [done|done|by injection Hn|lia].
Qed.

(** ** Addition and subtraction *)

Lemma add_digit x y c :
  0 <= x < 2 ^ 32 -> 0 <= y < 2 ^ 32 -> 0 <= c <= 1 ->
  let sum := u32 (x + y + c) in
  let c' := if sum =? x then c else b2z (sum <? x) in
  0 <= sum < 2 ^ 32 /\ 0 <= c' <= 1 /\ sum + 2 ^ 32 * c' = x + y + c.
Proof.
  intros Hx Hy Hc sum c'.
  assert (Hs : 0 <= sum < 2 ^ 32) by apply u32_range.
  assert (E : sum = x + y + c \/ sum = x + y + c - 2 ^ 32).
  { unfold sum, u32. pose proof (Z.div_mod (x + y + c) (2 ^ 32)).
    pose proof (Z.mod_pos_bound (x + y + c) (2 ^ 32)). lia. }
  unfold c'. destruct (Z.eqb_spec sum x), (Z.ltb_spec sum x); cbn [b2z]; lia.
Qed.

Lemma sub_digit x y c :
  0 <= x < 2 ^ 32 -> 0 <= y < 2 ^ 32 -> 0 <= c <= 1 ->
  let diff := u32 (x - y - c) in
  let c' := if diff =? x then c else b2z (diff >? x) in
  0 <= diff < 2 ^ 32 /\ 0 <= c' <= 1 /\ diff - 2 ^ 32 * c' = x - y - c.
Proof.
  intros Hx Hy Hc diff c'.
  assert (Hs : 0 <= diff < 2 ^ 32) by apply u32_range.
  assert (E : diff = x - y - c \/ diff = x - y - c + 2 ^ 32).
  { unfold diff, u32. pose proof (Z.div_mod (x - y - c) (2 ^ 32)).
    pose proof (Z.mod_pos_bound (x - y - c) (2 ^ 32)). lia. }
  unfold c'. rewrite Z.gtb_ltb. destruct (Z.eqb_spec diff x), (Z.ltb_spec x diff); cbn [b2z]; lia.
Qed.

Lemma add_loop_ok l : forall r c,
  words l -> words r -> length l = length r -> 0 <= c <= 1 ->
  let '(s, c') := add_loop l r c in
  words s /\ length s = length l /\ 0 <= c' <= 1 /\
  vli_value s + cap (length l) * c' = vli_value l + vli_value r + c.
Proof.
  induction l as [|x l IH]; intros [|y r] c Hl Hr Hn Hc; try done; cbn [add_loop].
  - cbn [length vli_value]. rewrite cap_0. split_and!; try done; lia.
  - apply words_cons in Hl as [Hx Hl]. apply words_cons in Hr as [Hy Hr].
    destruct (add_digit x y c Hx Hy Hc) as (Hs & Hc' & E).
    specialize (IH r _ Hl Hr ltac:(by injection Hn) Hc').
    destruct (add_loop l r _) as [s c'']. destruct IH as (Ws & Ls & Hc'' & Es).
    cbn [vli_value length]. rewrite cap_S, Ls. split_and!; [by constructor|done|lia|lia|lia].
Qed.

Lemma sub_loop_ok l : forall r c,
  words l -> words r -> length l = length r -> 0 <= c <= 1 ->
  let '(s, c') := sub_loop l r c in
  words s /\ length s = length l /\ 0 <= c' <= 1 /\
  vli_value s - cap (length l) * c' = vli_value l - vli_value r - c.
Proof.
  induction l as [|x l IH]; intros [|y r] c Hl Hr Hn Hc; try done; cbn [sub_loop].
  - cbn [length vli_value]. rewrite cap_0. split_and!; try done; lia.
  - apply words_cons in Hl as [Hx Hl]. apply words_cons in Hr as [Hy Hr].
    destruct (sub_digit x y c Hx Hy Hc) as (Hs & Hc' & E).
    specialize (IH r _ Hl Hr ltac:(by injection Hn) Hc').
    destruct (sub_loop l r _) as [s c'']. destruct IH as (Ws & Ls & Hc'' & Es).
    cbn [vli_value length]. rewrite cap_S, Ls. split_and!; [by constructor|done|lia|lia|lia].
Qed.

(** Words of a given number, of a given size. *)
Definition stands (l : list Z) (n : nat) (v : Z) : Prop :=
  words l /\ length l = n /\ vli_value l = v.

Lemma stands_range l n v : stands l n v -> 0 <= v < cap n.
Proof. intros (H & <- & <-). by apply value_range. Qed.
Lemma stands_eq l k n v : stands l n v -> stands k n v -> l = k.
Proof. intros (Hl & Ll & El) (Hk & Lk & Ek). apply value_inj; congruence. Qed.
Lemma stands_words l n v : stands l n v -> words l.
Proof. by intros (? & _). Qed.
Lemma stands_self l : words l -> stands l (length l) (vli_value l).
Proof. by intros. Qed.

Lemma uECC_vli_add_ok l r n v w :
  stands l n v -> stands r n w ->
  stands (uECC_vli_add l r).1 n ((v + w) mod cap n) /\ (uECC_vli_add l r).2 = (v + w) / cap n.
Proof.
  intros (Hl & Ll & El) (Hr & Lr & Er). unfold uECC_vli_add.
  pose proof (add_loop_ok l r 0 Hl Hr ltac:(congruence) ltac:(lia)) as H.
  destruct (add_loop l r 0) as [s c]. destruct H as (Ws & Ls & Hc & E). cbn.
  rewrite Ll in *. pose proof (value_range s Ws) as Rs. rewrite Ls in Rs.
  assert (Ev : v + w = cap n * c + vli_value s) by lia.
  split; [split_and!; [done|done|]|].
  - by apply (Z.mod_unique_pos _ _ c).
  - by apply (Z.div_unique_pos _ _ _ (vli_value s)).
Qed.

Lemma uECC_vli_sub_ok l r n v w :
  stands l n v -> stands r n w ->
  stands (uECC_vli_sub l r).1 n ((v - w) mod cap n) /\ (uECC_vli_sub l r).2 = b2z (v <? w).
Proof.
  intros Sl Sr. pose proof (stands_range _ _ _ Sl) as Rv. pose proof (stands_range _ _ _ Sr) as Rw.
  destruct Sl as (Hl & Ll & El), Sr as (Hr & Lr & Er). unfold uECC_vli_sub.
  pose proof (sub_loop_ok l r 0 Hl Hr ltac:(congruence) ltac:(lia)) as H.
  destruct (sub_loop l r 0) as [s c]. destruct H as (Ws & Ls & Hc & E). cbn.
  rewrite Ll in *. pose proof (value_range s Ws) as Rs. rewrite Ls in Rs.
  assert (Ev : v - w = cap n * - c + vli_value s) by lia.
  split; [split_and!; [done|done|]|].
  - by apply (Z.mod_unique_pos _ _ (- c)).
  - assert (Hcc : c = 0 \/ c = 1) by lia. destruct (Z.ltb_spec v w), Hcc; subst c; cbn; lia.
Qed.

(** ** Comparisons *)

Lemma cmp_unsafe_sign l : forall r, words l -> words r -> length l = length r ->
  uECC_vli_cmp_unsafe l r = Z.sgn (vli_value l - vli_value r).
Proof.
  induction l as [|x l IH]; intros [|y r] Hl Hr Hn; try done; cbn [uECC_vli_cmp_unsafe vli_value].
  apply words_cons in Hl as [Hx Hl]. apply words_cons in Hr as [Hy Hr].
  rewrite (IH r Hl Hr ltac:(by injection Hn)).
  pose proof (Z.sgn_spec (vli_value l - vli_value r)) as S1.
  pose proof (Z.sgn_spec (x + 2 ^ 32 * vli_value l - (y + 2 ^ 32 * vli_value r))) as S2.
  rewrite Z.gtb_ltb. destruct (Z.eqb_spec (Z.sgn (vli_value l - vli_value r)) 0), (Z.ltb_spec y x), (Z.ltb_spec x y); lia.
Qed.

Lemma cmp_unsafe_ok l r n v w : stands l n v -> stands r n w -> uECC_vli_cmp_unsafe l r = Z.sgn (v - w).
Proof. intros (Hl & Ll & <-) (Hr & Lr & <-). apply cmp_unsafe_sign; [done|done|congruence]. Qed.

Lemma fold_lor l : forall b, 0 <= b -> Forall (Z.le 0) l ->
  0 <= fold_left Z.lor l b /\ (fold_left Z.lor l b = 0 <-> b = 0 /\ Forall (eq 0) l).
Proof.
  induction l as [|x l IH]; intros b Hb Hl; cbn [fold_left].
  - split; [done|]. split; [by split|by intros []].
  - apply Forall_cons in Hl as [Hx Hl].
    destruct (IH (Z.lor b x) ltac:(by apply Z.lor_nonneg) Hl) as [H1 H2].
    split; [done|]. rewrite H2, Z.lor_eq_0_iff, Forall_cons. intuition.
Qed.

Lemma all_zero l : words l -> (Forall (eq 0) l <-> vli_value l = 0).
Proof.
  induction l as [|w l IH]; intros H; cbn [vli_value]; [split; [done|constructor]|].
  apply words_cons in H as [Hw Hl]. rewrite Forall_cons, IH by done.
  pose proof (value_range l Hl). lia.
Qed.

Lemma isZero_ok l n v : stands l n v -> uECC_vli_isZero l = (v =? 0).
Proof.
  intros (H & _ & <-). unfold uECC_vli_isZero. apply eq_true_iff_eq. rewrite !Z.eqb_eq.
  rewrite (proj2 (fold_lor l 0 ltac:(lia) ltac:(eapply Forall_impl; [exact H|by intros x []]))).
  rewrite all_zero by done. intuition.
Qed.

Lemma words_xor l : forall r, words l -> words r -> Forall (Z.le 0) (zip_with Z.lxor l r).
Proof.
  induction l as [|x l IH]; intros [|y r] Hl Hr; try constructor.
  - apply words_cons in Hl as [Hx _]. apply words_cons in Hr as [Hy _]. apply Z.lxor_nonneg. lia.
  - apply words_cons in Hl as [_ Hl]. apply words_cons in Hr as [_ Hr]. by apply IH.
Qed.

Lemma xor_zero l : forall r, length l = length r -> Forall (eq 0) (zip_with Z.lxor l r) -> l = r.
Proof.
  induction l as [|x l IH]; intros [|y r] Hn H; try done.
  apply Forall_cons in H as [E%eq_sym%Z.lxor_eq H]. subst. f_equal. apply IH; [by injection Hn|done].
Qed.

Lemma xor_self l : Forall (eq 0) (zip_with Z.lxor l l).
Proof. induction l; constructor; [by rewrite Z.lxor_nilpotent|done]. Qed.

Lemma equal_ok l r n v w : stands l n v -> stands r n w -> uECC_vli_equal l r = (v =? w).
Proof.
  intros Sl Sr. unfold uECC_vli_equal. apply eq_true_iff_eq. rewrite !Z.eqb_eq.
  rewrite (proj2 (fold_lor _ 0 ltac:(lia) (words_xor l r (stands_words _ _ _ Sl) (stands_words _ _ _ Sr)))).
  split.
  - intros [_ H]. destruct Sl as (_ & Ll & <-), Sr as (_ & Lr & <-). f_equal. apply xor_zero; [congruence|done].
  - intros ->. rewrite (stands_eq _ _ _ _ Sl Sr). split; [done|apply xor_self].
Qed.

Lemma vli_cmp_ok l r n v w : stands l n v -> stands r n w -> uECC_vli_cmp l r = Z.sgn (v - w).
Proof.
  intros Sl Sr. pose proof (stands_range _ _ _ Sl). pose proof (stands_range _ _ _ Sr).
  destruct (uECC_vli_sub_ok l r n v w Sl Sr) as [Sd Ed]. unfold uECC_vli_cmp.
  destruct (uECC_vli_sub l r) as [tmp borrow]. cbn in Sd, Ed. rewrite (isZero_ok _ _ _ Sd), Ed.
  pose proof (Z.sgn_spec (v - w)).
  destruct (Z.ltb_spec v w); cbn [b2z].
  - replace ((v - w) mod cap n) with (v - w + cap n) by (apply (Z.mod_unique_pos _ _ (-1)); lia).
    destruct (Z.eqb_spec (v - w + cap n) 0); cbn; lia.
  - rewrite Z.mod_small by lia. destruct (Z.eqb_spec (v - w) 0); cbn; lia.
Qed.

(** ** Bits *)

Lemma rshift1_loop_ok l : words l ->
  let '(h, c) := rshift1_loop l in
  words h /\ length h = length l /\ vli_value h = vli_value l / 2 /\ c = 2 ^ 31 * (vli_value l mod 2).
Proof.
  induction l as [|w l IH]; intros H; cbn [rshift1_loop vli_value].
  - split_and!; done.
  - apply words_cons in H as [Hw Hl]. specialize (IH Hl).
    destruct (rshift1_loop l) as [h c]. destruct IH as (Wh & Lh & Eh & Ec). cbn [vli_value length].
    pose proof (Z.div_mod (vli_value l) 2 ltac:(lia)) as D. pose proof (Z.mod_pos_bound (vli_value l) 2 ltac:(lia)).
    pose proof (Z.div_mod w 2 ltac:(lia)) as Dw. pose proof (Z.mod_pos_bound w 2 ltac:(lia)).
    assert (El : Z.lor (Z.shiftr w 1) c = w / 2 + c).
    { rewrite Ec, Z.lor_comm, (Z.mul_comm (2 ^ 31)), lor_low.
      - rewrite Z.shiftr_div_pow2 by lia. change (2 ^ 1) with 2. lia.
      - lia.
      - rewrite Z.shiftr_div_pow2 by lia. change (2 ^ 1) with 2. lia. }
    rewrite El. split_and!.
    + constructor; [|done]. unfold is_u32. lia.
    + by f_equal.
    + rewrite Eh. apply (Z.div_unique_pos _ _ _ (w mod 2)); lia.
    + unfold u32. rewrite Z.shiftl_mul_pow2 by lia.
      replace (w + 2 ^ 32 * vli_value l) with (w + vli_value l * 2 ^ 31 * 2) by lia.
      rewrite Z.mod_add by lia. symmetry. apply (Z.mod_unique_pos _ _ (w / 2)); lia.
Qed.

Lemma uECC_vli_rshift1_ok l n v : stands l n v -> stands (uECC_vli_rshift1 l) n (v / 2).
Proof.
  intros (H & L & E). pose proof (rshift1_loop_ok l H) as P. unfold uECC_vli_rshift1.
  destruct (rshift1_loop l) as [h c]. destruct P as (Wh & Lh & Eh & _). cbn. split_and!; congruence.
Qed.

Lemma EVEN_ok l n v : stands l (S n) v -> EVEN l = Z.even v.
Proof.
  intros (H & L & <-). destruct l as [|w l]; [done|]. unfold EVEN. cbn [nth vli_value].
  replace (Z.even (w + 2 ^ 32 * vli_value l)) with (Z.even w).
  - change 1 with (Z.ones 1). rewrite Z.land_ones by lia. change (2 ^ 1) with 2. by rewrite Zmod_even; destruct (Z.even w).
  - rewrite Z.even_add, Z.even_mul. cbn. by destruct (Z.even w).
Qed.

Lemma count_bits_ok fuel : forall d i, 0 <= d < 2 ^ Z.of_nat fuel -> 0 < d ->
  exists k, count_bits fuel d i = i + k /\ 0 < k <= Z.of_nat fuel /\ 2 ^ (k - 1) <= d < 2 ^ k.
Proof.
  induction fuel as [|fuel IH]; intros d i Hd Hp; [cbn in Hd; lia|].
  cbn [count_bits]. destruct (Z.eqb_spec d 0); [lia|]. rewrite Z.shiftr_div_pow2 by lia. change (2 ^ 1) with 2.
  rewrite Nat2Z.inj_succ, Z.pow_succ_r in Hd by lia.
  pose proof (Z.div_mod d 2 ltac:(lia)). pose proof (Z.mod_pos_bound d 2 ltac:(lia)).
  destruct (decide (d = 1)) as [->|Hne].
  - exists 1. split_and!; [|lia|lia|lia|lia]. destruct fuel; reflexivity.
  - destruct (IH (d / 2) (i + 1) ltac:(lia) ltac:(lia)) as (k & -> & Hk & Hb). exists (k + 1).
    split_and!; [lia|lia|lia| |].
    + replace (k + 1 - 1) with (Z.succ (k - 1)) by lia. rewrite Z.pow_succ_r by lia. lia.
    + rewrite Z.pow_add_r by lia. lia.
Qed.

Lemma numDigits_ok l : words l ->
  match vli_numDigits l with
  | O => vli_value l = 0
  | S n => 0 < nth n l 0 < 2 ^ 32 /\
      cap n * nth n l 0 <= vli_value l < cap n * (nth n l 0 + 1)
  end.
Proof.
  induction l as [|w l IH]; intros H; cbn [vli_numDigits vli_value]; [done|].
  apply words_cons in H as [Hw Hl]. specialize (IH Hl). destruct (vli_numDigits l) as [|n].
  - rewrite IH. destruct (Z.eqb_spec w 0); [lia|]. rewrite cap_0. cbn [nth]. lia.
  - cbn [nth]. rewrite cap_S. lia.
Qed.

Lemma numBits_ok l n v : stands l n v ->
  0 <= uECC_vli_numBits l /\ v < 2 ^ uECC_vli_numBits l /\ (0 < v -> 2 ^ (uECC_vli_numBits l - 1) <= v).
Proof.
  intros (H & _ & <-). unfold uECC_vli_numBits. pose proof (numDigits_ok l H) as P.
  destruct (vli_numDigits l) as [|k]; [rewrite P; split_and!; lia|].
  destruct P as [Hw Hv]. destruct (count_bits_ok 32 (nth k l 0) 0 ltac:(lia) ltac:(lia)) as (b & -> & Hb & Hd).
  rewrite Z.shiftl_mul_pow2 by lia. change (2 ^ 5) with 32. pose proof (cap_pos k).
  assert (E : forall i, 0 <= i -> 2 ^ (Z.of_nat k * 32 + i) = cap k * 2 ^ i).
  { intros i Hi. rewrite Z.pow_add_r by lia. unfold cap. f_equal. f_equal. lia. }
  split_and!; [lia| |intros _].
  - replace (Z.of_nat k * 32 + (0 + b)) with (Z.of_nat k * 32 + b) by lia. rewrite E by lia. nia.
  - replace (Z.of_nat k * 32 + (0 + b) - 1) with (Z.of_nat k * 32 + (b - 1)) by lia. rewrite E by lia. nia.
Qed.

Lemma nth_testbit l : forall k i, words l -> 0 <= i < 32 ->
  Z.testbit (nth k l 0) i = Z.testbit (vli_value l) (32 * Z.of_nat k + i).
Proof.
  induction l as [|w l IH]; intros k i H Hi.
  - rewrite nth_overflow by (cbn; lia). cbn [vli_value]. by rewrite !Z.testbit_0_l.
  - apply words_cons in H as [Hw Hl]. cbn [vli_value].
    replace (w + 2 ^ 32 * vli_value l) with (Z.lor (vli_value l * 2 ^ 32) w) by (rewrite lor_low by lia; lia).
    rewrite Z.lor_spec. destruct k as [|k]; cbn [nth].
    + replace (32 * Z.of_nat 0 + i) with i by lia. rewrite Z.mul_pow2_bits_low by lia. done.
    + rewrite Z.mul_pow2_bits by lia. rewrite (IH k i Hl Hi).
      rewrite (Z.bits_above_log2 w), orb_false_r.
      * f_equal. lia.
      * lia.
      * destruct (decide (w = 0)) as [->|]; [cbn; lia|]. pose proof (proj1 (Z.log2_lt_pow2 w 32 ltac:(lia)) ltac:(lia)). lia.
Qed.

Lemma testBit_ok l n v i : stands l n v -> 0 <= i -> uECC_vli_testBit l i = Z.testbit v i.
Proof.
  intros (H & _ & <-) Hi. unfold uECC_vli_testBit.
  change 0x1f with (Z.ones 5). rewrite Z.land_ones, Z.shiftr_div_pow2, Z.shiftl_1_l by lia.
  change (2 ^ 5) with 32. pose proof (Z.div_mod i 32 ltac:(lia)). pose proof (Z.mod_pos_bound i 32 ltac:(lia)).
  replace (Z.testbit (vli_value l) i) with (Z.testbit (nth (Z.to_nat (i / 32)) l 0) (i mod 32)).
  - destruct (Z.testbit _ _) eqn:E; [apply negb_true_iff, Z.eqb_neq|apply negb_false_iff, Z.eqb_eq].
    + intros E0. apply (f_equal (fun z => Z.testbit z (i mod 32))) in E0.
      rewrite Z.land_spec, Z.pow2_bits_true, E, Z.testbit_0_l in E0 by lia. done.
    + apply Z.bits_inj'. intros j Hj. rewrite Z.land_spec, Z.testbit_0_l, Z.pow2_bits_eqb by lia.
      destruct (Z.eqb_spec (i mod 32) j) as [<-|]; [by rewrite E|by rewrite andb_false_r].
  - rewrite nth_testbit by done. f_equal. lia.
Qed.

(** ** Modular addition and subtraction *)

Lemma sgn_one x : (Z.sgn x =? 1) = (0 <? x).
Proof. by destruct x. Qed.

Lemma modAdd_ok l r md n v w m :
  stands l n v -> stands r n w -> stands md n m -> v < m -> w < m ->
  stands (uECC_vli_modAdd l r md) n ((v + w) mod m).
Proof.
  intros Sl Sr Sm Hv Hw. pose proof (stands_range _ _ _ Sl). pose proof (stands_range _ _ _ Sr).
  pose proof (stands_range _ _ _ Sm). unfold uECC_vli_modAdd.
  destruct (uECC_vli_add_ok l r n v w Sl Sr) as [Ss Ec]. destruct (uECC_vli_add l r) as [s c]. cbn in Ss, Ec.
  rewrite Ec, (cmp_unsafe_ok _ _ _ _ _ Sm Ss), sgn_one.
  destruct (uECC_vli_sub_ok s md n _ _ Ss Sm) as [Sd _].
  destruct (decide (v + w < cap n)) as [Hc|Hc].
  - rewrite (Z.div_small (v + w)) by lia. rewrite (Z.mod_small (v + w) (cap n)) in * by lia.
    cbn [Z.eqb negb orb]. destruct (Z.ltb_spec 0 (m - (v + w))); cbn [negb].
    + rewrite (Z.mod_small (v + w) m) by lia. done.
    + rewrite Z.mod_small in Sd by lia. replace ((v + w) mod m) with (v + w - m); [done|].
      apply (Z.mod_unique_pos _ _ 1); lia.
  - replace ((v + w) / cap n) with 1 by (apply (Z.div_unique_pos _ _ _ (v + w - cap n)); lia).
    cbn [Z.eqb negb orb].
    replace ((v + w) mod m) with (v + w - m) by (apply (Z.mod_unique_pos _ _ 1); lia).
    replace (v + w - m) with (((v + w) mod cap n - m) mod cap n); [done|].
    rewrite Zminus_mod_idemp_l. apply Z.mod_small. lia.
Qed.

Lemma modSub_ok l r md n v w m :
  stands l n v -> stands r n w -> stands md n m -> v < m -> w < m ->
  stands (uECC_vli_modSub l r md) n ((v - w) mod m).
Proof.
  intros Sl Sr Sm Hv Hw. pose proof (stands_range _ _ _ Sl). pose proof (stands_range _ _ _ Sr).
  pose proof (stands_range _ _ _ Sm). unfold uECC_vli_modSub.
  destruct (uECC_vli_sub_ok l r n v w Sl Sr) as [Ss Ec]. destruct (uECC_vli_sub l r) as [s c]. cbn in Ss, Ec.
  subst c. destruct (Z.ltb_spec v w); cbn [b2z Z.eqb negb].
  - destruct (uECC_vli_add_ok s md n _ _ Ss Sm) as [Sa _].
    replace ((v - w) mod m) with (((v - w) mod cap n + m) mod cap n); [done|].
    rewrite Zplus_mod_idemp_l, Z.mod_small by lia. apply (Z.mod_unique_pos _ _ (-1)); lia.
  - rewrite Z.mod_small in * by lia. done.
Qed.

(** ** Multiplication *)

Definition accu_value (r : accu) : Z := let '(r0, r1, r2) := r in r0 + 2 ^ 32 * r1 + 2 ^ 64 * r2.
Definition accu_ok (r : accu) : Prop := let '(r0, r1, r2) := r in is_u32 r0 /\ is_u32 r1 /\ is_u32 r2.

Lemma muladd_ok a b r :
  0 <= a < 2 ^ 32 -> 0 <= b < 2 ^ 32 -> accu_ok r -> accu_value r + a * b < 2 ^ 96 ->
  accu_ok (muladd a b r) /\ accu_value (muladd a b r) = accu_value r + a * b.
Proof.
  destruct r as [[r0 r1] r2]. unfold accu_ok, accu_value, muladd, is_u32. intros Ha Hb (H0 & H1 & H2) Hs.
  rewrite (Z.shiftl_mul_pow2 r1), lor_low, Z.shiftr_div_pow2 by lia.
  assert (Hp : 0 <= a * b <= (2 ^ 32 - 1) * (2 ^ 32 - 1)) by nia.
  unfold u64. rewrite (Z.mod_small (a * b)) by lia.
  set (t := r1 * 2 ^ 32 + r0 + a * b). set (r01 := t mod 2 ^ 64).
  assert (Hr : 0 <= r01 < 2 ^ 64) by (apply Z.mod_pos_bound; lia).
  assert (E : r01 = t - 2 ^ 64 * b2z (r01 <? a * b)).
  { unfold r01 in *. pose proof (Z.div_mod t (2 ^ 64) ltac:(lia)).
    destruct (Z.ltb_spec (t mod 2 ^ 64) (a * b)); cbn [b2z]; unfold t in *; lia. }
  pose proof (Z.div_mod r01 (2 ^ 32) ltac:(lia)) as D. pose proof (Z.mod_pos_bound r01 (2 ^ 32) ltac:(lia)).
  assert (Hc : 0 <= b2z (r01 <? a * b) <= 1) by (destruct (r01 <? a * b); cbn; lia).
  unfold u32. rewrite (Z.mod_small (r2 + _)) by (unfold t in *; lia). unfold t in *. lia.
Qed.

(** The sum of [n] products of the column [k], and the whole column. *)
Fixpoint span (l r : list Z) (k n i : nat) : Z :=
  match n with
  | O => 0
  | S n => nth i l 0 * nth (k - i) r 0 + span l r k n (S i)
  end.
Definition column (l r : list Z) (k : nat) : Z := span l r k (S k) 0.

Lemma nth_word l i : words l -> 0 <= nth i l 0 < 2 ^ 32.
Proof.
  intros H. destruct (Nat.lt_ge_cases i (length l)).
  - destruct (nth_lookup_or_length l i 0) as [E|]; [|lia]. by apply (Forall_lookup_1 _ _ _ _ H E).
  - rewrite nth_overflow by done. lia.
Qed.

Lemma span_range l r k n : forall i, words l -> words r ->
  0 <= span l r k n i <= Z.of_nat n * ((2 ^ 32 - 1) * (2 ^ 32 - 1)).
Proof.
  induction n as [|n IH]; intros i Hl Hr; cbn [span]; [lia|].
  specialize (IH (S i) Hl Hr). pose proof (nth_word l i Hl). pose proof (nth_word r (k - i) Hr).
  assert (0 <= nth i l 0 * nth (k - i) r 0 <= (2 ^ 32 - 1) * (2 ^ 32 - 1)) by nia. lia.
Qed.

Lemma span_app l r k n m : forall i, span l r k (n + m) i = span l r k n i + span l r k m (i + n).
Proof.
  induction n as [|n IH]; intros i; cbn [Nat.add span].
  - by rewrite Nat.add_0_r.
  - rewrite IH. replace (S i + n)%nat with (i + S n)%nat by lia. lia.
Qed.

Lemma span_zero l r k n : forall i,
  (forall j, (i <= j < i + n)%nat -> (length l <= j \/ length r <= k - j)%nat) -> span l r k n i = 0.
Proof.
  induction n as [|n IH]; intros i H; cbn [span]; [done|]. rewrite IH by (intros j Hj; apply H; lia).
  destruct (H i ltac:(lia)) as [Hl|Hr]; [rewrite (nth_overflow l) by done|rewrite (nth_overflow r) by done]; lia.
Qed.

Lemma span_cons x l r k n : forall i, span (x :: l) r (S k) n (S i) = span l r k n i.
Proof. induction n as [|n IH]; intros i; cbn [span nth]; [done|]. by rewrite IH, Nat.sub_succ. Qed.

Lemma column_0 x l r : column (x :: l) r 0 = x * nth 0 r 0.
Proof. unfold column. cbn. lia. Qed.
Lemma column_S x l r k : column (x :: l) r (S k) = x * nth (S k) r 0 + column l r k.
Proof. unfold column. rewrite <- (span_cons x l r k (S k) 0). reflexivity. Qed.
Lemma column_nil r k : column [] r k = 0.
Proof. apply span_zero. intros j _. left. cbn. lia. Qed.

(** The columns the two loops of [uECC_vli_mult] add up. *)
Lemma span_low l r n k : length l = n -> length r = n -> (n <= k < 2 * n)%nat ->
  span l r k (2 * n - 1 - k) (k + 1 - n) = column l r k.
Proof.
  intros Hl Hr Hk. unfold column.
  replace (S k) with (((k + 1 - n) + (2 * n - 1 - k)) + (S k - n))%nat by lia. rewrite !span_app.
  rewrite (span_zero l r k (k + 1 - n) 0) by (intros j Hj; right; lia).
  rewrite (span_zero l r k (S k - n)) by (intros j Hj; left; lia). cbn [Nat.add]. lia.
Qed.

(** [m] values of [f] from [k] on as the digits of a number. *)
Fixpoint series (f : nat -> Z) (m k : nat) : Z :=
  match m with
  | O => 0
  | S m => f k + 2 ^ 32 * series f m (S k)
  end.

Lemma series_ext f g m : forall k, (forall j, f j = g j) -> series f m k = series g m k.
Proof. induction m as [|m IH]; intros k H; cbn [series]; [done|]. by rewrite H, (IH (S k) H). Qed.
Lemma series_shift f m : forall k, series f m (S k) = series (fun j => f (S j)) m k.
Proof. induction m as [|m IH]; intros k; cbn [series]; [done|]. by rewrite IH. Qed.
Lemma series_sum f g x m : forall k, series (fun j => x * f j + g j) m k = x * series f m k + series g m k.
Proof. induction m as [|m IH]; intros k; cbn [series]; [lia|]. rewrite IH. lia. Qed.
Lemma series_zero m : forall k, series (fun _ => 0) m k = 0.
Proof. induction m as [|m IH]; intros k; cbn [series]; [done|]. rewrite IH. lia. Qed.

Lemma series_value r : forall m, (length r <= m)%nat -> series (fun j => nth j r 0) m 0 = vli_value r.
Proof.
  induction r as [|x r IH]; intros m Hm.
  - rewrite (series_ext _ (fun _ => 0)) by (intros []; done). apply series_zero.
  - destruct m as [|m]; [cbn in Hm; lia|]. cbn [series nth vli_value]. rewrite series_shift. cbn [nth].
    rewrite IH by (cbn in Hm; lia). done.
Qed.

Lemma series_column l r : forall m, (length l + length r <= m + 1)%nat ->
  series (column l r) m 0 = vli_value l * vli_value r.
Proof.
  induction l as [|x l IH]; intros m Hm.
  - rewrite (series_ext _ (fun _ => 0)) by apply column_nil. by rewrite series_zero.
  - cbn in Hm. destruct m as [|m].
    + destruct l, r; cbn in Hm; try lia. cbn. lia.
    + cbn [series vli_value]. rewrite series_shift, column_0.
      rewrite (series_ext _ (fun j => x * nth (S j) r 0 + column l r j)) by (intros j; apply column_S).
      rewrite series_sum, IH by lia.
      pose proof (series_value r (S m) ltac:(lia)) as E. cbn [series] in E. rewrite series_shift in E. nia.
Qed.

Lemma mult_column_ok l r k n : forall i a, words l -> words r -> accu_ok a ->
  accu_value a + span l r k n i < 2 ^ 96 ->
  accu_ok (mult_column l r k n i a) /\ accu_value (mult_column l r k n i a) = accu_value a + span l r k n i.
Proof.
  induction n as [|n IH]; intros i a Hl Hr Ha Hb; cbn [mult_column span] in *; [split; [done|lia]|].
  pose proof (span_range l r k n (S i) Hl Hr).
  destruct (muladd_ok (nth i l 0) (nth (k - i) r 0) a (nth_word l i Hl) (nth_word r (k - i) Hr) Ha ltac:(lia)) as [Ho Ev].
  destruct (IH (S i) (muladd (nth i l 0) (nth (k - i) r 0) a) Hl Hr Ho ltac:(lia)) as [Ho' Ev']. split; [done|lia].
Qed.

(** The step of the loops over [k]: the digit of the column, and the carries. *)
Lemma column_step l r n k a : words l -> words r -> length l = n -> length r = n ->
  Z.of_nat n < 2 ^ 30 -> (k < 2 * n)%nat -> accu_ok a -> accu_value a < 2 ^ 64 ->
  let a' := if (k <? n)%nat then mult_column l r k (k + 1) 0 a
            else mult_column l r k (2 * n - 1 - k) (k + 1 - n) a in
  accu_ok a' /\ accu_value a' = accu_value a + column l r k.
Proof.
  intros Hl Hr Ll Lr Hn Hk Ha Hb. cbn zeta. destruct (Nat.ltb_spec k n).
  - pose proof (span_range l r k (k + 1) 0 Hl Hr). unfold column. replace (S k) with (k + 1)%nat by lia.
    apply mult_column_ok; [done|done|done|nia].
  - rewrite <- (span_low l r n k Ll Lr) by lia.
    pose proof (span_range l r k (2 * n - 1 - k) (k + 1 - n) Hl Hr). apply mult_column_ok; [done|done|done|nia].
Qed.

Lemma mult_loop_ok l r n m : forall k a, words l -> words r -> length l = n -> length r = n ->
  Z.of_nat n < 2 ^ 30 -> (k + m < 2 * n)%nat -> accu_ok a -> accu_value a < 2 ^ 64 ->
  accu_value a + series (column l r) m k < cap (S m) ->
  stands (mult_loop l r n m k a) (S m) (accu_value a + series (column l r) m k).
Proof.
  induction m as [|m IH]; intros k a Hl Hr Ll Lr Hn Hk Ha Hb Hs; cbn [mult_loop series] in *.
  - rewrite cap_S, cap_0 in Hs. destruct a as [[r0 r1] r2]. cbn in *. unfold is_u32 in Ha.
    split_and!; [constructor; [unfold is_u32; lia|constructor]|done|cbn; lia].
  - pose proof (column_step l r n k a Hl Hr Ll Lr Hn ltac:(lia) Ha Hb) as P. cbn zeta in P.
    destruct (if (k <? n)%nat then _ else _) as [[r0 r1] r2]. destruct P as [Ho Ev]. cbn in Ho.
    change (accu_value (r0, r1, r2)) with (r0 + 2 ^ 32 * r1 + 2 ^ 64 * r2) in Ev. unfold is_u32 in Ho. rewrite cap_S in Hs.
    assert (Ea : accu_value (r1, r2, 0) = r1 + 2 ^ 32 * r2) by (cbn; lia).
    destruct (IH (S k) (r1, r2, 0)) as (Wt & Lt & Et); try done.
    + lia.
    + cbn. unfold is_u32. lia.
    + rewrite Ea. lia.
    + rewrite Ea. lia.
    + split_and!; [constructor; [unfold is_u32; lia|done]|cbn; by f_equal|].
      cbn [vli_value]. rewrite Et, Ea. lia.
Qed.

(** The product, for operands that are not empty. *)
Lemma mult_ok l r n v w : (0 < n)%nat -> Z.of_nat n < 2 ^ 30 ->
  stands l n v -> stands r n w -> stands (uECC_vli_mult l r) (2 * n) (v * w).
Proof.
  intros Hn Hb Sl Sr. pose proof (stands_range _ _ _ Sl). pose proof (stands_range _ _ _ Sr).
  destruct Sl as (Hl & Ll & El), Sr as (Hr & Lr & Er). unfold uECC_vli_mult. rewrite Ll.
  pose proof (series_column l r (2 * n - 1) ltac:(lia)) as Es.
  replace (2 * n)%nat with (S (2 * n - 1)) by lia. rewrite Nat.sub_succ, Nat.sub_0_r.
  replace (S (2 * n - 1) - 1)%nat with (2 * n - 1)%nat in * by lia.
  replace (v * w) with (accu_value (0, 0, 0) + series (column l r) (2 * n - 1) 0) by (rewrite Es; cbn; nia).
  apply mult_loop_ok; try done; [lia|].
  rewrite Es, El, Er. replace (S (2 * n - 1)) with (n + n)%nat by lia. rewrite cap_add. cbn. nia.
Qed.

(** ** Reduction *)

Lemma stands_app l k n m v w : stands l n v -> stands k m w -> stands (l ++ k) (n + m) (v + cap n * w).
Proof.
  intros (Hl & Ll & El) (Hk & Lk & Ek). split_and!; [by apply Forall_app|rewrite length_app; lia|].
  by rewrite value_app, Ll, El, Ek.
Qed.

Lemma stands_split l n m v : stands l (n + m) v ->
  stands (take n l) n (v mod cap n) /\ stands (drop n l) m (v / cap n).
Proof.
  intros (H & L & E). rewrite <- (take_drop n l) in E. rewrite value_app, length_take_le in E by lia.
  assert (Wt : words (take n l)) by by apply Forall_take. assert (Wd : words (drop n l)) by by apply Forall_drop.
  pose proof (value_range _ Wt) as R. rewrite length_take_le in R by lia.
  split; split_and!; [done|rewrite length_take; lia| |done|rewrite length_drop; lia|].
  - apply (Z.mod_unique_pos _ _ (vli_value (drop n l))); lia.
  - apply (Z.div_unique_pos _ _ _ (vli_value (take n l))); lia.
Qed.

Lemma value_insert l : forall i x, (i < length l)%nat ->
  vli_value (<[i := x]> l) = vli_value l + cap i * (x - nth i l 0).
Proof.
  induction l as [|w l IH]; intros [|i] x Hi; cbn [length] in Hi; try lia; cbn [list_insert insert vli_value nth].
  - rewrite cap_0. lia.
  - change (list_insert i x l) with (<[i := x]> l). rewrite IH, cap_S by lia. ring.
Qed.

Lemma value_nth l i : words l -> cap i * nth i l 0 <= vli_value l.
Proof.
  revert i. induction l as [|w l IH]; intros i H; [destruct i; cbn; lia|].
  apply words_cons in H as [Hw Hl]. pose proof (value_range l Hl). destruct i as [|i]; cbn [nth vli_value].
  - rewrite cap_0. lia.
  - rewrite cap_S. specialize (IH i Hl). lia.
Qed.

(** A bit set at the top of a number that leaves it free. *)
Lemma or_top l n v b : stands l (S n) v -> 2 * v < cap (S n) -> 0 <= b <= 1 ->
  stands (<[n := Z.lor (nth n l 0) (2 ^ 31 * b)]> l) (S n) (v + 2 ^ 31 * cap n * b).
Proof.
  intros (H & L & E) Hv Hb. pose proof (value_nth l n H) as Hn. rewrite cap_S in Hv. pose proof (cap_pos n).
  assert (Ht : 0 <= nth n l 0 < 2 ^ 31) by (pose proof (nth_word l n H); nia).
  rewrite Z.lor_comm, (Z.mul_comm (2 ^ 31) b), lor_low by lia.
  split_and!.
  - apply Forall_insert; [done|]. unfold is_u32. lia.
  - by rewrite length_insert.
  - rewrite value_insert by lia. rewrite E. ring.
Qed.

Lemma nth_0_mod l n v : stands l n v -> nth 0 l 0 = v mod 2 ^ 32.
Proof.
  intros (H & _ & <-). destruct l as [|w l]; [done|]. apply words_cons in H as [Hw _]. cbn [nth vli_value].
  apply (Z.mod_unique_pos _ _ (vli_value l)); lia.
Qed.

Lemma low_bit h : u32 (Z.shiftl (h mod 2 ^ 32) 31) = 2 ^ 31 * (h mod 2).
Proof.
  unfold u32. rewrite Z.shiftl_mul_pow2 by lia. change (2 ^ 32) with (2 * 2 ^ 31) at 2.
  rewrite Z.mul_mod_distr_r by lia. rewrite (Z.mul_comm (2 ^ 31)). f_equal.
  change (2 ^ 32) with (2 * 2 ^ 31). apply Z.mod_mod_divide. by exists (2 ^ 31).
Qed.

Lemma halve_ok l n v : stands l (S n + S n) v -> stands (halve (S n) l) (S n + S n) (v / 2).
Proof.
  intros Sl. pose proof (stands_range _ _ _ Sl) as R. destruct (stands_split l (S n) (S n) v Sl) as [Slo Shi].
  unfold halve. rewrite Nat.sub_succ, Nat.sub_0_r. set (c := cap (S n)) in *.
  assert (Ec : c = 2 * (2 ^ 31 * cap n)) by (unfold c; rewrite cap_S; lia). pose proof (cap_pos n).
  rewrite (nth_0_mod _ _ _ Shi), low_bit.
  pose proof (Z.div_mod v c ltac:(lia)) as D. pose proof (Z.mod_pos_bound v c ltac:(lia)) as Bm.
  pose proof (Z.div_mod (v / c) 2 ltac:(lia)) as D2. pose proof (Z.mod_pos_bound (v / c) 2 ltac:(lia)) as B2.
  pose proof (Z.div_mod (v mod c) 2 ltac:(lia)) as D3. pose proof (Z.mod_pos_bound (v mod c) 2 ltac:(lia)) as B3.
  pose proof (or_top _ n _ (v / c mod 2) (uECC_vli_rshift1_ok _ _ _ Slo) ltac:(fold c; lia) ltac:(lia)) as St.
  replace (v / 2) with ((v mod c / 2 + 2 ^ 31 * cap n * (v / c mod 2)) + c * (v / c / 2)).
  - apply stands_app; [done|]. by apply uECC_vli_rshift1_ok.
  - apply (Z.div_unique_pos _ _ _ (v mod c mod 2)); [lia|]. nia.
Qed.

Lemma shift_words_ok l bs : 0 < bs < 32 -> forall c, words l -> 0 <= c < 2 ^ bs ->
  stands (shift_words l bs c) (length l) ((vli_value l * 2 ^ bs + c) mod cap (length l)).
Proof.
  intros Hbs. induction l as [|w l IH]; intros c H Hc; cbn [shift_words length vli_value].
  - split_and!; [constructor|done|]. by rewrite cap_0, Z.mod_1_r.
  - apply words_cons in H as [Hw Hl].
    assert (Ep : 2 ^ 32 = 2 ^ (32 - bs) * 2 ^ bs) by (rewrite <- Z.pow_add_r by lia; f_equal; lia).
    assert (P1 : 0 < 2 ^ bs) by (apply Z.pow_pos_nonneg; lia).
    assert (P2 : 0 < 2 ^ (32 - bs)) by (apply Z.pow_pos_nonneg; lia).
    assert (P3 : 2 ^ (32 - bs) * 2 ^ bs = 2 ^ 32) by done.
    rewrite Z.shiftr_div_pow2 by lia. unfold u32. rewrite Z.shiftl_mul_pow2 by lia.
    rewrite Ep at 1. rewrite Z.mul_mod_distr_r by lia. rewrite lor_low by lia.
    pose proof (Z.div_mod w (2 ^ (32 - bs)) ltac:(lia)) as D.
    pose proof (Z.mod_pos_bound w (2 ^ (32 - bs)) ltac:(lia)) as Bm.
    set (q := w / 2 ^ (32 - bs)) in *. set (r := w mod 2 ^ (32 - bs)) in *.
    assert (Hq : 0 <= q < 2 ^ bs) by nia.
    destruct (IH q Hl Hq) as (Wt & Lt & Et). set (X := vli_value l * 2 ^ bs + q) in *.
    split_and!; [constructor; [unfold is_u32; nia|done]|cbn [length]; by f_equal|].
    cbn [vli_value]. rewrite Et, cap_S. pose proof (cap_pos (length l)) as Pc.
    pose proof (Z.div_mod X (cap (length l)) ltac:(lia)). pose proof (Z.mod_pos_bound X (cap (length l)) ltac:(lia)).
    apply (Z.mod_unique_pos _ _ (X / cap (length l))); [nia|]. unfold X in *. nia.
Qed.

Lemma mmod_loop_ok n m : 0 < m -> forall s l M v,
  stands l (S n + S n) v -> stands M (S n + S n) (m * 2 ^ Z.of_nat s) -> v < m * 2 ^ (Z.of_nat s + 1) ->
  stands (mmod_loop (S n) (S s) l M) (S n + S n) (v mod m).
Proof.
  intros Hm. induction s as [|s IH]; intros l M v Sl SM Hv; pose proof (stands_range _ _ _ Sl);
    pose proof (stands_range _ _ _ SM); set (k := (S n + S n)%nat) in *; cbn [mmod_loop]; fold k;
    destruct (uECC_vli_sub_ok l M k _ _ Sl SM) as [Sd Eb]; destruct (uECC_vli_sub l M) as [d b]; cbn [fst snd] in Sd, Eb; subst b.
  - change (2 ^ Z.of_nat 0) with 1 in *. rewrite Z.mul_1_r in *. change (2 ^ (Z.of_nat 0 + 1)) with 2 in Hv. destruct (Z.ltb_spec v m); cbn [b2z Z.eqb].
    + by rewrite Z.mod_small by lia.
    + rewrite Z.mod_small in Sd by lia. replace (v mod m) with (v - m); [done|].
      apply (Z.mod_unique_pos _ _ 1); lia.
  - rewrite Nat2Z.inj_succ, Z.pow_succ_r in * by lia. rewrite Z.pow_add_r, Z.pow_succ_r in Hv by lia.
    change (2 ^ 1) with 2 in Hv. set (t := 2 ^ Z.of_nat s) in *.
    assert (Sh : stands (halve (S n) M) k (m * t)).
    { replace (m * t) with ((m * (2 * t)) / 2); [by apply halve_ok|].
      replace (m * (2 * t)) with (m * t * 2) by lia. by rewrite Z.div_mul by lia. }
    assert (Ht : m * 2 ^ (Z.of_nat s + 1) = m * (2 * t)) by (rewrite Z.pow_add_r by lia; change (2 ^ 1) with 2; fold t; ring).
    destruct (Z.ltb_spec v (m * (2 * t))); cbn [b2z Z.eqb].
    + apply IH; [done|done|lia].
    + rewrite Z.mod_small in Sd by lia. replace (v mod m) with ((v - m * (2 * t)) mod m).
      * apply IH; [done|done|lia].
      * rewrite Zminus_mod, (Z.mul_comm m), Z.mod_mul, Z.sub_0_r by lia. by rewrite Z.mod_mod by lia.
Qed.

(** The remainder, for a modulus whose last word is not zero. *)
Lemma mmod_ok p md n v m : stands p (S n + S n) v -> stands md (S n) m -> cap n <= m ->
  stands (uECC_vli_mmod p md) (S n) (v mod m).
Proof.
  intros Sp Sm Hm. pose proof (stands_range _ _ _ Sp) as Rp. pose proof (stands_range _ _ _ Sm) as Rm.
  pose proof (cap_pos n) as Pn. destruct (numBits_ok _ _ _ Sm) as (Hb & Hlt & Hge). specialize (Hge ltac:(lia)).
  unfold uECC_vli_mmod, uECC_WORD_BITS. destruct Sm as (Wm & Lm & Em). rewrite Lm.
  set (nb := uECC_vli_numBits md) in *.
  assert (B1 : 32 * Z.of_nat n < nb).
  { apply (Z.pow_lt_mono_r_iff 2); [lia|lia|]. fold (cap n). lia. }
  assert (B2 : nb - 1 < 32 * Z.of_nat (S n)).
  { apply (Z.pow_lt_mono_r_iff 2); [lia|lia|]. fold (cap (S n)). lia. }
  set (shift := Z.of_nat (S n) * 2 * 32 - nb). set (bs := shift mod 32).
  assert (Ews : shift / 32 = Z.of_nat (S n)) by (symmetry; apply (Z.div_unique_pos _ _ _ (shift - 32 * Z.of_nat (S n))); unfold shift; lia).
  assert (Es : shift = 32 * Z.of_nat (S n) + bs) by (unfold bs; rewrite <- Ews; apply Z.div_mod; lia).
  assert (Hbs : 0 <= bs < 32) by (apply Z.mod_pos_bound; lia).
  rewrite Ews, Nat2Z.id. replace (Z.to_nat (shift + 1)) with (S (Z.to_nat shift)) by lia.
  assert (Pb : 0 < 2 ^ bs) by (apply Z.pow_pos_nonneg; lia).
  assert (Hfit : m * 2 ^ bs < cap (S n)).
  { apply Z.lt_le_trans with (2 ^ nb * 2 ^ bs); [nia|]. rewrite <- Z.pow_add_r by lia. unfold cap.
    apply Z.pow_le_mono_r; unfold shift in *; lia. }
  assert (SM : stands (uECC_vli_clear (S n) ++ (if bs >? 0 then shift_words md bs 0 else md)) (S n + S n)
                 (m * 2 ^ Z.of_nat (Z.to_nat shift))).
  { replace (m * 2 ^ Z.of_nat (Z.to_nat shift)) with (0 + cap (S n) * (m * 2 ^ bs)).
    - apply stands_app.
      + split_and!; [apply zeros_words|apply zeros_length|apply value_zeros].
      + rewrite Z.gtb_ltb. destruct (Z.ltb_spec 0 bs).
        * pose proof (shift_words_ok md bs ltac:(lia) 0 Wm ltac:(lia)) as P. rewrite Lm, Em, Z.add_0_r, Z.mod_small in P by lia. done.
        * replace bs with 0 by lia. rewrite Z.mul_1_r. by split_and!.
    - rewrite Z2Nat.id by lia. rewrite Es, Z.pow_add_r by lia. fold (cap (S n)). ring. }
  assert (Hv : v < m * 2 ^ (Z.of_nat (Z.to_nat shift) + 1)).
  { rewrite Z2Nat.id by lia. apply Z.lt_le_trans with (2 ^ (nb - 1) * 2 ^ (shift + 1)).
    - rewrite <- Z.pow_add_r by lia. unfold shift. replace (nb - 1 + _) with (32 * Z.of_nat (S n + S n)) by lia.
      fold (cap (S n + S n)). lia.
    - apply Z.mul_le_mono_nonneg_r; [apply Z.pow_nonneg; lia|done]. }
  pose proof (mmod_loop_ok n m ltac:(lia) _ _ _ _ Sp SM Hv) as Sr.
  destruct (stands_split _ _ _ _ Sr) as [St _].
  rewrite Z.mod_small in St; [done|]. pose proof (Z.mod_pos_bound v m ltac:(lia)). lia.
Qed.

Lemma modMult_ok l r md n v w m : Z.of_nat (S n) < 2 ^ 30 ->
  stands l (S n) v -> stands r (S n) w -> stands md (S n) m -> cap n <= m ->
  stands (uECC_vli_modMult l r md) (S n) ((v * w) mod m).
Proof.
  intros Hn Sl Sr Sm Hm. apply mmod_ok; [|done|done].
  replace (S n + S n)%nat with (2 * S n)%nat by lia. by apply mult_ok; [lia| | |].
Qed.

(** ** Inversion *)

(** Half of [u] modulo the odd [m]. *)
Definition half (m u : Z) : Z := (if Z.even u then u else u + m) / 2.

Lemma half_ok m u : Z.odd m = true -> 0 <= u < m -> 0 <= half m u < m /\ (m | 2 * half m u - u).
Proof.
  intros Hm Hu. unfold half. destruct (Z.even u) eqn:E.
  - apply Z.even_spec in E as [k ->]. rewrite Z.mul_comm, Z.div_mul by lia. split; [lia|]. exists 0. lia.
  - assert (Eo : Z.even (u + m) = true) by (rewrite Z.even_add, E, <- Z.negb_odd, Hm; done).
    apply Z.even_spec in Eo as [k Ek]. rewrite Ek, Z.mul_comm, Z.div_mul by lia. split; [lia|]. exists 1. lia.
Qed.

Lemma modInv_update_ok uv md n u m : stands uv (S n) u -> stands md (S n) m -> u < m -> Z.odd m = true ->
  stands (vli_modInv_update uv md) (S n) (half m u).
Proof.
  intros Su Sm Hu Hm. pose proof (stands_range _ _ _ Su). pose proof (stands_range _ _ _ Sm).
  unfold vli_modInv_update, half. rewrite (EVEN_ok _ _ _ Su). destruct (Z.even u) eqn:E; cbn [negb Z.eqb].
  - by apply uECC_vli_rshift1_ok.
  - destruct (uECC_vli_add_ok uv md _ _ _ Su Sm) as [Sa Ec]. destruct (uECC_vli_add uv md) as [s c].
    cbn [fst snd] in Sa, Ec. pose proof (uECC_vli_rshift1_ok _ _ _ Sa) as Sh.
    assert (Len : length (uECC_vli_rshift1 s) = S n) by by destruct Sh as (_ & ? & _).
    pose proof (cap_pos n). assert (Ecap : cap (S n) = 2 * (2 ^ 31 * cap n)) by (rewrite cap_S; lia).
    rewrite Len, Nat.sub_succ, Nat.sub_0_r.
    destruct (decide (u + m < cap (S n))) as [Hc|Hc].
    + rewrite Z.div_small in Ec by lia. subst c. cbn [Z.eqb negb]. by rewrite Z.mod_small in Sh by lia.
    + assert (E1 : (u + m) / cap (S n) = 1) by (symmetry; apply (Z.div_unique_pos _ _ _ (u + m - cap (S n))); lia).
      assert (E2 : (u + m) mod cap (S n) = u + m - cap (S n)) by (symmetry; apply (Z.mod_unique_pos _ _ 1); lia).
      rewrite E1 in Ec. subst c. cbn [Z.eqb negb]. rewrite E2 in Sh.
      assert (Hd : (u + m - cap (S n)) / 2 = (u + m) / 2 - 2 ^ 31 * cap n).
      { rewrite Ecap. replace (u + m - 2 * (2 ^ 31 * cap n)) with (u + m + - (2 ^ 31 * cap n) * 2) by lia.
        rewrite Z.div_add by lia. lia. }
      pose proof (Z.div_mod (u + m) 2 ltac:(lia)). pose proof (Z.mod_pos_bound (u + m) 2 ltac:(lia)).
      pose proof (or_top _ n _ 1 Sh ltac:(lia) ltac:(lia)) as St. rewrite Hd in St.
      replace ((u + m) / 2 - 2 ^ 31 * cap n + 2 ^ 31 * cap n * 1) with ((u + m) / 2) in St by lia. done.
Qed.

(** The difference modulo [m] the other rounds halve. *)
Definition less (m u v : Z) : Z := if u <? v then u + m - v else u - v.

Lemma less_ok m u v : 0 <= u < m -> 0 <= v < m -> 0 <= less m u v < m /\ (m | less m u v - (u - v)).
Proof.
  intros Hu Hv. unfold less. destruct (Z.ltb_spec u v); (split; [lia|]); [exists 1|exists 0]; lia.
Qed.

Lemma sub_update_ok u v md n x y m : stands u (S n) x -> stands v (S n) y -> stands md (S n) m ->
  x < m -> y < m -> Z.odd m = true ->
  stands (sub_update u v md) (S n) (half m (less m x y)).
Proof.
  intros Su Sv Sm Hx Hy Hm. pose proof (stands_range _ _ _ Su). pose proof (stands_range _ _ _ Sv).
  pose proof (stands_range _ _ _ Sm). unfold sub_update. rewrite (cmp_unsafe_ok _ _ _ _ _ Su Sv).
  destruct (less_ok m x y ltac:(lia) ltac:(lia)) as [Hl _].
  apply modInv_update_ok; [|done|lia|done]. unfold less in *.
  replace (Z.sgn (x - y) <? 0) with (x <? y).
  - destruct (Z.ltb_spec x y).
    + destruct (uECC_vli_add_ok u md _ _ _ Su Sm) as [Sa _].
      destruct (uECC_vli_sub_ok _ v _ _ _ Sa Sv) as [Sd _]. rewrite Zminus_mod_idemp_l, Z.mod_small in Sd by lia. done.
    + destruct (uECC_vli_sub_ok _ v _ _ _ Su Sv) as [Sd _]. rewrite Z.mod_small in Sd by lia. done.
  - pose proof (Z.sgn_spec (x - y)). destruct (Z.ltb_spec x y), (Z.ltb_spec (Z.sgn (x - y)) 0); lia.
Qed.

(** What the rounds keep: [a] is [u] times the input [x], modulo [m]. *)
Definition linked (m x a u : Z) : Prop := 0 <= u < m /\ (m | u * x - a).

Lemma gcd_odd_2 m : Z.odd m = true -> Z.gcd m 2 = 1.
Proof. intros [k ->]%Z.odd_spec. apply Z.bezout_1_gcd. exists 1, (- k). lia. Qed.

Lemma even_half a : Z.even a = true -> a = 2 * (a / 2).
Proof. intros [k ->]%Z.even_spec. by rewrite (Z.mul_comm 2 k), Z.div_mul, Z.mul_comm by lia. Qed.

Lemma linked_half m x a u : Z.odd m = true -> Z.even a = true -> linked m x a u -> linked m x (a / 2) (half m u).
Proof.
  intros Hm Ha [Hu [k Hk]]. destruct (half_ok m u Hm Hu) as [Hr [j Hj]]. split; [done|].
  apply Z.gauss with 2; [|by apply gcd_odd_2]. apply even_half in Ha. exists (j * x + k).
  replace (2 * (half m u * x - a / 2)) with ((2 * half m u - u) * x + (u * x - 2 * (a / 2))) by ring.
  rewrite <- Ha, Hj, Hk. ring.
Qed.

Lemma linked_less m x a b u v : linked m x a u -> linked m x b v -> linked m x (a - b) (less m u v).
Proof.
  intros [Hu [k Hk]] [Hv [i Hi]]. destruct (less_ok m u v Hu Hv) as [Hr [j Hj]]. split; [done|].
  exists (j * x + k - i).
  replace (less m u v * x - (a - b)) with ((less m u v - (u - v)) * x + (u * x - a) - (v * x - b)) by ring.
  rewrite Hj, Hk, Hi. ring.
Qed.

Lemma gcd_half a b : Z.gcd a b = 1 -> Z.even a = true -> Z.gcd (a / 2) b = 1.
Proof.
  intros Hg Ha%even_half. apply Z.gcd_unique; [lia|apply Z.divide_1_l|apply Z.divide_1_l|].
  intros q Hq Hb. rewrite <- Hg. apply Z.gcd_greatest; [|done]. rewrite Ha. by apply Z.divide_mul_r.
Qed.

Lemma gcd_less a b : Z.gcd a b = 1 -> Z.gcd (a - b) b = 1.
Proof. intros H. by rewrite Z.gcd_comm, Z.gcd_sub_diag_r, Z.gcd_comm. Qed.

Lemma even_less a b : Z.even a = false -> Z.even b = false -> Z.even (a - b) = true.
Proof. intros Ha Hb. by rewrite Z.even_sub, Ha, Hb. Qed.

(** Every round halves the product of [a] and [b], which is positive, so that
    [a] and [b] meet. *)
Lemma modInv_loop_ok n md m x : stands md (S n) m -> Z.odd m = true -> forall fuel a b u v A B U V,
  stands a (S n) A -> stands b (S n) B -> stands u (S n) U -> stands v (S n) V ->
  0 < A -> 0 < B -> linked m x A U -> linked m x B V -> A * B < 2 ^ (Z.of_nat fuel + 1) ->
  exists r R g, modInv_loop fuel a b u v md = Some r /\ stands r (S n) R /\ linked m x g R /\
    (Z.gcd A B = 1 -> g = 1).
Proof.
  intros Sm Hm. induction fuel as [|fuel IH]; intros a b u v A B U V Sa Sb Su Sv PA PB LA LB Hf;
    pose proof (Z.sgn_spec (A - B)) as Hs; cbn [modInv_loop]; rewrite (cmp_unsafe_ok _ _ _ _ _ Sa Sb).
  - change (2 ^ (Z.of_nat 0 + 1)) with 2 in Hf. assert (A = 1 /\ B = 1) as [-> ->] by nia. by exists u, U, 1.
  - rewrite Nat2Z.inj_succ in Hf. replace (Z.succ (Z.of_nat fuel) + 1) with (Z.succ (Z.of_nat fuel + 1)) in Hf by lia.
    rewrite Z.pow_succ_r in Hf by lia. pose proof (proj1 LA) as RU. pose proof (proj1 LB) as RV.
    destruct (Z.eqb_spec (Z.sgn (A - B)) 0) as [E|E].
    + assert (A = B) as -> by lia. exists u, U, B. rewrite Z.gcd_diag, Z.abs_eq by lia. done.
    + rewrite (EVEN_ok _ _ _ Sa), (EVEN_ok _ _ _ Sb). destruct (Z.even A) eqn:EA; [|destruct (Z.even B) eqn:EB].
      * pose proof (even_half A EA).
        destruct (IH (uECC_vli_rshift1 a) b (vli_modInv_update u md) v (A / 2) B (half m U) V)
          as (r & R & g & E1 & E2 & E3 & E4); auto using uECC_vli_rshift1_ok, linked_half; [|lia|nia|].
        -- apply modInv_update_ok; [done|done|lia|done].
        -- exists r, R, g. split_and!; auto using gcd_half.
      * pose proof (even_half B EB). rewrite Z.gcd_comm.
        destruct (IH a (uECC_vli_rshift1 b) u (vli_modInv_update v md) A (B / 2) U (half m V))
          as (r & R & g & E1 & E2 & E3 & E4); auto using uECC_vli_rshift1_ok, linked_half; [|lia|nia|].
        -- apply modInv_update_ok; [done|done|lia|done].
        -- exists r, R, g. rewrite Z.gcd_comm in E4. split_and!; auto using gcd_half.
      * rewrite Z.gtb_ltb. destruct (Z.ltb_spec 0 (Z.sgn (A - B))).
        -- pose proof (even_less A B EA EB) as ED. pose proof (even_half _ ED).
           destruct (uECC_vli_sub_ok _ _ _ _ _ Sa Sb) as [Sd _]. pose proof (stands_range _ _ _ Sa).
           rewrite Z.mod_small in Sd by lia.
           destruct (IH (uECC_vli_rshift1 (uECC_vli_sub a b).1) b (sub_update u v md) v ((A - B) / 2) B (half m (less m U V)) V)
             as (r & R & g & E1 & E2 & E3 & E4); auto using uECC_vli_rshift1_ok, linked_half, linked_less; [|lia|nia|].
           ++ apply sub_update_ok; try done; lia.
           ++ exists r, R, g. split_and!; auto using gcd_half, gcd_less.
        -- pose proof (even_less B A EB EA) as ED. pose proof (even_half _ ED).
           destruct (uECC_vli_sub_ok _ _ _ _ _ Sb Sa) as [Sd _]. pose proof (stands_range _ _ _ Sb).
           rewrite Z.mod_small in Sd by lia. rewrite Z.gcd_comm.
           destruct (IH a (uECC_vli_rshift1 (uECC_vli_sub b a).1) u (sub_update v u md) A ((B - A) / 2) U (half m (less m V U)))
             as (r & R & g & E1 & E2 & E3 & E4); auto using uECC_vli_rshift1_ok, linked_half, linked_less; [|lia|nia|].
           ++ apply sub_update_ok; try done; lia.
           ++ exists r, R, g. rewrite Z.gcd_comm in E4. split_and!; auto using gcd_half, gcd_less.
Qed.

(** The rounds allowed are enough, whatever the input. *)
Lemma modInv_ends input md n x m : stands input (S n) x -> stands md (S n) m -> Z.odd m = true -> 1 < m -> 0 < x ->
  exists r R g, modInv_loop (64 * S n) input md (1 :: zeros n) (zeros (S n)) md = Some r /\
    stands r (S n) R /\ linked m x g R /\ (Z.gcd x m = 1 -> g = 1).
Proof.
  intros Sx Sm Hm H1 Hx. apply (modInv_loop_ok n md m x Sm Hm _ _ _ _ _ x m 1 0); try done.
  - split_and!; [constructor; [unfold is_u32; lia|apply zeros_words]|cbn; by rewrite zeros_length|].
    cbn [vli_value]. rewrite value_zeros. lia.
  - split_and!; [apply zeros_words|apply zeros_length|apply value_zeros].
  - lia.
  - split; [lia|]. exists 0. lia.
  - split; [lia|]. exists (-1). lia.
  - pose proof (stands_range _ _ _ Sx). pose proof (stands_range _ _ _ Sm).
    apply Z.lt_le_trans with (cap (S n + S n)); [rewrite cap_add; nia|]. unfold cap. apply Z.pow_le_mono_r; lia.
Qed.

(** The inverse modulo an odd number, of any input that has one. *)
Lemma modInv_ok input md n x m : stands input (S n) x -> stands md (S n) m -> Z.odd m = true -> 1 < m -> 0 < x ->
  exists R, stands (uECC_vli_modInv input md) (S n) R /\ 0 <= R < m /\ (Z.gcd x m = 1 -> (R * x) mod m = 1).
Proof.
  intros Sx Sm Hm H1 Hx. unfold uECC_vli_modInv. rewrite (isZero_ok _ _ _ Sx).
  destruct (Z.eqb_spec x 0); [lia|].
  assert (Len : length md = S n) by by destruct Sm as (_ & ? & _). rewrite Len, Nat.sub_succ, Nat.sub_0_r.
  destruct (modInv_ends input md n x m Sx Sm Hm H1 Hx) as (r & R & g & El & Sr & [HR [k Hk]] & Hg).
  rewrite El. exists R. split_and!; [apply Sr..|lia|lia|]. intros G. rewrite (Hg G) in Hk.
  symmetry. apply (Z.mod_unique_pos _ _ k); lia.
Qed.

Lemma modInv_zero input md n : stands input n 0 -> uECC_vli_modInv input md = zeros (length md).
Proof. intros Sx. unfold uECC_vli_modInv. by rewrite (isZero_ok _ _ _ Sx). Qed.

(** ** The operations by the numbers they stand for *)

(** C17: [uECC_vli_modMult] multiplies modulo the modulus, for operands and a
    modulus of the same size whose last word is not zero: the accumulator of three
    words never overflows and the shifted modulus fits in the words of the product. *)
Theorem modular_product l r md : words l -> words r -> words md ->
  length l = length md -> length r = length md -> Z.of_nat (length md) < 2 ^ 30 -> last md <> Some 0 -> md <> [] ->
  words (uECC_vli_modMult l r md) /\ length (uECC_vli_modMult l r md) = length md /\
  vli_value (uECC_vli_modMult l r md) = (vli_value l * vli_value r) mod vli_value md.
Proof.
  intros Wl Wr Wm Ll Lr Hn Hlast Hne. destruct (exists_last Hne) as (m & w & ->).
  rewrite last_snoc in Hlast. rewrite length_app, Nat.add_1_r in *.
  assert (Hm : cap (length m) <= vli_value (m ++ [w])).
  { apply Forall_app in Wm as [Wm [Hw _]%Forall_cons]. unfold is_u32 in Hw. rewrite value_app. cbn [vli_value].
    pose proof (value_range m Wm). pose proof (cap_pos (length m)). assert (w <> 0) by congruence. nia. }
  apply modMult_ok; try done. split_and!; [done|by rewrite length_app, Nat.add_1_r|done].
Qed.

(** C16: the loop of [uECC_vli_modInv] ends for every input and every odd modulus,
    within a round for each bit of the two; the result is below the modulus, and it
    is the inverse of the input when there is one. *)
Theorem modular_inverse input md : words input -> words md -> length input = length md ->
  Z.odd (vli_value md) = true -> 1 < vli_value md -> 0 < vli_value input ->
  exists r, modInv_loop (64 * length md) input md (1 :: zeros (length md - 1)) (zeros (length md)) md = Some r /\
    uECC_vli_modInv input md = r /\ length r = length md /\ 0 <= vli_value r < vli_value md /\
    (Z.gcd (vli_value input) (vli_value md) = 1 -> (vli_value r * vli_value input) mod vli_value md = 1).
Proof.
  intros Wi Wm Ln Hodd H1 Hx. destruct md as [|w md]; [done|]. cbn [length] in *.
  assert (Si : stands input (S (length md)) (vli_value input)) by done.
  assert (Sm : stands (w :: md) (S (length md)) (vli_value (w :: md))) by done.
  destruct (modInv_ends _ _ _ _ _ Si Sm Hodd H1 Hx) as (r & R & g & E & (Wr & Lr & Er) & [HR [k Hk]] & Hg).
  rewrite Nat.sub_succ, Nat.sub_0_r. exists r. split; [done|].
  split; [unfold uECC_vli_modInv; cbn [length]; rewrite (isZero_ok _ _ _ Si), Nat.sub_succ, Nat.sub_0_r, E; by destruct (Z.eqb_spec (vli_value input) 0); [lia|]|].
  subst R. do 2 (split; [done|]). intros Hc. rewrite (Hg Hc) in Hk. symmetry. apply (Z.mod_unique_pos _ _ k); lia.
Qed.

(** 7 * 9 modulo 2 ^ 32 + 15, and the inverse of 6 modulo 35. *)
Lemma modular_product_witness :
  words (uECC_vli_modMult [7; 0] [9; 0] [15; 1]) /\ length (uECC_vli_modMult [7; 0] [9; 0] [15; 1]) = 2%nat /\
  vli_value (uECC_vli_modMult [7; 0] [9; 0] [15; 1]) = (vli_value [7; 0] * vli_value [9; 0]) mod vli_value [15; 1].
Proof. apply modular_product; try done; repeat constructor; unfold is_u32; lia. Defined.

Lemma modular_inverse_witness :
  exists r, modInv_loop 64 [6] [35] [1] [0] [35] = Some r /\ uECC_vli_modInv [6] [35] = r /\ length r = 1%nat /\
    0 <= vli_value r < vli_value [35] /\ (Z.gcd (vli_value [6]) (vli_value [35]) = 1 -> (vli_value r * vli_value [6]) mod vli_value [35] = 1).
Proof. apply (modular_inverse [6] [35]); try done; repeat constructor; unfold is_u32; lia. Defined.

End VliProps.
