(* ===== verification/P256.v ===== *)
(** * Point arithmetic of micro-ecc on P-256 (src/crypto/micro-ecc)

    The curve of the firmware is the one of [uECC_secp256r1]; its functions of
    curve-specific.inc and the point operations of uECC.c.  The functions that
    change points in place return them; the C comments name the registers. *)

From S2P Require Import Prelude Vli.
Import Vli.

#[local] Open Scope Z_scope.

Module P256.

Definition num_words : nat := 8.
Definition num_bytes : nat := 32.
Definition num_n_bits : Z := 256.
Definition num_n_words : nat := 8.

Definition curve_p : list Z :=
  [0xffffffff; 0xffffffff; 0xffffffff; 0; 0; 0; 1; 0xffffffff].
Definition curve_n : list Z :=
  [0xfc632551; 0xf3b9cac2; 0xa7179e84; 0xbce6faad; 0xffffffff; 0xffffffff; 0; 0xffffffff].
Definition curve_Gx : list Z :=
  [0xd898c296; 0xf4a13945; 0x2deb33a0; 0x77037d81; 0x63a440f2; 0xf8bce6e5; 0xe12c4247; 0x6b17d1f2].
Definition curve_Gy : list Z :=
  [0x37bf51f5; 0xcbb64068; 0x6b315ece; 0x2bce3357; 0x7c0f9e16; 0x8ee7eb4a; 0xfe1a7f9b; 0x4fe342e2].
Definition curve_b : list Z :=
  [0x27d2604b; 0x3bce3c3e; 0xcc53b0f6; 0x651d06b0; 0x769886bc; 0xb3ebbd55; 0xaa3a93e7; 0x5ac635d8].

(** ** Fast reduction *)

(** [do carry += add(result, p) while (carry < 0)], [None] when the fuel ends. *)
Fixpoint reduce_up (fuel : nat) (result : list Z) (carry : Z) : option (list Z) :=
  match fuel with
  | O => None
  | S fuel =>
      let '(result, c) := uECC_vli_add result curve_p in
      let carry := carry + c in
      if carry <? 0 then reduce_up fuel result carry else Some result
  end.

(** [while (carry || cmp_unsafe(p, result) != 1) carry -= sub(result, p)]. *)
Fixpoint reduce_down (fuel : nat) (result : list Z) (carry : Z) : option (list Z) :=
  match fuel with
  | O => None
  | S fuel =>
      if negb (carry =? 0) || negb (uECC_vli_cmp_unsafe curve_p result =? 1) then
        let '(result, c) := uECC_vli_sub result curve_p in reduce_down fuel result (carry - c)
      else Some result
  end.

Definition reduce (fuel : nat) (result : list Z) (carry : Z) : option (list Z) :=
  if carry <? 0 then reduce_up fuel result carry else reduce_down fuel result carry.

(** [result += tmp], the carry counted. *)
Definition acc_add (rc : list Z * Z) (tmp : list Z) : list Z * Z :=
  let '(result, carry) := rc in
  let '(result, c) := uECC_vli_add result tmp in (result, carry + c).
Definition acc_sub (rc : list Z * Z) (tmp : list Z) : list Z * Z :=
  let '(result, carry) := rc in
  let '(result, c) := uECC_vli_sub result tmp in (result, carry - c).
(** [tmp += tmp] first. *)
Definition acc_twice (rc : list Z * Z) (tmp : list Z) : list Z * Z :=
  let '(result, carry) := rc in
  let '(tmp, c) := uECC_vli_add tmp tmp in acc_add (result, carry + c) tmp.

(** The sum of the terms t, 2 s1, 2 s2, s3, s4, - d1, - d2, - d3, - d4. *)
Definition mmod_terms (product : list Z) : list Z * Z :=
  let P i := nth i product 0 in
  let rc := (take num_words product, 0) in
  let rc := acc_twice rc [0; 0; 0; P 11%nat; P 12%nat; P 13%nat; P 14%nat; P 15%nat] in
  let rc := acc_twice rc [0; 0; 0; P 12%nat; P 13%nat; P 14%nat; P 15%nat; 0] in
  let rc := acc_add rc [P 8%nat; P 9%nat; P 10%nat; 0; 0; 0; P 14%nat; P 15%nat] in
  let rc := acc_add rc [P 9%nat; P 10%nat; P 11%nat; P 13%nat; P 14%nat; P 15%nat; P 13%nat; P 8%nat] in
  let rc := acc_sub rc [P 11%nat; P 12%nat; P 13%nat; 0; 0; 0; P 8%nat; P 10%nat] in
  let rc := acc_sub rc [P 12%nat; P 13%nat; P 14%nat; P 15%nat; 0; 0; P 9%nat; P 11%nat] in
  let rc := acc_sub rc [P 13%nat; P 14%nat; P 15%nat; P 8%nat; P 9%nat; P 10%nat; 0; P 12%nat] in
  acc_sub rc [P 14%nat; P 15%nat; 0; P 9%nat; P 10%nat; P 11%nat; 0; P 13%nat].

(** Ten rounds are enough ([P256Props.reduce_ends]); the default is never taken. *)
Definition vli_mmod_fast_secp256r1 (product : list Z) : list Z :=
  let '(result, carry) := mmod_terms product in default [] (reduce 10 result carry).

Definition uECC_vli_modMult_fast (left right : list Z) : list Z :=
  vli_mmod_fast_secp256r1 (uECC_vli_mult left right).
Definition uECC_vli_modSquare_fast (left : list Z) : list Z := uECC_vli_modMult_fast left left.

#[local] Notation "a *f b" := (uECC_vli_modMult_fast a b) (at level 40, left associativity).
#[local] Notation "a +f b" := (uECC_vli_modAdd a b curve_p) (at level 50, left associativity).
#[local] Notation "a -f b" := (uECC_vli_modSub a b curve_p) (at level 50, left associativity).

(** ** Point operations *)

Definition jacobian : Type := list Z * list Z * list Z.
Definition point : Type := list Z * list Z.

(** Half of [X1] modulo [p]. *)
Definition half_mod_p (X1 : list Z) : list Z :=
  if uECC_vli_testBit X1 0 then
    let '(X1, l_carry) := uECC_vli_add X1 curve_p in
    let X1 := uECC_vli_rshift1 X1 in
    <[(num_words - 1)%nat := Z.lor (nth (num_words - 1) X1 0) (u32 (Z.shiftl l_carry 31))]> X1
  else uECC_vli_rshift1 X1.

Definition double_jacobian_default (P : jacobian) : jacobian :=
  let '(X1, Y1, Z1) := P in
  if uECC_vli_isZero Z1 then P
  else
    let t4 := uECC_vli_modSquare_fast Y1 in
    let t5 := X1 *f t4 in
    let t4 := uECC_vli_modSquare_fast t4 in
    let Y1 := Y1 *f Z1 in
    let Z1 := uECC_vli_modSquare_fast Z1 in
    let X1 := X1 +f Z1 in
    let Z1 := Z1 +f Z1 in
    let Z1 := X1 -f Z1 in
    let X1 := X1 *f Z1 in
    let Z1 := X1 +f X1 in
    let X1 := X1 +f Z1 in
    let X1 := half_mod_p X1 in
    let Z1 := uECC_vli_modSquare_fast X1 in
    let Z1 := Z1 -f t5 in
    let Z1 := Z1 -f t5 in
    let t5 := t5 -f Z1 in
    let X1 := X1 *f t5 in
    let t4 := X1 -f t4 in
    (Z1, t4, Y1).

Definition x_side_default (x : list Z) : list Z :=
  let _3 := 3 :: zeros (num_words - 1) in
  let result := uECC_vli_modSquare_fast x in
  let result := result -f _3 in
  let result := result *f x in
  result +f curve_b.

Definition EccPoint_isZero (P : point) : bool := uECC_vli_isZero (P.1 ++ P.2).

Definition apply_z (P : point) (Z1 : list Z) : point :=
  let '(X1, Y1) := P in
  let t1 := uECC_vli_modSquare_fast Z1 in
  let X1 := X1 *f t1 in
  let t1 := t1 *f Z1 in
  (X1, Y1 *f t1).

(** The doubled point, and the point itself with the same third coordinate. *)
Definition XYcZ_initial_double (P : point) (initial_Z : option (list Z)) : point * point :=
  let z := default (1 :: zeros (num_words - 1)) initial_Z in
  let '(X1, Y1) := apply_z P z in
  let '(X1, Y1, z) := double_jacobian_default (X1, Y1, z) in
  ((X1, Y1), apply_z P z).

Definition XYcZ_add (P Q : point) : point * point :=
  let '(X1, Y1) := P in
  let '(X2, Y2) := Q in
  let t5 := X2 -f X1 in
  let t5 := uECC_vli_modSquare_fast t5 in
  let X1 := X1 *f t5 in
  let X2 := X2 *f t5 in
  let Y2 := Y2 -f Y1 in
  let t5 := uECC_vli_modSquare_fast Y2 in
  let t5 := t5 -f X1 in
  let t5 := t5 -f X2 in
  let X2 := X2 -f X1 in
  let Y1 := Y1 *f X2 in
  let X2 := X1 -f t5 in
  let Y2 := Y2 *f X2 in
  let Y2 := Y2 -f Y1 in
  ((X1, Y1), (t5, Y2)).

Definition XYcZ_addC (P Q : point) : point * point :=
  let '(X1, Y1) := P in
  let '(X2, Y2) := Q in
  let t5 := X2 -f X1 in
  let t5 := uECC_vli_modSquare_fast t5 in
  let X1 := X1 *f t5 in
  let X2 := X2 *f t5 in
  let t5 := Y2 +f Y1 in
  let Y2 := Y2 -f Y1 in
  let t6 := X2 -f X1 in
  let Y1 := Y1 *f t6 in
  let t6 := X1 +f X2 in
  let X2 := uECC_vli_modSquare_fast Y2 in
  let X2 := X2 -f t6 in
  let t7 := X1 -f X2 in
  let Y2 := Y2 *f t7 in
  let Y2 := Y2 -f Y1 in
  let t7 := uECC_vli_modSquare_fast t5 in
  let t7 := t7 -f t6 in
  let t6 := t7 -f X1 in
  let t6 := t6 *f t5 in
  let Y1 := t6 -f Y1 in
  ((t7, Y1), (X2, Y2)).

(** [Rx], [Ry]: the points of index 0 and 1; [nb] picks one. *)
Definition ladder : Type := point * point.
Definition pick (R : ladder) (nb : bool) : point := if nb then R.2 else R.1.
Definition pair (nb : bool) (at_nb other : point) : ladder := if nb then (other, at_nb) else (at_nb, other).

Definition ladder_addC (R : ladder) (nb : bool) : ladder :=
  let '(other, at_nb) := XYcZ_addC (pick R (negb nb)) (pick R nb) in pair nb at_nb other.
Definition ladder_add (R : ladder) (nb : bool) : ladder :=
  let '(at_nb, other) := XYcZ_add (pick R nb) (pick R (negb nb)) in pair nb at_nb other.

(** The bits [i], ..., 1 of the scalar. *)
Fixpoint ladder_loop (scalar : list Z) (i : nat) (R : ladder) : ladder :=
  match i with
  | O => R
  | S i' =>
      let nb := negb (uECC_vli_testBit scalar (Z.of_nat i)) in
      ladder_loop scalar i' (ladder_add (ladder_addC R nb) nb)
  end.

Definition EccPoint_mult (P : point) (scalar : list Z) (initial_Z : option (list Z)) (num_bits : Z) : point :=
  let '(R1, R0) := XYcZ_initial_double P initial_Z in
  let R := ladder_loop scalar (Z.to_nat (num_bits - 2)) (R0, R1) in
  let nb := negb (uECC_vli_testBit scalar 0) in
  let R := ladder_addC R nb in
  let z := (R.2).1 -f (R.1).1 in
  let z := z *f (pick R (negb nb)).2 in
  let z := z *f P.1 in
  let z := uECC_vli_modInv z curve_p in
  let z := z *f P.2 in
  let z := z *f (pick R (negb nb)).1 in
  let R := ladder_add R nb in
  apply_z R.1 z.

(** [k0], [k1] and the carry: [num_n_bits] fills [num_n_words], so that the carry
    is the one of the addition. *)
Definition regularize_k (k : list Z) : list Z * list Z * bool :=
  let '(k0, c) := uECC_vli_add k curve_n in
  let carry := negb (c =? 0) ||
    ((num_n_bits <? Z.of_nat num_n_words * 4 * 8) && uECC_vli_testBit k0 num_n_bits) in
  (k0, (uECC_vli_add k0 curve_n).1, carry).

(** [p2[!carry]]: the sum that has the bit 256. *)
Definition regular (k : list Z) : list Z := let '(k0, k1, carry) := regularize_k k in if carry then k0 else k1.

Definition EccPoint_compute_public_key (private_key : list Z) : option point :=
  let result := EccPoint_mult (curve_Gx, curve_Gy) (regular private_key) None (num_n_bits + 1) in
  if EccPoint_isZero result then None else Some result.

Definition uECC_valid_point (P : point) : bool :=
  if EccPoint_isZero P then false
  else if negb (uECC_vli_cmp_unsafe curve_p P.1 =? 1) || negb (uECC_vli_cmp_unsafe curve_p P.2 =? 1) then false
  else
    let tmp1 := uECC_vli_modSquare_fast P.2 in
    let tmp2 := x_side_default P.1 in
    uECC_vli_equal tmp1 tmp2.

End P256.

