(* ===== verification/P256Props.v ===== *)
(** * Field and point arithmetic on P-256

    The fast reduction is reduction modulo [p], so that the operations on words
    are those of the field; the point operations of [P256] compute the chord and
    tangent formulas on points with a common third coordinate. *)

From S2P Require Import Prelude Vli VliProps P256.
Import VliProps P256.

#[local] Open Scope Z_scope.

Module P256Props.

Definition p : Z := 2 ^ 256 - 2 ^ 224 + 2 ^ 192 + 2 ^ 96 - 1.
Definition order : Z := 0xffffffff00000000ffffffffffffffffbce6faada7179e84f3b9cac2fc632551.

Lemma curve_p_ok : stands curve_p 8 p.
Proof. split_and!; [|done|done]. repeat constructor; done. Qed.
Lemma curve_n_ok : stands curve_n 8 order.
Proof. split_and!; [|done|done]. repeat constructor; done. Qed.

Lemma cap_8 : cap 8 = 2 ^ 256.
Proof. reflexivity. Qed.
Lemma p_range : 0 < p < cap 8.
Proof. done. Qed.

(** ** The fast reduction *)

(** What a result and its carry stand for. *)
Definition total (rc : list Z * Z) : Z := vli_value rc.1 + cap 8 * rc.2.
Definition eight (l : list Z) : Prop := words l /\ length l = 8%nat.

Lemma acc_add_ok rc tmp : eight rc.1 -> eight tmp ->
  eight (acc_add rc tmp).1 /\ total (acc_add rc tmp) = total rc + vli_value tmp.
Proof.
  destruct rc as [r c]. intros [Wr Lr] [Wt Lt]. unfold acc_add, total, uECC_vli_add. cbn [fst snd] in *.
  pose proof (add_loop_ok r tmp 0 Wr Wt ltac:(congruence) ltac:(lia)) as H.
  destruct (add_loop r tmp 0) as [s d]. destruct H as (Ws & Ls & Hc & E). rewrite Lr in *. cbn [fst snd].
  split; [by split|lia].
Qed.

Lemma acc_sub_ok rc tmp : eight rc.1 -> eight tmp ->
  eight (acc_sub rc tmp).1 /\ total (acc_sub rc tmp) = total rc - vli_value tmp.
Proof.
  destruct rc as [r c]. intros [Wr Lr] [Wt Lt]. unfold acc_sub, total, uECC_vli_sub. cbn [fst snd] in *.
  pose proof (sub_loop_ok r tmp 0 Wr Wt ltac:(congruence) ltac:(lia)) as H.
  destruct (sub_loop r tmp 0) as [s d]. destruct H as (Ws & Ls & Hc & E). rewrite Lr in *. cbn [fst snd].
  split; [by split|lia].
Qed.

Lemma acc_twice_ok rc tmp : eight rc.1 -> eight tmp ->
  eight (acc_twice rc tmp).1 /\ total (acc_twice rc tmp) = total rc + 2 * vli_value tmp.
Proof.
  destruct rc as [r c]. intros Hr [Wt Lt]. unfold acc_twice, uECC_vli_add.
  pose proof (add_loop_ok tmp tmp 0 Wt Wt eq_refl ltac:(lia)) as H.
  destruct (add_loop tmp tmp 0) as [s d]. destruct H as (Ws & Ls & Hc & E).
  destruct (acc_add_ok (r, c + d) s Hr ltac:(split; congruence)) as [H8 Et]. split; [done|].
  rewrite Et. unfold total. cbn [fst snd]. rewrite Lt in E. lia.
Qed.

Lemma eight_intro a b c d e f g h :
  is_u32 a -> is_u32 b -> is_u32 c -> is_u32 d -> is_u32 e -> is_u32 f -> is_u32 g -> is_u32 h ->
  eight [a; b; c; d; e; f; g; h].
Proof. intros. split; [|done]. rewrite !Forall_cons. by split_and!. Qed.

(** A sum of terms so far. *)
Definition sums (rc : list Z * Z) (t : Z) : Prop := eight rc.1 /\ total rc = t.
Lemma sums_add rc t tmp : sums rc t -> eight tmp -> sums (acc_add rc tmp) (t + vli_value tmp).
Proof. intros [Hr <-] Ht. by apply acc_add_ok. Qed.
Lemma sums_sub rc t tmp : sums rc t -> eight tmp -> sums (acc_sub rc tmp) (t - vli_value tmp).
Proof. intros [Hr <-] Ht. by apply acc_sub_ok. Qed.
Lemma sums_twice rc t tmp : sums rc t -> eight tmp -> sums (acc_twice rc tmp) (t + 2 * vli_value tmp).
Proof. intros [Hr <-] Ht. by apply acc_twice_ok. Qed.

Ltac solve_eight := apply eight_intro; first [done | unfold is_u32; lia].

(** The terms are the product up to multiples of [p], and few of those. *)
Lemma mmod_terms_ok product v : stands product 16 v ->
  exists t, sums (mmod_terms product) t /\ (p | t - v) /\ - 4 * cap 8 < t < 7 * cap 8.
Proof.
  intros (W & L & E).
  destruct product as [|a0 [|a1 [|a2 [|a3 [|a4 [|a5 [|a6 [|a7 [|a8 [|a9 [|a10 [|a11 [|a12 [|a13 [|a14 [|a15 [|]]]]]]]]]]]]]]]]]; try done.
  repeat match goal with H : words (_ :: _) |- _ => apply words_cons in H as [? H] end.
  eexists. split; [|split].
  - unfold mmod_terms. cbn [nth take num_words].
    repeat lazymatch goal with
           | |- sums (acc_sub _ _) _ => apply sums_sub; [|solve_eight]
           | |- sums (acc_add _ _) _ => apply sums_add; [|solve_eight]
           | |- sums (acc_twice _ _) _ => apply sums_twice; [|solve_eight]
           end.
    split; [solve_eight|reflexivity].
  - unfold total. cbn [fst snd vli_value] in *. subst v.
    exists (a8 * -1 + a9 * -4294967297 + a10 * -18446744078004518912 + a11 * -79228162532711081667253501951 +
      a12 * -340282367000166625977638945021017194495 + a13 * -1461501637671185285124623296161210883009696235519 +
      a14 * -6277101736848182401166692341332123086285927382448418586623 +
      a15 * -26959946673427741530053695850515137729844644212646842236464328081408).
    unfold p. lia.
  - unfold total. cbn [fst snd vli_value]. rewrite cap_8. lia.
Qed.

Lemma reduce_up_ok fuel : forall r c t, eight r -> total (r, c) = t -> t < 0 -> - (Z.of_nat fuel * p) <= t ->
  exists l, reduce_up fuel r c = Some l /\ stands l 8 (t mod p).
Proof.
  induction fuel as [|fuel IH]; intros r c t Hr Et Hn Hf; [lia|]. cbn [reduce_up].
  destruct (acc_add_ok (r, c) curve_p Hr ltac:(split; apply curve_p_ok)) as [H8 Ea].
  unfold acc_add in *. destruct (uECC_vli_add r curve_p) as [s d]. cbn [fst] in H8.
  rewrite Et in Ea. replace (vli_value curve_p) with p in Ea by (symmetry; apply curve_p_ok).
  pose proof (value_range s (proj1 H8)) as R. rewrite (proj2 H8) in R. pose proof p_range.
  unfold total in Ea. cbn [fst snd] in Ea. destruct (Z.ltb_spec (c + d) 0).
  - destruct (IH s (c + d) (t + p)) as (l & El & Sl); [done|done|nia|lia|].
    exists l. split; [done|]. rewrite <- Z.add_mod_idemp_r, Z.mod_same, Z.add_0_r in Sl by lia. done.
  - exists s. split; [done|]. assert (c + d = 0) by nia. split_and!; [apply H8|apply H8|].
    replace (vli_value s) with (t + p) by nia. apply (Z.mod_unique_pos _ _ (-1)); nia.
Qed.

Lemma eight_stands r : eight r -> stands r 8 (vli_value r).
Proof. by intros []. Qed.

Lemma reduce_down_ok fuel : forall r c t, eight r -> total (r, c) = t -> 0 <= t < Z.of_nat fuel * p ->
  exists l, reduce_down fuel r c = Some l /\ stands l 8 (t mod p).
Proof.
  induction fuel as [|fuel IH]; intros r c t Hr Et Hf; [lia|]. cbn [reduce_down].
  pose proof (stands_range _ _ _ (eight_stands r Hr)) as R. pose proof p_range.
  rewrite (cmp_unsafe_ok _ _ _ _ _ curve_p_ok (eight_stands r Hr)), sgn_one.
  destruct (acc_sub_ok (r, c) curve_p Hr ltac:(split; apply curve_p_ok)) as [H8 Ea].
  unfold acc_sub in *. destruct (uECC_vli_sub r curve_p) as [s d]. cbn [fst] in H8.
  rewrite Et in Ea. replace (vli_value curve_p) with p in Ea by (symmetry; apply curve_p_ok).
  unfold total in Et. cbn [fst snd] in Et.
  destruct (Z.eqb_spec c 0) as [->|Hc]; [destruct (Z.ltb_spec 0 (p - vli_value r))|]; cbn [negb orb].
  - exists r. split; [done|]. rewrite Z.mod_small by lia. split_and!; [apply Hr..|lia].
  - destruct (IH s (0 - d) (t - p) H8 Ea) as (l & El & Sl); [lia|]. exists l. split; [done|].
    rewrite <- Zminus_mod_idemp_r, Z.mod_same, Z.sub_0_r in Sl by lia. done.
  - destruct (IH s (c - d) (t - p) H8 Ea) as (l & El & Sl); [nia|]. exists l. split; [done|].
    rewrite <- Zminus_mod_idemp_r, Z.mod_same, Z.sub_0_r in Sl by lia. done.
Qed.

Lemma reduce_ends product v : stands product 16 v ->
  exists l, (let '(r, c) := mmod_terms product in reduce 10 r c) = Some l /\ stands l 8 (v mod p).
Proof.
  intros Sp. destruct (mmod_terms_ok product v Sp) as (t & [H8 Et] & [k Hk] & Hb).
  destruct (mmod_terms product) as [r c]. cbn [fst] in H8. unfold reduce. pose proof p_range as Rp.
  pose proof (stands_range _ _ _ (eight_stands r H8)) as R.
  assert (Hc : c < 0 <-> t < 0) by (unfold total in Et; cbn [fst snd] in Et; nia).
  assert (E : t mod p = v mod p) by (replace t with (v + k * p) by lia; apply Z.mod_add; lia).
  rewrite <- E. rewrite cap_8 in Hb. destruct (Z.ltb_spec c 0).
  - apply (reduce_up_ok 10 r c t); [done|done|lia|]. unfold p. lia.
  - apply (reduce_down_ok 10 r c t); [done|done|]. unfold p. lia.
Qed.

Lemma mmod_fast_ok product v : stands product 16 v -> stands (vli_mmod_fast_secp256r1 product) 8 (v mod p).
Proof.
  intros Sp. destruct (reduce_ends product v Sp) as (l & El & Sl). unfold vli_mmod_fast_secp256r1.
  destruct (mmod_terms product) as [r c]. by rewrite El.
Qed.

(** ** The field *)

(** A word array that stands for [x] modulo [p]. *)
Definition rep (l : list Z) (x : Z) : Prop := stands l 8 (x mod p).

Lemma p_pos : 0 < p.
Proof. done. Qed.
#[local] Opaque p.

Lemma rep_range x : 0 <= x mod p < p.
Proof. apply Z.mod_pos_bound, p_pos. Qed.
Lemma rep_below l x : stands l 8 x -> x < p -> rep l x.
Proof. intros S H. unfold rep. rewrite Z.mod_small; [done|]. pose proof (stands_range _ _ _ S). lia. Qed.

Lemma rep_mod l x y : x mod p = y mod p -> rep l x -> rep l y.
Proof. unfold rep. by intros ->. Qed.
Lemma rep_divide l x y : (p | x - y) -> rep l x -> rep l y.
Proof.
  intros [k Hk]. apply rep_mod. replace x with (y + k * p) by lia. apply Z.mod_add. pose proof p_pos. lia.
Qed.

(** The product of any words of the size. *)
Lemma rep_product a b : eight a -> eight b -> rep (uECC_vli_modMult_fast a b) (vli_value a * vli_value b).
Proof.
  intros Ha Hb. apply mmod_fast_ok. apply (mult_ok a b 8); [lia|lia|by apply eight_stands..].
Qed.
Lemma rep_mul a b x y : rep a x -> rep b y -> rep (uECC_vli_modMult_fast a b) (x * y).
Proof.
  intros Ha Hb. unfold rep, uECC_vli_modMult_fast. rewrite Zmult_mod. apply mmod_fast_ok.
  apply (mult_ok a b 8); [lia|lia|done|done].
Qed.
Lemma rep_sqr a x : rep a x -> rep (uECC_vli_modSquare_fast a) (x * x).
Proof. intros Ha. exact (rep_mul a a x x Ha Ha). Qed.
Lemma rep_add a b x y : rep a x -> rep b y -> rep (uECC_vli_modAdd a b curve_p) (x + y).
Proof.
  intros Ha Hb. unfold rep. rewrite Zplus_mod. apply modAdd_ok; [done|done|apply curve_p_ok|apply rep_range..].
Qed.
Lemma rep_sub a b x y : rep a x -> rep b y -> rep (uECC_vli_modSub a b curve_p) (x - y).
Proof.
  intros Ha Hb. unfold rep. rewrite Zminus_mod. apply modSub_ok; [done|done|apply curve_p_ok|apply rep_range..].
Qed.
Lemma rep_one : rep (1 :: zeros (num_words - 1)) 1.
Proof. apply rep_below; [|done]. split_and!; [|done|done]. repeat constructor; done. Qed.

Lemma insert_same l i : <[i := Z.lor (nth i l 0) 0]> l = l.
Proof.
  rewrite Z.lor_0_r. destruct (nth_lookup_or_length l i 0) as [E|E].
  - by apply list_insert_id.
  - by apply list_insert_ge.
Qed.

(** Halving is the step of the inversion. *)
Lemma half_mod_p_update l : eight l -> half_mod_p l = vli_modInv_update l curve_p.
Proof.
  intros [W L]. unfold half_mod_p, vli_modInv_update, EVEN, uECC_vli_testBit, num_words.
  change (Z.shiftl 1 (Z.land 0 0x1f)) with 1. change (Z.to_nat (Z.shiftr 0 5)) with 0%nat.
  destruct (Z.land (nth 0 l 0) 1 =? 0); cbn [negb]; [done|].
  destruct (uECC_vli_add_ok l curve_p 8 _ _ (eight_stands l (conj W L)) curve_p_ok) as [Sa Ec].
  pose proof (stands_range _ _ _ (eight_stands l (conj W L))). pose proof p_range.
  destruct (uECC_vli_add l curve_p) as [s c]. cbn [fst snd] in Sa, Ec.
  destruct (uECC_vli_rshift1_ok _ _ _ Sa) as (_ & Lh & _). rewrite Lh.
  assert (Hc : c = 0 \/ c = 1).
  { pose proof (Z.div_lt_upper_bound (vli_value l + p) (cap 8) 2 ltac:(lia) ltac:(lia)).
    pose proof (Z.div_pos (vli_value l + p) (cap 8) ltac:(lia) ltac:(lia)). lia. }
  destruct Hc as [-> | ->]; cbn [Z.eqb negb]; [|done]. apply insert_same.
Qed.

Lemma odd_p : Z.odd p = true.
Proof. reflexivity. Qed.
Lemma p_big : cap 7 <= p.
Proof. done. Qed.

Lemma rep_half l x h : rep l x -> (p | 2 * h - x) -> rep (half_mod_p l) h.
Proof.
  intros Hl [k Hk]. pose proof (rep_range x) as R. rewrite half_mod_p_update by (split; apply Hl).
  pose proof (modInv_update_ok l curve_p 7 _ p Hl curve_p_ok ltac:(lia) odd_p) as St.
  destruct (half_ok p _ odd_p R) as [Hr [j Hj]]. apply rep_below in St; [|lia].
  revert St. apply rep_divide. apply Z.gauss with 2; [|apply gcd_odd_2, odd_p].
  exists (j - k - x / p). pose proof (Z.div_mod x p ltac:(pose proof p_pos; lia)).
  replace (2 * (half p (x mod p) - h)) with ((2 * half p (x mod p) - x mod p) + x mod p - x - (2 * h - x)) by ring.
  rewrite Hj, Hk. lia.
Qed.

(** ** Points *)

#[local] Opaque uECC_vli_modMult_fast uECC_vli_modSquare_fast uECC_vli_modAdd uECC_vli_modSub half_mod_p.

Lemma rep_eq l x y : x = y -> rep l x -> rep l y.
Proof. by intros ->. Qed.

(** A point of the plane and the words of its coordinates scaled by [z]. *)
Definition affine : Type := Z * Z.
Definition at_z (P : point) (z : Z) (A : affine) : Prop := rep P.1 (A.1 * z ^ 2) /\ rep P.2 (A.2 * z ^ 3).

(** The third point of the line through [A] and [B] of slope [l], mirrored:
    their sum, when [l] is the slope of the chord or the tangent. *)
Definition chord (l : Z) (A B : affine) : affine :=
  let x := l * l - A.1 - B.1 in (x, l * (A.1 - x) - A.2).
Definition slope (l : Z) (A B : affine) : Prop := (p | l * (B.1 - A.1) - (B.2 - A.2)).
Definition tangent (l : Z) (A : affine) : Prop := (p | l * (2 * A.2) - 3 * (A.1 ^ 2 - 1)).
Definition mirror (A : affine) : affine := (A.1, - A.2).

(** The words of an expression are words of what it computes. *)
Ltac reps :=
  repeat first [eassumption | apply rep_mul | apply rep_sqr | apply rep_add | apply rep_sub].
Ltac compute_rep := eapply rep_eq; [|reps]; cbn; ring.

Lemma apply_z_ok P z A w Z1 : at_z P z A -> rep Z1 w -> at_z (apply_z P Z1) (z * w) A.
Proof.
  destruct P as [X Y]. intros [HX HY] HZ. cbn [fst snd] in *. unfold apply_z. split; cbn [fst snd]; compute_rep.
Qed.

Definition sum_z (z : Z) (A B : affine) : Z := z ^ 3 * (B.1 - A.1).

(** The second ordinate is determined by the slope. *)
Lemma on_chord Y z A B l : slope l A B -> rep Y (B.2 * z ^ 3) -> rep Y ((A.2 + l * (B.1 - A.1)) * z ^ 3).
Proof.
  intros [k Hk]. apply rep_divide. exists (- k * z ^ 3).
  replace (B.2 * z ^ 3 - (A.2 + l * (B.1 - A.1)) * z ^ 3)
    with (- (l * (B.1 - A.1) - (B.2 - A.2)) * z ^ 3) by ring. rewrite Hk. ring.
Qed.

Lemma XYcZ_add_ok P Q z A B l : at_z P z A -> at_z Q z B -> slope l A B ->
  at_z (XYcZ_add P Q).1 (sum_z z A B) A /\ at_z (XYcZ_add P Q).2 (sum_z z A B) (chord l A B).
Proof.
  destruct P as [X1 Y1], Q as [X2 Y2]. intros [H1 H2] [H3 H4] Hl. cbn [fst snd] in *.
  pose proof (on_chord _ _ _ _ _ Hl H4) as H5. clear H4.
  unfold XYcZ_add, at_z, chord, sum_z. cbn [fst snd]. split; split; compute_rep.
Qed.

(** The difference and the sum; [m] is the slope through the mirrored point. *)
Lemma XYcZ_addC_ok P Q z A B l m : at_z P z A -> at_z Q z B -> slope l A B -> slope m A (mirror B) ->
  at_z (XYcZ_addC P Q).1 (sum_z z A B) (chord m A (mirror B)) /\
  at_z (XYcZ_addC P Q).2 (sum_z z A B) (chord l A B).
Proof.
  destruct P as [X1 Y1], Q as [X2 Y2]. intros [H1 H2] [H3 H4] Hl [k Hk]. cbn [fst snd mirror] in *.
  pose proof (on_chord _ _ _ _ _ Hl H4) as H5.
  assert (H6 : rep Y2 ((- A.2 - m * (B.1 - A.1)) * z ^ 3)).
  { revert H4. apply rep_divide. exists (k * z ^ 3).
    replace (B.2 * z ^ 3 - (- A.2 - m * (B.1 - A.1)) * z ^ 3)
      with ((m * (B.1 - A.1) - (- B.2 - A.2)) * z ^ 3) by ring. rewrite Hk. ring. }
  clear H4. unfold XYcZ_addC, at_z, chord, sum_z, mirror. cbn [fst snd].
  assert (HA : rep (uECC_vli_modAdd Y2 Y1 curve_p) (- m * (B.1 - A.1) * z ^ 3)) by (clear H5; compute_rep).
  assert (HS : rep (uECC_vli_modSub Y2 Y1 curve_p) (l * (B.1 - A.1) * z ^ 3)) by (clear H6; compute_rep).
  clear H5 H6. split; split; compute_rep.
Qed.

(** Doubling; the new third coordinate is [Y Z]. *)
Definition double_z (z : Z) (A : affine) : Z := A.2 * z ^ 4.

Lemma double_jacobian_ok X Y Z1 z A l : at_z (X, Y) z A -> rep Z1 z -> z mod p <> 0 -> tangent l A ->
  let '(X3, Y3, Z3) := double_jacobian_default (X, Y, Z1) in
  at_z (X3, Y3) (double_z z A) (chord l A A) /\ rep Z3 (double_z z A).
Proof.
  intros [H1 H2] H3 Hz [k Hk]. cbn [fst snd] in *. unfold double_jacobian_default.
  rewrite (isZero_ok _ _ _ H3). destruct (Z.eqb_spec (z mod p) 0); [done|].
  set (T := uECC_vli_modMult_fast (uECC_vli_modAdd X (uECC_vli_modSquare_fast Z1) curve_p)
    (uECC_vli_modSub (uECC_vli_modAdd X (uECC_vli_modSquare_fast Z1) curve_p)
       (uECC_vli_modAdd (uECC_vli_modSquare_fast Z1) (uECC_vli_modSquare_fast Z1) curve_p) curve_p)).
  set (W := uECC_vli_modAdd T (uECC_vli_modAdd T T curve_p) curve_p).
  assert (HB : rep (half_mod_p W) (l * A.2 * z ^ 4)).
  { apply (rep_half _ (3 * (A.1 ^ 2 - 1) * z ^ 4)).
    - unfold W, T. compute_rep.
    - exists (k * z ^ 4).
      replace (2 * (l * A.2 * z ^ 4) - 3 * (A.1 ^ 2 - 1) * z ^ 4)
        with ((l * (2 * A.2) - 3 * (A.1 ^ 2 - 1)) * z ^ 4) by ring. rewrite Hk. ring. }
  clearbody W. unfold at_z, chord, double_z. cbn [fst snd]. split; [split|]; compute_rep.
Qed.

Lemma XYcZ_initial_double_ok P A iz z l :
  at_z P 1 A -> rep (default (1 :: zeros (num_words - 1)) iz) z -> z mod p <> 0 -> tangent l A ->
  at_z (XYcZ_initial_double P iz).1 (double_z z A) (chord l A A) /\
  at_z (XYcZ_initial_double P iz).2 (double_z z A) A.
Proof.
  intros HP Hz Hn Hl. unfold XYcZ_initial_double. set (zw := default _ iz) in *.
  pose proof (apply_z_ok P 1 A z zw HP Hz) as Ha. rewrite Z.mul_1_l in Ha.
  destruct (apply_z P zw) as [X Y] eqn:E.
  pose proof (double_jacobian_ok X Y zw z A l Ha Hz Hn Hl) as D.
  destruct (double_jacobian_default (X, Y, zw)) as [[X3 Y3] Z3]. destruct D as [D HZ]. cbn [fst snd].
  split; [done|]. rewrite <- (Z.mul_1_l (double_z z A)). by apply apply_z_ok.
Qed.

(** C14: the fast reduction of curve-specific.inc gives the same words as the
    general one of uECC.c, for every product of 16 words. *)
Theorem fast_reduction_equivalent product : words product -> length product = 16%nat ->
  vli_mmod_fast_secp256r1 product = uECC_vli_mmod product curve_p.
Proof.
  intros W L. assert (Sp : stands product 16 (vli_value product)) by done.
  exact (stands_eq _ _ _ _ (mmod_fast_ok _ _ Sp) (mmod_ok product curve_p 7 _ p Sp curve_p_ok p_big)).
Qed.

Lemma fast_reduction_equivalent_witness :
  vli_mmod_fast_secp256r1 (replicate 16 0xffffffff) = uECC_vli_mmod (replicate 16 0xffffffff) curve_p.
Proof. apply fast_reduction_equivalent; [|done]. apply Forall_replicate. unfold is_u32. lia. Defined.

End P256Props.
