(* ===== verification/Primes.v ===== *)
(** * The prime and the order of P-256 are prime

    uECC.c inverts numbers modulo both and relies on every one that is not zero
    having an inverse.  Pocklington's test, with certificates found outside: a
    number [N] is prime when the prime factors [qs] of [N - 1] have a product
    above the square root of [N] and, for each [q] of them, the power
    [2 ^ ((N - 1) / q)] has order [q] modulo every factor of [N]. *)

From Stdlib Require Import Zpow_facts ZmodInv Zdivisibility.
From stdpp Require Import sets.
From S2P Require Import Prelude Vli VliProps P256 P256Props.
Import VliProps P256 P256Props.
#[local] Open Scope Z_scope.

Module Primes.

(** Nothing up to the square root divides. *)
Definition small_prime (n : Z) : bool :=
  (1 <? n) && forallb (fun d => negb (n mod d =? 0)) (seqZ 2 (Z.sqrt n - 1)).

Definition product (qs : list Z) : Z := foldr Z.mul 1 qs.
Definition witness (N q : Z) : bool :=
  let b := Zpow_mod 2 ((N - 1) / q) N in
  (Z.gcd (b - 1) N =? 1) && (Zpow_mod b q N =? 1).
Definition certified (N : Z) (qs : list Z) : bool :=
  (1 <? N) && (N <? product qs * product qs) && forallb (witness N) qs.

(** ** Factors *)

Lemma factor_or_prime n : 1 < n -> Z.prime n \/ exists d, 1 < d < n /\ (d | n).
Proof.
  intros Hn. destruct (decide (Exists (fun d => n mod d = 0) (seqZ 2 (n - 2)))) as [E|E].
  - right. apply Exists_exists in E as (d & Hd%elem_of_seqZ & Hm). exists d. split; [lia|]. apply Z.mod_divide; [lia|done].
  - left. split; [done|]. intros d Hd D. apply E, Exists_exists. exists d. split; [apply elem_of_seqZ; lia|].
    apply Z.mod_divide; [lia|done].
Qed.

Lemma prime_factor n : 1 < n -> exists r, Z.prime r /\ (r | n).
Proof.
  intros Hn. assert (H : 0 <= n) by lia. revert Hn. pattern n. revert n H. apply Z_lt_induction. intros n IH Hn.
  destruct (factor_or_prime n Hn) as [Hp|(d & Hd & D)]; [by exists n|].
  destruct (IH d) as (r & Hr & R); [lia|lia|]. exists r. split; [done|]. by transitivity d.
Qed.

(** A factor up to the square root. *)
Lemma small_factor n : 1 < n -> ~ Z.prime n -> exists r, Z.prime r /\ (r | n) /\ r * r <= n.
Proof.
  intros Hn Hp. destruct (factor_or_prime n Hn) as [|(d & Hd & e & E)]; [done|].
  assert (H : exists x, 1 < x /\ (x | n) /\ x * x <= n).
  { destruct (Z.le_ge_cases d e); [exists d|exists e]; (split; [nia|]); (split; [|nia]).
    - by exists e.
    - exists d. lia. }
  destruct H as (x & Hx & D & Hle). destruct (prime_factor x Hx) as (r & Hr & R).
  exists r. split; [done|]. split; [by transitivity x|]. pose proof (Z.prime_ge_2 r Hr).
  apply Z.divide_pos_le in R; [nia|lia].
Qed.

Lemma small_prime_correct n : small_prime n = true -> Z.prime n.
Proof.
  unfold small_prime. intros [Hn%Z.ltb_lt Hf]%andb_true_iff. rewrite forallb_forall in Hf.
  destruct (factor_or_prime n Hn) as [|D]; [done|].
  assert (Hp : ~ Z.prime n) by (destruct D as (d & Hd & D); intros [_ H]; by apply (H d)).
  destruct (small_factor n Hn Hp) as (r & Hr & R & Hle). pose proof (Z.prime_ge_2 r Hr).
  exfalso. specialize (Hf r). apply Z.mod_divide in R; [|lia]. rewrite R in Hf. discriminate Hf.
  apply list_elem_of_In, elem_of_seqZ. assert (r <= Z.sqrt n); [|lia]. apply Z.sqrt_le_square; lia.
Qed.

Lemma prime_in_product q qs : Z.prime q -> Forall Z.prime qs -> (q | product qs) -> q ∈ qs.
Proof.
  intros Hq. pose proof (Z.prime_ge_2 q Hq). induction 1 as [|q' qs Hq' _ IH]; unfold product; cbn [foldr]; intros D.
  - apply Z.divide_pos_le in D; lia.
  - apply Z.divide_prime_mul in D as [D|D]; [|set_solver|done].
    apply Z.divide_prime_prime in D as ->; [set_solver|done|done].
Qed.

Lemma product_divides m qs : Forall Z.prime qs -> NoDup qs -> Forall (fun q => (q | m)) qs -> (product qs | m).
Proof.
  intros Hp Hn. revert Hp. induction Hn as [|q qs Hq Hn IH]; intros Hp Hm; [apply Z.divide_1_l|].
  apply Forall_cons in Hp as [Hqp Hp]. apply Forall_cons in Hm as [Hqm Hm].
  destruct (IH Hp Hm) as [k E]. rewrite E in Hqm. apply Z.divide_prime_mul in Hqm as [[j ->]|D]; [| |done].
  - exists j. rewrite E. unfold product. cbn [foldr]. ring.
  - by apply prime_in_product in D.
Qed.

(** ** The test *)

(** Every factor [r] of [N] has a multiplicative group whose order [q] divides. *)
Lemma power_of_one r x k : 0 <= k -> (r | x - 1) -> (r | x ^ k - 1).
Proof.
  intros Hk D. revert k Hk. apply natlike_ind; [by exists 0|]. intros k Hk IH. rewrite Z.pow_succ_r by done.
  replace (x * x ^ k - 1) with (x * (x ^ k - 1) + (x - 1)) by ring. by apply Z.divide_add_r; [apply Z.divide_mul_r|].
Qed.

(** Multiples of two coprime numbers that differ by one. *)
Lemma next_multiple m q : 1 < q -> 0 < m -> Z.gcd m q = 1 -> exists s t, 0 <= s /\ 0 <= t /\ s * m = 1 + t * q.
Proof.
  intros Hq Hm Hg. destruct (Z.gcd_bezout m q 1 Hg) as (u & v & E).
  exists (u mod q), ((u mod q * m) / q). pose proof (Z.mod_pos_bound u q ltac:(lia)).
  assert (Hmod : (u mod q * m) mod q = 1).
  { rewrite Zmult_mod_idemp_l. replace (u * m) with (1 + (- v) * q) by lia. rewrite Z.mod_add, Z.mod_small by lia. done. }
  pose proof (Z.div_mod (u mod q * m) q ltac:(lia)). split; [lia|]. split; [apply Z.div_pos; nia|lia].
Qed.

(** The order [q] of an element of the group of a factor [r] divides the order of the group. *)
Lemma witness_divides N q r : 1 < N -> Z.prime q -> witness N q = true -> Z.prime r -> (r | N) -> (q | r - 1).
Proof.
  intros HN Hq Hw Hr R. unfold witness in Hw. set (b := Zpow_mod 2 _ N) in Hw. clearbody b.
  apply andb_true_iff in Hw as [Hg%Z.eqb_eq Hb%Z.eqb_eq]. rewrite Zpow_mod_correct in Hb by lia.
  pose proof (Z.prime_ge_2 q Hq). pose proof (Z.prime_ge_2 r Hr).
  assert (Hone : ~ (r | 1)) by (intros D; apply Z.divide_pos_le in D; lia).
  assert (Hbq : (r | b ^ q - 1)).
  { transitivity N; [done|]. exists (b ^ q / N). pose proof (Z.div_mod (b ^ q) N ltac:(lia)). lia. }
  assert (Hnb : ~ (r | b)).
  { intros D. apply Hone. replace 1 with (b ^ q - (b ^ q - 1)) by ring. apply Z.divide_sub_r; [|done].
    transitivity b; [done|]. apply Z.divide_pow_same_r. lia. }
  assert (Hf : (r | b ^ (r - 1) - 1)).
  { pose proof (ZmodInv.Z.fermat_nz r b Hr ltac:(rewrite Z.mod_divide by lia; done)) as F.
    exists (b ^ (r - 1) / r). pose proof (Z.div_mod (b ^ (r - 1)) r ltac:(lia)). lia. }
  destruct (Z.BoolSpec_divide_nz q (r - 1)) as [|Hn]; [lia|done|]. exfalso.
  destruct (next_multiple (r - 1) q) as (s & t & Hs & Ht & E); [lia|lia| |].
  { rewrite Z.gcd_comm. by apply Z.coprime_prime_l. }
  apply (power_of_one _ _ s Hs) in Hf. apply (power_of_one _ _ t Ht) in Hbq.
  rewrite <- Z.pow_mul_r in Hf, Hbq by lia. rewrite (Z.mul_comm (r - 1)), E, Z.pow_add_r, Z.pow_1_r, (Z.mul_comm t) in Hf by lia.
  apply Hone. rewrite <- Hg. apply Z.gcd_greatest; [|done].
  replace (b - 1) with (b * b ^ (q * t) - 1 - b * (b ^ (q * t) - 1)) by ring.
  apply Z.divide_sub_r; [done|by apply Z.divide_mul_r].
Qed.

Lemma pocklington N qs : certified N qs = true -> Forall Z.prime qs -> NoDup qs -> Z.prime N.
Proof.
  unfold certified. intros [[HN%Z.ltb_lt HF%Z.ltb_lt]%andb_true_iff Hw]%andb_true_iff Hp Hn.
  rewrite forallb_forall in Hw. destruct (factor_or_prime N HN) as [|D]; [done|].
  assert (HnN : ~ Z.prime N) by (destruct D as (d & Hd & D); intros [_ H]; by apply (H d)).
  destruct (small_factor N HN HnN) as (r & Hr & R & Hle). pose proof (Z.prime_ge_2 r Hr). exfalso.
  assert (D1 : (product qs | r - 1)).
  { apply product_divides; [done..|]. apply Forall_forall. intros q Hq.
    apply (witness_divides N); [done|by eapply Forall_forall in Hq|by apply Hw, list_elem_of_In|done|done]. }
  apply Z.divide_pos_le in D1; [|lia]. assert (0 < product qs); [|nia].
  clear -Hp. induction Hp as [|q qs Hq _ IH]; [done|]. unfold product in *. cbn [foldr]. pose proof (Z.prime_ge_2 q Hq). lia.
Qed.
(** ** Certificates *)

Create HintDb primes.
#[local] Hint Extern 1 (Z.prime _) => (apply small_prime_correct; vm_compute; reflexivity) : primes.

Lemma certified_1 N q : certified N [q] = true -> Z.prime q -> Z.prime N.
Proof. intros H Hq. apply (pocklington N [q]); [done|by apply Forall_singleton|apply NoDup_singleton]. Qed.
Lemma certified_2 N q q' : certified N [q; q'] = true -> q <> q' -> Z.prime q -> Z.prime q' -> Z.prime N.
Proof.
  intros H Hn Hq Hq'. apply (pocklington N [q; q']); [done|apply Forall_cons_2; [done|by apply Forall_singleton]|].
  apply NoDup_cons. split; [by intros ->%list_elem_of_singleton|apply NoDup_singleton].
Qed.

Lemma prime_46076956964474543 : Z.prime 46076956964474543.
Proof. apply (certified_2 _ 704251 78283); [vm_compute; reflexivity|done|auto with primes..]. Qed.
Lemma prime_66417393611 : Z.prime 66417393611.
Proof. apply (certified_2 _ 3677 197); [vm_compute; reflexivity|done|auto with primes..]. Qed.
Lemma prime_11290956913871 : Z.prime 11290956913871.
Proof. apply (certified_1 _ 66417393611); [vm_compute; reflexivity|auto using prime_66417393611 with primes..]. Qed.
Lemma prime_774023187263532362759620327192479577272145303 : Z.prime 774023187263532362759620327192479577272145303.
Proof. apply (certified_2 _ 46076956964474543 11290956913871); [vm_compute; reflexivity|done|auto using prime_46076956964474543, prime_11290956913871 with primes..]. Qed.
Lemma prime_835945042244614951780389953367877943453916927241 : Z.prime 835945042244614951780389953367877943453916927241.
Proof. apply (certified_1 _ 774023187263532362759620327192479577272145303); [vm_compute; reflexivity|auto using prime_774023187263532362759620327192479577272145303 with primes..]. Qed.
Lemma prime_191039911 : Z.prime 191039911.
Proof. apply (certified_1 _ 155317); [vm_compute; reflexivity|auto with primes..]. Qed.
Lemma prime_208150935158385979 : Z.prime 208150935158385979.
Proof. apply (certified_2 _ 191039911 3023); [vm_compute; reflexivity|done|auto using prime_191039911 with primes..]. Qed.
Lemma prime_2624747550333869278416773953 : Z.prime 2624747550333869278416773953.
Proof. apply (certified_1 _ 208150935158385979); [vm_compute; reflexivity|auto using prime_208150935158385979 with primes..]. Qed.
Lemma prime_3969899 : Z.prime 3969899.
Proof. apply (certified_1 _ 104471); [vm_compute; reflexivity|auto with primes..]. Qed.
Lemma prime_1002328039319 : Z.prime 1002328039319.
Proof. apply (certified_1 _ 3969899); [vm_compute; reflexivity|auto using prime_3969899 with primes..]. Qed.

Lemma p_prime : Z.prime p.
Proof. apply (certified_1 _ 835945042244614951780389953367877943453916927241); [vm_compute; reflexivity|apply prime_835945042244614951780389953367877943453916927241]. Qed.
Lemma order_prime : Z.prime order.
Proof.
  apply (certified_2 _ 2624747550333869278416773953 1002328039319);
    [vm_compute; reflexivity|done|apply prime_2624747550333869278416773953|apply prime_1002328039319].
Qed.

(** Numbers below a prime have no factor in common with it, and no more have their products. *)
Lemma below_gcd m x : Z.prime m -> 0 < x < m -> Z.gcd x m = 1.
Proof.
  intros Hm Hx. rewrite Z.gcd_comm. apply Z.coprime_prime_l; [done|]. intros D%Z.divide_pos_le; lia.
Qed.
Lemma product_gcd m x y : Z.prime m -> 0 < x < m -> 0 < y < m -> Z.gcd (x * y) m = 1.
Proof. intros Hm Hx Hy. apply Z.coprime_mul_l; by apply below_gcd. Qed.

End Primes.
