(* ===== verification/EcLadder.v ===== *)
(** * Scalar multiplication of micro-ecc

    [EccPoint_mult] is a Montgomery ladder on points with a common third
    coordinate.  The specification is [multiple]: the points that chords and
    tangents make from a point, with their factors.  The group law itself is not
    needed: the ladder only uses that the sum of two points less one of them is
    the other one, which the formulas show. *)

From S2P Require Import Prelude Vli VliProps P256 P256Props.
Import VliProps P256 P256Props.

#[local] Open Scope Z_scope.

Module EcLadder.

#[local] Opaque p uECC_vli_modMult_fast uECC_vli_modSquare_fast uECC_vli_modAdd uECC_vli_modSub uECC_vli_modInv
  XYcZ_add XYcZ_addC apply_z XYcZ_initial_double.

(** Numbers with an inverse modulo [p]. *)
Definition unit (x : Z) : Prop := Z.gcd x p = 1.
(** Equal modulo [p]. *)
Definition same (A B : affine) : Prop := (p | A.1 - B.1) /\ (p | A.2 - B.2).

(** [multiple P k Q]: chords and tangents take [P] to [Q] in a way that adds up to
    [k] times [P]. *)
Inductive multiple (P : affine) : Z -> affine -> Prop :=
| multiple_one Q : same Q P -> multiple P 1 Q
| multiple_mirror k A Q : multiple P k A -> same Q (mirror A) -> multiple P (- k) Q
| multiple_tangent k A l : multiple P k A -> unit (2 * A.2) -> tangent l A -> multiple P (2 * k) (chord l A A)
| multiple_chord j k A B l :
    multiple P j A -> multiple P k B -> unit (B.1 - A.1) -> slope l A B -> multiple P (j + k) (chord l A B).

(** ** Inverses and slopes *)

Lemma unit_divides x y : unit y -> (x | y) -> unit x.
Proof.
  intros Hy Hx. apply Z.gcd_unique; [lia|apply Z.divide_1_l|apply Z.divide_1_l|].
  intros q Hq Hp. rewrite <- Hy. apply Z.gcd_greatest; [|done]. by transitivity x.
Qed.

Lemma unit_inverse x : unit x -> exists i, (p | i * x - 1).
Proof.
  intros H. destruct (Z.gcd_bezout x p 1 H) as (a & b & E). exists a, (- b). lia.
Qed.

Lemma slope_exists A B : unit (B.1 - A.1) -> exists l, slope l A B.
Proof.
  intros [i [k Hk]]%unit_inverse. exists (i * (B.2 - A.2)), (k * (B.2 - A.2)).
  replace (i * (B.2 - A.2) * (B.1 - A.1) - (B.2 - A.2)) with ((i * (B.1 - A.1) - 1) * (B.2 - A.2)) by ring.
  rewrite Hk. ring.
Qed.

Lemma tangent_exists A : unit (2 * A.2) -> exists l, tangent l A.
Proof.
  intros [i [k Hk]]%unit_inverse. exists (i * (3 * (A.1 ^ 2 - 1))), (k * (3 * (A.1 ^ 2 - 1))).
  replace (i * (3 * (A.1 ^ 2 - 1)) * (2 * A.2) - 3 * (A.1 ^ 2 - 1)) with ((i * (2 * A.2) - 1) * (3 * (A.1 ^ 2 - 1))) by ring.
  rewrite Hk. ring.
Qed.

Lemma at_z_same P z A B : same A B -> at_z P z A -> at_z P z B.
Proof.
  intros [[j Hj] [k Hk]] [H1 H2]. split.
  - revert H1. apply rep_divide. exists (j * z ^ 2). rewrite <- Z.mul_sub_distr_r, Hj. ring.
  - revert H2. apply rep_divide. exists (k * z ^ 3). rewrite <- Z.mul_sub_distr_r, Hk. ring.
Qed.

(** ** Differences *)

(** [A] less [B] is [D]. *)
Definition less_is (A B D : affine) : Prop := exists m, slope m A (mirror B) /\ same (chord m A (mirror B)) D.

Lemma less_swap A B D : less_is A B D -> less_is B A (mirror D).
Proof.
  intros (m & [k Hk] & [[i Hi] [j Hj]]). unfold chord, mirror in *. cbn [fst snd] in *. exists (- m). split; [|split].
  - exists k. cbn [mirror fst snd]. rewrite <- Hk. ring.
  - exists i. cbn [chord mirror fst snd]. rewrite <- Hi. ring.
  - exists (- k - j). cbn [chord mirror fst snd]. replace ((- k - j) * p) with (- (k * p) - j * p) by ring. rewrite <- Hk, <- Hj. ring.
Qed.

(** The sum of [S] and [D] less [S] is [D]. *)
Lemma less_cancels S D l : slope l S D -> less_is (chord l S D) S D.
Proof.
  intros [k Hk]. exists (- l). unfold less_is, slope, same, chord, mirror. cbn [fst snd]. split; [|split].
  - exists 0. ring.
  - exists 0. ring.
  - exists k. rewrite <- Hk. ring.
Qed.

Lemma mirror_twice A : mirror (mirror A) = A.
Proof. destruct A. unfold mirror. cbn. by rewrite Z.opp_involutive. Qed.

(** ** A step of the ladder *)

(** The difference of the point that is not [nb] and the one that is. *)
Definition signed (P : affine) (nb : bool) : affine := if nb then mirror P else P.
Definition factor (k : Z) (nb : bool) : Z := k + b2z nb.

(** The ladder holds [k] and [k + 1] times [P]. *)
Definition climbs (P : affine) (k : Z) (R : ladder) : Prop :=
  exists z A0 A1, at_z R.1 z A0 /\ at_z R.2 z A1 /\ multiple P k A0 /\ multiple P (k + 1) A1 /\ less_is A1 A0 P.

Lemma climbs_pick P k R nb : climbs P k R ->
  exists z A B, at_z (pick R (negb nb)) z A /\ at_z (pick R nb) z B /\
    multiple P (factor k (negb nb)) A /\ multiple P (factor k nb) B /\ less_is A B (signed P nb).
Proof.
  intros (z & A0 & A1 & H0 & H1 & M0 & M1 & HL). unfold factor. destruct nb; cbn [negb pick b2z signed].
  - exists z, A0, A1. rewrite Z.add_0_r. split_and!; auto using less_swap.
  - exists z, A1, A0. rewrite Z.add_0_r. by split_and!.
Qed.

Lemma pick_climbs P k R nb z A B : at_z (pick R (negb nb)) z A -> at_z (pick R nb) z B ->
  multiple P (factor k (negb nb)) A -> multiple P (factor k nb) B -> less_is A B (signed P nb) -> climbs P k R.
Proof.
  unfold factor. intros Ha Hb MA MB HL. destruct nb; cbn [negb pick b2z signed] in *; rewrite ?Z.add_0_r in *.
  - exists z, A, B. split_and!; try done. apply less_swap in HL. by rewrite mirror_twice in HL.
  - exists z, B, A. by split_and!.
Qed.

Lemma pick_pair nb a b : pick (pair nb a b) nb = a /\ pick (pair nb a b) (negb nb) = b.
Proof. by destruct nb. Qed.

(** Differences the step divides by. *)
Definition apart (R : ladder) : bool := Z.gcd (vli_value R.2.1 - vli_value R.1.1) p =? 1.

Lemma unit_mod x : unit (x mod p) <-> unit x.
Proof. unfold unit. by rewrite Z.gcd_mod_l. Qed.
Lemma unit_opp x : unit (- x) <-> unit x.
Proof. unfold unit. by rewrite Z.gcd_opp_l. Qed.
Lemma unit_minus x y : unit (x mod p - y mod p) -> unit (x - y).
Proof. intros H. apply unit_mod. rewrite Zminus_mod. by apply unit_mod. Qed.

Lemma unit_apart R nb z A B : apart R = true -> at_z (pick R nb) z A -> at_z (pick R (negb nb)) z B ->
  unit (B.1 - A.1) /\ unit z.
Proof.
  intros Ha%Z.eqb_eq [HA _] [HB _].
  assert (U : unit (B.1 * z ^ 2 - A.1 * z ^ 2)).
  { apply unit_minus. destruct HA as (_ & _ & <-), HB as (_ & _ & <-).
    destruct nb; cbn [pick negb]; [|done]. apply unit_opp. by rewrite Z.opp_sub_distr, Z.add_comm. }
  rewrite <- Z.mul_sub_distr_r in U. split; apply (unit_divides _ _ U); [apply Z.divide_factor_l|].
  exists ((B.1 - A.1) * z). ring.
Qed.

Lemma signed_multiple P nb : multiple P (1 - 2 * b2z nb) (signed P nb).
Proof.
  assert (H : multiple P 1 P) by (apply multiple_one; split; rewrite Z.sub_diag; apply Z.divide_0_r).
  destruct nb; cbn [b2z signed]; [|done]. apply (multiple_mirror P 1 P); [done|].
  split; rewrite Z.sub_diag; apply Z.divide_0_r.
Qed.

(** After [XYcZ_addC]: the sum of the two points, and [P] or its mirror image. *)
Lemma addC_step P k R nb : climbs P k R -> apart R = true ->
  exists z S, at_z (pick (ladder_addC R nb) nb) z S /\ at_z (pick (ladder_addC R nb) (negb nb)) z (signed P nb) /\
    multiple P (2 * k + 1) S.
Proof.
  intros HR Ha. destruct (climbs_pick P k R nb HR) as (z & A & B & HA & HB & MA & MB & m & Hm & HD).
  destruct (unit_apart R nb z B A Ha HB HA) as [U _].
  assert (U' : unit (B.1 - A.1)) by (rewrite <- unit_opp, Z.opp_sub_distr, Z.add_comm; done).
  destruct (slope_exists A B U') as [l Hl].
  destruct (XYcZ_addC_ok _ _ z A B l m HA HB Hl Hm) as [H1 H2]. unfold ladder_addC.
  destruct (XYcZ_addC _ _) as [other at_nb]. cbn [fst snd] in H1, H2. destruct (pick_pair nb at_nb other) as [-> ->].
  exists (sum_z z A B), (chord l A B). split_and!; [done|by apply (at_z_same _ _ _ _ HD)|].
  replace (2 * k + 1) with (factor k (negb nb) + factor k nb) by (unfold factor; destruct nb; cbn; lia).
  by apply multiple_chord.
Qed.

(** After [XYcZ_add]: the next two multiples. *)
Lemma add_step P k R nb z S : at_z (pick R nb) z S -> at_z (pick R (negb nb)) z (signed P nb) ->
  multiple P (2 * k + 1) S -> unit ((signed P nb).1 - S.1) ->
  exists T, at_z (pick (ladder_add R nb) nb) (sum_z z S (signed P nb)) S /\
    at_z (pick (ladder_add R nb) (negb nb)) (sum_z z S (signed P nb)) T /\
    multiple P (2 * k + 2 * b2z (negb nb)) T /\ less_is T S (signed P nb).
Proof.
  intros HS HD MS U. destruct (slope_exists S (signed P nb) U) as [l Hl].
  destruct (XYcZ_add_ok _ _ z S (signed P nb) l HS HD Hl) as [H1 H2]. unfold ladder_add.
  destruct (XYcZ_add _ _) as [at_nb other]. cbn [fst snd] in H1, H2. destruct (pick_pair nb at_nb other) as [-> ->].
  exists (chord l S (signed P nb)). split_and!; [done|done| |by apply less_cancels].
  replace (2 * k + 2 * b2z (negb nb)) with (2 * k + 1 + (1 - 2 * b2z nb)) by (destruct nb; cbn [negb b2z]; lia).
  apply multiple_chord; [done|apply signed_multiple|done|done].
Qed.

Lemma full_step P k R nb : climbs P k R -> apart R = true -> apart (ladder_addC R nb) = true ->
  climbs P (2 * k + b2z (negb nb)) (ladder_add (ladder_addC R nb) nb).
Proof.
  intros HR H1 H2. destruct (addC_step P k R nb HR H1) as (z & S & HS & HD & MS).
  destruct (unit_apart _ nb z S _ H2 HS HD) as [U _].
  destruct (add_step P k _ nb z S HS HD MS U) as (T & HS' & HT & MT & HL).
  apply (pick_climbs P _ _ nb _ T S HT HS'); [| |done].
  - replace (factor _ _) with (2 * k + 2 * b2z (negb nb)) by (unfold factor; lia). done.
  - replace (factor _ _) with (2 * k + 1) by (unfold factor; destruct nb; cbn [negb b2z]; lia). done.
Qed.

(** ** The ladder *)

(** Every step from bit [i] on has differences to divide by. *)
Fixpoint ladder_apart (scalar : list Z) (i : nat) (R : ladder) : bool :=
  match i with
  | O => true
  | S i' =>
      let nb := negb (uECC_vli_testBit scalar (Z.of_nat i)) in
      let R' := ladder_addC R nb in
      apart R && apart R' && ladder_apart scalar i' (ladder_add R' nb)
  end.

Lemma low_bits v j : 0 <= j -> v mod 2 ^ (j + 1) = b2z (Z.testbit v j) * 2 ^ j + v mod 2 ^ j.
Proof.
  intros Hj. pose proof (Z.testbit_spec' v j Hj) as T. change Z.b2z with b2z in T. rewrite T.
  rewrite Z.pow_add_r, Z.rem_mul_r by lia. change (2 ^ 1) with 2. ring.
Qed.

Lemma ladder_loop_ok P scalar m v : stands scalar m v -> forall i R k,
  climbs P k R -> ladder_apart scalar i R = true ->
  climbs P (k * 2 ^ Z.of_nat i + v mod 2 ^ (Z.of_nat i + 1) / 2) (ladder_loop scalar i R).
Proof.
  intros Sv. induction i as [|i IH]; intros R k HR Ha; cbn [ladder_loop ladder_apart] in *.
  - change (Z.of_nat 0) with 0. rewrite (Z.div_small (v mod _)) by (apply Z.mod_pos_bound; lia).
    replace (k * 2 ^ 0 + 0) with k by lia. done.
  - apply andb_true_iff in Ha as [[H1 H2]%andb_true_iff H3].
    set (nb := negb (uECC_vli_testBit scalar (Z.of_nat (S i)))) in *.
    specialize (IH _ _ (full_step P k R nb HR H1 H2) H3).
    replace (k * 2 ^ Z.of_nat (S i) + _) with
      ((2 * k + b2z (negb nb)) * 2 ^ Z.of_nat i + v mod 2 ^ (Z.of_nat i + 1) / 2); [done|].
    unfold nb. rewrite negb_involutive, (testBit_ok _ _ _ _ Sv) by lia.
    rewrite (low_bits v (Z.of_nat (S i))) by lia. rewrite !Nat2Z.inj_succ.
    rewrite <- !Z.add_1_r, !Z.pow_add_r by lia. change (2 ^ 1) with 2.
    rewrite (Z.mul_assoc (b2z _)), Z.div_add_l by lia. ring.
Qed.

(** [EccPoint_mult] up to the inversion: the ladder before and after the last
    [XYcZ_addC], its [nb], and the number it inverts. *)
Definition last_nb (scalar : list Z) : bool := negb (uECC_vli_testBit scalar 0).
Definition ladder_start (P : point) (initial_Z : option (list Z)) : ladder :=
  let '(R1, R0) := XYcZ_initial_double P initial_Z in (R0, R1).
Definition ladder_end (P : point) (scalar : list Z) (initial_Z : option (list Z)) (num_bits : Z) : ladder :=
  ladder_loop scalar (Z.to_nat (num_bits - 2)) (ladder_start P initial_Z).
Definition inverted (P : point) (R : ladder) (nb : bool) : list Z :=
  uECC_vli_modMult_fast (uECC_vli_modMult_fast (uECC_vli_modSub R.2.1 R.1.1 curve_p) (pick R (negb nb)).2) P.1.

(** No exceptional case: the tangent at [P], the chords of the ladder and the last
    inversion exist. *)
Definition no_exception (P : point) (scalar : list Z) (initial_Z : option (list Z)) (num_bits : Z) : bool :=
  let R := ladder_end P scalar initial_Z num_bits in
  (Z.gcd (2 * vli_value P.2) p =? 1) &&
  ladder_apart scalar (Z.to_nat (num_bits - 2)) (ladder_start P initial_Z) && apart R &&
  (Z.gcd (vli_value (inverted P (ladder_addC R (last_nb scalar)) (last_nb scalar))) p =? 1).

Lemma at_z_mod P z w A : (p | z - w) -> at_z P z A -> at_z P w A.
Proof.
  intros [k Hk] [H1 H2]. split.
  - revert H1. apply rep_divide. exists (A.1 * (z + w) * k).
    replace (A.1 * z ^ 2 - A.1 * w ^ 2) with (A.1 * (z + w) * (z - w)) by ring. rewrite Hk. ring.
  - revert H2. apply rep_divide. exists (A.2 * (z ^ 2 + z * w + w ^ 2) * k).
    replace (A.2 * z ^ 3 - A.2 * w ^ 3) with (A.2 * (z ^ 2 + z * w + w ^ 2) * (z - w)) by ring. rewrite Hk. ring.
Qed.

Lemma signed_x P nb : (signed P nb).1 = P.1.
Proof. by destruct nb. Qed.

(** The inverse the code computes. *)
Lemma rep_inverse l x : rep l x -> unit x -> exists w, rep (uECC_vli_modInv l curve_p) w /\ (p | w * x - 1).
Proof.
  intros Hl Hu. pose proof p_big. pose proof (cap_pos 7). apply unit_mod in Hu. pose proof (rep_range x).
  assert (Hx : 0 < x mod p).
  { destruct (Z.eq_dec (x mod p) 0) as [E|]; [|lia]. unfold unit in Hu. rewrite E, Z.gcd_0_l, Z.abs_eq in Hu by lia.
    assert (1 < cap 7) by done. lia. }
  destruct (modInv_ok l curve_p 7 _ p Hl curve_p_ok odd_p ltac:(lia) Hx) as (w & Hw & Rw & Hi).
  exists w. split; [apply rep_below; [done|lia]|]. specialize (Hi Hu). exists (w * (x / p) + w * (x mod p) / p).
  pose proof (Z.div_mod x p ltac:(lia)) as D. pose proof (Z.div_mod (w * (x mod p)) p ltac:(lia)) as D2.
  rewrite Hi in D2. rewrite D at 1. lia.
Qed.

(** The last step: the third coordinate of the result is undone. *)
Lemma last_step P A k R nb : at_z P 1 A -> climbs A k R -> apart R = true ->
  let R' := ladder_addC R nb in
  Z.gcd (vli_value (inverted P R' nb)) p = 1 ->
  let z := uECC_vli_modMult_fast (uECC_vli_modMult_fast (uECC_vli_modInv (inverted P R' nb) curve_p) P.2)
             (pick R' (negb nb)).1 in
  exists Q, multiple A (2 * k + b2z (negb nb)) Q /\ at_z (apply_z (ladder_add R' nb).1 z) 1 Q.
Proof.
  intros HP HR Ha R' Hg z. destruct (addC_step A k R nb HR Ha) as (z' & S & HS & HD & MS). fold R' in HS, HD.
  destruct HP as [HPx HPy]. set (d := A.1 - S.1).
  assert (HI : rep (inverted P R' nb) (d * A.2 * A.1 * z' ^ 5)).
  { destruct HS as [HSx HSy], HD as [HDx HDy]. unfold inverted, d.
    destruct nb; cbn [negb pick signed mirror fst snd] in *; compute_rep. }
  assert (U : unit (d * A.2 * A.1 * z' ^ 5)).
  { apply unit_mod. destruct HI as (_ & _ & E). unfold unit. by rewrite <- E. }
  destruct (rep_inverse _ _ HI U) as (w & Hw & Hi).
  assert (Hz : rep z (w * A.2 * (A.1 * z' ^ 2))).
  { unfold z. destruct HD as [HDx _]. rewrite signed_x in HDx. clear HI HS. clearbody R'. compute_rep. }
  assert (Ud : unit ((signed A nb).1 - S.1)).
  { rewrite signed_x. apply (unit_divides _ _ U). exists (A.2 * A.1 * z' ^ 5). unfold d. ring. }
  destruct (add_step A k R' nb z' S HS HD MS Ud) as (T & HS' & HT & MT & _).
  assert (E : (p | sum_z z' S (signed A nb) * (w * A.2 * (A.1 * z' ^ 2)) - 1)).
  { destruct Hi as [j Hj]. exists j. rewrite <- Hj. unfold sum_z, d. rewrite signed_x. ring. }
  destruct nb; cbn [negb pick b2z] in *.
  - exists T. rewrite Z.mul_0_r in MT. split; [done|]. apply (at_z_mod _ _ _ _ E). by apply apply_z_ok.
  - exists S. split; [done|]. apply (at_z_mod _ _ _ _ E). by apply apply_z_ok.
Qed.

Lemma start_climbs P A iz z :
  at_z P 1 A -> rep (default (1 :: zeros (num_words - 1)) iz) z -> z mod p <> 0 ->
  Z.gcd (2 * vli_value P.2) p = 1 -> climbs A 1 (ladder_start P iz).
Proof.
  intros HP Hz Hn Hg.
  assert (U : unit (2 * A.2)).
  { apply unit_mod. rewrite <- Z.mul_mod_idemp_r by (pose proof p_pos; lia). apply unit_mod.
    destruct HP as [_ (_ & _ & E)]. rewrite Z.mul_1_r in E. by rewrite <- E. }
  destruct (tangent_exists A U) as [l Hl]. destruct (XYcZ_initial_double_ok P A iz z l HP Hz Hn Hl) as [H1 H0].
  unfold ladder_start. destruct (XYcZ_initial_double P iz) as [R1 R0]. cbn [fst snd] in H1, H0.
  pose proof (signed_multiple A false) as M. cbn [b2z signed] in M.
  exists (double_z z A), A, (chord l A A). split_and!; [done|done|done| |].
  - by apply (multiple_tangent A 1 A l).
  - apply less_cancels. exists 0. ring.
Qed.

Lemma split_low v i : 0 <= i ->
  2 * (2 ^ i + v mod 2 ^ (i + 1) / 2) + b2z (Z.testbit v 0) = 2 ^ (i + 1) + v mod 2 ^ (i + 1).
Proof.
  intros Hi. pose proof (Z.div_mod (v mod 2 ^ (i + 1)) 2 ltac:(lia)) as D.
  assert (E : (v mod 2 ^ (i + 1)) mod 2 = b2z (Z.testbit v 0)).
  { rewrite Z.mod_mod_divide by (exists (2 ^ i); rewrite Z.pow_add_r by lia; lia). by rewrite Zmod_odd, Z.bit0_odd. }
  rewrite Z.pow_add_r in * by lia. change (2 ^ 1) with 2 in *. lia.
Qed.

(** The result is the multiple of the point by the low bits of the scalar with
    the bit above them set. *)
Lemma EccPoint_mult_ok P A scalar m v iz z num_bits :
  at_z P 1 A -> stands scalar m v -> rep (default (1 :: zeros (num_words - 1)) iz) z -> z mod p <> 0 ->
  2 <= num_bits -> no_exception P scalar iz num_bits = true ->
  exists Q, multiple A (2 ^ (num_bits - 1) + v mod 2 ^ (num_bits - 1)) Q /\
    at_z (EccPoint_mult P scalar iz num_bits) 1 Q.
Proof.
  intros HP Sv Hz Hn Hb H. unfold no_exception in H. rewrite !andb_true_iff, !Z.eqb_eq in H.
  destruct H as [[[H1 H2] H3] H4].
  pose proof (ladder_loop_ok A scalar m v Sv _ _ 1 (start_climbs P A iz z HP Hz Hn H1) H2) as HR.
  fold (ladder_end P scalar iz num_bits) in HR.
  destruct (last_step P A _ _ (last_nb scalar) HP HR H3 H4) as (Q & MQ & HQ).
  assert (E : EccPoint_mult P scalar iz num_bits =
    apply_z (ladder_add (ladder_addC (ladder_end P scalar iz num_bits) (last_nb scalar)) (last_nb scalar)).1
      (uECC_vli_modMult_fast (uECC_vli_modMult_fast
         (uECC_vli_modInv (inverted P (ladder_addC (ladder_end P scalar iz num_bits) (last_nb scalar)) (last_nb scalar)) curve_p) P.2)
         (pick (ladder_addC (ladder_end P scalar iz num_bits) (last_nb scalar)) (negb (last_nb scalar))).1)).
  { unfold EccPoint_mult, ladder_end, ladder_start. by destruct (XYcZ_initial_double P iz) as [R1 R0]. }
  exists Q. rewrite E. split; [|done]. clear E HQ.
  assert (Eb : b2z (negb (last_nb scalar)) = b2z (Z.testbit v 0)).
  { unfold last_nb. by rewrite negb_involutive, (testBit_ok _ _ _ _ Sv) by lia. }
  rewrite Eb, Z.mul_1_l, Z2Nat.id, split_low in MQ by lia. by replace (num_bits - 2 + 1) with (num_bits - 1) in MQ by lia.
Qed.

(** C12: [EccPoint_mult] gives the affine coordinates of a multiple of the point,
    made of chords and tangents that add up to the scalar's low bits with the bit
    above them set, whatever third coordinate it starts with - as long as no step
    divides by zero, which the condition checks on the words. *)
Theorem scalar_multiplication P x y scalar iz z num_bits :
  stands P.1 8 x -> stands P.2 8 y -> x < p -> y < p -> words scalar ->
  stands (default (1 :: zeros 7) iz) 8 z -> 0 < z < p -> 2 <= num_bits ->
  no_exception P scalar iz num_bits = true ->
  exists Q, multiple (x, y) (2 ^ (num_bits - 1) + vli_value scalar mod 2 ^ (num_bits - 1)) Q /\
    stands (EccPoint_mult P scalar iz num_bits).1 8 (Q.1 mod p) /\
    stands (EccPoint_mult P scalar iz num_bits).2 8 (Q.2 mod p).
Proof.
  intros Sx Sy Hx Hy Ws Sz Hz Hn He.
  assert (HP : at_z P 1 (x, y)) by (split; cbn [fst snd]; rewrite Z.mul_1_r; by apply rep_below).
  destruct (EccPoint_mult_ok P (x, y) scalar _ _ iz z num_bits HP (stands_self scalar Ws)) as (Q & MQ & [HQx HQy]);
    [apply rep_below; [done|lia]|rewrite Z.mod_small; lia|done..|].
  exists Q. unfold rep in *. rewrite !Z.mul_1_r in *. by split_and!.
Qed.

(** 13 times the base point, with a third coordinate of 2. *)
Lemma scalar_multiplication_witness : exists Q, multiple (vli_value curve_Gx, vli_value curve_Gy) 13 Q /\
  stands (EccPoint_mult (curve_Gx, curve_Gy) [5] (Some (2 :: zeros 7)) 4).1 8 (Q.1 mod p) /\
  stands (EccPoint_mult (curve_Gx, curve_Gy) [5] (Some (2 :: zeros 7)) 4).2 8 (Q.2 mod p).
Proof.
  apply (scalar_multiplication (curve_Gx, curve_Gy) (vli_value curve_Gx) (vli_value curve_Gy) [5] (Some (2 :: zeros 7)) 2 4);
    [split_and!; [|done|done]|split_and!; [|done|done]|done|done| |split_and!; [|done|done]|done|done|vm_compute; reflexivity];
    repeat constructor; done.
Defined.

End EcLadder.
