(* ===== verification/CborParser.v ===== *)
(** * Parsing CBOR (src/tinycbor/src/cborparser.c, cbor.h)

    The iterator of TinyCBOR over the bytes of a request or of the stored
    state.  The buffer is [buf]; [parser->end] is its length and [ptr] an
    offset in it, so that a read past the end is a fault of the model.  The
    library is built without NDEBUG: a failed [assert] or [cbor_assert] stops
    the device ([FAssert]). *)

From S2P Require Import Prelude.

Module CborParser.

Inductive CborError :=
| CborNoError | CborErrorUnknownLength | CborErrorAdvancePastEOF | CborErrorUnexpectedEOF
| CborErrorUnexpectedBreak | CborErrorUnknownType | CborErrorIllegalType
| CborErrorIllegalNumber | CborErrorIllegalSimpleType | CborErrorTooManyItems
| CborErrorTooFewItems | CborErrorDataTooLarge | CborErrorNestingTooDeep
| CborErrorOutOfMemory.
#[export] Instance CborError_eq_dec : EqDecision CborError.
Proof. solve_decision. Defined.

(** ** Types and descriptor bytes (cbor.h, cborinternal_p.h) *)

Definition CborIntegerType : Z := 0x00.
Definition CborByteStringType : Z := 0x40.
Definition CborTextStringType : Z := 0x60.
Definition CborArrayType : Z := 0x80.
Definition CborMapType : Z := 0xa0.
Definition CborTagType : Z := 0xc0.
Definition CborSimpleType : Z := 0xe0.
Definition CborBooleanType : Z := 0xf5.
Definition CborInvalidType : Z := 0xff.

Definition SmallValueMask : Z := 31.
Definition MajorTypeMask : Z := 0xe0.
Definition MajorTypeShift : Z := 5.
Definition Value8Bit : Z := 24.
Definition Value16Bit : Z := 25.
Definition Value32Bit : Z := 26.
Definition Value64Bit : Z := 27.
Definition IndefiniteLength : Z := 31.
Definition BreakByte : Z := 0xff.
Definition NegativeIntegerType : Z := 1.
Definition SimpleTypesType : Z := 7.
Definition FalseValue : Z := 20.
Definition SimpleTypeInNextByte : Z := 24.
Definition SinglePrecisionFloat : Z := 26.
Definition DoublePrecisionFloat : Z := 27.

Definition IntegerValueTooLarge : Z := 0x01.
Definition NegativeInteger : Z := 0x02.
Definition IteratingStringChunks : Z := 0x02.
Definition UnknownLength : Z := 0x04.
Definition UINT32_MAX : Z := 0xffffffff.
Definition SIZE_MAX : Z := 0xffffffff.
Definition CBOR_PARSER_MAX_RECURSIONS : nat := 1024.

Record CborValue := mkCv {
  ptr : nat;
  remaining : Z;
  extra : Z;
  type : Z;
  flags : Z;
}.
#[export] Instance eta_CborValue : Eta CborValue :=
  fun v => mkCv (ptr v) (remaining v) (extra v) (type v) (flags v).

Definition has_flag (f : Z) (v : CborValue) : bool := negb (Z.land (flags v) f =? 0).

Definition is_fixed_type (t : Z) : bool :=
  negb (t =? CborTextStringType) && negb (t =? CborByteStringType) &&
  negb (t =? CborArrayType) && negb (t =? CborMapType).

Definition cbor_value_at_end (v : CborValue) : bool := remaining v =? 0.
Definition cbor_value_is_container (v : CborValue) : bool :=
  (type v =? CborArrayType) || (type v =? CborMapType).
Definition cbor_value_is_integer (v : CborValue) : bool := type v =? CborIntegerType.
Definition cbor_value_is_unsigned_integer (v : CborValue) : bool :=
  cbor_value_is_integer v && negb (has_flag NegativeInteger v).
Definition cbor_value_is_length_known (v : CborValue) : bool := negb (has_flag UnknownLength v).
Definition cbor_value_is_boolean (v : CborValue) : bool := type v =? CborBooleanType.
Definition cbor_value_is_byte_string (v : CborValue) : bool := type v =? CborByteStringType.
Definition cbor_value_is_text_string (v : CborValue) : bool := type v =? CborTextStringType.

Definition assertion (b : bool) : res unit := if b then Done tt else Fault FAssert.

Section Parser.
Context (buf : list Z).

Definition end_ : nat := length buf.
Definition rd (i : nat) : res Z :=
  match buf !! i with
  | Some b => Done b
  | None => Fault FOutOfBounds
  end.
(** [get16], [get32], [get64]: [n] bytes, big-endian. *)
Definition get_be (i n : nat) : res Z :=
  let! l := mem_read buf i n in Done (be_value l).

Definition bytes_needed (info : Z) : nat := Z.to_nat (Z.shiftl 1 (info - Value8Bit)).

(** Returns the error, the new pointer and the number. *)
Definition _cbor_value_extract_number (p : nat) : res (CborError * nat * Z) :=
  let! d := rd p in
  let info := Z.land d SmallValueMask in
  let p := S p in
  if info <? Value8Bit then Done (CborNoError, p, info)
  else if info >? Value64Bit then Done (CborErrorIllegalNumber, p, 0)
  else
    let n := bytes_needed info in
    if (end_ - p <? n)%nat then Done (CborErrorUnexpectedEOF, p, 0)
    else
      let! v := get_be p n in
      Done (CborNoError, (p + n)%nat, v).

Definition extract_length (p : nat) : res (CborError * nat * Z) :=
  let! (err, p, v) := _cbor_value_extract_number p in
  match err with
  | CborNoError =>
      let len := u32 v in
      if negb (v =? len) then Done (CborErrorDataTooLarge, p, len) else Done (CborNoError, p, len)
  | _ => Done (err, p, 0)
  end.

(** The [switch] of [preparse_value] on a simple value. *)
Definition preparse_simple (it : CborValue) (descriptor : Z) : res (CborError * CborValue) :=
  if descriptor =? FalseValue then
    Done (CborNoError, it <| extra := 0 |> <| type := CborBooleanType |>)
  else if (descriptor =? SinglePrecisionFloat) || (descriptor =? DoublePrecisionFloat) then
    let! d := rd (ptr it) in
    Done (CborNoError, it <| flags := Z.lor (flags it) IntegerValueTooLarge |> <| type := d |>)
  else if (descriptor =? 21) || (descriptor =? 22) || (descriptor =? 23) || (descriptor =? 25) then
    let! d := rd (ptr it) in
    Done (CborNoError, it <| type := d |>)
  else if descriptor =? SimpleTypeInNextByte then
    let! x := rd (S (ptr it)) in
    let it := it <| extra := x |> in
    if x <? 32 then Done (CborErrorIllegalSimpleType, it <| type := CborInvalidType |>)
    else Done (CborNoError, it)
  else Done (CborNoError, it).

Definition preparse_value (it : CborValue) : res (CborError * CborValue) :=
  let it := it <| type := CborInvalidType |> in
  if (ptr it =? end_)%nat then Done (CborErrorUnexpectedEOF, it)
  else
    let! d := rd (ptr it) in
    let ty := Z.land d MajorTypeMask in
    let descriptor := Z.land d SmallValueMask in
    let it := it <| type := ty |> <| flags := 0 |> <| extra := descriptor |> in
    if descriptor >? Value64Bit then
      if negb (descriptor =? IndefiniteLength) then
        Done (if ty =? CborSimpleType then CborErrorUnknownType else CborErrorIllegalNumber, it)
      else if negb (is_fixed_type ty) then
        Done (CborNoError, it <| flags := Z.lor (flags it) UnknownLength |>)
      else Done (if ty =? CborSimpleType then CborErrorUnexpectedBreak else CborErrorIllegalNumber, it)
    else
      let n := if descriptor <? Value8Bit then 0%nat else bytes_needed descriptor in
      if (end_ - ptr it <? n + 1)%nat then Done (CborErrorUnexpectedEOF, it)
      else
        let majortype := Z.shiftr ty MajorTypeShift in
        if majortype =? SimpleTypesType then preparse_simple it descriptor
        else
          let it := if majortype =? NegativeIntegerType
                    then it <| flags := Z.lor (flags it) NegativeInteger |>
                            <| type := CborIntegerType |>
                    else it in
          if descriptor <? Value8Bit then Done (CborNoError, it)
          else if descriptor =? Value8Bit then
            let! x := rd (S (ptr it)) in Done (CborNoError, it <| extra := x |>)
          else if descriptor =? Value16Bit then
            let! x := get_be (S (ptr it)) 2 in Done (CborNoError, it <| extra := x |>)
          else Done (CborNoError, it <| flags := Z.lor (flags it) IntegerValueTooLarge |>).

Definition preparse_next_value_nodecrement (it : CborValue) : res (CborError * CborValue) :=
  if (remaining it =? UINT32_MAX) && negb (ptr it =? end_)%nat then
    let! d := rd (ptr it) in
    if d =? BreakByte then
      Done (CborNoError, it <| ptr := S (ptr it) |> <| type := CborInvalidType |> <| remaining := 0 |>)
    else preparse_value it
  else preparse_value it.

Definition preparse_next_value (it : CborValue) : res (CborError * CborValue) :=
  if negb (remaining it =? UINT32_MAX) && negb (type it =? CborTagType) then
    let it := it <| remaining := u32 (remaining it - 1) |> in
    if remaining it =? 0 then Done (CborNoError, it <| type := CborInvalidType |>)
    else preparse_next_value_nodecrement it
  else preparse_next_value_nodecrement it.

Definition advance_internal (it : CborValue) : res (CborError * CborValue) :=
  let! (err, p, len) := _cbor_value_extract_number (ptr it) in
  let! _ := assertion (bool_decide (err = CborNoError)) in
  let it := it <| ptr := p |> in
  let! it :=
    if (type it =? CborByteStringType) || (type it =? CborTextStringType) then
      let! _ := assertion ((len =? u32 len) && negb (has_flag UnknownLength it)) in
      Done (it <| ptr := (ptr it + Z.to_nat len)%nat |>)
    else Done it in
  preparse_next_value it.

Definition _cbor_value_decode_int64_internal (v : CborValue) : res Z :=
  let! d := rd (ptr v) in
  let! _ := assertion (has_flag IntegerValueTooLarge v || (type v =? 0xfa) || (type v =? 0xfb)) in
  let info := Z.land d SmallValueMask in
  let! _ := assertion ((info =? Value32Bit) || (info =? Value64Bit)) in
  if Z.land d 1 =? 0 then get_be (S (ptr v)) 4 else get_be (S (ptr v)) 8.

Definition _cbor_value_extract_int64_helper (v : CborValue) : res Z :=
  if has_flag IntegerValueTooLarge v then _cbor_value_decode_int64_internal v
  else Done (extra v).

Definition cbor_parser_init : res (CborError * CborValue) :=
  preparse_value (mkCv 0 1 0 CborInvalidType 0).

Definition cbor_value_advance_fixed (it : CborValue) : res (CborError * CborValue) :=
  let! _ := assertion (negb (type it =? CborInvalidType)) in
  let! _ := assertion (is_fixed_type (type it)) in
  if remaining it =? 0 then Done (CborErrorAdvancePastEOF, it) else advance_internal it.

(** ** Containers *)

Definition cbor_value_enter_container (it : CborValue) : res (CborError * CborValue) :=
  let! _ := assertion (cbor_value_is_container it) in
  if has_flag UnknownLength it then
    preparse_next_value_nodecrement (it <| remaining := UINT32_MAX |> <| ptr := S (ptr it) |>)
  else
    let! (err, p, len) := _cbor_value_extract_number (ptr it) in
    let! _ := assertion (bool_decide (err = CborNoError)) in
    let recursed := it <| remaining := u32 len |> in
    if negb (remaining recursed =? len) || (len =? UINT32_MAX) then Done (CborErrorDataTooLarge, recursed)
    else if (type it =? CborMapType) && (remaining recursed >? UINT32_MAX / 2) then
      Done (CborErrorDataTooLarge, recursed)
    else
      let recursed := recursed <| ptr := p |>
        <| remaining := if type it =? CborMapType then u32 (remaining recursed * 2)
                        else remaining recursed |> in
      if len =? 0 then Done (CborNoError, recursed <| type := CborInvalidType |>)
      else preparse_next_value_nodecrement recursed.

Definition cbor_value_leave_container (it recursed : CborValue) : res (CborError * CborValue) :=
  let! _ := assertion (cbor_value_is_container it) in
  let! _ := assertion (type recursed =? CborInvalidType) in
  preparse_next_value (it <| ptr := ptr recursed |>).

(** ** Strings *)

(** The error, the iterator and the chunk, [None] after the last one. *)
Definition get_string_chunk (it : CborValue) : res (CborError * CborValue * option (list Z)) :=
  let iterating := has_flag IteratingStringChunks it in
  let known := cbor_value_is_length_known it in
  if iterating && known then
    let! (err, it) := preparse_next_value it in Done (err, it, None)
  else
    let it := if negb iterating && negb known
              then it <| ptr := S (ptr it) |> <| flags := Z.lor (flags it) IteratingStringChunks |>
              else it in
    if (ptr it =? end_)%nat then Done (CborErrorUnexpectedEOF, it, None)
    else
      let! d := rd (ptr it) in
      if d =? BreakByte then
        let! (err, it) := preparse_next_value (it <| ptr := S (ptr it) |>) in Done (err, it, None)
      else if Z.land d MajorTypeMask =? type it then
        let! (err, p, len) := extract_length (ptr it) in
        let it := it <| ptr := p |> in
        match err with
        | CborNoError =>
            if Z.of_nat (end_ - p) <? len then Done (CborErrorUnexpectedEOF, it, None)
            else
              let! chunk := mem_read buf p (Z.to_nat len) in
              Done (CborNoError, it <| ptr := (p + Z.to_nat len)%nat |>
                                    <| flags := Z.lor (flags it) IteratingStringChunks |>, Some chunk)
        | _ => Done (err, it, None)
        end
      else Done (CborErrorIllegalType, it, None).

(** The [while (1)] of [iterate_string_chunks]: [fits] is [*result], [copied]
    what was written to the destination so far, [total] the bytes seen.
    A chunk takes at least a byte of the buffer, so [end_ + 2] rounds are
    enough. *)
Fixpoint iterate_chunks (fuel : nat) (it : CborValue) (buflen total : Z) (fits : bool)
    (copied : list Z) : res (CborError * CborValue * Z * bool * list Z) :=
  match fuel with
  | O => Fault FExit
  | S fuel =>
      let! (err, it, chunk) := get_string_chunk it in
      match err, chunk with
      | CborNoError, None => Done (CborNoError, it, total, fits, copied)
      | CborNoError, Some c =>
          let newTotal := total + Z.of_nat (length c) in
          if newTotal >? SIZE_MAX then Done (CborErrorDataTooLarge, it, total, fits, copied)
          else if fits && (buflen >=? newTotal)
               then iterate_chunks fuel it buflen newTotal true (copied ++ c)
               else iterate_chunks fuel it buflen newTotal false copied
      | _, _ => Done (err, it, total, fits, copied)
      end
  end.

(** [iterate_string_chunks] with [memcpy]: the error, the iterator behind the
    string, the new [*buflen] and the bytes written to the destination (the
    terminating zero included when there is room).  [buflen] is unchanged on
    errors of the iteration. *)
Definition _cbor_value_copy_string (v : CborValue) (buflen : Z)
    : res (CborError * CborValue * Z * list Z) :=
  let! _ := assertion (cbor_value_is_byte_string v || cbor_value_is_text_string v) in
  let! (err, it, total, fits, copied) := iterate_chunks (end_ + 2) v buflen 0 true [] in
  match err with
  | CborNoError =>
      let copied := if fits && (buflen >? total) then copied ++ [0] else copied in
      Done (if fits then CborNoError else CborErrorOutOfMemory, it, total, copied)
  | _ => Done (err, it, buflen, copied)
  end.

(** ** Skipping an element *)

Section Items.
Context (advance1 : CborValue -> res (CborError * CborValue)).

(** [while (!cbor_value_at_end(&recursed))]: every element takes at least a
    byte of the buffer, so [end_ + 1] rounds are enough. *)
Fixpoint advance_items (fuel : nat) (r : CborValue) : res (CborError * CborValue) :=
  if cbor_value_at_end r then Done (CborNoError, r)
  else
    match fuel with
    | O => Fault FExit
    | S fuel =>
        let! (err, r) := advance1 r in
        match err with
        | CborNoError => advance_items fuel r
        | _ => Done (err, r)
        end
    end.
End Items.

Fixpoint advance_recursive (nestingLevel : nat) (it : CborValue) : res (CborError * CborValue) :=
  if is_fixed_type (type it) then advance_internal it
  else if negb (cbor_value_is_container it) then
    let! (err, next, _, _) := _cbor_value_copy_string it SIZE_MAX in Done (err, next)
  else
    match nestingLevel with
    | O => Done (CborErrorNestingTooDeep, it)
    | S nestingLevel =>
        let! (err, recursed) := cbor_value_enter_container it in
        match err with
        | CborNoError =>
            let! (err, recursed) := advance_items (advance_recursive nestingLevel) (S end_) recursed in
            match err with
            | CborNoError => cbor_value_leave_container it recursed
            | _ => Done (err, it)
            end
        | _ => Done (err, it)
        end
    end.

Definition cbor_value_advance (it : CborValue) : res (CborError * CborValue) :=
  let! _ := assertion (negb (type it =? CborInvalidType)) in
  if remaining it =? 0 then Done (CborErrorAdvancePastEOF, it)
  else advance_recursive CBOR_PARSER_MAX_RECURSIONS it.

(** ** Reading values (the inline functions of cbor.h) *)

Definition cbor_value_get_uint64 (v : CborValue) : res Z :=
  let! _ := assertion (cbor_value_is_unsigned_integer v) in
  _cbor_value_extract_int64_helper v.

(** [(int64_t)] of the raw number, negated for a negative integer. *)
Definition i64 (z : Z) : Z := (z + 2 ^ 63) mod 2 ^ 64 - 2 ^ 63.
Definition cbor_value_get_int64 (v : CborValue) : res Z :=
  let! _ := assertion (cbor_value_is_integer v) in
  let! n := _cbor_value_extract_int64_helper v in
  let r := i64 n in
  Done (if has_flag NegativeInteger v then i64 (- r - 1) else r).
Definition cbor_value_get_int (v : CborValue) : res Z :=
  let! _ := assertion (cbor_value_is_integer v) in
  let! n := _cbor_value_extract_int64_helper v in
  let r := i32 n in
  Done (if has_flag NegativeInteger v then i32 (- r - 1) else r).

Definition cbor_value_get_boolean (v : CborValue) : res bool :=
  let! _ := assertion (cbor_value_is_boolean v) in
  Done (negb (extra v =? 0)).

Definition cbor_value_get_string_length (v : CborValue) : res (CborError * Z) :=
  let! _ := assertion (cbor_value_is_byte_string v || cbor_value_is_text_string v) in
  if negb (cbor_value_is_length_known v) then Done (CborErrorUnknownLength, 0)
  else
    let! n := _cbor_value_extract_int64_helper v in
    Done (if negb (u32 n =? n) then CborErrorDataTooLarge else CborNoError, u32 n).

Definition cbor_value_copy_byte_string (v : CborValue) (buflen : Z)
    : res (CborError * CborValue * Z * list Z) :=
  let! _ := assertion (cbor_value_is_byte_string v) in _cbor_value_copy_string v buflen.
Definition cbor_value_copy_text_string (v : CborValue) (buflen : Z)
    : res (CborError * CborValue * Z * list Z) :=
  let! _ := assertion (cbor_value_is_text_string v) in _cbor_value_copy_string v buflen.

End Parser.

End CborParser.
