(* ===== verification/CborProps.v ===== *)
(** * Safety of the CBOR parser on arbitrary input

    On any bytes the parser stays inside the buffer, never fails one of its
    assertions and always comes to an end: an iterator it reports without
    error is either at the end of its container or valid, and every operation
    on a valid iterator returns. *)

From S2P Require Import Prelude CborParser.
Import CborParser.

Module CborProps.

Section Safety.
Context (buf : list Z) (Hbuf : bytes buf).
Abbreviation END := (length buf).

(** Bytes of the number behind a descriptor. *)
Definition need (info : Z) : nat := if info <? Value8Bit then 0%nat else bytes_needed info.

Inductive shape (it : CborValue) (d : Z) : Prop :=
| shape_unknown :
    has_flag UnknownLength it = true -> Z.land d SmallValueMask = IndefiniteLength ->
    is_fixed_type (type it) = false -> type it = Z.land d MajorTypeMask ->
    has_flag IteratingStringChunks it = false -> has_flag IntegerValueTooLarge it = false ->
    shape it d
| shape_known :
    has_flag UnknownLength it = false -> Z.land d SmallValueMask <= Value64Bit ->
    (ptr it + 1 + need (Z.land d SmallValueMask) <= END)%nat ->
    (is_fixed_type (type it) = false ->
     type it = Z.land d MajorTypeMask /\ has_flag IteratingStringChunks it = false) ->
    (has_flag IntegerValueTooLarge it = true ->
     Z.land d SmallValueMask = Value32Bit \/ Z.land d SmallValueMask = Value64Bit) ->
    shape it d.

(** At an element of its container. *)
Record valid (it : CborValue) : Prop := {
  v_remaining : 1 <= remaining it <= UINT32_MAX;
  v_type : type it <> CborInvalidType;
  v_extra : 0 <= extra it < 2 ^ 16;
  v_shape : exists d, buf !! ptr it = Some d /\ shape it d;
}.

Definition at_end (it : CborValue) : Prop :=
  remaining it = 0 /\ type it = CborInvalidType /\ (ptr it <= END)%nat.

(** What an operation that reports no error leaves. *)
Definition parsed (it : CborValue) : Prop := at_end it \/ valid it.

Lemma valid_lt it : valid it -> (ptr it < END)%nat.
Proof. intros V. destruct (v_shape _ V) as (d & H & _). by eapply lookup_lt_Some. Qed.

Lemma land31 d : 0 <= Z.land d SmallValueMask <= 31.
Proof.
  change SmallValueMask with (Z.ones 5). rewrite Z.land_ones by lia.
  pose proof (Z.mod_pos_bound d (2 ^ 5)). lia.
Qed.

Lemma rd_lookup i d : buf !! i = Some d -> rd buf i = Done d.
Proof. unfold rd. by intros ->. Qed.

Lemma lookup_byte i d : buf !! i = Some d -> is_byte d.
Proof. intros H. rewrite Forall_lookup in Hbuf. eauto. Qed.

Lemma get_be_ok i n : (i + n <= END)%nat ->
  exists v, get_be buf i n = Done v /\ 0 <= v < 256 ^ Z.of_nat n.
Proof.
  intros H. unfold get_be. rewrite mem_read_fits by done. cbn [res_bind]. eexists. split; [done|].
  pose proof (be_value_range (slice i n buf) (slice_bytes _ _ _ Hbuf)) as R.
  by rewrite slice_length in R by done.
Qed.

Lemma need_bound info : 0 <= info <= Value64Bit ->
  (need info <= 8)%nat /\ (info = Value8Bit -> need info = 1%nat) /\
  (info = Value16Bit -> need info = 2%nat) /\ (info = Value32Bit -> need info = 4%nat) /\
  (info = Value64Bit -> need info = 8%nat).
Proof.
  unfold need, Value8Bit, Value16Bit, Value32Bit, Value64Bit. intros H.
  destruct (info <? 24) eqn:E; zbool; [repeat split; lia|].
  assert (info = 24 \/ info = 25 \/ info = 26 \/ info = 27) as [ -> | [ -> | [ -> | -> ] ] ] by lia;
    vm_compute; repeat split; try discriminate; auto with arith.
Qed.

(** The number of a complete descriptor. *)
Lemma extract_number_ok p d :
  buf !! p = Some d -> Z.land d SmallValueMask <= Value64Bit ->
  (p + 1 + need (Z.land d SmallValueMask) <= END)%nat ->
  exists v, _cbor_value_extract_number buf p
    = Done (CborNoError, (p + 1 + need (Z.land d SmallValueMask))%nat, v) /\ 0 <= v < 2 ^ 64.
Proof.
  intros Hd Hi Hn. unfold _cbor_value_extract_number. rewrite (rd_lookup _ _ Hd). cbn [res_bind].
  pose proof (land31 d) as H31. set (info := Z.land d SmallValueMask) in *.
  destruct (need_bound info ltac:(lia)) as (Hle & _). unfold need in *.
  destruct (info <? Value8Bit) eqn:E8; zbool.
  - eexists. split; [do 2 f_equal; f_equal; lia|]. lia.
  - destruct (info >? Value64Bit) eqn:E64; zbool; [lia|]. unfold end_.
    destruct (END - S p <? bytes_needed info)%nat eqn:El; [apply Nat.ltb_lt in El; lia|].
    destruct (get_be_ok (S p) (bytes_needed info)) as (v & -> & Hv); [lia|]. cbn [res_bind].
    exists v. split; [do 3 f_equal; lia|].
    pose proof (Z.pow_le_mono_r 256 (Z.of_nat (bytes_needed info)) 8). lia.
Qed.

(** Any descriptor: an error, or the number, and the pointer moves on. *)
Lemma extract_number_any p : (p < END)%nat ->
  exists e p' v, _cbor_value_extract_number buf p = Done (e, p', v) /\ (p < p' <= END)%nat /\
    0 <= v < 2 ^ 64.
Proof.
  intros Hp. destruct (lookup_lt_is_Some_2 buf p Hp) as [d Hd].
  pose proof (land31 d) as H31.
  unfold _cbor_value_extract_number. rewrite (rd_lookup _ _ Hd). cbn [res_bind].
  destruct (_ <? Value8Bit) eqn:E8; zbool; [eexists _, _, _; split; [done|]; lia|].
  destruct (_ >? Value64Bit) eqn:E64; zbool; [eexists _, _, _; split; [done|]; lia|]. unfold end_.
  destruct (END - S p <? _)%nat eqn:El; [eexists _, _, _; split; [done|]; lia|].
  apply Nat.ltb_ge in El.
  destruct (need_bound (Z.land d SmallValueMask)) as (Hle & _); [lia|].
  unfold need in Hle. rewrite (proj2 (Z.ltb_ge _ _) E8) in Hle.
  destruct (get_be_ok (S p) (bytes_needed (Z.land d SmallValueMask))) as (v & -> & Hv); [lia|].
  cbn [res_bind]. eexists _, _, _. split; [done|]. split; [lia|].
  pose proof (Z.pow_le_mono_r 256 (Z.of_nat (bytes_needed (Z.land d SmallValueMask))) 8). lia.
Qed.

(** ** Looking at the next element *)

(** A branch that reports an error. *)
Ltac ret_err := eexists _, _; do 3 (split; [done|]); intros Hno; first [done|by destruct (_ =? CborSimpleType)].

(** A descriptor byte is its major type and its additional information. *)
Lemma descriptor_split d : is_byte d ->
  d = Z.land d MajorTypeMask + Z.land d SmallValueMask /\
  exists m, 0 <= m <= 7 /\ Z.land d MajorTypeMask = 32 * m /\
    Z.shiftr (Z.land d MajorTypeMask) MajorTypeShift = m.
Proof.
  intros Hd. unfold is_byte in Hd.
  assert (E : Z.land d MajorTypeMask = 32 * (d / 32)).
  { change MajorTypeMask with (Z.shiftl (Z.ones 3) 5).
    apply Z.bits_inj'. intros n Hn. rewrite Z.land_spec.
    replace (32 * (d / 32)) with (Z.shiftl (Z.shiftr d 5) 5).
    2:{ rewrite Z.shiftl_mul_pow2, Z.shiftr_div_pow2 by lia. change (2 ^ 5) with 32. lia. }
    destruct (decide (n < 5)).
    - rewrite !Z.shiftl_spec_low by lia. apply andb_false_r.
    - rewrite !Z.shiftl_spec, Z.shiftr_spec by lia. replace (n - 5 + 5) with n by lia.
      destruct (decide (n < 8)).
      + rewrite Z.ones_spec_low by lia. apply andb_true_r.
      + rewrite <- (Z.mod_small d (2 ^ 8)) by lia. rewrite Z.mod_pow2_bits_high by lia. done. }
  assert (E5 : Z.land d SmallValueMask = d mod 32).
  { change SmallValueMask with (Z.ones 5). by rewrite Z.land_ones. }
  pose proof (Z.div_mod d 32 ltac:(lia)).
  split; [lia|]. exists (d / 32). split; [|split; [done|]].
  - split; [apply Z.div_pos; lia|]. enough (d / 32 < 8) by lia. apply Z.div_lt_upper_bound; lia.
  - rewrite E, Z.shiftr_div_pow2 by (unfold MajorTypeShift; lia).
    change (2 ^ MajorTypeShift) with 32. rewrite Z.mul_comm. apply Z.div_mul. lia.
Qed.

Lemma has_flag_0 f it : flags it = 0 -> has_flag f it = false.
Proof. unfold has_flag. by intros ->. Qed.

Lemma land_lor_flag x y : 0 <= x -> Z.land (Z.lor 0 x) y = Z.land x y.
Proof. done. Qed.

(** The types the parser sets, on a number [d] of at most 27. *)
Lemma fixed_simple d : is_byte d -> Z.land d MajorTypeMask = CborSimpleType ->
  is_fixed_type d = true /\ (Z.land d SmallValueMask <= Value64Bit -> d <> CborInvalidType).
Proof.
  intros Hd Hm. destruct (descriptor_split d Hd) as (E & _). pose proof (land31 d).
  unfold is_fixed_type, CborTextStringType, CborByteStringType, CborArrayType, CborMapType,
    CborInvalidType, CborSimpleType, Value64Bit in *.
  split; [|lia]. rewrite !andb_true_iff, !negb_true_iff, !Z.eqb_neq. lia.
Qed.

Ltac simple_case Hk Hf Ht :=
    eexists _, _; split; [done|]; do 2 (split; [done|]); intros _; apply Hk; cbn;
    rewrite ?Ht; try done; try lia; try (unfold has_flag; cbn; by rewrite Hf).

Lemma preparse_simple_ok it d :
  buf !! ptr it = Some d -> Z.land d MajorTypeMask = CborSimpleType ->
  Z.land d SmallValueMask <= Value64Bit ->
  (ptr it + 1 + need (Z.land d SmallValueMask) <= END)%nat ->
  1 <= remaining it <= UINT32_MAX -> flags it = 0 -> type it = CborSimpleType ->
  extra it = Z.land d SmallValueMask ->
  exists e it', preparse_simple buf it (Z.land d SmallValueMask) = Done (e, it') /\
    ptr it' = ptr it /\ remaining it' = remaining it /\ (e = CborNoError -> valid it').
Proof.
  intros Hd Hm Hi Hn Hr Hf Ht He. pose proof (lookup_byte _ _ Hd) as Hbd.
  destruct (fixed_simple d Hbd Hm) as [Hfx Hne]. specialize (Hne Hi).
  pose proof (land31 d) as H31. unfold preparse_simple. rewrite (rd_lookup _ _ Hd). cbn [res_bind].
  unfold Value64Bit in *.
  assert (Hk : forall it', ptr it' = ptr it -> remaining it' = remaining it ->
    0 <= extra it' < 2 ^ 16 -> type it' <> CborInvalidType -> is_fixed_type (type it') = true ->
    has_flag UnknownLength it' = false ->
    (has_flag IntegerValueTooLarge it' = true ->
      Z.land d SmallValueMask = Value32Bit \/ Z.land d SmallValueMask = Value64Bit) -> valid it').
  { intros it' Hp Hr' He' Ht' Hf' Hu Hl. split; [by rewrite Hr'|done|done|].
    exists d. rewrite Hp. split; [done|]. apply shape_known; rewrite ?Hp; try done.
    by rewrite Hf'. }
  destruct (_ =? FalseValue); [simple_case Hk Hf Ht|].
  destruct ((_ =? SinglePrecisionFloat) || _) eqn:Ef.
  { simple_case Hk Hf Ht. intros _. apply orb_true_iff in Ef. rewrite !Z.eqb_eq in Ef. exact Ef. }
  match goal with |- context [if ?b then Done (CborNoError, it <| type := d |>) else _] =>
    destruct b; [simple_case Hk Hf Ht|] end.
  destruct (_ =? SimpleTypeInNextByte) eqn:En; zbool; [|simple_case Hk Hf Ht].
  destruct (need_bound (Z.land d SmallValueMask)) as (_ & H8 & _); [unfold Value64Bit; lia|].
  rewrite (H8 En) in Hn.
  destruct (lookup_lt_is_Some_2 buf (S (ptr it))) as [x Hx]; [lia|].
  rewrite (rd_lookup _ _ Hx). cbn [res_bind]. pose proof (lookup_byte _ _ Hx) as Hbx.
  unfold is_byte in Hbx. destruct (x <? 32); [|simple_case Hk Hf Ht].
  ret_err.
Qed.

Lemma preparse_value_ok it :
  (ptr it <= END)%nat -> 1 <= remaining it <= UINT32_MAX ->
  exists e it', preparse_value buf it = Done (e, it') /\ ptr it' = ptr it /\
    remaining it' = remaining it /\ (e = CborNoError -> valid it').
Proof.
  intros Hp Hr. unfold preparse_value. cbn [set_field ptr remaining type]. unfold end_.
  destruct (ptr it =? END)%nat eqn:Ee; [ret_err|].
  apply Nat.eqb_neq in Ee. destruct (lookup_lt_is_Some_2 buf (ptr it)) as [d Hd]; [lia|].
  rewrite (rd_lookup _ _ Hd). cbn [res_bind]. pose proof (lookup_byte _ _ Hd) as Hbd.
  destruct (descriptor_split d Hbd) as (Es & m & Hm & Em & Esh). rewrite Esh.
  pose proof (land31 d) as H31.
  set (info := Z.land d SmallValueMask) in *. set (ty := Z.land d MajorTypeMask) in *.
  destruct (info >? Value64Bit) eqn:E64; zbool.
  { destruct (negb (info =? IndefiniteLength)) eqn:Ei; [ret_err|]. zbool.
    destruct (negb (is_fixed_type ty)) eqn:Ex; [|ret_err]. zbool.
    eexists _, _. split; [done|]. do 2 (split; [done|]). intros _. split; cbn; try done.
    - rewrite Em. unfold CborInvalidType. lia.
    - lia.
    - exists d. split; [done|]. by apply shape_unknown. }
  change (if info <? Value8Bit then 0%nat else bytes_needed info) with (need info).
  destruct (END - ptr it <? need info + 1)%nat eqn:El; [ret_err|]. apply Nat.ltb_ge in El.
  destruct (m =? SimpleTypesType) eqn:E7; zbool.
  { destruct (preparse_simple_ok (mkCv (ptr it) (remaining it) info ty 0) d) as (e & it' & H);
      cbn; fold info ty; try done; try lia; [by rewrite Em, E7..|by exists e, it']. }
  unfold SimpleTypesType, NegativeIntegerType, Value64Bit in *.
  destruct (need_bound info) as (Hle & H8 & H16 & H32 & H64); [unfold Value64Bit; lia|].
  assert (Hk : forall x fl, 0 <= x < 2 ^ 16 -> Z.land fl UnknownLength = 0 ->
    (Z.land fl IntegerValueTooLarge <> 0 -> info = Value32Bit \/ info = Value64Bit) ->
    (Z.land fl IteratingStringChunks <> 0 -> m = 1) ->
    valid (mkCv (ptr it) (remaining it) x (if m =? 1 then CborIntegerType else ty) fl)).
  { intros x fl Hx Hu Hl Hi. split; cbn; try done.
    - destruct (m =? 1) eqn:Em1; [done|]. rewrite Em. unfold CborInvalidType. lia.
    - exists d. split; [done|]. apply shape_known; unfold has_flag; cbn; fold info ty.
      + by rewrite Hu.
      + unfold Value64Bit. lia.
      + lia.
      + intros Hfx. destruct (m =? 1) eqn:Em1; [done|]. split; [done|]. zbool.
        apply negb_false_iff, Z.eqb_eq.
        destruct (decide (Z.land fl IteratingStringChunks = 0)) as [?|Hn]; [done|].
        by apply Hi in Hn.
      + intros Hfl. apply Hl. by zbool. }
  match goal with |- context [if m =? 1 then ?a else ?b] => replace (if m =? 1 then a else b) with
    (mkCv (ptr it) (remaining it) info (if m =? 1 then CborIntegerType else ty)
       (if m =? 1 then NegativeInteger else 0)) by (by destruct (m =? 1)) end.
  cbn [ptr set_field flags].
  destruct (info <? Value8Bit) eqn:Eb; zbool.
  { eexists _, _. do 3 (split; [done|]). intros _. apply Hk; try (destruct (m =? 1) eqn:E1; zbool; done).
    lia. }
  destruct (info =? Value8Bit) eqn:E8; zbool.
  { destruct (lookup_lt_is_Some_2 buf (S (ptr it))) as [x Hx]; [rewrite (H8 E8) in El; lia|].
    rewrite (rd_lookup _ _ Hx). pose proof (lookup_byte _ _ Hx) as Hbx. unfold is_byte in Hbx.
    eexists _, _. do 3 (split; [done|]). intros _. apply Hk; try (destruct (m =? 1) eqn:E1; zbool; done).
    lia. }
  destruct (info =? Value16Bit) eqn:E16; zbool.
  { destruct (get_be_ok (S (ptr it)) 2) as (x & -> & Hx); [rewrite (H16 E16) in El; lia|].
    eexists _, _. do 3 (split; [done|]). intros _. apply Hk; try (destruct (m =? 1) eqn:E1; zbool; done). }
  eexists _, _. do 3 (split; [done|]). intros _. cbn. apply Hk; try (destruct (m =? 1) eqn:E1; zbool; done).
  - lia.
  - unfold Value8Bit, Value16Bit, Value32Bit, Value64Bit in *. lia.
Qed.

(** What the steps to the next element promise, from pointer [p] on. *)
Definition steps_to (p : nat) (m : res (CborError * CborValue)) : Prop :=
  exists e it', m = Done (e, it') /\ (e = CborNoError -> parsed it' /\ (p <= ptr it')%nat).

Lemma steps_weaken p q m : (q <= p)%nat -> steps_to p m -> steps_to q m.
Proof.
  intros Hq (e & it & H & Hp). exists e, it. split; [done|]. intros He.
  destruct (Hp He). split; [done|lia].
Qed.

Lemma preparse_next_nodecrement_ok it :
  (ptr it <= END)%nat -> 1 <= remaining it <= UINT32_MAX ->
  steps_to (ptr it) (preparse_next_value_nodecrement buf it).
Proof.
  intros Hp Hr. unfold preparse_next_value_nodecrement, steps_to.
  assert (Hv : steps_to (ptr it) (preparse_value buf it)).
  { destruct (preparse_value_ok it Hp Hr) as (e & it' & -> & Hp' & _ & H). exists e, it'.
    split; [done|]. intros He. split; [right; auto|lia]. }
  destruct ((_ =? UINT32_MAX) && _) eqn:E; [|done]. zbool. unfold end_ in *.
  apply Nat.eqb_neq in H0. destruct (lookup_lt_is_Some_2 buf (ptr it)) as [d Hd]; [lia|].
  rewrite (rd_lookup _ _ Hd). cbn [res_bind]. destruct (d =? BreakByte); [|done].
  eexists _, _. split; [done|]. intros _. cbn. split; [left; repeat split; cbn; lia|lia].
Qed.

Lemma preparse_next_ok it :
  (ptr it <= END)%nat -> 1 <= remaining it <= UINT32_MAX ->
  steps_to (ptr it) (preparse_next_value buf it).
Proof.
  intros Hp Hr. unfold preparse_next_value. unfold UINT32_MAX in *.
  destruct (_ && _) eqn:E; [|by apply preparse_next_nodecrement_ok].
  rewrite u32_small by (unfold is_u32; lia). cbn [set_field remaining].
  destruct (_ =? 0) eqn:E0; zbool.
  - eexists _, _. split; [done|]. intros _. split; [left; repeat split; cbn; lia|done].
  - eapply steps_weaken, preparse_next_nodecrement_ok; cbn; unfold UINT32_MAX; lia.
Qed.

Lemma assertion_true b : b = true -> assertion b = Done tt.
Proof. by intros ->. Qed.

Lemma shape_fixed it d : shape it d -> is_fixed_type (type it) = true ->
  Z.land d SmallValueMask <= Value64Bit /\ (ptr it + 1 + need (Z.land d SmallValueMask) <= END)%nat.
Proof. intros [] Hf; [congruence|done]. Qed.

Lemma fixed_not_string t : is_fixed_type t = true ->
  (t =? CborByteStringType) || (t =? CborTextStringType) = false.
Proof.
  unfold is_fixed_type. rewrite !andb_true_iff, !negb_true_iff. intros [[[-> ->] _] _]. done.
Qed.

Lemma advance_internal_ok it : valid it -> is_fixed_type (type it) = true ->
  steps_to (S (ptr it)) (advance_internal buf it).
Proof.
  intros V Hf. destruct (v_shape _ V) as (d & Hd & Hs). destruct (shape_fixed _ _ Hs Hf) as [Hi Hn].
  unfold advance_internal. destruct (extract_number_ok _ _ Hd Hi Hn) as (v & -> & _).
  cbn [res_bind]. rewrite assertion_true by done. cbn [res_bind set_field type].
  rewrite fixed_not_string by done. cbn [res_bind].
  pose proof (v_remaining _ V). eapply steps_weaken, preparse_next_ok; cbn; lia.
Qed.

Lemma container_not_fixed it : cbor_value_is_container it = true -> is_fixed_type (type it) = false.
Proof.
  unfold cbor_value_is_container, is_fixed_type. intros [->| ->]%orb_true_iff;
    rewrite ?andb_false_r; done.
Qed.

Lemma enter_container_ok it : valid it -> cbor_value_is_container it = true ->
  steps_to (S (ptr it)) (cbor_value_enter_container buf it).
Proof.
  intros V Hc. pose proof (container_not_fixed _ Hc) as Hnf. pose proof (valid_lt _ V) as Hlt.
  unfold cbor_value_enter_container. rewrite assertion_true by done. cbn [res_bind].
  destruct (v_shape _ V) as (d & Hd & [Hu _ _ _ _ _ | Hu Hi Hn _ _]); rewrite Hu.
  { eapply steps_weaken, preparse_next_nodecrement_ok; cbn; unfold UINT32_MAX; lia. }
  destruct (extract_number_ok _ _ Hd Hi Hn) as (v & -> & Hv). cbn [res_bind].
  rewrite assertion_true by done. cbn [res_bind set_field remaining ptr type].
  destruct (negb _ || _) eqn:E1; [by eexists _, _|].
  destruct (_ && _) eqn:E2; [by eexists _, _|]. zbool.
  unfold UINT32_MAX in *. pose proof (u32_range v) as Hr. unfold is_u32 in Hr.
  destruct (v =? 0) eqn:E0; zbool.
  { eexists _, _. split; [done|]. intros _. subst v. split; [left|]; cbn; [|lia].
    repeat split; cbn; [|lia]. by destruct (type it =? CborMapType). }
  eapply steps_weaken, preparse_next_nodecrement_ok; cbn; [lia|lia|].
  destruct (type it =? CborMapType) eqn:Em; unfold UINT32_MAX; [|lia].
  apply andb_false_iff in E2 as [?|E2]; [congruence|]. rewrite Z.gtb_ltb, Z.ltb_ge in E2.
  change (4294967295 / 2) with 2147483647 in E2. rewrite u32_small by (unfold is_u32; lia). lia.
Qed.

Lemma leave_container_ok it r : valid it -> cbor_value_is_container it = true -> at_end r ->
  steps_to (ptr r) (cbor_value_leave_container buf it r).
Proof.
  intros V Hc (_ & Ht & Hp). unfold cbor_value_leave_container.
  rewrite assertion_true by done. cbn [res_bind]. rewrite Ht. cbn [res_bind assertion Z.eqb].
  pose proof (v_remaining _ V). eapply steps_weaken, preparse_next_ok; cbn; try done; lia.
Qed.

(** ** String chunks *)

(** An iterator in a string. *)
Record in_string (it : CborValue) : Prop := {
  s_ptr : (ptr it <= END)%nat;
  s_remaining : 1 <= remaining it <= UINT32_MAX;
  s_first : has_flag IteratingStringChunks it = false -> (ptr it < END)%nat;
}.

Definition not_iterating (it : CborValue) : bool := negb (has_flag IteratingStringChunks it).

Lemma get_string_chunk_ok it : in_string it ->
  exists e it' c, get_string_chunk buf it = Done (e, it', c) /\
    (e = CborNoError ->
     match c with
     | None => parsed it' /\ (ptr it <= ptr it')%nat /\
               (not_iterating it = true -> (ptr it < ptr it')%nat)
     | Some c => in_string it' /\ (ptr it < ptr it')%nat
     end).
Proof.
  intros [Hp Hr Hf]. unfold get_string_chunk, not_iterating.
  set (itr := has_flag IteratingStringChunks it). set (kn := cbor_value_is_length_known it).
  destruct (itr && kn) eqn:Eik.
  { destruct (preparse_next_ok it Hp Hr) as (e & it' & -> & H). cbn [res_bind].
    exists e, it', None. split; [done|]. intros He. destruct (H He). apply andb_true_iff in Eik as [-> _].
    done. }
  set (it0 := if negb itr && negb kn then _ else it). unfold end_.
  assert (H0 : (ptr it <= ptr it0)%nat /\ (ptr it0 <= S (ptr it))%nat /\ remaining it0 = remaining it /\
    (negb itr = true -> negb kn = true -> (ptr it < ptr it0)%nat)).
  { unfold it0. destruct (negb itr), (negb kn); cbn; repeat split; try lia; done. }
  destruct H0 as (Hp1 & Hp2 & Hr0 & Hs0).
  assert (Hp0 : (ptr it0 <= END)%nat).
  { unfold it0. fold itr in Hf. destruct itr; cbn; [lia|]. specialize (Hf eq_refl).
    destruct (negb kn); cbn; lia. }
  clearbody it0.
  destruct (ptr it0 =? END)%nat eqn:Ee; [by eexists _, _, _|]. apply Nat.eqb_neq in Ee.
  destruct (lookup_lt_is_Some_2 buf (ptr it0)) as [d Hd]; [lia|].
  rewrite (rd_lookup _ _ Hd). cbn [res_bind]. destruct (d =? BreakByte).
  { destruct (preparse_next_ok (it0 <| ptr := S (ptr it0) |>)) as (e & it' & -> & H);
      cbn; [lia|by rewrite Hr0|]. exists e, it', None. split; [done|].
    intros He. destruct (H He) as [? Hp']. cbn in Hp'. repeat split; try done; lia. }
  destruct (_ =? type it0); [|by eexists _, _, _]. unfold extract_length.
  destruct (extract_number_any (ptr it0)) as (e & p' & v & -> & Hp' & Hv); [lia|]. cbn [res_bind].
  destruct e; try (by eexists _, _, _).
  destruct (negb (v =? u32 v)); cbn [res_bind]; [by eexists _, _, _|].
  destruct (Z.of_nat (END - p') <? u32 v) eqn:El; cbn [res_bind]; [by eexists _, _, _|]. zbool.
  pose proof (u32_range v) as Hu. unfold is_u32 in Hu.
  rewrite mem_read_fits by lia. cbn [res_bind]. eexists _, _, _. split; [done|]. intros _. cbn.
  split; [|lia]. split; cbn; [lia|by rewrite Hr0|]. unfold has_flag, IteratingStringChunks. cbn.
  intros Hb. apply negb_false_iff, Z.eqb_eq in Hb. exfalso.
  assert (Z.testbit (Z.land (Z.lor (flags it0) 2) 2) 1 = true) as Ht.
  { rewrite Z.land_spec, Z.lor_spec. change (Z.testbit 2 1) with true. by rewrite orb_true_r. }
  by rewrite Hb in Ht.
Qed.

Lemma iterate_chunks_ok fuel : forall it buflen total fits copied,
  in_string it -> (END - ptr it < fuel)%nat ->
  exists e it' t f c, iterate_chunks buf fuel it buflen total fits copied = Done (e, it', t, f, c) /\
    (e = CborNoError -> parsed it' /\ (ptr it <= ptr it')%nat /\
     (not_iterating it = true -> (ptr it < ptr it')%nat)).
Proof.
  induction fuel as [|fuel IH]; intros it buflen total fits copied S Hf; [lia|].
  cbn [iterate_chunks]. destruct (get_string_chunk_ok it S) as (e & it1 & c & -> & H).
  cbn [res_bind]. destruct e; try (by eexists _, _, _, _, _).
  specialize (H eq_refl). destruct c as [c|]; [|by eexists _, _, _, _, _].
  destruct H as [S1 Hlt]. destruct (_ >? SIZE_MAX); [by eexists _, _, _, _, _|].
  pose proof (s_ptr _ S1). destruct (fits && _).
  - destruct (IH it1 buflen (total + Z.of_nat (length c)) true (copied ++ c) S1) as (e & it' & t & f & c' & -> & H');
      [lia|]. eexists _, _, _, _, _. split; [done|]. intros He. destruct (H' He) as (? & ? & _).
    repeat split; [done|lia|lia].
  - destruct (IH it1 buflen (total + Z.of_nat (length c)) false copied S1) as (e & it' & t & f & c' & -> & H');
      [lia|]. eexists _, _, _, _, _. split; [done|]. intros He. destruct (H' He) as (? & ? & _).
    repeat split; [done|lia|lia].
Qed.

Lemma valid_in_string it : valid it -> is_fixed_type (type it) = false ->
  in_string it /\ not_iterating it = true.
Proof.
  intros V Hf. pose proof (valid_lt _ V). pose proof (v_remaining _ V).
  assert (Hi : has_flag IteratingStringChunks it = false).
  { destruct (v_shape _ V) as (d & _ & [|_ _ _ H1 _]); [done|by apply H1]. }
  unfold not_iterating. rewrite Hi. split; [|done]. split; [lia|lia|]. intros _. lia.
Qed.

Lemma copy_string_ok it buflen : valid it -> is_fixed_type (type it) = false ->
  cbor_value_is_container it = false ->
  exists e it' n c, _cbor_value_copy_string buf it buflen = Done (e, it', n, c) /\
    (e = CborNoError -> parsed it' /\ (ptr it < ptr it')%nat).
Proof.
  intros V Hf Hc. destruct (valid_in_string it V Hf) as [S Hi].
  unfold _cbor_value_copy_string. rewrite assertion_true.
  2:{ unfold cbor_value_is_byte_string, cbor_value_is_text_string, cbor_value_is_container, is_fixed_type in *.
      destruct (type it =? CborTextStringType); [apply orb_true_r|].
      destruct (type it =? CborByteStringType); [done|].
      destruct (type it =? CborArrayType); [done|]. by destruct (type it =? CborMapType). }
  cbn [res_bind].
  destruct (iterate_chunks_ok (end_ buf + 2) it buflen 0 true [] S)
    as (e & it' & t & f & c & -> & H); [unfold end_; lia|].
  cbn [res_bind]. destruct e; try (by eexists _, _, _, _).
  destruct (H eq_refl) as (? & ? & Hlt). eexists _, _, _, _. split; [done|]. intros _. auto.
Qed.

(** ** Skipping *)

Lemma advance_items_ok adv fuel : forall r,
  (forall x, valid x -> steps_to (S (ptr x)) (adv x)) ->
  parsed r -> (END - ptr r < fuel)%nat ->
  exists e r', advance_items adv fuel r = Done (e, r') /\
    (e = CborNoError -> at_end r' /\ (ptr r <= ptr r')%nat).
Proof.
  induction fuel as [|fuel IH]; intros r Hadv Hr Hf; [lia|]. cbn [advance_items].
  unfold cbor_value_at_end. destruct Hr as [(H0 & Ht & Hp)|V].
  { rewrite H0. cbn. eexists _, _. split; [done|]. by repeat split. }
  pose proof (v_remaining _ V) as Hrem. destruct (_ =? 0) eqn:E0; zbool; [lia|].
  destruct (Hadv r V) as (e & r1 & -> & H1). cbn [res_bind]. destruct e; try (by eexists _, _).
  destruct (H1 eq_refl) as [P1 Hlt]. pose proof (valid_lt _ V).
  destruct (IH r1 Hadv P1) as (e & r' & -> & H'); [lia|].
  eexists _, _. split; [done|]. intros He. destruct (H' He). split; [done|lia].
Qed.

Lemma advance_recursive_ok n : forall it, valid it ->
  steps_to (S (ptr it)) (advance_recursive buf n it).
Proof.
  induction n as [|n IH]; intros it V; cbn [advance_recursive];
    (destruct (is_fixed_type (type it)) eqn:Ef; [by apply advance_internal_ok|]);
    (destruct (cbor_value_is_container it) eqn:Ec; cbn [negb];
     [|destruct (copy_string_ok it SIZE_MAX V Ef Ec) as (e & it' & t & c & -> & H); cbn [res_bind];
       by exists e, it']).
  { by eexists _, _. }
  destruct (enter_container_ok it V Ec) as (e & r & -> & H). cbn [res_bind].
  destruct e; try (by eexists _, _). destruct (H eq_refl) as [P Hp].
  destruct (advance_items_ok (advance_recursive buf n) (S (end_ buf)) r IH P) as (e & r' & -> & H');
    [unfold end_; lia|].
  cbn [res_bind]. destruct e; try (by eexists _, _). destruct (H' eq_refl) as [A Hp'].
  eapply steps_weaken, leave_container_ok; try done. lia.
Qed.

Lemma extract_int64_ok it : valid it ->
  exists v, _cbor_value_extract_int64_helper buf it = Done v /\ 0 <= v < 2 ^ 64.
Proof.
  intros V. unfold _cbor_value_extract_int64_helper, _cbor_value_decode_int64_internal.
  pose proof (v_extra _ V). destruct (v_shape _ V) as (d & Hd & [_ _ _ _ _ Hl | _ Hi Hn _ Hl]).
  { rewrite Hl. eexists. split; [done|]. lia. }
  destruct (has_flag IntegerValueTooLarge it) eqn:E; [|eexists; split; [done|]; lia].
  rewrite (rd_lookup _ _ Hd). cbn [res_bind orb]. rewrite assertion_true by done. cbn [res_bind].
  pose proof (land31 d).
  destruct (need_bound (Z.land d SmallValueMask)) as (Hle & _ & _ & H32 & H64); [lia|].
  rewrite assertion_true by (destruct (Hl eq_refl) as [-> | ->]; done). cbn [res_bind].
  destruct (Hl eq_refl) as [E1|E1].
  - rewrite (H32 E1) in Hn. destruct (get_be_ok (S (ptr it)) 4) as (v & -> & Hv); [lia|].
    destruct (_ =? 0) eqn:Eb; [exists v; split; [done|lia]|]. exfalso. zbool. apply Eb.
    change 1 with (Z.land SmallValueMask 1). rewrite Z.land_assoc, E1. done.
  - rewrite (H64 E1) in Hn. destruct (_ =? 0) eqn:Eb.
    + exfalso. zbool. change 1 with (Z.land SmallValueMask 1) in Eb. rewrite Z.land_assoc, E1 in Eb. done.
    + destruct (get_be_ok (S (ptr it)) 8) as (v & -> & Hv); [lia|]. exists v. split; [done|lia].
Qed.

End Safety.

Lemma value_advance_ok buf it :
  bytes buf -> valid buf it ->
  exists e it', cbor_value_advance buf it = Done (e, it') /\
    (e = CborNoError -> parsed buf it' /\ (ptr it < ptr it')%nat).
Proof.
  intros Hb V. unfold cbor_value_advance. rewrite assertion_true.
  2:{ apply negb_true_iff, Z.eqb_neq, (v_type _ _ V). }
  cbn [res_bind]. pose proof (v_remaining _ _ V). destruct (_ =? 0) eqn:E; zbool; [lia|].
  apply (advance_recursive_ok buf Hb CBOR_PARSER_MAX_RECURSIONS it V).
Qed.

(** C27: on any input bytes the parser starts, and skipping an element from a
    valid iterator returns: no read leaves the buffer, no assertion fails and
    the nested loops end.  Without an error the iterator has moved on and is
    valid again or at the end of its container. *)
Theorem cbor_value_advance_safe buf it :
  bytes buf -> valid buf it ->
  exists e it', cbor_value_advance buf it = Done (e, it') /\
    (e = CborNoError -> parsed buf it' /\ (ptr it < ptr it')%nat).
Proof. apply value_advance_ok. Qed.

(** Opening any byte buffer gives a valid iterator or an error. *)
Theorem cbor_parser_init_safe buf :
  bytes buf ->
  exists e it, cbor_parser_init buf = Done (e, it) /\ (e = CborNoError -> valid buf it).
Proof.
  intros Hb. unfold cbor_parser_init.
  destruct (preparse_value_ok buf Hb (mkCv 0 1 0 CborInvalidType 0)) as (e & it & -> & _ & _ & H);
    cbn; [lia|unfold UINT32_MAX; lia|]. by exists e, it.
Qed.

Lemma cbor_parser_init_safe_witness :
  exists e it, cbor_parser_init [0xa1; 0x01; 0x9f; 0xff] = Done (e, it) /\
    (e = CborNoError -> valid [0xa1; 0x01; 0x9f; 0xff] it).
Proof.
  apply (cbor_parser_init_safe [0xa1; 0x01; 0x9f; 0xff]).
  repeat (constructor; [done|]). constructor.
Defined.

Lemma cbor_value_advance_safe_witness :
  exists it e it', cbor_parser_init [0xa1; 0x01; 0x9f; 0xff] = Done (CborNoError, it) /\
    cbor_value_advance [0xa1; 0x01; 0x9f; 0xff] it = Done (e, it') /\
    (e = CborNoError -> parsed [0xa1; 0x01; 0x9f; 0xff] it' /\ (ptr it < ptr it')%nat).
Proof.
  exists (mkCv 0 1 1 CborMapType 0).
  destruct (cbor_value_advance_safe [0xa1; 0x01; 0x9f; 0xff] (mkCv 0 1 1 CborMapType 0))
    as (e & it' & H).
  - repeat (constructor; [done|]). constructor.
  - split; cbn; [unfold UINT32_MAX; lia|done|lia|]. exists 0xa1. split; [done|].
    apply shape_known; vm_compute; try done; auto with arith.
  - exists e, it'. split; [reflexivity|exact H].
Defined.

End CborProps.
