(* ===== verification/CborEncoder.v ===== *)
(** * Writing CBOR (src/tinycbor/src/cborencoder.c)

    The encoder writes into a caller's buffer; when it does not fit it only
    counts the bytes that are missing.  [enc_data] stands for the union of the
    write offset ([enc_end = Some _]) and of the missing bytes ([enc_end = None]);
    the buffer is threaded beside the encoder because a container encoder
    shares it with its parent. *)

From S2P Require Import Prelude CborParser.
Import CborParser.

Module CborEncoder.

Record CborEncoder := mkEnc {
  enc_data : nat;
  enc_end : option nat;
  enc_remaining : Z;
  enc_flags : Z;
}.
#[export] Instance eta_CborEncoder : Eta CborEncoder :=
  fun e => mkEnc (enc_data e) (enc_end e) (enc_remaining e) (enc_flags e).

Definition ContainerIsMap : Z := 0x20.
Definition ByteStringType : Z := 2.
Definition TextStringType : Z := 3.
Definition ArrayType : Z := 4.
Definition MapType : Z := 5.

(** The result of an encoding function. *)
Definition encres : Type := CborError * CborEncoder * list Z.

Definition cbor_encoder_init (size : nat) : CborEncoder := mkEnc 0 (Some size) 2 0.

Definition append_to_buffer (l : list Z) (e : CborEncoder) (out : list Z) : res encres :=
  let len := length l in
  match enc_end e with
  | Some en =>
      if (Z.of_nat en - Z.of_nat (enc_data e) - Z.of_nat len <? 0) then
        Done (CborErrorOutOfMemory,
              e <| enc_end := None |> <| enc_data := (len - (en - enc_data e))%nat |>, out)
      else
        let! out := mem_write out (enc_data e) l in
        Done (CborNoError, e <| enc_data := (enc_data e + len)%nat |>, out)
  | None =>
      if (0 - Z.of_nat (enc_data e) - Z.of_nat len <? 0)
      then Done (CborErrorOutOfMemory, e <| enc_data := (enc_data e + len)%nat |>, out)
      else Done (CborNoError, e, out)
  end.

(** The [n] low bytes of a number, big-endian. *)
Fixpoint be_bytes (n : nat) (v : Z) : list Z :=
  match n with
  | O => []
  | S n => be_bytes n (v / 256) ++ [v mod 256]
  end.

(** What [encode_number_no_update] appends. *)
Definition number_bytes (ui mt : Z) : list Z :=
  if ui <? Value8Bit then [u8 (mt + ui)]
  else
    let more := b2z (ui >? 0xff) + b2z (ui >? 0xffff) + b2z (ui >? 0xffffffff) in
    u8 (mt + Value8Bit + more) :: be_bytes (Z.to_nat (Z.shiftl 1 more)) ui.

Definition encode_number_no_update (ui mt : Z) (e : CborEncoder) (out : list Z) : res encres :=
  append_to_buffer (number_bytes ui mt) e out.

Definition saturated_decrement (e : CborEncoder) : CborEncoder :=
  if negb (enc_remaining e =? 0) then e <| enc_remaining := enc_remaining e - 1 |> else e.

Definition encode_number (ui mt : Z) (e : CborEncoder) (out : list Z) : res encres :=
  encode_number_no_update ui mt (saturated_decrement e) out.

Definition cbor_encode_uint (v : Z) : CborEncoder -> list Z -> res encres := encode_number v 0.

Definition cbor_encode_negative_int (abs : Z) : CborEncoder -> list Z -> res encres :=
  encode_number (u64 (abs - 1)) (Z.shiftl NegativeIntegerType MajorTypeShift).

(** [ui = value >> 63] extends the sign; [^] complements a negative value. *)
Definition cbor_encode_int (value : Z) : CborEncoder -> list Z -> res encres :=
  let ui := u64 (Z.shiftr value 63) in
  let majorType := Z.land ui 0x20 in
  encode_number (Z.lxor ui (u64 value)) majorType.

Definition cbor_encode_simple_value (v : Z) (e : CborEncoder) (out : list Z) : res encres :=
  if (v >=? 25) && (v <=? 31) then Done (CborErrorIllegalSimpleType, e, out)
  else encode_number v (Z.shiftl SimpleTypesType MajorTypeShift) e out.

Definition cbor_encode_boolean (b : bool) : CborEncoder -> list Z -> res encres :=
  cbor_encode_simple_value (u8 (b2z b - 1 + Z.land CborBooleanType 0x1f)).

(** An out-of-memory error of the length is ignored: the string append
    reports it again. *)
Definition encode_string (s : list Z) (mt : Z) (e : CborEncoder) (out : list Z) : res encres :=
  let! (_, e, out) := encode_number (Z.of_nat (length s)) mt e out in
  append_to_buffer s e out.

Definition cbor_encode_byte_string (s : list Z) : CborEncoder -> list Z -> res encres :=
  encode_string s (Z.shiftl ByteStringType MajorTypeShift).
Definition cbor_encode_text_string (s : list Z) : CborEncoder -> list Z -> res encres :=
  encode_string s (Z.shiftl TextStringType MajorTypeShift).

(** Returns the parent, and the container in place of the encoder; the
    lengths used are all definite. *)
Definition create_container (length mt : Z) (e : CborEncoder) (out : list Z)
    : res (CborEncoder * encres) :=
  let isMap := Z.land mt ContainerIsMap in
  let container := mkEnc (enc_data e) (enc_end e)
    (length + 1 + (if negb (isMap =? 0) then length else 0)) isMap in
  let! r := encode_number_no_update length mt container out in
  Done (saturated_decrement e, r).

Definition cbor_encoder_create_array (length : Z) := create_container length (Z.shiftl ArrayType MajorTypeShift).
Definition cbor_encoder_create_map (length : Z) := create_container length (Z.shiftl MapType MajorTypeShift).

Definition cbor_encoder_close_container (e container : CborEncoder) (out : list Z) : encres :=
  let e := e <| enc_data := enc_data container |> <| enc_end := enc_end container |> in
  if negb (enc_remaining container =? 1) then
    (if enc_remaining container =? 0 then CborErrorTooManyItems else CborErrorTooFewItems, e, out)
  else match enc_end e with
       | None => (CborErrorOutOfMemory, e, out)
       | Some _ => (CborNoError, e, out)
       end.

Definition cbor_encoder_get_buffer_size (e : CborEncoder) : nat := enc_data e.

(** [err = ...; cbor_check_retr(err);]: stop at the first error. *)
Notation "'let?' ( e , o ) := m 'in' k" :=
  (res_bind m (fun r : encres => let '(err, e, o) := r in
     match err with
     | CborNoError => k
     | _ => Done r
     end))
  (at level 10, e name, o name, m at level 200, k at level 200).

(** ** Appending within the buffer *)

(** [out] with [l] written at [p]. *)
Definition overwrite (out : list Z) (p : nat) (l : list Z) : list Z :=
  take p out ++ l ++ drop (p + length l) out.

Lemma append_fits l e out :
  enc_end e = Some (length out) -> (enc_data e + length l <= length out)%nat ->
  append_to_buffer l e out
  = Done (CborNoError, e <| enc_data := (enc_data e + length l)%nat |>, overwrite out (enc_data e) l).
Proof.
  intros He Hl. unfold append_to_buffer. rewrite He.
  destruct (_ <? 0) eqn:E; zbool; [lia|]. by rewrite mem_write_fits.
Qed.

Lemma overwrite_len out p l : (p + length l <= length out)%nat -> length (overwrite out p l) = length out.
Proof. apply overwrite_length. Qed.

Lemma overwrite_app out p a b : (p + length a + length b <= length out)%nat ->
  overwrite (overwrite out p a) (p + length a) b = overwrite out p (a ++ b).
Proof.
  intros H. unfold overwrite at 1 3. rewrite (app_assoc (take p out)).
  unfold overwrite. rewrite (app_assoc (take p out)).
  assert (Hp : length (take p out ++ a) = (p + length a)%nat).
  { rewrite length_app, length_take. lia. }
  rewrite take_app_length' by lia. rewrite drop_app_ge by lia. rewrite Hp, drop_drop.
  rewrite <- !app_assoc. do 4 f_equal. rewrite length_app. lia.
Qed.

Lemma be_bytes_length n v : length (be_bytes n v) = n.
Proof. revert v. induction n as [|n IH]; intros v; [done|]. cbn. rewrite length_app, IH. cbn. lia. Qed.

Lemma be_value_snoc l b : be_value (l ++ [b]) = 256 * be_value l + b.
Proof.
  induction l as [|x l IH]; [cbn; lia|]. cbn [be_value app].
  rewrite IH, length_app. cbn [length]. rewrite Nat2Z.inj_add, Z.pow_add_r by lia.
  change (256 ^ Z.of_nat 1) with 256. lia.
Qed.

Lemma be_bytes_value n : forall v, 0 <= v < 256 ^ Z.of_nat n -> be_value (be_bytes n v) = v.
Proof.
  induction n as [|n IH]; intros v Hv; [cbn in *; lia|]. cbn [be_bytes].
  rewrite Nat2Z.inj_succ, Z.pow_succ_r in Hv by lia. rewrite be_value_snoc, IH.
  - pose proof (Z.div_mod v 256). lia.
  - split; [apply Z.div_pos; lia|]. apply Z.div_lt_upper_bound; lia.
Qed.

Lemma be_bytes_bytes n : forall v, bytes (be_bytes n v).
Proof.
  induction n as [|n IH]; intros v; [constructor|]. cbn [be_bytes]. apply Forall_app_2; [done|].
  constructor; [|constructor]. apply Z.mod_pos_bound. lia.
Qed.

Lemma number_bytes_bytes ui mt : bytes (number_bytes ui mt).
Proof.
  unfold number_bytes. destruct (ui <? _); constructor; try apply u8_byte; [constructor|].
  apply be_bytes_bytes.
Qed.

End CborEncoder.
