(* ===== verification/CborItems.v ===== *)
(** * Reading back what was written: the encoder against the parser

    One data item at a time: the bytes an encoding function appends, found at
    the iterator's pointer, are recognised with their type and value, and
    skipping the item leads exactly behind them. *)

From S2P Require Import Prelude CborParser CborProps CborEncoder.
Import CborParser CborProps CborEncoder.

Module CborItems.

Inductive item :=
| IUint (v : Z)
| INint (v : Z)
| IBytes (l : list Z)
| IText (l : list Z)
| IMap (n : Z)
| IArray (n : Z).

(** Major type (shifted) and number of an item; the string behind it. *)
Definition item_mt (c : item) : Z :=
  match c with
  | IUint _ => 0 | INint _ => 0x20 | IBytes _ => 0x40 | IText _ => 0x60
  | IArray _ => 0x80 | IMap _ => 0xa0
  end.
Definition item_num (c : item) : Z :=
  match c with
  | IUint v | INint v | IMap v | IArray v => v
  | IBytes l | IText l => Z.of_nat (length l)
  end.
Definition item_str (c : item) : list Z :=
  match c with
  | IBytes l | IText l => l
  | _ => []
  end.
Definition item_bytes (c : item) : list Z := number_bytes (item_num c) (item_mt c) ++ item_str c.

Definition item_ok (c : item) : Prop :=
  match c with
  | IUint v | INint v | IMap v | IArray v => 0 <= v < 2 ^ 64
  | IBytes l | IText l => Z.of_nat (length l) < 2 ^ 32
  end.

(** The iterator at an item. *)
Definition item_type (c : item) : Z :=
  match c with
  | INint _ => CborIntegerType
  | _ => item_mt c
  end.
Definition item_it (p : nat) (rem : Z) (c : item) : CborValue :=
  let v := item_num c in
  mkCv p rem
    (if v <? 2 ^ 16 then v else if v <? 2 ^ 32 then Value32Bit else Value64Bit)
    (item_type c)
    (Z.lor (match c with INint _ => NegativeInteger | _ => 0 end)
           (if v <? 2 ^ 16 then 0 else IntegerValueTooLarge)).

(** ** The bytes of a number *)

(** Additional information of the descriptor, and the width behind it. *)
Definition num_info (v : Z) : Z :=
  if v <? 24 then v else if v <? 2 ^ 8 then 24 else if v <? 2 ^ 16 then 25
  else if v <? 2 ^ 32 then 26 else 27.
Definition num_width (v : Z) : nat :=
  if v <? 24 then 0%nat else if v <? 2 ^ 8 then 1%nat else if v <? 2 ^ 16 then 2%nat
  else if v <? 2 ^ 32 then 4%nat else 8%nat.

Lemma number_bytes_eq v mt : 0 <= v < 2 ^ 64 -> 0 <= mt <= 0xe0 ->
  number_bytes v mt = (mt + num_info v) :: be_bytes (num_width v) v.
Proof.
  intros Hv Hm. unfold number_bytes, num_info, num_width, Value8Bit.
  destruct (v <? 24) eqn:E; zbool.
  { rewrite u8_small by (unfold is_byte; lia). done. }
  destruct (v <? 2 ^ 8) eqn:E8, (v <? 2 ^ 16) eqn:E16, (v <? 2 ^ 32) eqn:E32; zbool; try lia;
  destruct (v >? 0xff) eqn:F8, (v >? 0xffff) eqn:F16, (v >? 0xffffffff) eqn:F32; zbool; try lia;
    cbn [b2z]; rewrite u8_small by (unfold is_byte; lia); f_equal; lia.
Qed.

Lemma num_info_range v : 0 <= v -> 0 <= num_info v <= 27.
Proof. unfold num_info. intros. repeat (destruct (_ <? _) eqn:?; zbool; [lia|]). lia. Qed.

Lemma num_need v : 0 <= v -> need (num_info v) = num_width v.
Proof.
  intros Hv. unfold num_info, num_width. destruct (v <? 24) eqn:E.
  { unfold need, Value8Bit. by rewrite E. }
  repeat (destruct (v <? _); [done|]). done.
Qed.

Lemma num_width_fits v : 0 <= v < 2 ^ 64 -> 24 <= v -> v < 256 ^ Z.of_nat (num_width v).
Proof.
  intros Hv H24. unfold num_width.
  repeat (destruct (_ <? _) eqn:?; zbool; [cbn; lia|]). cbn. lia.
Qed.

Lemma descriptor_parts m i : 0 <= m <= 7 -> 0 <= i <= 31 ->
  Z.land (32 * m + i) SmallValueMask = i /\ Z.land (32 * m + i) MajorTypeMask = 32 * m.
Proof.
  intros Hm Hi. destruct (descriptor_split (32 * m + i)) as (E & m' & Hm' & Em & _).
  { unfold is_byte. lia. }
  pose proof (land31 (32 * m + i)). lia.
Qed.

Lemma item_mt_cases c : exists m, 0 <= m <= 5 /\ item_mt c = 32 * m.
Proof. destruct c; [exists 0|exists 1|exists 2|exists 3|exists 5|exists 4]; done. Qed.

Lemma item_num_range c : item_ok c -> 0 <= item_num c < 2 ^ 64.
Proof. destruct c; cbn; lia. Qed.

(** ** An item in the buffer *)

Section At.
Context (pre post : list Z) (c : item) (Hc : item_ok c).
Abbreviation buf := (pre ++ item_bytes c ++ post).
Abbreviation p := (length pre).
Abbreviation d := (item_mt c + num_info (item_num c)).

Lemma item_bytes_eq :
  item_bytes c = d :: be_bytes (num_width (item_num c)) (item_num c) ++ item_str c.
Proof.
  unfold item_bytes. rewrite number_bytes_eq; [done|by apply item_num_range|].
  destruct (item_mt_cases c) as (m & ? & ->). lia.
Qed.

Lemma item_bytes_length :
  length (item_bytes c) = (1 + num_width (item_num c) + length (item_str c))%nat.
Proof. rewrite item_bytes_eq. cbn. rewrite length_app, be_bytes_length. lia. Qed.

Lemma item_desc : buf !! p = Some d.
Proof. rewrite item_bytes_eq, lookup_app_r by lia. by rewrite Nat.sub_diag. Qed.

Lemma item_desc_parts :
  Z.land d SmallValueMask = num_info (item_num c) /\ Z.land d MajorTypeMask = item_mt c.
Proof.
  destruct (item_mt_cases c) as (m & Hm & Em). rewrite Em. apply descriptor_parts; [lia|].
  pose proof (num_info_range (item_num c)). pose proof (item_num_range c Hc). lia.
Qed.

Lemma item_get_be n : n = num_width (item_num c) -> 24 <= item_num c ->
  get_be buf (S p) n = Done (item_num c).
Proof.
  intros -> H24. unfold get_be. rewrite mem_read_fits.
  2:{ rewrite !length_app, item_bytes_length. lia. }
  cbn [res_bind]. unfold slice. f_equal. rewrite item_bytes_eq.
  replace (S p) with (length (pre ++ [d])) by (rewrite length_app; cbn; lia).
  replace (pre ++ (d :: be_bytes (num_width (item_num c)) (item_num c) ++ item_str c) ++ post)
    with ((pre ++ [d]) ++ be_bytes (num_width (item_num c)) (item_num c) ++ item_str c ++ post).
  2:{ cbn [app]. by rewrite <- !app_assoc. }
  rewrite drop_app_length, take_app_length' by (by rewrite be_bytes_length).
  pose proof (item_num_range c Hc). apply be_bytes_value. split; [lia|]. by apply num_width_fits.
Qed.

Lemma extract_number_item :
  _cbor_value_extract_number buf p
  = Done (CborNoError, (p + 1 + num_width (item_num c))%nat, item_num c).
Proof.
  unfold _cbor_value_extract_number. rewrite (rd_lookup _ _ _ item_desc). cbn [res_bind].
  rewrite (proj1 item_desc_parts). pose proof (item_num_range c Hc) as Hr.
  unfold Value8Bit, Value64Bit.
  destruct (item_num c <? 24) eqn:E24.
  { unfold num_info, num_width. rewrite E24, E24. do 3 f_equal. lia. }
  zbool. pose proof (num_info_range (item_num c)) as Hi.
  assert (24 <= num_info (item_num c)).
  { unfold num_info. repeat (destruct (_ <? _) eqn:?; zbool; [lia|]). lia. }
  destruct (_ <? 24) eqn:E1; zbool; [lia|]. destruct (_ >? 27) eqn:E2; zbool; [lia|].
  unfold end_. rewrite !length_app, item_bytes_length.
  pose proof (num_need (item_num c) ltac:(lia)) as Hn. unfold need, Value8Bit in Hn.
  rewrite (proj2 (Z.ltb_ge _ _) E1) in Hn. rewrite Hn.
  destruct (_ <? num_width (item_num c))%nat eqn:El; [apply Nat.ltb_lt in El; lia|].
  rewrite (item_get_be _ eq_refl) by lia. cbn [res_bind]. do 3 f_equal. lia.
Qed.

Lemma major_shift : Z.shiftr (item_mt c) MajorTypeShift = item_mt c / 32.
Proof. unfold MajorTypeShift. by rewrite Z.shiftr_div_pow2 by lia. Qed.

(** The parser recognises the item. *)
Lemma preparse_item it : ptr it = p ->
  preparse_value buf it = Done (CborNoError, item_it p (remaining it) c).
Proof.
  intros Hp. unfold preparse_value. cbn [set_field ptr remaining]. rewrite Hp.
  unfold end_.
  assert (Hl : length buf = (p + (1 + num_width (item_num c) + length (item_str c)) + length post)%nat).
  { rewrite !length_app, item_bytes_length. lia. }
  destruct (_ =? _)%nat eqn:Ee; [apply Nat.eqb_eq in Ee; lia|].
  rewrite (rd_lookup _ _ _ item_desc). cbn [res_bind].
  destruct item_desc_parts as [Ei Em]. rewrite Ei, Em.
  pose proof (item_num_range c Hc) as Hr. pose proof (num_info_range (item_num c) ltac:(lia)) as Hi.
  unfold Value64Bit at 1. destruct (_ >? 27) eqn:E2; zbool; [lia|].
  change (if num_info (item_num c) <? Value8Bit then 0%nat else bytes_needed (num_info (item_num c)))
    with (need (num_info (item_num c))). rewrite num_need by lia.
  destruct (_ <? num_width (item_num c) + 1)%nat eqn:El; [apply Nat.ltb_lt in El; lia|].
  rewrite major_shift.
  assert (E7 : (item_mt c / 32 =? SimpleTypesType) = false) by (by destruct c). rewrite E7.
  match goal with |- context [if item_mt c / 32 =? _ then ?a else ?b] =>
    replace (if item_mt c / 32 =? NegativeIntegerType then a else b) with
      (mkCv p (remaining it) (num_info (item_num c)) (item_type c)
         (match c with INint _ => NegativeInteger | _ => 0 end)) by (by destruct c) end.
  cbn [ptr set_field flags]. unfold item_it.
  pose proof (item_get_be (num_width (item_num c)) eq_refl) as Hg.
  unfold num_info, num_width, Value8Bit, Value16Bit in *.
  destruct (item_num c <? 24) eqn:E24; zbool.
  { rewrite (proj2 (Z.ltb_lt _ 24)) by lia. rewrite (proj2 (Z.ltb_lt _ (2 ^ 16))) by lia.
    by rewrite Z.lor_0_r. }
  destruct (item_num c <? 2 ^ 8) eqn:E8; zbool.
  { cbn [Z.ltb Z.eqb Z.compare Pos.compare Pos.compare_cont Pos.eqb].
    rewrite (proj2 (Z.ltb_lt _ (2 ^ 16))) by lia. specialize (Hg ltac:(lia)). unfold get_be in Hg.
    rewrite Z.lor_0_r. unfold mem_read in Hg. destruct (decide _) in Hg; [|done].
    destruct (lookup_lt_is_Some_2 buf (S p)) as [x Hx]; [lia|].
    rewrite (rd_lookup _ _ _ Hx). cbn [res_bind]. do 2 f_equal.
    unfold slice in Hg. rewrite (drop_S _ _ _ Hx) in Hg. cbn in Hg. injection Hg. intros <-.
    f_equal. lia. }
  destruct (item_num c <? 2 ^ 16) eqn:E16; zbool.
  { cbn [Z.ltb Z.eqb Z.compare Pos.compare Pos.compare_cont Pos.eqb].
    rewrite Hg by lia. cbn [res_bind]. by rewrite Z.lor_0_r. }
  destruct (item_num c <? 2 ^ 32) eqn:E32; zbool;
    cbn [Z.ltb Z.eqb Z.compare Pos.compare Pos.compare_cont Pos.eqb]; done.
Qed.

Lemma item_flags r :
  has_flag IntegerValueTooLarge (item_it p r c) = negb (item_num c <? 2 ^ 16) /\
  has_flag NegativeInteger (item_it p r c) = match c with INint _ => true | _ => false end /\
  has_flag UnknownLength (item_it p r c) = false.
Proof. unfold has_flag, item_it. destruct c; cbn; destruct (_ <? _); by repeat split. Qed.

Lemma extract_int64_item r :
  _cbor_value_extract_int64_helper buf (item_it p r c) = Done (item_num c).
Proof.
  unfold _cbor_value_extract_int64_helper. destruct (item_flags r) as (-> & _ & _).
  pose proof (item_num_range c Hc) as Hr.
  destruct (item_num c <? 2 ^ 16) eqn:E16; cbn [negb].
  { unfold item_it. cbn [extra]. by rewrite E16. }
  unfold _cbor_value_decode_int64_internal. cbn [ptr item_it].
  rewrite (rd_lookup _ _ _ item_desc). cbn [res_bind].
  destruct (item_flags r) as (-> & _ & _). rewrite E16. cbn [negb orb assertion res_bind].
  destruct item_desc_parts as [Ei _]. rewrite Ei.
  assert (Hb : Z.land d 1 = Z.land (num_info (item_num c)) 1).
  { transitivity (Z.land (Z.land d SmallValueMask) 1); [by rewrite <- Z.land_assoc|by rewrite Ei]. }
  pose proof (item_get_be (num_width (item_num c)) eq_refl) as Hg. zbool.
  rewrite Hb. unfold num_info, num_width in *.
  rewrite (proj2 (Z.ltb_ge _ 24)) in * by lia. rewrite (proj2 (Z.ltb_ge _ (2 ^ 8))) in * by lia.
  rewrite (proj2 (Z.ltb_ge _ (2 ^ 16))) in * by lia.
  destruct (item_num c <? 2 ^ 32); cbn [Z.eqb Z.land Pos.land orb Z.of_N assertion res_bind];
    apply Hg; lia.
Qed.

(** A leaf: an integer or a string. *)
Definition leaf : bool := match c with IMap _ | IArray _ => false | _ => true end.

Lemma string_chunk_item r : (exists l, c = IBytes l \/ c = IText l) ->
  get_string_chunk buf (item_it p r c) =
  Done (CborNoError, (item_it p r c) <| ptr := (p + length (item_bytes c))%nat |>
         <| flags := Z.lor (flags (item_it p r c)) IteratingStringChunks |>, Some (item_str c)).
Proof.
  intros Hs. unfold get_string_chunk, cbor_value_is_length_known, end_.
  destruct (item_flags r) as (_ & Hn & Hu). unfold IteratingStringChunks in *. fold NegativeInteger.
  rewrite Hn, Hu. assert (Hf : match c with INint _ => true | _ => false end = false)
    by (by destruct Hs as (l & [-> | ->])). rewrite Hf. cbn [negb andb ptr item_it].
  assert (Hl : length buf = (p + (1 + num_width (item_num c) + length (item_str c)) + length post)%nat).
  { rewrite !length_app, item_bytes_length. lia. }
  destruct (_ =? _)%nat eqn:Ee; [apply Nat.eqb_eq in Ee; lia|].
  rewrite (rd_lookup _ _ _ item_desc). cbn [res_bind]. destruct item_desc_parts as [Ei Em].
  pose proof (item_num_range c Hc). pose proof (num_info_range (item_num c) ltac:(lia)).
  assert (Eb : (d =? BreakByte) = false).
  { apply Z.eqb_neq. unfold BreakByte. destruct Hs as (l & [-> | ->]); cbn [item_mt] in *; lia. }
  rewrite Eb, Em. replace (item_mt c =? type (item_it p r c)) with true
    by (by destruct Hs as (l & [-> | ->])).
  unfold extract_length. rewrite extract_number_item. cbn [res_bind].
  assert (Hn32 : item_num c = Z.of_nat (length (item_str c)) /\ item_num c < 2 ^ 32).
  { destruct Hs as (l & [-> | ->]); cbn in *; done. }
  destruct Hn32 as [Hnl H32]. rewrite u32_small by (unfold is_u32; lia). rewrite Z.eqb_refl.
  cbn [negb res_bind]. destruct (_ <? item_num c) eqn:El; zbool; [lia|].
  rewrite mem_read_fits by lia. cbn [res_bind].
  rewrite item_bytes_length, Hnl, Nat2Z.id.
  replace (p + (1 + num_width (Z.of_nat (length (item_str c))) + length (item_str c)))%nat
    with (p + 1 + num_width (item_num c) + length (item_str c))%nat by (rewrite Hnl; lia).
  rewrite <- Hnl. do 2 f_equal. unfold slice. rewrite item_bytes_eq.
  replace (pre ++ (d :: be_bytes (num_width (item_num c)) (item_num c) ++ item_str c) ++ post)
    with ((pre ++ d :: be_bytes (num_width (item_num c)) (item_num c)) ++ item_str c ++ post).
  2:{ rewrite <- !app_assoc. cbn [app]. by rewrite <- !app_assoc. }
  rewrite drop_app_length', take_app_length'; [done|done|].
  rewrite length_app. cbn. rewrite be_bytes_length. lia.
Qed.

Lemma has_iterating v fl : flags v = Z.lor fl IteratingStringChunks ->
  has_flag IteratingStringChunks v = true.
Proof.
  unfold has_flag. intros ->. apply negb_true_iff, Z.eqb_neq. intros Hb.
  assert (Z.testbit (Z.land (Z.lor fl IteratingStringChunks) IteratingStringChunks) 1 = true) as Ht.
  { rewrite Z.land_spec, Z.lor_spec. change (Z.testbit IteratingStringChunks 1) with true.
    by rewrite orb_true_r. }
  by rewrite Hb in Ht.
Qed.

Lemma has_flag_lor_other v w f g : flags v = Z.lor (flags w) f -> Z.land f g = 0 ->
  has_flag g v = has_flag g w.
Proof.
  intros Hv H. unfold has_flag. rewrite Hv, Z.land_lor_distr_l, H. by rewrite Z.lor_0_r.
Qed.

(** What follows the item, as [preparse_next_value] finds it. *)
Definition followed_by (r : Z) (Q : CborValue -> Prop) : Prop :=
  forall f, exists it', preparse_next_value buf
     ((item_it p r c) <| ptr := (p + length (item_bytes c))%nat |> <| flags := f |>)
     = Done (CborNoError, it') /\ Q it'.

(** Copying the string of an item into [n] bytes that hold it. *)
Lemma copy_string_item r n Q :
  (exists l, c = IBytes l \/ c = IText l) -> Z.of_nat (length (item_str c)) <= n <= SIZE_MAX ->
  followed_by r Q ->
  exists it', _cbor_value_copy_string buf (item_it p r c) n =
    Done (CborNoError, it', Z.of_nat (length (item_str c)),
          if n >? Z.of_nat (length (item_str c)) then item_str c ++ [0] else item_str c) /\ Q it'.
Proof.
  intros Hs Hn Hnext. unfold _cbor_value_copy_string. rewrite assertion_true.
  2:{ destruct Hs as (l & [-> | ->]); done. }
  cbn [res_bind]. rewrite Nat.add_comm. cbn [Nat.add iterate_chunks].
  rewrite string_chunk_item by done. cbn [res_bind].
  destruct (_ >? SIZE_MAX) eqn:E1; zbool; [lia|].
  cbn [andb]. destruct (n >=? _) eqn:E2; zbool; [|lia].
  match goal with |- context [get_string_chunk buf ?x] => set (it1 := x) end.
  destruct (Hnext (Z.lor (flags (item_it p r c)) IteratingStringChunks)) as (it' & Hx & HQ).
  assert (Hg : get_string_chunk buf it1 = Done (CborNoError, it', None)).
  { unfold get_string_chunk, cbor_value_is_length_known.
    rewrite (has_iterating it1 (flags (item_it p r c)) eq_refl).
    rewrite (has_flag_lor_other it1 (item_it p r c) IteratingStringChunks UnknownLength eq_refl eq_refl).
    destruct (item_flags r) as (_ & _ & ->). cbn [negb andb]. unfold it1. rewrite Hx. done. }
  rewrite Hg. cbn [res_bind app]. rewrite Z.add_0_l. by exists it'.
Qed.

(** Skipping a leaf leads to whatever follows its bytes. *)
Lemma advance_leaf r Q : leaf = true -> 1 <= r -> followed_by r Q ->
  exists it', cbor_value_advance buf (item_it p r c) = Done (CborNoError, it') /\ Q it'.
Proof.
  intros Hl Hr Hnext. unfold cbor_value_advance, CBOR_PARSER_MAX_RECURSIONS.
  rewrite assertion_true by (by destruct c). cbn [res_bind remaining item_it].
  destruct (r =? 0) eqn:E0; zbool; [lia|]. cbn [advance_recursive].
  assert (Hstr : (exists l, c = IBytes l \/ c = IText l) \/ is_fixed_type (type (item_it p r c)) = true).
  { unfold leaf in Hl. destruct c; try done; try (by right); left; eauto. }
  destruct Hstr as [Hs|Hf].
  - replace (is_fixed_type (type (item_it p r c))) with false by (by destruct Hs as (l & [-> | ->])).
    replace (cbor_value_is_container (item_it p r c)) with false by (by destruct Hs as (l & [-> | ->])).
    cbn [negb]. destruct (copy_string_item r SIZE_MAX Q) as (it' & -> & HQ); try done.
    + assert (item_ok c) as Hok by done. unfold SIZE_MAX.
      destruct Hs as (l & [-> | ->]); cbn in Hok |- *; lia.
    + by exists it'.
  - rewrite Hf. unfold advance_internal. cbn [ptr item_it]. rewrite extract_number_item.
    cbn [res_bind]. rewrite assertion_true by done. cbn [res_bind].
    rewrite fixed_not_string by done. cbn [res_bind].
    destruct (Hnext (flags (item_it p r c))) as (it' & Hx & HQ). exists it'. split; [|done].
    rewrite <- Hx. f_equal. unfold set_field; cbn. f_equal. rewrite item_bytes_length.
    replace (length (item_str c)) with 0%nat; [lia|]. unfold leaf in Hl. by destruct c.
Qed.

Lemma get_uint64_item r v : c = IUint v -> cbor_value_get_uint64 buf (item_it p r c) = Done v.
Proof.
  intros E. unfold cbor_value_get_uint64, cbor_value_is_unsigned_integer.
  destruct (item_flags r) as (_ & -> & _). rewrite assertion_true by (by rewrite E).
  cbn [res_bind]. rewrite extract_int64_item, E. done.
Qed.

Lemma get_int64_item r : (exists v, c = IUint v \/ c = INint v) -> item_num c < 2 ^ 63 ->
  cbor_value_get_int64 buf (item_it p r c)
  = Done (match c with INint v => - v - 1 | _ => item_num c end).
Proof.
  intros Hs Hn. pose proof (item_num_range c Hc). unfold cbor_value_get_int64.
  rewrite assertion_true by (by destruct Hs as (v & [-> | ->])). cbn [res_bind].
  rewrite extract_int64_item. cbn [res_bind]. destruct (item_flags r) as (_ & -> & _).
  unfold i64. rewrite (Z.mod_small (item_num c + _)) by lia.
  destruct Hs as (v & [-> | ->]); cbn [item_num] in *; f_equal; [lia|].
  rewrite Z.mod_small; lia.
Qed.

Lemma copy_byte_string_item r l n Q : c = IBytes l -> Z.of_nat (length l) <= n <= SIZE_MAX ->
  followed_by r Q ->
  exists it', cbor_value_copy_byte_string buf (item_it p r c) n =
    Done (CborNoError, it', Z.of_nat (length l), if n >? Z.of_nat (length l) then l ++ [0] else l).
Proof.
  intros E Hn Hf. unfold cbor_value_copy_byte_string. rewrite assertion_true by (by rewrite E).
  cbn [res_bind]. destruct (copy_string_item r n Q) as (it' & -> & _); [eauto|by rewrite E|done|].
  exists it'. by rewrite E.
Qed.

(** Entering a definite map. *)
Lemma enter_map_item r n : c = IMap n -> 1 <= n <= 1000 ->
  cbor_value_enter_container buf (item_it p r c)
  = preparse_next_value_nodecrement buf
      ((item_it p r c) <| remaining := 2 * n |> <| ptr := (p + length (item_bytes c))%nat |>).
Proof.
  intros E Hn. unfold cbor_value_enter_container. rewrite assertion_true by (by rewrite E).
  cbn [res_bind]. destruct (item_flags r) as (_ & _ & ->). cbn [ptr item_it].
  rewrite extract_number_item. cbn [res_bind]. rewrite assertion_true by done.
  cbn [res_bind set_field remaining ptr type]. rewrite item_bytes_length.
  rewrite E. cbn [item_num item_str length item_type item_mt].
  rewrite (u32_small n) by (unfold is_u32; lia). rewrite Z.eqb_refl. cbn [negb orb].
  destruct (n =? UINT32_MAX) eqn:E1; zbool; [unfold UINT32_MAX in *; lia|].
  change (160 =? CborMapType) with true. cbn [andb].
  destruct (n >? UINT32_MAX / 2) eqn:E2; zbool.
  { change (UINT32_MAX / 2) with 2147483647 in E2. lia. }
  destruct (n =? 0) eqn:E3; zbool; [lia|]. rewrite u32_small by (unfold is_u32; lia).
  f_equal. unfold item_it. cbn [item_num extra type flags item_type item_mt]. f_equal; [lia|].
  change (160 =? CborMapType) with true. cbn. lia.
Qed.

End At.

(** ** Sequences of leaves *)

Definition items_bytes (l : list item) : list Z := concat (item_bytes <$> l).

(** The iterator over the leaves [l], the first of them at [p]. *)
Definition iter_at (p : nat) (l : list item) (it : CborValue) : Prop :=
  match l with
  | [] => remaining it = 0
  | c :: _ => it = item_it p (Z.of_nat (length l)) c
  end.

Lemma items_followed pre c l tail :
  item_ok c -> Forall item_ok l -> Z.of_nat (length l) < 1000 ->
  followed_by pre (items_bytes l ++ tail) c (Z.of_nat (length (c :: l)))
    (iter_at (length pre + length (item_bytes c)) l).
Proof.
  intros Hc Hl Hn f. unfold preparse_next_value. cbn [set_field remaining item_it type length].
  destruct (_ =? UINT32_MAX) eqn:E1; zbool; [unfold UINT32_MAX in *; lia|].
  assert (Ht : (item_type c =? CborTagType) = false) by (by destruct c). rewrite Ht. cbn [negb andb].
  rewrite u32_small by (unfold is_u32; lia).
  destruct l as [|c' l].
  { destruct (_ =? 0) eqn:E0; zbool; [|cbn in *; lia]. eexists. split; [done|]. done. }
  destruct (_ =? 0) eqn:E0; zbool; [cbn in *; lia|].
  unfold preparse_next_value_nodecrement. cbn [remaining].
  destruct (_ =? UINT32_MAX) eqn:E2; zbool; [unfold UINT32_MAX in *; lia|]. cbn [andb].
  inversion Hl as [|? ? Hc' Hl']; subst.
  replace (pre ++ item_bytes c ++ items_bytes (c' :: l) ++ tail)
    with ((pre ++ item_bytes c) ++ item_bytes c' ++ (items_bytes l ++ tail)).
  2:{ unfold items_bytes. cbn. by rewrite <- !app_assoc. }
  rewrite (preparse_item (pre ++ item_bytes c) (items_bytes l ++ tail) c' Hc').
  2:{ cbn. by rewrite length_app. }
  eexists. split; [done|]. cbn [remaining iter_at]. rewrite length_app. f_equal. cbn [length]. lia.
Qed.

Lemma advance_iter pre c l tail it :
  item_ok c -> leaf c = true -> Forall item_ok l -> Z.of_nat (length l) < 1000 ->
  iter_at (length pre) (c :: l) it ->
  exists it', cbor_value_advance (pre ++ item_bytes c ++ items_bytes l ++ tail) it
      = Done (CborNoError, it') /\
    iter_at (length (pre ++ item_bytes c)) l it'.
Proof.
  intros Hc Hlf Hl Hn Hit. cbn in Hit. rewrite Hit, length_app.
  apply advance_leaf; [done|done|cbn; lia|]. by apply items_followed.
Qed.

(** ** Encoding an item *)

Definition encode_item (c : item) : CborEncoder -> list Z -> res encres :=
  match c with
  | IUint v => cbor_encode_uint v
  | INint v => cbor_encode_int (- v - 1)
  | IBytes l => cbor_encode_byte_string l
  | IText l => cbor_encode_text_string l
  | IMap n => encode_number_no_update n (Z.shiftl MapType MajorTypeShift)
  | IArray n => encode_number_no_update n (Z.shiftl ArrayType MajorTypeShift)
  end.

Lemma encode_number_ok ui mt out0 acc rem fl :
  (length (acc ++ number_bytes ui mt) <= length out0)%nat -> rem <> 0 ->
  encode_number ui mt (mkEnc (length acc) (Some (length out0)) rem fl) (overwrite out0 0 acc)
  = Done (CborNoError, mkEnc (length (acc ++ number_bytes ui mt)) (Some (length out0)) (rem - 1) fl,
          overwrite out0 0 (acc ++ number_bytes ui mt)).
Proof.
  intros Hl Hr. rewrite length_app in *. unfold encode_number, encode_number_no_update, saturated_decrement.
  cbn [enc_remaining]. destruct (rem =? 0) eqn:E; zbool; [lia|]. cbn [negb set_field].
  rewrite append_fits; cbn; rewrite ?overwrite_len by (cbn; lia); try done.
  by rewrite <- (overwrite_app out0 0 acc) by (cbn; lia).
Qed.

Lemma encode_string_ok s mt out0 acc rem fl :
  (length (acc ++ number_bytes (Z.of_nat (length s)) mt ++ s) <= length out0)%nat -> rem <> 0 ->
  encode_string s mt (mkEnc (length acc) (Some (length out0)) rem fl) (overwrite out0 0 acc)
  = Done (CborNoError, mkEnc (length (acc ++ number_bytes (Z.of_nat (length s)) mt ++ s))
            (Some (length out0)) (rem - 1) fl,
          overwrite out0 0 (acc ++ number_bytes (Z.of_nat (length s)) mt ++ s)).
Proof.
  intros Hl Hr. unfold encode_string. rewrite app_assoc in Hl |- *. rewrite length_app in Hl.
  rewrite encode_number_ok by lia. cbn [res_bind].
  rewrite append_fits; cbn; rewrite ?overwrite_len by (cbn; lia); try done.
  rewrite (length_app _ s). by rewrite <- (overwrite_app out0 0 _ s) by (cbn; lia).
Qed.

(** Complementing the low 64 bits. *)
Lemma lxor_ones x : 0 <= x < 2 ^ 64 -> Z.lxor (Z.ones 64) x = Z.ones 64 - x.
Proof.
  intros Hx. assert (Hb : forall n, 64 <= n -> Z.testbit x n = false).
  { intros n Hn. rewrite <- (Z.mod_small x (2 ^ 64)) by lia. by apply Z.mod_pow2_bits_high. }
  rewrite Z.sub_nocarry_ldiff.
  - apply Z.bits_inj'. intros n Hn. rewrite Z.lxor_spec, Z.ldiff_spec.
    destruct (decide (n < 64)).
    + rewrite Z.ones_spec_low by lia. by destruct (Z.testbit x n).
    + rewrite Z.ones_spec_high by lia. by rewrite Hb by lia.
  - apply Z.bits_inj'. intros n Hn. rewrite Z.ldiff_spec, Z.bits_0.
    destruct (decide (n < 64)).
    + rewrite Z.ones_spec_low by lia. apply andb_false_r.
    + by rewrite Hb by lia.
Qed.

(** [cbor_encode_int] picks the major type from the sign. *)
Lemma cbor_encode_int_eq v : - 2 ^ 63 <= v < 2 ^ 63 ->
  cbor_encode_int v = if v <? 0 then encode_number (- v - 1) 0x20 else encode_number v 0.
Proof.
  intros Hv. unfold cbor_encode_int. rewrite Z.shiftr_div_pow2 by lia.
  destruct (v <? 0) eqn:E; zbool.
  - replace (v / 2 ^ 63) with (-1) by (apply Z.div_unique with (r := v + 2 ^ 63); lia).
    change (u64 (-1)) with (Z.ones 64). change (Z.land (Z.ones 64) 0x20) with 0x20.
    replace (u64 v) with (v + 2 ^ 64).
    2:{ unfold u64. rewrite <- (Z.mod_add v 1) by lia. rewrite Z.mod_small; lia. }
    rewrite lxor_ones by lia. rewrite Z.ones_equiv. f_equal. lia.
  - rewrite Z.div_small by lia. change (u64 0) with 0. rewrite Z.lxor_0_l, Z.land_0_l.
    unfold u64. by rewrite Z.mod_small by lia.
Qed.

Lemma encode_item_ok c out0 acc rem fl :
  item_ok c -> leaf c = true -> item_num c < 2 ^ 63 ->
  (length (acc ++ item_bytes c) <= length out0)%nat -> rem <> 0 ->
  encode_item c (mkEnc (length acc) (Some (length out0)) rem fl) (overwrite out0 0 acc)
  = Done (CborNoError, mkEnc (length (acc ++ item_bytes c)) (Some (length out0)) (rem - 1) fl,
          overwrite out0 0 (acc ++ item_bytes c)).
Proof.
  intros Hc Hl Hn Hlen Hr. unfold item_bytes in *. destruct c; try done; cbn in Hc, Hlen, Hn |- *.
  - rewrite app_nil_r in *. by apply encode_number_ok.
  - rewrite app_nil_r in *. rewrite cbor_encode_int_eq by lia.
    destruct (_ <? 0) eqn:E; zbool; [|lia]. replace (- (- v - 1) - 1) with v by lia.
    by apply encode_number_ok.
  - by apply encode_string_ok.
  - by apply encode_string_ok.
Qed.

(** Encoding items one after the other, stopping at the first error. *)
Fixpoint run_items (l : list item) (k : CborEncoder -> list Z -> res encres)
    (e : CborEncoder) (out : list Z) : res encres :=
  match l with
  | [] => k e out
  | c :: l => let? (e, out) := encode_item c e out in run_items l k e out
  end.

Lemma run_items_ok l k out0 fl : forall acc rem,
  Forall (fun c => item_ok c /\ leaf c = true /\ item_num c < 2 ^ 63) l ->
  (length (acc ++ items_bytes l) <= length out0)%nat -> Z.of_nat (length l) < rem ->
  run_items l k (mkEnc (length acc) (Some (length out0)) rem fl) (overwrite out0 0 acc)
  = k (mkEnc (length (acc ++ items_bytes l)) (Some (length out0)) (rem - Z.of_nat (length l)) fl)
      (overwrite out0 0 (acc ++ items_bytes l)).
Proof.
  induction l as [|c l IH]; intros acc rem Hf Hl Hr; cbn [run_items].
  { cbn. rewrite app_nil_r. by rewrite Z.sub_0_r. }
  inversion Hf as [|? ? (Hc & Hlf & Hn) Hf']; subst.
  unfold items_bytes in *. cbn [fmap list_fmap concat length] in *. rewrite app_assoc in *.
  rewrite encode_item_ok; [|done..| |lia].
  2:{ rewrite length_app in Hl. lia. }
  cbn [res_bind]. rewrite (IH (acc ++ item_bytes c)) by (done || lia). do 2 f_equal. lia.
Qed.

End CborItems.
