(* ===== verification/State.v ===== *)
(** * The persistent authenticator state (src/fido2/src/state.c, inc/state.h)

    [AuthenticatorState] is stored as a CBOR map with numeric keys.  The main
    result is that decoding what was encoded gives the state back, for every
    value of the fields of a state of the current version. *)

From S2P Require Import Prelude CborParser CborProps CborEncoder CborItems.
Import CborParser CborProps CborEncoder CborItems.

Module State.

Definition STATE_VERSION : Z := 1.
Definition STATE_PIN_HASH_SIZE : Z := 16.
Definition STATE_PIN_HASH_IV_SIZE : Z := 16.
Definition STATE_KEY_SALT_BYTES : Z := 64.
Definition STATE_CBOR_KEY_VERSION : Z := 0.
Definition STATE_CBOR_KEY_APP_VERSION : Z := 1.
Definition STATE_CBOR_KEY_IS_PIN_SET : Z := 10.
Definition STATE_CBOR_KEY_REMAINING_TRIES : Z := 11.
Definition STATE_CBOR_KEY_PIN_HASH_ENC : Z := 12.
Definition STATE_CBOR_KEY_PIN_HASH_IV : Z := 13.
Definition STATE_CBOR_KEY_RK_STORED : Z := 20.
Definition STATE_CBOR_KEY_KEY_SALT : Z := 30.

Record AuthenticatorState := mkState {
  version : Z;
  app_version : Z;
  is_pin_set : Z;
  remaining_tries : Z;
  pin_hash_enc : list Z;
  pin_hash_iv : list Z;
  rk_stored : Z;
  key_salt : list Z;
}.
#[export] Instance eta_AuthenticatorState : Eta AuthenticatorState := fun s =>
  mkState (version s) (app_version s) (is_pin_set s) (remaining_tries s) (pin_hash_enc s)
    (pin_hash_iv s) (rk_stored s) (key_salt s).

(** All fields zero, as [memset] leaves it. *)
Definition zero_state : AuthenticatorState := mkState 0 0 0 0 (zeros 16) (zeros 16) 0 (zeros 64).

(** ** Encoding *)

(** The error, the buffer and [*buf_encode_len]. *)
Definition state_cbor_encode (out : list Z) (s : AuthenticatorState)
    : res (CborError * list Z * nat) :=
  let encoder := cbor_encoder_init (length out) in
  let! (encoder, r) := cbor_encoder_create_map 8 encoder out in
  let! (err, map, out) :=
    let? (map, out) := Done r in
    let? (map, out) := cbor_encode_uint STATE_CBOR_KEY_VERSION map out in
    let? (map, out) := cbor_encode_uint (version s) map out in
    let? (map, out) := cbor_encode_uint STATE_CBOR_KEY_APP_VERSION map out in
    let? (map, out) := cbor_encode_uint (app_version s) map out in
    let? (map, out) := cbor_encode_uint STATE_CBOR_KEY_IS_PIN_SET map out in
    let? (map, out) := cbor_encode_uint (is_pin_set s) map out in
    let? (map, out) := cbor_encode_uint STATE_CBOR_KEY_REMAINING_TRIES map out in
    let? (map, out) := cbor_encode_int (remaining_tries s) map out in
    let? (map, out) := cbor_encode_uint STATE_CBOR_KEY_PIN_HASH_ENC map out in
    let? (map, out) := cbor_encode_byte_string (pin_hash_enc s) map out in
    let? (map, out) := cbor_encode_uint STATE_CBOR_KEY_PIN_HASH_IV map out in
    let? (map, out) := cbor_encode_byte_string (pin_hash_iv s) map out in
    let? (map, out) := cbor_encode_uint STATE_CBOR_KEY_RK_STORED map out in
    let? (map, out) := cbor_encode_uint (rk_stored s) map out in
    let? (map, out) := cbor_encode_uint STATE_CBOR_KEY_KEY_SALT map out in
    let? (map, out) := cbor_encode_byte_string (key_salt s) map out in
    Done (cbor_encoder_close_container encoder map out) in
  match err with
  | CborNoError => Done (CborNoError, out, cbor_encoder_get_buffer_size map)
  | _ => Done (err, out, 0%nat)
  end.

(** ** Decoding *)

Section Decode.
Context (buf : list Z).

(** [get_u8], [get_u16], [get_u32], [get_i8]: they return [bool], so that the
    codes -1 and -2 of the source reach the caller as 1.  [None] leaves the
    output untouched. *)
Definition get_uint (max : Z) (it : CborValue) : res (Z * option Z) :=
  let! tmp := cbor_value_get_uint64 buf it in
  if tmp >? max then Done (1, None) else Done (0, Some tmp).
Definition get_u8 := get_uint 0xff.
Definition get_u16 := get_uint 0xffff.
Definition get_u32 := get_uint 0xffffffff.
Definition get_i8 (it : CborValue) : res (Z * option Z) :=
  let! tmp := cbor_value_get_int64 buf it in
  if (tmp <? -128) || (tmp >? 127) then Done (1, None) else Done (0, Some tmp).

(** Store a number read by one of the getters. *)
Definition store_num (set : Z -> AuthenticatorState) (s : AuthenticatorState)
    (m : res (Z * option Z)) : res (Z * AuthenticatorState) :=
  let! (ret, v) := m in
  Done (ret, match v with Some v => set v | None => s end).

(** [cbor_value_copy_byte_string] into a field of [size] bytes. *)
Definition store_bytes (size : Z) (field : list Z) (set : list Z -> AuthenticatorState)
    (it : CborValue) : res (Z * AuthenticatorState) :=
  let! (err, _, _, copied) := cbor_value_copy_byte_string buf it size in
  let! f := mem_write field 0 copied in
  Done (match err with CborNoError => 0 | _ => -2 end, set f).

(** The [switch (key)]; the last flag says whether the default case was
    taken, which skips one element more. *)
Definition decode_field (key : Z) (it : CborValue) (s : AuthenticatorState)
    : res (Z * AuthenticatorState * bool) :=
  let known m := let! (ret, s) := m in Done (ret, s, false) in
  if key =? STATE_CBOR_KEY_VERSION then
    let! (ret, s) := store_num (fun v => s <| version := v |>) s (get_u8 it) in
    if negb (ret =? 0) then Done (ret, s, false)
    else if negb (version s =? STATE_VERSION) then Done (-1, s, false)
    else Done (0, s, false)
  else if key =? STATE_CBOR_KEY_APP_VERSION then
    known (store_num (fun v => s <| app_version := v |>) s (get_u32 it))
  else if key =? STATE_CBOR_KEY_IS_PIN_SET then
    known (store_num (fun v => s <| is_pin_set := v |>) s (get_u8 it))
  else if key =? STATE_CBOR_KEY_REMAINING_TRIES then
    known (store_num (fun v => s <| remaining_tries := v |>) s (get_i8 it))
  else if key =? STATE_CBOR_KEY_PIN_HASH_ENC then
    known (store_bytes STATE_PIN_HASH_SIZE (pin_hash_enc s) (fun f => s <| pin_hash_enc := f |>) it)
  else if key =? STATE_CBOR_KEY_PIN_HASH_IV then
    known (store_bytes STATE_PIN_HASH_IV_SIZE (pin_hash_iv s) (fun f => s <| pin_hash_iv := f |>) it)
  else if key =? STATE_CBOR_KEY_RK_STORED then
    known (store_num (fun v => s <| rk_stored := v |>) s (get_u16 it))
  else if key =? STATE_CBOR_KEY_KEY_SALT then
    known (store_bytes STATE_KEY_SALT_BYTES (key_salt s) (fun f => s <| key_salt := f |>) it)
  else Done (0, s, true).

(** [while (!cbor_value_at_end(&map))]; the results of [cbor_value_advance]
    are not looked at.  Every round skips an element or fails an assertion of
    the parser, so [length buf + 1] rounds are enough. *)
Fixpoint decode_loop (fuel : nat) (map : CborValue) (s : AuthenticatorState)
    : res (Z * AuthenticatorState) :=
  if cbor_value_at_end map then Done (0, s)
  else
    match fuel with
    | O => Fault FExit
    | S fuel =>
        let! key := cbor_value_get_uint64 buf map in
        let! (_, map) := cbor_value_advance buf map in
        let! (ret, s, skip) := decode_field key map s in
        if negb (ret =? 0) then Done (ret, s)
        else
          let! map := if skip : bool then let! (_, map) := cbor_value_advance buf map in Done map
                      else Done map in
          let! (_, map) := cbor_value_advance buf map in
          decode_loop fuel map s
    end.

Definition state_cbor_decode (s : AuthenticatorState) : res (Z * AuthenticatorState) :=
  let! (err, it) := cbor_parser_init buf in
  match err with
  | CborNoError =>
      let! (err, map) := cbor_value_enter_container buf it in
      match err with
      | CborNoError => decode_loop (S (length buf)) map s
      | _ => Done (-2, s)
      end
  | _ => Done (-2, s)
  end.

End Decode.

(** A state with a PIN, written to a buffer of the size used for the
    envelope, and read back. *)
Example state_example :
  let s := mkState 1 7 1 (-1) (replicate 16 3) (replicate 16 4) 513 (replicate 64 5) in
  (let! (_, out, n) := state_cbor_encode (zeros 175) s in state_cbor_decode (take n out) zero_state)
  = Done (0, s).
Proof. vm_compute. reflexivity. Qed.

(** ** The encoded form *)

(** The current version, and fields within the range of their C types. *)
Record state_ok (s : AuthenticatorState) : Prop := {
  ok_version : version s = STATE_VERSION;
  ok_app : is_u32 (app_version s);
  ok_pin_set : is_byte (is_pin_set s);
  ok_tries : -128 <= remaining_tries s < 128;
  ok_hash : length (pin_hash_enc s) = 16%nat;
  ok_iv : length (pin_hash_iv s) = 16%nat;
  ok_rk : 0 <= rk_stored s < 65536;
  ok_salt : length (key_salt s) = 64%nat;
}.

Definition int_item (v : Z) : item := if v <? 0 then INint (- v - 1) else IUint v.

Definition state_items (s : AuthenticatorState) : list item :=
  [IUint 0; IUint (version s); IUint 1; IUint (app_version s); IUint 10; IUint (is_pin_set s);
   IUint 11; int_item (remaining_tries s); IUint 12; IBytes (pin_hash_enc s);
   IUint 13; IBytes (pin_hash_iv s); IUint 20; IUint (rk_stored s); IUint 30; IBytes (key_salt s)].

Definition state_bytes (s : AuthenticatorState) : list Z :=
  item_bytes (IMap 8) ++ items_bytes (state_items s).

Lemma int_item_props v : -128 <= v < 128 ->
  item_ok (int_item v) /\ leaf (int_item v) = true /\ item_num (int_item v) < 2 ^ 63 /\
  encode_item (int_item v) = cbor_encode_int v.
Proof.
  intros Hv. unfold int_item. destruct (v <? 0) eqn:E; zbool; cbn.
  - repeat split; try lia. f_equal. lia.
  - repeat split; try lia. rewrite cbor_encode_int_eq by lia.
    by rewrite (proj2 (Z.ltb_ge _ _) E).
Qed.

Lemma state_items_ok s : state_ok s ->
  Forall (fun c => item_ok c /\ leaf c = true /\ item_num c < 2 ^ 63) (state_items s).
Proof.
  intros [Hv Ha Hp Ht Hh Hi Hr Hs]. unfold is_u32, is_byte, STATE_VERSION in *.
  destruct (int_item_props _ Ht) as (?&?&?&_).
  unfold state_items. repeat (constructor; [try done; cbn; rewrite ?Hh, ?Hi, ?Hs; repeat split; lia|]).
  constructor.
Qed.

Lemma num_width_le v n : 0 <= v -> v < n -> n = 2 ^ 8 \/ n = 2 ^ 16 \/ n = 2 ^ 32 ->
  (num_width v <= num_width (n - 1))%nat.
Proof.
  intros H0 Hv [-> | [-> | ->]]; unfold num_width;
    repeat (destruct (_ <? _) eqn:?; zbool; try lia).
Qed.

(** The map never takes more than 124 bytes. *)
Lemma state_bytes_length s : state_ok s -> (length (state_bytes s) <= 124)%nat.
Proof.
  intros Hok. pose proof (state_items_ok s Hok) as Hf. destruct Hok as [Hv Ha Hp Ht Hh Hi Hr Hs].
  unfold is_u32, is_byte in *. unfold state_bytes, items_bytes, state_items in *.
  cbn [fmap list_fmap concat]. rewrite !length_app, !item_bytes_length; cbn [item_num item_str length];
    try (cbn; rewrite ?Hh, ?Hi, ?Hs, ?Hv; unfold STATE_VERSION; lia).
  2:{ by apply (int_item_props _ Ht). }
  rewrite Hh, Hi, Hs, Hv.
  pose proof (num_width_le (app_version s) (2 ^ 32) ltac:(lia) ltac:(lia) ltac:(auto)).
  pose proof (num_width_le (is_pin_set s) (2 ^ 8) ltac:(lia) ltac:(lia) ltac:(auto)).
  pose proof (num_width_le (rk_stored s) (2 ^ 16) ltac:(lia) ltac:(lia) ltac:(auto)).
  assert (num_width (item_num (int_item (remaining_tries s))) <= 1 /\
          length (item_str (int_item (remaining_tries s))) = 0)%nat as [? ->].
  { unfold int_item. destruct (_ <? 0) eqn:E; zbool; cbn [item_num item_str length]; split; try done.
    - apply (num_width_le _ (2 ^ 8)); auto; lia.
    - apply (num_width_le _ (2 ^ 8)); auto; lia. }
  change (num_width (2 ^ 32 - 1)) with 4%nat in *. change (num_width (2 ^ 8 - 1)) with 1%nat in *.
  change (num_width (2 ^ 16 - 1)) with 2%nat in *.
  change (num_width 8) with 0%nat.
  change (num_width 0) with 0%nat.
  change (num_width STATE_VERSION) with 0%nat.
  change (num_width 1) with 0%nat.
  change (num_width 10) with 0%nat.
  change (num_width 11) with 0%nat.
  change (num_width 12) with 0%nat.
  change (num_width (Z.of_nat 16)) with 0%nat.
  change (num_width 13) with 0%nat.
  change (num_width 20) with 0%nat.
  change (num_width 30) with 1%nat.
  change (num_width (Z.of_nat 64)) with 1%nat.
  lia.
Qed.

(** [state_cbor_encode] writes the map and reports its length. *)
Lemma state_cbor_encode_ok out s : state_ok s -> (124 <= length out)%nat ->
  state_cbor_encode out s
  = Done (CborNoError, overwrite out 0 (state_bytes s), length (state_bytes s)).
Proof.
  intros Hok Hl. pose proof (state_bytes_length s Hok) as Hb. pose proof (state_items_ok s Hok) as Hf.
  unfold state_cbor_encode, cbor_encoder_create_map, create_container, encode_number_no_update.
  cbn [cbor_encoder_init enc_data enc_end].
  rewrite append_fits by (done || (cbn; lia)). cbn [res_bind set_field enc_data].
  change (number_bytes 8 (Z.shiftl MapType MajorTypeShift)) with (item_bytes (IMap 8)).
  rewrite <- (proj2 (proj2 (proj2 (int_item_props _ (ok_tries _ Hok))))).
  match goal with |- context [cbor_encoder_close_container ?p] => set (parent := p) end.
  pose proof (run_items_ok (state_items s)
    (fun e o => Done (cbor_encoder_close_container parent e o)) out 32 (item_bytes (IMap 8)) 17 Hf) as Hrun.
  fold (state_bytes s) in Hrun. specialize (Hrun ltac:(lia) ltac:(cbn; lia)).
  cbn [run_items state_items encode_item] in Hrun.
  etransitivity; [apply (f_equal (fun m => res_bind m _) Hrun)|].
  cbn [res_bind cbor_encoder_close_container enc_remaining enc_end enc_data set_field].
  done.
Qed.

(** ** Decoding the encoded form *)

(** The [switch] stores value [v] under key [k]. *)
Definition field_ok (k : Z) (v : item) (s s' : AuthenticatorState) : Prop :=
  forall pre tail r Q, followed_by pre tail v r Q ->
    decode_field (pre ++ item_bytes v ++ tail) k (item_it (length pre) r v) s = Done (0, s', false).

Definition good (c : item) : Prop := item_ok c /\ leaf c = true /\ item_num c < 2 ^ 63.

(** Key and value pairs that take the state from [s] to [s']. *)
Inductive fields : list (Z * item) -> AuthenticatorState -> AuthenticatorState -> Prop :=
| fields_nil s : fields [] s s
| fields_cons k v ps s s1 s2 :
    good (IUint k) -> good v -> field_ok k v s s1 -> fields ps s1 s2 -> fields ((k, v) :: ps) s s2.

Definition pair_items (ps : list (Z * item)) : list item :=
  concat ((fun kv : Z * item => [IUint (fst kv); snd kv]) <$> ps).

Lemma fields_items ps s s' : fields ps s s' -> Forall item_ok (pair_items ps).
Proof. induction 1 as [|k v ps s s1 s2 [] [] _ _ IH]; [constructor|]. by do 2 (constructor; [done|]). Qed.

Lemma iter_at_not_end p c l it : iter_at p (c :: l) it -> cbor_value_at_end it = false.
Proof. cbn. intros ->. unfold cbor_value_at_end. cbn. apply Z.eqb_neq. lia. Qed.

(** One round of the loop over a key and its value. *)
Lemma decode_pair pre k v l it s s' fuel :
  good (IUint k) -> good v -> field_ok k v s s' -> Forall item_ok l -> Z.of_nat (length l) < 100 ->
  iter_at (length pre) (IUint k :: v :: l) it ->
  exists it', decode_loop (pre ++ items_bytes (IUint k :: v :: l)) (S fuel) it s
      = decode_loop (pre ++ items_bytes (IUint k :: v :: l)) fuel it' s' /\
    iter_at (length (pre ++ item_bytes (IUint k) ++ item_bytes v)) l it'.
Proof.
  intros (Hk & _ & _) (Hv & Hvl & _) Hfield Hl Hn Hit. set (buf := pre ++ _).
  assert (Hb1 : buf = pre ++ item_bytes (IUint k) ++ items_bytes (v :: l) ++ []) by (by rewrite app_nil_r).
  assert (Hb2 : buf = (pre ++ item_bytes (IUint k)) ++ item_bytes v ++ items_bytes l ++ []).
  { unfold buf, items_bytes. cbn. by rewrite app_nil_r, <- !app_assoc. }
  cbn [decode_loop]. rewrite (iter_at_not_end _ _ _ _ Hit).
  assert (Hkey : cbor_value_get_uint64 buf it = Done k).
  { rewrite Hb1. unfold iter_at in Hit. rewrite Hit. by apply get_uint64_item. }
  rewrite Hkey. cbn [res_bind].
  destruct (advance_iter pre (IUint k) (v :: l) [] it) as (it1 & Ha1 & Hi1);
    [done|done|by constructor|cbn; lia|done|].
  rewrite <- Hb1 in Ha1. rewrite Ha1. cbn [res_bind].
  pose proof Hi1 as Hi1'. unfold iter_at in Hi1'. rewrite Hi1'.
  pose proof (items_followed (pre ++ item_bytes (IUint k)) v l [] Hv Hl ltac:(lia)) as Hfol.
  pose proof (Hfield _ _ _ _ Hfol) as Hdec. rewrite <- Hb2 in Hdec. rewrite Hdec.
  cbn [res_bind negb Z.eqb]. rewrite <- Hi1'.
  destruct (advance_iter (pre ++ item_bytes (IUint k)) v l [] it1) as (it2 & Ha2 & Hi2);
    [done|done|done|lia|done|].
  rewrite <- Hb2 in Ha2. rewrite Ha2. cbn [res_bind]. exists it2. split; [done|].
  by rewrite <- app_assoc in Hi2.
Qed.

Lemma decode_fields ps s s' : fields ps s s' -> forall pre it fuel,
  Z.of_nat (length (pair_items ps)) < 100 -> iter_at (length pre) (pair_items ps) it ->
  decode_loop (pre ++ items_bytes (pair_items ps)) (length ps + fuel) it s = Done (0, s').
Proof.
  induction 1 as [s|k v ps s s1 s2 Hk Hv Hf Hfs IH]; intros pre it fuel Hn Hit.
  { cbn in Hit |- *. destruct fuel; cbn [decode_loop]; unfold cbor_value_at_end; by rewrite Hit. }
  change (pair_items ((k, v) :: ps)) with (IUint k :: v :: pair_items ps) in *.
  cbn [length] in Hn.
  destruct (decode_pair pre k v (pair_items ps) it s s1 (length ps + fuel) Hk Hv Hf
    (fields_items _ _ _ Hfs) ltac:(lia) Hit) as (it' & He & Hi').
  etransitivity; [exact He|].
  replace (pre ++ items_bytes (IUint k :: v :: pair_items ps))
    with ((pre ++ item_bytes (IUint k) ++ item_bytes v) ++ items_bytes (pair_items ps)).
  2:{ unfold items_bytes. cbn. by rewrite <- !app_assoc. }
  apply IH; [lia|done].
Qed.

(** ** Every field is stored *)

Lemma mem_write_all (field l : list Z) : length l = length field -> mem_write field 0 l = Done l.
Proof.
  intros H. rewrite mem_write_fits by (cbn; lia). cbn [take app Nat.add].
  by rewrite drop_ge, app_nil_r by lia.
Qed.

Lemma get_uint_item pre tail r v max : 0 <= v < 2 ^ 64 -> v <= max ->
  get_uint (pre ++ item_bytes (IUint v) ++ tail) max (item_it (length pre) r (IUint v)) = Done (0, Some v).
Proof.
  intros Hv Hm. unfold get_uint. rewrite (get_uint64_item pre tail (IUint v) Hv r v eq_refl).
  cbn [res_bind]. destruct (v >? max) eqn:E; zbool; [lia|done].
Qed.

Lemma get_i8_item pre tail r v : -128 <= v < 128 ->
  get_i8 (pre ++ item_bytes (int_item v) ++ tail) (item_it (length pre) r (int_item v)) = Done (0, Some v).
Proof.
  intros Hv. destruct (int_item_props v Hv) as (Hok & _ & Hn & _). unfold get_i8.
  rewrite (get_int64_item pre tail (int_item v) Hok r); [| |done].
  2:{ unfold int_item. destruct (v <? 0); eauto. }
  cbn [res_bind]. replace (match int_item v with INint w => - w - 1 | _ => item_num (int_item v) end) with v.
  2:{ unfold int_item. destruct (v <? 0); cbn; lia. }
  destruct (_ || _) eqn:E; [|done]. apply orb_true_iff in E. rewrite Z.ltb_lt, Z.gtb_lt in E. lia.
Qed.

Lemma store_bytes_item pre tail r Q l size (field : list Z) set :
  followed_by pre tail (IBytes l) r Q ->
  length l = length field -> size = Z.of_nat (length field) -> (length l <= 1000)%nat ->
  store_bytes (pre ++ item_bytes (IBytes l) ++ tail) size field set (item_it (length pre) r (IBytes l))
  = Done (0, set l).
Proof.
  intros HQ Hl -> H. unfold store_bytes.
  destruct (copy_byte_string_item pre tail (IBytes l) ltac:(cbn; lia) r l (Z.of_nat (length field)) Q)
    as (it' & ->); [done|unfold SIZE_MAX; lia|done|].
  cbn [res_bind]. rewrite Hl, Z.gtb_ltb, Z.ltb_irrefl. by rewrite mem_write_all.
Qed.

(** The buffers of the state that is overwritten have their declared sizes. *)
Definition sized (s : AuthenticatorState) : Prop :=
  length (pin_hash_enc s) = 16%nat /\ length (pin_hash_iv s) = 16%nat /\ length (key_salt s) = 64%nat.

(** The pairs of the map, in the order they are written. *)
Definition state_fields (s : AuthenticatorState) : list (Z * item) :=
  [(0, IUint (version s)); (1, IUint (app_version s)); (10, IUint (is_pin_set s));
   (11, int_item (remaining_tries s)); (12, IBytes (pin_hash_enc s)); (13, IBytes (pin_hash_iv s));
   (20, IUint (rk_stored s)); (30, IBytes (key_salt s))].

Lemma fields_state s0 s : state_ok s -> sized s0 -> fields (state_fields s) s0 s.
Proof.
  intros Hok (Hs1 & Hs2 & Hs3). pose proof (state_items_ok s Hok) as Hf.
  destruct Hok as [Hv Ha Hp Ht Hh Hi Hr Hs]. unfold is_u32, is_byte in *.
  unfold state_fields, state_items in *. rewrite !Forall_cons in Hf. destruct_and! Hf.
  destruct s as [sv sa sp st shh si sr ss]. destruct s0 as [v0 a0 p0 t0 h0 i0 r0 k0]. cbn in *.
  apply fields_cons with (s1 := mkState sv a0 p0 t0 h0 i0 r0 k0); [done|done| |].
  { intros pre tail r Q _. unfold decode_field, get_u8. cbn [Z.eqb STATE_CBOR_KEY_VERSION].
    unfold store_num. subst sv. rewrite get_uint_item by (unfold STATE_VERSION; lia). done. }
  apply fields_cons with (s1 := mkState sv sa p0 t0 h0 i0 r0 k0); [done|done| |].
  { intros pre tail r Q _. unfold decode_field, get_u32, store_num. cbn [Z.eqb STATE_CBOR_KEY_APP_VERSION].
    cbn. rewrite get_uint_item by lia. done. }
  apply fields_cons with (s1 := mkState sv sa sp t0 h0 i0 r0 k0); [done|done| |].
  { intros pre tail r Q _. unfold decode_field, get_u8, store_num. cbn. rewrite get_uint_item by lia. done. }
  apply fields_cons with (s1 := mkState sv sa sp st h0 i0 r0 k0); [done|done| |].
  { intros pre tail r Q _. unfold decode_field, store_num. cbn. rewrite get_i8_item by lia. done. }
  apply fields_cons with (s1 := mkState sv sa sp st shh i0 r0 k0); [done|done| |].
  { intros pre tail r Q HQ. unfold decode_field. cbn.
    rewrite (store_bytes_item pre tail r Q shh) by (rewrite ?Hs1, ?Hs2, ?Hs3; (done || lia)). done. }
  apply fields_cons with (s1 := mkState sv sa sp st shh si r0 k0); [done|done| |].
  { intros pre tail r Q HQ. unfold decode_field. cbn.
    rewrite (store_bytes_item pre tail r Q si) by (rewrite ?Hs1, ?Hs2, ?Hs3; (done || lia)). done. }
  apply fields_cons with (s1 := mkState sv sa sp st shh si sr k0); [done|done| |].
  { intros pre tail r Q _. unfold decode_field, get_u16, store_num. cbn. rewrite get_uint_item by lia. done. }
  apply fields_cons with (s1 := mkState sv sa sp st shh si sr ss); [done|done| |constructor].
  intros pre tail r Q HQ. unfold decode_field. cbn.
  rewrite (store_bytes_item pre tail r Q ss) by (rewrite ?Hs1, ?Hs2, ?Hs3; (done || lia)). done.
Qed.

(** The whole decoder on the encoded bytes. *)
Lemma state_cbor_decode_bytes s0 s : state_ok s -> sized s0 ->
  state_cbor_decode (state_bytes s) s0 = Done (0, s).
Proof.
  intros Hok Hsz. pose proof (fields_state s0 s Hok Hsz) as Hf.
  pose proof (fields_items _ _ _ Hf) as Hi.
  assert (Hit : pair_items (state_fields s) = state_items s) by reflexivity.
  assert (Hm : item_ok (IMap 8)) by done. assert (Hk : item_ok (IUint 0)) by done.
  assert (Hp : cbor_parser_init (state_bytes s) = Done (CborNoError, item_it 0 1 (IMap 8))).
  { exact (preparse_item [] (items_bytes (state_items s)) (IMap 8) Hm
             (mkCv 0 1 0 CborInvalidType 0) eq_refl). }
  assert (He : cbor_value_enter_container (state_bytes s) (item_it 0 1 (IMap 8))
               = Done (CborNoError, item_it (length (item_bytes (IMap 8))) 16 (IUint 0))).
  { etransitivity; [exact (enter_map_item [] (items_bytes (state_items s)) (IMap 8) Hm 1 8 eq_refl
                             ltac:(lia))|].
    unfold preparse_next_value_nodecrement. cbn [set_field remaining item_it].
    change (2 * 8 =? UINT32_MAX) with false. cbn [andb].
    apply (preparse_item (item_bytes (IMap 8)) (items_bytes (tail (state_items s))) (IUint 0) Hk).
    done. }
  unfold state_cbor_decode. rewrite Hp. cbn [res_bind]. rewrite He. cbn [res_bind].
  assert (Hlen : exists n, length (state_bytes s) = (7 + n)%nat).
  { exists (length (state_bytes s) - 7)%nat. unfold state_bytes, items_bytes, state_items.
    cbn [fmap list_fmap concat]. rewrite !length_app. pose proof (ok_salt _ Hok).
    assert (length (item_bytes (IBytes (key_salt s))) >= 64)%nat; [|lia].
    unfold item_bytes. rewrite length_app. cbn [item_str]. lia. }
  destruct Hlen as [n Hn]. rewrite Hn. change (S (7 + n)) with (length (state_fields s) + n)%nat.
  unfold state_bytes. rewrite <- Hit. apply decode_fields; [done|cbn; lia|]. done.
Qed.



End State.
