(* ===== verification/Monad.v ===== *)
(** * Stateful C code that may stop the device

    [M S A]: a computation that threads a state of type [S] and ends with a
    value or a [fault].  [wp] is its weakest precondition for running to the
    end; [wlp] also accepts that the device stops.  [on f m] runs a component's
    operation [m] on the part [f] of a larger state. *)

From S2P Require Import Prelude.

Module Monad.

Definition M (S A : Type) : Type := S -> res (A * S).

Section Monad.
Context {S : Type}.

Definition ret {A} (a : A) : M S A := fun s => Done (a, s).
Definition bind {A B} (m : M S A) (k : A -> M S B) : M S B :=
  fun s => match m s with
           | Done (a, s) => k a s
           | Fault f => Fault f
           end.
Definition stop {A} (f : fault) : M S A := fun _ => Fault f.
Definition gets {A} (f : S -> A) : M S A := fun s => Done (f s, s).
Definition modify (f : S -> S) : M S unit := fun s => Done (tt, f s).
Definition lift {A} (m : res A) : M S A :=
  fun s => match m with
           | Done a => Done (a, s)
           | Fault f => Fault f
           end.
(** A component operation in explicit state-passing style, on the part [p]. *)
Definition on {T} (p : S -> T) `{!Setter p} {A} (m : M T A) : M S A :=
  fun s => match m (p s) with
           | Done (a, t) => Done (a, s <| p := t |>)
           | Fault f => Fault f
           end.

(** ** Weakest preconditions *)

Definition wp {A} (m : M S A) (Q : A -> S -> Prop) (s : S) : Prop :=
  match m s with Done (a, s') => Q a s' | Fault _ => False end.
Definition wlp {A} (m : M S A) (Q : A -> S -> Prop) (s : S) : Prop :=
  match m s with Done (a, s') => Q a s' | Fault _ => True end.

(** Runs to the end, or stops the device at an assertion. *)
Definition wpa {A} (m : M S A) (Q : A -> S -> Prop) (s : S) : Prop :=
  match m s with Done (a, s') => Q a s' | Fault f => f = FAssert end.

Lemma wp_wpa {A} (m : M S A) Q s : wp m Q s -> wpa m Q s.
Proof. unfold wp, wpa. by destruct (m s) as [[]|]. Qed.
Lemma wpa_mono {A} (m : M S A) (P Q : A -> S -> Prop) s :
  wpa m P s -> (forall a s', P a s' -> Q a s') -> wpa m Q s.
Proof. unfold wpa. destruct (m s) as [[]|]; auto. Qed.
Lemma wpa_bind {A B} (m : M S A) (k : A -> M S B) Q s :
  wpa m (fun a => wpa (k a) Q) s -> wpa (bind m k) Q s.
Proof. unfold wpa, bind. by destruct (m s) as [[]|]. Qed.
Lemma wpa_wp_bind {A B} (m : M S A) (k : A -> M S B) Q s :
  wp m (fun a => wpa (k a) Q) s -> wpa (bind m k) Q s.
Proof. unfold wp, wpa, bind. by destruct (m s) as [[]|]. Qed.

Lemma wp_done {A} (m : M S A) Q s :
  wp m Q s <-> exists a s', m s = Done (a, s') /\ Q a s'.
Proof.
  unfold wp. destruct (m s) as [[a s']|f].
  - split; [by eauto|]. by intros (? & ? & [= <- <-] & ?).
  - split; [done|]. by intros (? & ? & ? & _).
Qed.

Lemma wlp_done {A} (m : M S A) Q s :
  wlp m Q s <-> forall a s', m s = Done (a, s') -> Q a s'.
Proof.
  unfold wlp. destruct (m s) as [[a s']|f].
  - split; [by intros ? ?? [= <- <-]|]. intros H. by apply H.
  - by split.
Qed.

Lemma wp_wlp {A} (m : M S A) Q s : wp m Q s -> wlp m Q s.
Proof. unfold wp, wlp. by destruct (m s) as [[]|]. Qed.

Lemma wp_mono {A} (m : M S A) (P Q : A -> S -> Prop) s :
  wp m P s -> (forall a s', P a s' -> Q a s') -> wp m Q s.
Proof. unfold wp. destruct (m s) as [[]|]; auto. Qed.
Lemma wlp_mono {A} (m : M S A) (P Q : A -> S -> Prop) s :
  wlp m P s -> (forall a s', P a s' -> Q a s') -> wlp m Q s.
Proof. unfold wlp. destruct (m s) as [[]|]; auto. Qed.

Lemma wp_ret {A} (a : A) Q s : Q a s -> wp (ret a) Q s.
Proof. done. Qed.
Lemma wlp_ret {A} (a : A) Q s : Q a s -> wlp (ret a) Q s.
Proof. done. Qed.

Lemma wp_bind {A B} (m : M S A) (k : A -> M S B) Q s :
  wp m (fun a => wp (k a) Q) s -> wp (bind m k) Q s.
Proof. unfold wp, bind. by destruct (m s) as [[]|]. Qed.
Lemma wlp_bind {A B} (m : M S A) (k : A -> M S B) Q s :
  wlp m (fun a => wlp (k a) Q) s -> wlp (bind m k) Q s.
Proof. unfold wlp, bind. by destruct (m s) as [[]|]. Qed.

Lemma wp_gets {A} (f : S -> A) Q s : Q (f s) s -> wp (gets f) Q s.
Proof. done. Qed.
Lemma wlp_gets {A} (f : S -> A) Q s : Q (f s) s -> wlp (gets f) Q s.
Proof. done. Qed.
Lemma wp_modify f Q s : Q tt (f s) -> wp (modify f) Q s.
Proof. done. Qed.
Lemma wlp_modify f Q s : Q tt (f s) -> wlp (modify f) Q s.
Proof. done. Qed.
Lemma wlp_stop {A} f (Q : A -> S -> Prop) s : wlp (stop f) Q s.
Proof. done. Qed.

Lemma wp_on {T} (p : S -> T) `{!Setter p} {A} (m : M T A) Q s :
  wp (on p m) Q s <->
  match m (p s) with Done (a, t) => Q a (s <| p := t |>) | Fault _ => False end.
Proof. unfold wp, on. by destruct (m (p s)) as [[]|]. Qed.
Lemma wlp_on {T} (p : S -> T) `{!Setter p} {A} (m : M T A) Q s :
  wlp (on p m) Q s <->
  match m (p s) with Done (a, t) => Q a (s <| p := t |>) | Fault _ => True end.
Proof. unfold wlp, on. by destruct (m (p s)) as [[]|]. Qed.

Lemma wp_lift {A} (m : res A) Q s :
  wp (lift m) Q s <-> match m with Done a => Q a s | Fault _ => False end.
Proof. unfold wp, lift. by destruct m. Qed.
Lemma wlp_lift {A} (m : res A) Q s :
  wlp (lift m) Q s <-> match m with Done a => Q a s | Fault _ => True end.
Proof. unfold wlp, lift. by destruct m. Qed.

(** Rewriting through a bind whose first part is known. *)
Lemma bind_done {A B} (m : M S A) (k : A -> M S B) s a s' :
  m s = Done (a, s') -> bind m k s = k a s'.
Proof. unfold bind. by intros ->. Qed.

Lemma bind_ret {A B} (a : A) (k : A -> M S B) s : bind (ret a) k s = k a s.
Proof. done. Qed.
Lemma bind_gets {A B} (f : S -> A) (k : A -> M S B) s : bind (gets f) k s = k (f s) s.
Proof. done. Qed.
Lemma bind_modify {B} f (k : unit -> M S B) s : bind (modify f) k s = k tt (f s).
Proof. done. Qed.
Lemma bind_lift {A B} (a : A) (k : A -> M S B) s : bind (lift (Done a)) k s = k a s.
Proof. done. Qed.
Lemma bind_assoc {A B C} (m : M S A) (k : A -> M S B) (h : B -> M S C) s :
  bind (bind m k) h s = bind m (fun a => bind (k a) h) s.
Proof. unfold bind. by destruct (m s) as [[]|]. Qed.

Lemma on_done {T} (p : S -> T) `{!Setter p} {A} (m : M T A) s a t :
  m (p s) = Done (a, t) -> on p m s = Done (a, s <| p := t |>).
Proof. unfold on. by intros ->. Qed.

End Monad.

#[global] Arguments M : simpl never.

Notation "'let*' x := m 'in' k" := (bind m (fun x => k))
  (at level 10, x pattern, m at level 200, k at level 200) : res_scope.
Notation "m ;* k" := (bind m (fun _ => k))
  (at level 100, right associativity) : res_scope.

(** Symbolic execution: steps whose outcome is known by computation, or by
    the equation [E]. *)
Ltac mstep :=
  repeat first
    [ rewrite bind_ret | rewrite bind_gets | rewrite bind_modify | rewrite bind_lift
    | rewrite bind_assoc ].
Tactic Notation "run" uconstr(E) := rewrite (bind_done _ _ _ _ _ E); mstep.

(** One step of the weakest precondition calculus. *)
Ltac wp_step :=
  match goal with
  | |- wp (bind _ _) _ _ => apply wp_bind
  | |- wlp (bind _ _) _ _ => apply wlp_bind
  | |- wp (ret _) _ _ => apply wp_ret
  | |- wlp (ret _) _ _ => apply wlp_ret
  | |- wp (gets _) _ _ => apply wp_gets
  | |- wlp (gets _) _ _ => apply wlp_gets
  | |- wp (modify _) _ _ => apply wp_modify
  | |- wlp (modify _) _ _ => apply wlp_modify
  | |- wlp (stop _) _ _ => apply wlp_stop
  end.

End Monad.
