(* ===== verification/Lfs.v ===== *)
(** * The littlefs interface

    littlefs is a library outside this repository: its operations are the
    class [Lfs], what its documentation promises of them is the class
    [LfsLaws], stated on an abstract volume (the contents of the files, the
    set of directories, and the view of an open file).  [Ram] is a volume held
    in memory that satisfies the laws. *)

From Stdlib Require Export Ascii.
From stdpp Require Export strings gmap sets.
From S2P Require Import Prelude.
#[global] Open Scope Z_scope.

Module Lfs.

(** ** Operations *)

(** [lfs.h]: the open flags, error codes and file types the firmware uses. *)
Definition LFS_O_RDONLY : Z := 1.
Definition LFS_O_RDWR : Z := 3.
Definition LFS_O_CREAT : Z := 0x100.
Definition LFS_O_TRUNC : Z := 0x400.
Definition LFS_O_APPEND : Z := 0x800.
Definition LFS_ERR_NOENT : Z := -2.
Definition LFS_ERR_EXIST : Z := -17.
Definition LFS_ERR_NOSPC : Z := -28.
Definition LFS_FILE_MAX : Z := 2147483647.

(** A volume has 32 blocks of 4096 bytes; an entry takes at least a byte. *)
Definition MAX_ENTRIES : Z := 32 * 4096.

Inductive lfs_type := LFS_TYPE_REG | LFS_TYPE_DIR.
#[export] Instance lfs_type_eq_dec : EqDecision lfs_type.
Proof. solve_decision. Defined.

Class Lfs := {
  lfs_t : Type;
  lfs_file_t : Type;
  lfs_dir_t : Type;
  (** the system call that reserves the flash area *)
  sys_alloc : lfs_t -> Z * lfs_t;
  lfs_mount : lfs_t -> Z * lfs_t;
  lfs_format : lfs_t -> Z * lfs_t;
  lfs_file_opencfg : string -> Z -> lfs_t -> Z * lfs_file_t * lfs_t;
  lfs_file_close : lfs_file_t -> lfs_t -> Z * lfs_file_t * lfs_t;
  lfs_file_size : lfs_file_t -> lfs_t -> Z;
  (** result, the bytes stored in the buffer *)
  lfs_file_read : lfs_file_t -> Z -> lfs_t -> Z * list Z * lfs_file_t * lfs_t;
  lfs_file_write : lfs_file_t -> list Z -> lfs_t -> Z * lfs_file_t * lfs_t;
  (** [LFS_SEEK_SET] *)
  lfs_file_seek : lfs_file_t -> Z -> lfs_t -> Z * lfs_file_t * lfs_t;
  lfs_file_truncate : lfs_file_t -> Z -> lfs_t -> Z * lfs_file_t * lfs_t;
  lfs_dir_open : string -> lfs_t -> Z * lfs_dir_t * lfs_t;
  (** result, type and name of the entry *)
  lfs_dir_read : lfs_dir_t -> lfs_t -> Z * (lfs_type * string) * lfs_dir_t * lfs_t;
  lfs_dir_close : lfs_dir_t -> lfs_t -> Z * lfs_dir_t * lfs_t;
  lfs_remove : string -> lfs_t -> Z * lfs_t;
  lfs_mkdir : string -> lfs_t -> Z * lfs_t;
}.

(** ** The abstract volume *)

(** An open file: its path, position, contents, and whether closing it
    commits the contents ([fv_dirty]) or drops them because a write failed
    ([fv_failed]). *)
Record fview := mkFv {
  fv_name : string;
  fv_pos : nat;
  fv_data : list Z;
  fv_append : bool;
  fv_dirty : bool;
  fv_failed : bool;
}.
#[export] Instance eta_fview : Eta fview := fun v =>
  mkFv (fv_name v) (fv_pos v) (fv_data v) (fv_append v) (fv_dirty v) (fv_failed v).

(** Bytes [d] put at [pos] of a file, a gap filled with zeros. *)
Definition put_at (pos : nat) (d l : list Z) : list Z :=
  take pos l ++ zeros (pos - length l) ++ d ++ drop (pos + length d) l.

(** A file cut, or padded with zeros, to [n] bytes. *)
Definition resize_to (n : nat) (l : list Z) : list Z := take n l ++ zeros (n - length l).

Definition has (flags bit : Z) : bool := negb (Z.land flags bit =? 0).

(** A path cut at its first slash: directory and name. *)
Fixpoint split_path (s : string) : option (string * string) :=
  match s with
  | EmptyString => None
  | String c s =>
      if Ascii.eqb c "/"%char then Some ("", s)%string
      else '(d, n) ← split_path s; Some (String c d, n)
  end.
Definition parent (name : string) : option string := fst <$> split_path name.
Definition in_dir (d n : string) : string := (d +:+ "/" +:+ n)%string.

Definition opened_view (name : string) (flags : Z) (old : option (list Z)) : fview :=
  mkFv name 0 (if has flags LFS_O_TRUNC then [] else default [] old)
    (has flags LFS_O_APPEND) (has flags LFS_O_TRUNC) false.

Definition write_pos (v : fview) : nat :=
  if fv_append v then length (fv_data v) else fv_pos v.

(** What littlefs promises on a medium without I/O errors whose metadata
    commits succeed ([healthy]): only [lfs_file_write] can fail, when the
    volume is full, and a file with a failed write keeps its old contents. *)
Class LfsLaws (L : Lfs) := {
  healthy : lfs_t -> Prop;
  files : lfs_t -> gmap string (list Z);
  dirs : lfs_t -> gset string;
  opened : lfs_t -> lfs_file_t -> fview -> Prop;
  (** an open directory, its path, and the entries it has still to return *)
  listing : lfs_t -> lfs_dir_t -> string -> list (lfs_type * string) -> Prop;

  open_present l name flags : healthy l -> is_Some (files l !! name) ->
    match lfs_file_opencfg name flags l with
    | (r, f, l') => r = 0 /\ healthy l' /\ files l' = files l /\ dirs l' = dirs l /\
        opened l' f (opened_view name flags (files l !! name))
    end;
  open_create l name flags : healthy l -> files l !! name = None -> name ∉ dirs l ->
    has flags LFS_O_CREAT = true -> (forall d, parent name = Some d -> d ∈ dirs l) ->
    match lfs_file_opencfg name flags l with
    | (r, f, l') => r = 0 /\ healthy l' /\ files l' = <[name := []]> (files l) /\
        dirs l' = dirs l /\ opened l' f (opened_view name flags None)
    end;
  open_missing l name flags : healthy l -> files l !! name = None ->
    has flags LFS_O_CREAT = false ->
    match lfs_file_opencfg name flags l with
    | (r, _, l') => r < 0 /\ healthy l' /\ files l' = files l /\ dirs l' = dirs l
    end;
  close_law l f v : healthy l -> opened l f v ->
    match lfs_file_close f l with
    | (r, _, l') => r = 0 /\ healthy l' /\ dirs l' = dirs l /\
        files l' = if fv_dirty v && negb (fv_failed v)
                   then <[fv_name v := fv_data v]> (files l) else files l
    end;
  size_law l f v : healthy l -> opened l f v ->
    lfs_file_size f l = Z.of_nat (length (fv_data v)) /\ Z.of_nat (length (fv_data v)) <= LFS_FILE_MAX;
  read_law l f v n : healthy l -> opened l f v -> fv_failed v = false -> 0 <= n <= LFS_FILE_MAX ->
    match lfs_file_read f n l with
    | (r, d, f', l') => healthy l' /\ files l' = files l /\ dirs l' = dirs l /\
        d = take (Z.to_nat n) (drop (fv_pos v) (fv_data v)) /\ r = Z.of_nat (length d) /\
        opened l' f' (v <| fv_pos := (fv_pos v + length d)%nat |>)
    end;
  seek_law l f v off : healthy l -> opened l f v -> 0 <= off <= LFS_FILE_MAX ->
    match lfs_file_seek f off l with
    | (r, f', l') => r = off /\ healthy l' /\ files l' = files l /\ dirs l' = dirs l /\
        opened l' f' (v <| fv_pos := Z.to_nat off |>)
    end;
  write_law l f v d : healthy l -> opened l f v -> fv_failed v = false ->
    Z.of_nat (write_pos v + length d) <= LFS_FILE_MAX ->
    match lfs_file_write f d l with
    | (r, f', l') => healthy l' /\ files l' = files l /\ dirs l' = dirs l /\
        ((r = Z.of_nat (length d) /\
          opened l' f' (v <| fv_pos := (write_pos v + length d)%nat |>
                          <| fv_data := put_at (write_pos v) d (fv_data v) |> <| fv_dirty := true |>)) \/
         (r < 0 /\ exists v', opened l' f' v' /\ fv_failed v' = true /\ fv_name v' = fv_name v))
    end;
  truncate_law l f v n : healthy l -> opened l f v -> fv_failed v = false ->
    0 <= n <= Z.of_nat (length (fv_data v)) ->
    match lfs_file_truncate f n l with
    | (r, f', l') => r = 0 /\ healthy l' /\ files l' = files l /\ dirs l' = dirs l /\
        exists pos, opened l' f' (v <| fv_data := resize_to (Z.to_nat n) (fv_data v) |>
                                    <| fv_pos := pos |> <| fv_dirty := true |>)
    end;
  remove_law l name : healthy l -> is_Some (files l !! name) ->
    match lfs_remove name l with
    | (r, l') => r = 0 /\ healthy l' /\ files l' = delete name (files l) /\ dirs l' = dirs l /\
        forall dir d es, listing l dir d es ->
          Forall (fun e => in_dir d e.2 <> name) es -> listing l' dir d es
    end;
  mkdir_law l name : healthy l -> files l !! name = None -> parent name = None ->
    match lfs_mkdir name l with
    | (r, l') => r = (if decide (name ∈ dirs l) then LFS_ERR_EXIST else 0) /\ healthy l' /\
        files l' = files l /\ dirs l' = {[name]} ∪ dirs l
    end;
  dir_open_law l d : healthy l -> d ∈ dirs l -> parent d = None ->
    match lfs_dir_open d l with
    | (r, dir, l') => r = 0 /\ healthy l' /\ files l' = files l /\ dirs l' = dirs l /\
        exists es, listing l' dir d es /\ NoDup es.*2 /\ (length es <= size (files l) + size (dirs l))%nat /\
          forall n, (LFS_TYPE_REG, n) ∈ es <-> is_Some (files l !! in_dir d n)
    end;
  dir_open_missing l d : healthy l -> d ∉ dirs l ->
    match lfs_dir_open d l with
    | (r, _, l') => r < 0 /\ healthy l' /\ files l' = files l /\ dirs l' = dirs l
    end;
  dir_read_law l dir d es : healthy l -> listing l dir d es ->
    match lfs_dir_read dir l with
    | (r, info, dir', l') => healthy l' /\ files l' = files l /\ dirs l' = dirs l /\
        match es with
        | [] => r = 0 /\ listing l' dir' d []
        | e :: es => r = 1 /\ info = e /\ listing l' dir' d es
        end
    end;
  dir_close_law l dir d es : healthy l -> listing l dir d es ->
    match lfs_dir_close dir l with
    | (r, _, l') => healthy l' /\ files l' = files l /\ dirs l' = dirs l
    end;
}.


Lemma split_in_dir d n : split_path d = None -> split_path (in_dir d n) = Some (d, n).
Proof.
  unfold in_dir. induction d as [|c d IH]; [done|]. intros H. cbn [split_path] in H.
  change (split_path (String c (d +:+ "/" +:+ n)) = Some (String c d, n)). cbn [split_path].
  destruct (Ascii.eqb c _); [done|]. rewrite IH; [done|]. by destruct (split_path d) as [[]|].
Qed.

Lemma split_path_join s d n : split_path s = Some (d, n) -> s = in_dir d n.
Proof.
  unfold in_dir. revert d n. induction s as [|c s IH]; intros d n; cbn; [done|].
  destruct (Ascii.eqb c _) eqn:E.
  - apply Ascii.eqb_eq in E as ->. by intros [= <- <-].
  - destruct (split_path s) as [[d' n']|] eqn:Es; [|done]. cbn. intros [= <- <-].
    change (String c s = String c (d' +:+ "/" +:+ n')). f_equal. by apply IH.
Qed.

Lemma parent_in_dir d n : parent d = None -> parent (in_dir d n) = Some d.
Proof.
  intros Hd. unfold parent. rewrite split_in_dir; [done|]. unfold parent in Hd.
  by destruct (split_path d).
Qed.

Lemma parent_join s d : parent s = Some d -> exists n, s = in_dir d n.
Proof.
  unfold parent. destruct (split_path s) as [[d' n]|] eqn:E; [|done]. cbn. intros [= <-].
  exists n. by apply split_path_join.
Qed.

Lemma in_dir_inj d : Inj (=) (=) (in_dir d).
Proof. intros n1 n2. unfold in_dir. induction d as [|c d IH]; intros [= H]; [exact H|auto]. Qed.

(** ** A volume in memory *)

Module Ram.

Record ram := mkRam { r_files : gmap string (list Z); r_dirs : gset string }.
#[export] Instance eta_ram : Eta ram := fun r => mkRam (r_files r) (r_dirs r).

Definition ram_open (name : string) (flags : Z) (r : ram) : Z * fview * ram :=
  let old := r_files r !! name in
  match old with
  | Some _ => (0, opened_view name flags old, r)
  | None =>
      if has flags LFS_O_CREAT
      then (0, opened_view name flags None, r <| r_files := <[name := []]> (r_files r) |>)
      else (LFS_ERR_NOENT, opened_view name flags None, r)
  end.

Definition ram_close (f : fview) (r : ram) : Z * fview * ram :=
  (0, f, if fv_dirty f && negb (fv_failed f)
         then r <| r_files := <[fv_name f := fv_data f]> (r_files r) |> else r).

Definition ram_read (f : fview) (n : Z) (r : ram) : Z * list Z * fview * ram :=
  let d := take (Z.to_nat n) (drop (fv_pos f) (fv_data f)) in
  (Z.of_nat (length d), d, f <| fv_pos := (fv_pos f + length d)%nat |>, r).

Definition ram_write (f : fview) (d : list Z) (r : ram) : Z * fview * ram :=
  if bool_decide (Z.of_nat (write_pos f + length d) <= LFS_FILE_MAX) then
    (Z.of_nat (length d),
     f <| fv_pos := (write_pos f + length d)%nat |>
       <| fv_data := put_at (write_pos f) d (fv_data f) |> <| fv_dirty := true |>, r)
  else (LFS_ERR_NOSPC, f <| fv_failed := true |>, r).

Definition ram_list (d : string) (r : ram) : list (lfs_type * string) :=
  omap (fun name =>
          '(p, n) ← split_path name;
          if decide (p = d) then Some (LFS_TYPE_REG, n) else None)
    (map_to_list (r_files r)).*1.

#[export] Instance Ram : Lfs := {
  lfs_t := ram;
  lfs_file_t := fview;
  lfs_dir_t := string * list (lfs_type * string);
  sys_alloc r := (0, r);
  lfs_mount r := (0, r);
  lfs_format r := (0, mkRam ∅ ∅);
  lfs_file_opencfg := ram_open;
  lfs_file_close := ram_close;
  lfs_file_size f _ := Z.of_nat (length (fv_data f));
  lfs_file_read := ram_read;
  lfs_file_write := ram_write;
  lfs_file_seek f off r := (off, f <| fv_pos := Z.to_nat off |>, r);
  lfs_file_truncate f n r :=
    (0, f <| fv_data := resize_to (Z.to_nat n) (fv_data f) |> <| fv_pos := fv_pos f |>
          <| fv_dirty := true |>, r);
  lfs_dir_open d r :=
    if decide (d ∈ r_dirs r) then (0, (d, ram_list d r), r) else (LFS_ERR_NOENT, (d, []), r);
  lfs_dir_read dir r :=
    match dir.2 with
    | [] => (0, (LFS_TYPE_DIR, ""%string), dir, r)
    | e :: es => (1, e, (dir.1, es), r)
    end;
  lfs_dir_close dir r := (0, dir, r);
  lfs_remove name r := (0, r <| r_files := delete name (r_files r) |>);
  lfs_mkdir name r :=
    if decide (name ∈ r_dirs r) then (LFS_ERR_EXIST, r)
    else (0, r <| r_dirs := {[name]} ∪ r_dirs r |>);
}.

Definition ram_healthy (r : ram) : Prop :=
  map_Forall (fun _ l => Z.of_nat (length l) <= LFS_FILE_MAX) (r_files r).

Lemma put_at_length pos d l : length (put_at pos d l) = Nat.max (length l) (pos + length d).
Proof.
  unfold put_at. rewrite !length_app, length_take, zeros_length, length_drop. lia.
Qed.

Lemma resize_to_length n l : length (resize_to n l) = n.
Proof. unfold resize_to. rewrite length_app, length_take, zeros_length. lia. Qed.

Lemma omap_NoDup {A B C} (g : A -> option (C * B)) l :
  (forall x y a b z, g x = Some (a, z) -> g y = Some (b, z) -> x = y) -> NoDup l -> NoDup (omap g l).*2.
Proof.
  intros Hg. induction 1 as [|x l Hx _ IH]; cbn; [constructor|].
  destruct (g x) as [[a z]|] eqn:E; [|done]. constructor; [|done].
  intros ([b ?] & Hz & Hy)%list_elem_of_fmap. cbn in Hz. subst.
  apply list_elem_of_omap in Hy as (y & Hy & Ey).
  by rewrite (Hg x y _ _ _ E Ey) in Hx.
Qed.

Lemma omap_length {A B} (g : A -> option B) l : (length (omap g l) <= length l)%nat.
Proof. induction l as [|x l IH]; cbn; [done|]. destruct (g x); cbn; lia. Qed.

Lemma ram_list_spec d r : split_path d = None ->
  NoDup (ram_list d r).*2 /\ (length (ram_list d r) <= size (r_files r))%nat /\
  forall n, (LFS_TYPE_REG, n) ∈ ram_list d r <-> is_Some (r_files r !! in_dir d n).
Proof.
  intros Hd. unfold ram_list. set (g := fun name => _).
  assert (Hg : forall name t n, g name = Some (t, n) -> t = LFS_TYPE_REG /\ name = in_dir d n).
  { intros name t n. subst g. cbn. destruct (split_path name) as [[p m]|] eqn:E; [|done].
    apply split_path_join in E as ->. cbn. destruct (decide (p = d)); [|done].
    by intros [= <- <-]; subst. }
  split; [|split].
  - apply omap_NoDup; [|apply NoDup_fst_map_to_list].
    by intros x y a b n [_ ->]%Hg [_ ->]%Hg.
  - etrans; [apply omap_length|]. by rewrite length_fmap, length_map_to_list.
  - intros n. rewrite list_elem_of_omap. split.
    + intros (x & Hx & [_ ->]%Hg). apply list_elem_of_fmap in Hx as ([y l] & -> & Hx).
      apply elem_of_map_to_list in Hx. by eexists.
    + intros [l Hl]. exists (in_dir d n). split.
      * apply list_elem_of_fmap. exists (in_dir d n, l). split; [done|]. by apply elem_of_map_to_list.
      * subst g. cbn. rewrite split_in_dir by done. cbn. by rewrite decide_True.
Qed.

Lemma ram_healthy_insert r name d : ram_healthy r -> Z.of_nat (length d) <= LFS_FILE_MAX ->
  ram_healthy (r <| r_files := <[name := d]> (r_files r) |>).
Proof. intros H Hd. by apply map_Forall_insert_2. Qed.

Lemma opened_view_ok r name flags : ram_healthy r ->
  Z.of_nat (length (fv_data (opened_view name flags (r_files r !! name)))) <= LFS_FILE_MAX.
Proof.
  intros H. unfold opened_view, LFS_FILE_MAX in *. cbn. destruct (has _ _); cbn; [lia|].
  destruct (r_files r !! name) eqn:E; cbn; [by apply (H name)|lia].
Qed.

#[export, refine] Instance Ram_laws : LfsLaws Ram := {
  healthy := ram_healthy;
  files := r_files;
  dirs := r_dirs;
  opened _ f v := f = v /\ Z.of_nat (length (fv_data v)) <= LFS_FILE_MAX;
  listing _ dir d es := dir = (d, es);
}.
Proof.
  - intros r name flags Hr [x Hx]. cbn. unfold ram_open. rewrite Hx. rewrite <- Hx.
    do 5 (split; [done|]). by apply opened_view_ok.
  - intros r name flags Hr Hn _ Hf _. cbn. unfold ram_open. rewrite Hn, Hf.
    split; [done|]. split; [by apply ram_healthy_insert|]. do 3 (split; [done|]).
    pose proof (opened_view_ok r name flags Hr) as Ho. by rewrite Hn in Ho.
  - intros r name flags Hr Hn Hf. cbn. unfold ram_open. by rewrite Hn, Hf.
  - intros r f v Hr [-> Hv]. cbn. split; [done|].
    destruct (fv_dirty v && _); [|done]. split; [by apply ram_healthy_insert|done].
  - intros r f v Hr [-> Hv]. done.
  - intros r f v n Hr [-> Hv] _ Hn. cbn. done.
  - intros r f v off Hr [-> Hv] Hoff. done.
  - intros r f v d Hr [-> Hv] Hf Hd. cbn. unfold ram_write. rewrite bool_decide_true by done.
    do 3 (split; [done|]). left. do 2 (split; [done|]). cbn. rewrite put_at_length. lia.
  - intros r f v n Hr [-> Hv] Hf Hn. cbn. do 4 (split; [done|]). exists (fv_pos v).
    split; [done|]. cbn. rewrite resize_to_length. lia.
  - intros r name Hr [x Hx]. cbn. split; [done|]. split; [by apply map_Forall_delete|]. done.
  - intros r name Hr Hn Hp. cbn. destruct (decide _); [|done]. do 3 (split; [done|]).
    by rewrite subseteq_union_1_L by (by apply singleton_subseteq_l).
  - intros r d Hr Hd Hp. cbn. rewrite decide_True by done. do 4 (split; [done|]).
    exists (ram_list d r). split; [done|]. destruct (ram_list_spec d r) as (H1 & H2 & H3).
    { unfold parent in Hp. by destruct (split_path d). }
    split; [done|]. split; [lia|done].
  - intros r d Hr Hd. cbn. by rewrite decide_False.
  - intros r dir d es Hr ->. cbn. by destruct es.
  - intros r dir d es Hr ->. done.
Defined.

End Ram.

End Lfs.
