(* ===== verification/Fs.v ===== *)
(** * The file layer (src/targets/tkey/src/fs.c)

    Thin operations over littlefs that the storage code calls.  A [fs_file_t]
    records whether it is open; its littlefs handle does not exist before the
    first successful open ([{0}] in the source).  The pointers the functions
    test against NULL are addresses of objects in every call and records here. *)

From S2P Require Import Prelude Monad Lfs.
Import Monad Lfs.

Module Fs.

Section Fs.
Context {L : Lfs}.

Record fs_file_t := mkFile {
  file : option lfs_file_t;
  open : bool;
}.
Definition fs_file_zero : fs_file_t := mkFile None false.

Abbreviation FS := (M lfs_t).

(** A littlefs operation as a step of the volume. *)
Definition call {A} (op : lfs_t -> A * lfs_t) : FS A := fun l => Done (op l).

(** Run [k] on the handle of an open file, -1 when it is not open. *)
Definition with_open {A} (f : fs_file_t) (closed : A) (k : lfs_file_t -> FS A) : FS A :=
  if negb (open f) then ret closed
  else match file f with
       | Some h => k h
       | None => stop FOutOfBounds
       end.

Definition fs_init : FS Z :=
  let* err := call sys_alloc in
  if negb (err =? 0) then ret err
  else
    let* err := call lfs_mount in
    if negb (err =? 0) then
      call lfs_format ;* call lfs_mount
    else ret err.

(** The result and the bytes put in [buf]. *)
Definition fs_read_open (name : string) (buf_len : Z) : FS (Z * list Z) :=
  let* (r, f) := call (lfs_file_opencfg name LFS_O_RDONLY) in
  if r <? 0 then ret (r, [])
  else
    let* size := gets (lfs_file_size f) in
    if size <? 0 then
      call (lfs_file_close f) ;* ret (size, [])
    else if size >? buf_len then
      call (lfs_file_close f) ;* ret (LFS_ERR_NOSPC, [])
    else
      let* (r, d, f) := call (lfs_file_read f size) in
      call (lfs_file_close f) ;* ret (r, d).

Definition fs_write_open (name : string) (buf : list Z) : FS Z :=
  let* (r, f) := call (lfs_file_opencfg name (Z.lor (Z.lor LFS_O_RDWR LFS_O_CREAT) LFS_O_TRUNC)) in
  if r <? 0 then ret r
  else
    let* (r, f) := call (lfs_file_write f buf) in
    call (lfs_file_close f) ;* ret r.

Definition fs_open_file (f : fs_file_t) (name : string) (flags : Z) : FS (Z * fs_file_t) :=
  if open f then ret (-1, f)
  else
    let* (r, h) := call (lfs_file_opencfg name flags) in
    ret (r, mkFile (Some h) (r =? 0)).

Definition fs_close_file (f : fs_file_t) : FS (Z * fs_file_t) :=
  with_open f (-1, f) (fun h =>
    let* (r, h) := call (lfs_file_close h) in
    ret (r, mkFile (Some h) (negb (r =? 0)))).

Definition fs_file_size (f : fs_file_t) : FS Z :=
  with_open f (-1) (fun h => gets (lfs_file_size h)).

Definition fs_truncate_file (f : fs_file_t) (size : Z) : FS (Z * fs_file_t) :=
  with_open f (-1, f) (fun h =>
    let* (r, h) := call (lfs_file_truncate h size) in ret (r, mkFile (Some h) true)).

Definition fs_read (f : fs_file_t) (len : Z) : FS (Z * list Z * fs_file_t) :=
  with_open f (-1, [], f) (fun h =>
    let* (r, d, h) := call (lfs_file_read h len) in ret (r, d, mkFile (Some h) true)).

Definition fs_read_at (f : fs_file_t) (len offset : Z) : FS (Z * list Z * fs_file_t) :=
  with_open f (-1, [], f) (fun h =>
    let* (_, h) := call (lfs_file_seek h offset) in
    let* (r, d, h) := call (lfs_file_read h len) in ret (r, d, mkFile (Some h) true)).

Definition fs_write_at (f : fs_file_t) (buf : list Z) (offset : Z) : FS (Z * fs_file_t) :=
  with_open f (-1, f) (fun h =>
    let* (_, h) := call (lfs_file_seek h offset) in
    let* (r, h) := call (lfs_file_write h buf) in ret (r, mkFile (Some h) true)).

Definition fs_write (f : fs_file_t) (buf : list Z) : FS (Z * fs_file_t) :=
  with_open f (-1, f) (fun h =>
    let* (r, h) := call (lfs_file_write h buf) in ret (r, mkFile (Some h) true)).

(** ** Directories *)

(** The [while (true)] over the entries: each iteration consumes one, so that
    [MAX_ENTRIES] iterations end the loop. *)
Fixpoint nr_files_loop (fuel : nat) (dir : lfs_dir_t) (count : Z) : FS Z :=
  match fuel with
  | O => stop FExit
  | S fuel =>
      let* (r, info, dir) := call (lfs_dir_read dir) in
      if r <? 0 then call (lfs_dir_close dir) ;* ret r
      else if r =? 0 then call (lfs_dir_close dir) ;* ret count
      else nr_files_loop fuel dir (if decide (info.1 = LFS_TYPE_REG) then count + 1 else count)
  end.

Definition fs_dir_nr_files (dir_name : string) : FS Z :=
  if decide (dir_name = ""%string) then ret (-2)
  else
    let* (r, dir) := call (lfs_dir_open dir_name) in
    if r <? 0 then ret r else nr_files_loop (S (Z.to_nat MAX_ENTRIES)) dir 0.

Fixpoint dir_del_loop (fuel : nat) (dir_name : string) (dir : lfs_dir_t) : FS Z :=
  match fuel with
  | O => stop FExit
  | S fuel =>
      let* (r, info, dir) := call (lfs_dir_read dir) in
      if r <? 0 then call (lfs_dir_close dir) ;* ret r
      else if r =? 0 then call (lfs_dir_close dir) ;* ret 0
      else if decide (info.1 = LFS_TYPE_REG) then
        let* r := call (lfs_remove (in_dir dir_name info.2)) in
        if r <? 0 then call (lfs_dir_close dir) ;* ret r
        else dir_del_loop fuel dir_name dir
      else dir_del_loop fuel dir_name dir
  end.

Definition fs_dir_del (dir_name : string) : FS Z :=
  if decide (dir_name = ""%string) then ret (-2)
  else
    let* (r, dir) := call (lfs_dir_open dir_name) in
    if r <? 0 then ret r else dir_del_loop (S (Z.to_nat MAX_ENTRIES)) dir_name dir.

Definition fs_create_dir (dir_name : string) : FS Z :=
  if decide (dir_name = ""%string) then ret (-2)
  else
    let* r := call (lfs_mkdir dir_name) in
    if (r <? 0) && negb (r =? LFS_ERR_EXIST) then ret r else ret 0.

End Fs.

(** ** What the operations do on a healthy volume *)

Section Laws.
Context {L : Lfs} {LL : LfsLaws L}.

(** The volume holds the files [m] and the directories [ds]. *)
Definition vol (m : gmap string (list Z)) (ds : gset string) (l : lfs_t) : Prop :=
  healthy l /\ files l = m /\ dirs l = ds.

Definition is_open (f : fs_file_t) (v : fview) (l : lfs_t) : Prop :=
  open f = true /\ exists h, file f = Some h /\ opened l h v.

(** A path that exists or that an open with [LFS_O_CREAT] can create. *)
Definition creatable (m : gmap string (list Z)) (ds : gset string) (name : string) : Prop :=
  is_Some (m !! name) \/ (name ∉ ds /\ forall d, parent name = Some d -> d ∈ ds).

Definition touched (name : string) (m : gmap string (list Z)) : gmap string (list Z) :=
  <[name := default [] (m !! name)]> m.

Lemma touched_present name m : is_Some (m !! name) -> touched name m = m.
Proof. intros [x Hx]. unfold touched. rewrite Hx. by apply insert_id. Qed.

Lemma touched_other name n m : n <> name -> touched name m !! n = m !! n.
Proof. intros. by apply lookup_insert_ne. Qed.

Lemma opencfg_ok m ds l name flags : vol m ds l ->
  is_Some (m !! name) \/ (has flags LFS_O_CREAT = true /\ creatable m ds name) ->
  exists f l', lfs_file_opencfg name flags l = (0, f, l') /\ vol (touched name m) ds l' /\
    opened l' f (opened_view name flags (m !! name)).
Proof.
  intros (Hl & Hm & Hds) Hn. subst.
  assert (is_Some (files l !! name) \/ (files l !! name = None /\ has flags LFS_O_CREAT = true /\
    name ∉ dirs l /\ forall d, parent name = Some d -> d ∈ dirs l)) as [Hs|(Hs & Hf & Hd & Hp)].
  { unfold creatable in Hn. destruct (files l !! name); [by left; eexists|].
    destruct Hn as [[]|[? [[]|[]]]]; try done. by right. }
  - pose proof (open_present l name flags Hl Hs) as H.
    destruct (lfs_file_opencfg name flags l) as [[r f] l']. destruct H as (-> & H1 & H2 & H3 & H4).
    exists f, l'. rewrite touched_present by done. done.
  - pose proof (open_create l name flags Hl Hs Hd Hf Hp) as H.
    destruct (lfs_file_opencfg name flags l) as [[r f] l']. destruct H as (-> & H1 & H2 & H3 & H4).
    exists f, l'. unfold touched. rewrite Hs. done.
Qed.

(** Opening a file that exists or may be created. *)
Lemma fs_open_file_ok m ds l f name flags : vol m ds l -> open f = false ->
  is_Some (m !! name) \/ (has flags LFS_O_CREAT = true /\ creatable m ds name) ->
  wp (fs_open_file f name flags) (fun '(r, f) l => r = 0 /\ vol (touched name m) ds l /\
    is_open f (opened_view name flags (m !! name)) l) l.
Proof.
  intros Hl Hf Hn. unfold fs_open_file. rewrite Hf.
  destruct (opencfg_ok _ _ _ _ flags Hl Hn) as (h & l' & E & Hl' & Ho).
  unfold wp, bind, call. rewrite E. cbn. do 2 (split; [done|]). split; [done|]. by exists h.
Qed.

Lemma fs_open_file_missing m ds l f name flags : vol m ds l -> open f = false ->
  m !! name = None -> has flags LFS_O_CREAT = false ->
  wp (fs_open_file f name flags) (fun '(r, f) l => r < 0 /\ vol m ds l /\ open f = false) l.
Proof.
  intros (Hl & Hm & Hds) Hf Hn Hc. subst. unfold fs_open_file. rewrite Hf.
  pose proof (open_missing l name flags Hl Hn Hc) as H. unfold wp, bind, call.
  destruct (lfs_file_opencfg name flags l) as [[r h] l']. cbn. destruct H as (H0 & H1 & H2 & H3).
  do 2 (split; [done|]). destruct (r =? 0) eqn:E; zbool; [lia|done].
Qed.

(** Contents after the file with view [v] is closed. *)
Definition committed (v : fview) (m : gmap string (list Z)) : gmap string (list Z) :=
  if fv_dirty v && negb (fv_failed v) then <[fv_name v := fv_data v]> m else m.

Lemma close_ok m ds l h v : vol m ds l -> opened l h v ->
  exists h' l', lfs_file_close h l = (0, h', l') /\ vol (committed v m) ds l'.
Proof.
  intros (Hl & Hm & Hds) Ho. subst. pose proof (close_law l h v Hl Ho) as H.
  destruct (lfs_file_close h l) as [[r h'] l']. destruct H as (-> & H1 & H2 & H3).
  exists h', l'. split; [done|]. split; [done|]. split; [|done]. exact H3.
Qed.

Lemma fs_close_file_ok m ds l f v : vol m ds l -> is_open f v l ->
  wp (fs_close_file f) (fun '(r, f) l => r = 0 /\ open f = false /\ vol (committed v m) ds l) l.
Proof.
  intros Hl (Hf & h & Hh & Ho). unfold fs_close_file, with_open. rewrite Hf, Hh. cbn [negb].
  destruct (close_ok _ _ _ _ _ Hl Ho) as (h' & l' & E & Hl').
  unfold wp, bind, call. rewrite E. cbn. done.
Qed.

Lemma fs_file_size_ok m ds l f v : vol m ds l -> is_open f v l ->
  wp (fs_file_size f) (fun r l' => l' = l /\ r = Z.of_nat (length (fv_data v)) /\ r <= LFS_FILE_MAX) l.
Proof.
  intros (Hl & _ & _) (Hf & h & Hh & Ho). unfold fs_file_size, with_open. rewrite Hf, Hh. cbn.
  destruct (size_law l h v Hl Ho) as [-> ?]. done.
Qed.

Lemma read_ok m ds l h v n : vol m ds l -> opened l h v -> fv_failed v = false ->
  0 <= n <= LFS_FILE_MAX ->
  let d := take (Z.to_nat n) (drop (fv_pos v) (fv_data v)) in
  exists h' l', lfs_file_read h n l = (Z.of_nat (length d), d, h', l') /\ vol m ds l' /\
    opened l' h' (v <| fv_pos := (fv_pos v + length d)%nat |>).
Proof.
  intros (Hl & Hm & Hds) Ho Hv Hn d. subst. pose proof (read_law l h v n Hl Ho Hv Hn) as H.
  destruct (lfs_file_read h n l) as [[[r d'] h'] l']. destruct H as (H1 & H2 & H3 & -> & -> & H4).
  exists h', l'. done.
Qed.

Lemma fs_read_ok m ds l f v n : vol m ds l -> is_open f v l -> fv_failed v = false ->
  0 <= n <= LFS_FILE_MAX ->
  wp (fs_read f n) (fun '(r, d, f) l =>
    d = take (Z.to_nat n) (drop (fv_pos v) (fv_data v)) /\ r = Z.of_nat (length d) /\
    vol m ds l /\ is_open f (v <| fv_pos := (fv_pos v + length d)%nat |>) l) l.
Proof.
  intros Hl (Hf & h & Hh & Ho) Hv Hn. unfold fs_read, with_open. rewrite Hf, Hh. cbn [negb].
  destruct (read_ok _ _ _ _ _ _ Hl Ho Hv Hn) as (h' & l' & E & Hl' & Ho').
  unfold wp, bind, call. rewrite E. cbn. do 3 (split; [done|]). split; [done|]. by exists h'.
Qed.

Lemma seek_ok m ds l h v off : vol m ds l -> opened l h v -> 0 <= off <= LFS_FILE_MAX ->
  exists h' l', lfs_file_seek h off l = (off, h', l') /\ vol m ds l' /\
    opened l' h' (v <| fv_pos := Z.to_nat off |>).
Proof.
  intros (Hl & Hm & Hds) Ho Hn. subst. pose proof (seek_law l h v off Hl Ho Hn) as H.
  destruct (lfs_file_seek h off l) as [[r h'] l']. destruct H as (-> & H1 & H2 & H3 & H4).
  exists h', l'. done.
Qed.

Lemma fs_read_at_ok m ds l f v n off : vol m ds l -> is_open f v l -> fv_failed v = false ->
  0 <= n <= LFS_FILE_MAX -> 0 <= off <= LFS_FILE_MAX ->
  wp (fs_read_at f n off) (fun '(r, d, f) l =>
    d = take (Z.to_nat n) (drop (Z.to_nat off) (fv_data v)) /\ r = Z.of_nat (length d) /\
    vol m ds l /\ is_open f (v <| fv_pos := (Z.to_nat off + length d)%nat |>) l) l.
Proof.
  intros Hl (Hf & h & Hh & Ho) Hv Hn Hoff. unfold fs_read_at, with_open. rewrite Hf, Hh. cbn [negb].
  destruct (seek_ok _ _ _ _ _ _ Hl Ho Hoff) as (h1 & l1 & E1 & Hl1 & Ho1).
  destruct (read_ok _ _ _ _ _ n Hl1 Ho1 Hv Hn) as (h2 & l2 & E2 & Hl2 & Ho2).
  unfold wp, bind, call. rewrite E1, E2. cbn. do 3 (split; [done|]). split; [done|]. by exists h2.
Qed.

(** A write either appends or overwrites the bytes, or fails and leaves a
    handle that will not commit anything. *)
Definition written (v : fview) (d : list Z) : fview :=
  v <| fv_pos := (write_pos v + length d)%nat |> <| fv_data := put_at (write_pos v) d (fv_data v) |>
    <| fv_dirty := true |>.

Lemma write_ok m ds l h v d : vol m ds l -> opened l h v -> fv_failed v = false ->
  Z.of_nat (write_pos v + length d) <= LFS_FILE_MAX ->
  exists r h' l' v', lfs_file_write h d l = (r, h', l') /\ vol m ds l' /\ opened l' h' v' /\
    ((r = Z.of_nat (length d) /\ v' = written v d) \/ (r < 0 /\ fv_failed v' = true)).
Proof.
  intros (Hl & Hm & Hds) Ho Hv Hn. subst. pose proof (write_law l h v d Hl Ho Hv Hn) as H.
  destruct (lfs_file_write h d l) as [[r h'] l'].
  destruct H as (H1 & H2 & H3 & [[-> H4]|(H0 & v' & H4 & H5 & _)]).
  - exists (Z.of_nat (length d)), h', l', (written v d). split; [done|]. split; [done|]. split; [done|]. by left.
  - exists r, h', l', v'. split; [done|]. split; [done|]. split; [done|]. by right.
Qed.

Lemma fs_write_ok m ds l f v d : vol m ds l -> is_open f v l -> fv_failed v = false ->
  Z.of_nat (write_pos v + length d) <= LFS_FILE_MAX ->
  wp (fs_write f d) (fun '(r, f) l => vol m ds l /\ exists v', is_open f v' l /\
    ((r = Z.of_nat (length d) /\ v' = written v d) \/ (r < 0 /\ fv_failed v' = true))) l.
Proof.
  intros Hl (Hf & h & Hh & Ho) Hv Hn. unfold fs_write, with_open. rewrite Hf, Hh. cbn [negb].
  destruct (write_ok _ _ _ _ _ _ Hl Ho Hv Hn) as (r & h' & l' & v' & E & Hl' & Ho' & Hr).
  unfold wp, bind, call. rewrite E. cbn. split; [done|]. exists v'. split; [|done]. split; [done|]. by exists h'.
Qed.

Lemma fs_write_at_ok m ds l f v d off : vol m ds l -> is_open f v l -> fv_failed v = false ->
  fv_append v = false -> 0 <= off -> off + Z.of_nat (length d) <= LFS_FILE_MAX ->
  wp (fs_write_at f d off) (fun '(r, f) l => vol m ds l /\ exists v', is_open f v' l /\
    ((r = Z.of_nat (length d) /\ v' = written (v <| fv_pos := Z.to_nat off |>) d) \/
     (r < 0 /\ fv_failed v' = true))) l.
Proof.
  intros Hl (Hf & h & Hh & Ho) Hv Ha Hoff Hn. unfold fs_write_at, with_open. rewrite Hf, Hh. cbn [negb].
  destruct (seek_ok _ _ _ _ _ off Hl Ho ltac:(lia)) as (h1 & l1 & E1 & Hl1 & Ho1).
  destruct (write_ok _ _ _ _ _ d Hl1 Ho1 Hv) as (r & h' & l' & v' & E & Hl' & Ho' & Hr).
  { unfold write_pos. cbn. rewrite Ha. lia. }
  unfold wp, bind, call. rewrite E1, E. cbn. split; [done|]. exists v'. split; [|done]. split; [done|]. by exists h'.
Qed.

Lemma fs_truncate_file_ok m ds l f v n : vol m ds l -> is_open f v l -> fv_failed v = false ->
  0 <= n <= Z.of_nat (length (fv_data v)) ->
  wp (fs_truncate_file f n) (fun '(r, f) l => r = 0 /\ vol m ds l /\
    exists pos, is_open f (v <| fv_data := resize_to (Z.to_nat n) (fv_data v) |>
                             <| fv_pos := pos |> <| fv_dirty := true |>) l) l.
Proof.
  intros (Hl & Hm & Hds) (Hf & h & Hh & Ho) Hv Hn. subst. unfold fs_truncate_file, with_open.
  rewrite Hf, Hh. cbn [negb]. pose proof (truncate_law l h v n Hl Ho Hv Hn) as H. unfold wp, bind, call.
  destruct (lfs_file_truncate h n l) as [[r h'] l']. cbn. destruct H as (-> & H1 & H2 & H3 & pos & H4).
  do 2 (split; [done|]). exists pos. split; [done|]. by exists h'.
Qed.

End Laws.

End Fs.
