(* ===== verification/FsProps.v ===== *)
(** * Properties of the file layer

    Whole-file writes are all or nothing, and the directory operations visit
    every entry exactly once. *)

From S2P Require Import Prelude Monad Lfs Fs.
Import Monad Lfs Fs.

Module FsProps.

Section FsProps.
Context {L : Lfs} {LL : LfsLaws L}.

Lemma put_at_fresh d : put_at 0 d [] = d.
Proof. unfold put_at. cbn. by rewrite drop_nil, app_nil_r. Qed.

Lemma fs_write_open_ok m ds l name buf : vol m ds l -> creatable m ds name ->
  Z.of_nat (length buf) <= LFS_FILE_MAX ->
  wp (fs_write_open name buf) (fun r l =>
    (r = Z.of_nat (length buf) /\ vol (<[name := buf]> m) ds l) \/
    (r < 0 /\ vol (touched name m) ds l)) l.
Proof.
  intros Hl Hn Hlen. unfold fs_write_open. set (fl := Z.lor _ _).
  destruct (opencfg_ok _ _ _ _ fl Hl (or_intror (conj eq_refl Hn))) as (h & l1 & E1 & Hl1 & Ho1).
  unfold wp, bind, call. rewrite E1. cbn -[LFS_FILE_MAX].
  set (v := opened_view _ _ _) in *. assert (Hv : v = mkFv name 0 [] false true false) by done.
  rewrite Hv in *. clear v Hv.
  destruct (write_ok _ _ _ _ _ buf Hl1 Ho1 eq_refl) as (r & h2 & l2 & v2 & E2 & Hl2 & Ho2 & Hr).
  { cbn. lia. }
  rewrite E2. destruct (close_ok _ _ _ _ _ Hl2 Ho2) as (h3 & l3 & E3 & Hl3). rewrite E3. cbn.
  destruct Hr as [[-> ->]|[Hr Hv]].
  - left. split; [done|]. unfold committed, written, touched in Hl3. cbn -[put_at] in Hl3.
    rewrite put_at_fresh, insert_insert_eq in Hl3. done.
  - right. split; [done|]. unfold committed in Hl3. by rewrite Hv, andb_false_r in Hl3.
Qed.

Lemma fs_read_open_ok m ds l name d buf_len : vol m ds l -> m !! name = Some d ->
  0 <= buf_len ->
  wp (fs_read_open name buf_len) (fun p l => vol m ds l /\
    p = if Z.of_nat (length d) >? buf_len then (LFS_ERR_NOSPC, []) else (Z.of_nat (length d), d)) l.
Proof.
  intros Hl Hn Hb. unfold fs_read_open. pose proof (mk_is_Some _ _ Hn) as Hs.
  destruct (opencfg_ok _ _ _ _ LFS_O_RDONLY Hl (or_introl Hs)) as (h & l1 & E1 & Hl1 & Ho1).
  rewrite touched_present in Hl1 by done. rewrite Hn in Ho1.
  unfold wp, bind, call, gets. rewrite E1. cbn -[LFS_FILE_MAX LFS_ERR_NOSPC].
  set (v := opened_view _ _ _) in *. assert (Hv : v = mkFv name 0 d false false false) by done.
  rewrite Hv in *. clear v Hv. destruct Hl1 as (Hh1 & Hm1).
  destruct (size_law _ _ _ Hh1 Ho1) as [-> Hmax]. cbn [fv_data] in *.
  destruct (_ <? 0) eqn:E; zbool; [lia|]. destruct (_ >? buf_len) eqn:Eb.
  - destruct (close_ok m ds _ _ _ (conj Hh1 Hm1) Ho1) as (h3 & l3 & E3 & Hl3). rewrite E3. done.
  - destruct (read_ok m ds _ _ _ (Z.of_nat (length d)) (conj Hh1 Hm1) Ho1 eq_refl ltac:(lia))
      as (h2 & l2 & E2 & Hl2 & Ho2). cbn [fv_pos fv_data drop] in *.
    rewrite Nat2Z.id, (take_ge d) in E2 by lia. rewrite E2.
    destruct (close_ok _ _ _ _ _ Hl2 Ho2) as (h3 & l3 & E3 & Hl3). rewrite E3. done.
Qed.

Lemma fs_read_open_missing m ds l name buf_len : vol m ds l -> m !! name = None ->
  wp (fs_read_open name buf_len) (fun p l => vol m ds l /\ p.1 < 0) l.
Proof.
  intros (Hl & Hm & Hds) Hn. subst. unfold fs_read_open, wp, bind, call.
  pose proof (open_missing l name LFS_O_RDONLY Hl Hn eq_refl) as H.
  destruct (lfs_file_opencfg name LFS_O_RDONLY l) as [[r h] l']. destruct H as (H0 & H1 & H2 & H3).
  destruct (r <? 0) eqn:E; zbool; [|lia]. done.
Qed.

(** C32: writing a whole file is all or nothing: when [fs_write_open] reports
    the length written, [fs_read_open] returns exactly those bytes; when it
    reports an error, the file still has its previous contents (or is empty
    when it was new).  No other file changes. *)
Theorem fs_write_open_atomic m ds l name buf buf_len :
  vol m ds l -> creatable m ds name -> Z.of_nat (length buf) <= LFS_FILE_MAX ->
  let old := default [] (m !! name) in
  Z.of_nat (length buf) <= buf_len -> Z.of_nat (length old) <= buf_len ->
  wp (let* r := fs_write_open name buf in let* p := fs_read_open name buf_len in ret (r, p))
    (fun '(r, (n, d)) l =>
       n = Z.of_nat (length d) /\ vol (<[name := d]> m) ds l /\
       ((r = Z.of_nat (length buf) /\ d = buf) \/ (r < 0 /\ d = old))) l.
Proof.
  intros Hl Hn Hlen old Hb Ho. apply wp_bind. eapply wp_mono; [by apply fs_write_open_ok|].
  intros r l1 Hr. apply wp_bind.
  assert (exists d, vol (<[name := d]> m) ds l1 /\ Z.of_nat (length d) <= buf_len /\
    ((r = Z.of_nat (length buf) /\ d = buf) \/ (r < 0 /\ d = old))) as (d & Hd & Hdl & Hrd).
  { destruct Hr as [[-> H]|[Hr H]]; [exists buf|exists old]; eauto. }
  eapply wp_mono; [apply fs_read_open_ok; [done|by apply lookup_insert_eq|lia]|].
  intros p l2 [Hl2 ->]. destruct (_ >? buf_len) eqn:E; zbool; [lia|]. apply wp_ret. done.
Qed.

(** ** Directories *)

(** The files outside directory [d]. *)
Definition outside (d : string) (m : gmap string (list Z)) : gmap string (list Z) :=
  filter (fun kv => parent kv.1 <> Some d) m.

(** [es] lists the regular files of [d], each once. *)
Definition entries (d : string) (m : gmap string (list Z)) (es : list (lfs_type * string)) : Prop :=
  NoDup es.*2 /\ forall n, (LFS_TYPE_REG, n) ∈ es <-> is_Some (m !! in_dir d n).

Lemma outside_done d m : (forall n, m !! in_dir d n = None) -> outside d m = m.
Proof.
  intros H. apply map_eq. intros k. unfold outside. destruct (m !! k) as [x|] eqn:E.
  - apply map_lookup_filter_Some_2; [done|]. cbn. intros Hp. apply parent_join in Hp as [n ->].
    by rewrite H in E.
  - apply map_lookup_filter_None. by left.
Qed.

Lemma outside_delete d n m : parent d = None -> outside d (delete (in_dir d n) m) = outside d m.
Proof.
  intros Hd. unfold outside. apply map_filter_strong_ext. intros k x. cbn.
  split; intros [Hk H]; (split; [done|]).
  - by apply lookup_delete_Some in H as [_ H].
  - apply lookup_delete_Some. split; [|done]. intros <-. by apply Hk, parent_in_dir.
Qed.

Lemma dir_open_ok m ds l d : vol m ds l -> d ∈ ds -> parent d = None ->
  exists dir l' es, lfs_dir_open d l = (0, dir, l') /\ vol m ds l' /\ listing l' dir d es /\
    entries d m es /\ (length es <= size m + size ds)%nat.
Proof.
  intros (Hl & Hm & Hds) Hd Hp. subst. pose proof (dir_open_law l d Hl Hd Hp) as H.
  destruct (lfs_dir_open d l) as [[r dir] l'].
  destruct H as (-> & H1 & H2 & H3 & es & H4 & H5 & H6 & H7). by exists dir, l', es.
Qed.

Lemma dir_read_ok m ds l dir d es : vol m ds l -> listing l dir d es ->
  exists r info dir' l', lfs_dir_read dir l = (r, info, dir', l') /\ vol m ds l' /\
    match es with [] => r = 0 /\ listing l' dir' d [] | e :: es => r = 1 /\ info = e /\ listing l' dir' d es end.
Proof.
  intros (Hl & Hm & Hds) Hd. subst. pose proof (dir_read_law l dir d es Hl Hd) as H.
  destruct (lfs_dir_read dir l) as [[[r info] dir'] l']. destruct H as (H1 & H2 & H3 & H4).
  by exists r, info, dir', l'.
Qed.

Lemma entries_cons_other d m t n es : entries d m ((t, n) :: es) -> t <> LFS_TYPE_REG -> entries d m es.
Proof.
  intros [Hnd H] Ht. apply NoDup_cons in Hnd as [_ Hnd]. split; [done|]. intros n'.
  rewrite <- H, elem_of_cons. naive_solver.
Qed.

Lemma entries_remove d m n es : entries d m ((LFS_TYPE_REG, n) :: es) ->
  entries d (delete (in_dir d n) m) es /\ Forall (fun e => in_dir d e.2 <> in_dir d n) es.
Proof.
  intros [Hnd H]. cbn in Hnd. apply NoDup_cons in Hnd as [Hn Hnd]. split.
  - split; [done|]. intros n'. specialize (H n'). rewrite elem_of_cons in H.
    destruct (decide (n' = n)) as [-> |Hne].
    + rewrite lookup_delete_eq. split; [|by intros []]. intros He. exfalso.
      apply Hn, list_elem_of_fmap. by exists (LFS_TYPE_REG, n).
    + rewrite lookup_delete_ne by (by intros ?%(in_dir_inj d)). rewrite <- H. naive_solver.
  - apply Forall_forall. intros e He Hd%(in_dir_inj d). apply Hn, list_elem_of_fmap. by exists e.
Qed.

Lemma entries_nil_outside d m : entries d m [] -> outside d m = m.
Proof.
  intros [_ H]. apply outside_done. intros n. apply eq_None_not_Some. rewrite <- H. by intros []%elem_of_nil.
Qed.

Lemma dir_close_ok m ds l dir d es : vol m ds l -> listing l dir d es ->
  exists r dir' l', lfs_dir_close dir l = (r, dir', l') /\ vol m ds l'.
Proof.
  intros (Hl & Hm & Hds) Hd. subst. pose proof (dir_close_law l dir d es Hl Hd) as H.
  destruct (lfs_dir_close dir l) as [[r dir'] l']. destruct H as (H1 & H2 & H3). by exists r, dir', l'.
Qed.

Lemma remove_ok m ds l name dir d es : vol m ds l -> is_Some (m !! name) ->
  listing l dir d es -> Forall (fun e => in_dir d e.2 <> name) es ->
  exists l', lfs_remove name l = (0, l') /\ vol (delete name m) ds l' /\ listing l' dir d es.
Proof.
  intros (Hl & Hm & Hds) Hn Hdir Hes. subst. pose proof (remove_law l name Hl Hn) as H.
  destruct (lfs_remove name l) as [r l']. destruct H as (-> & H1 & H2 & H3 & H4). exists l'.
  split; [done|]. split; [done|]. by apply H4.
Qed.

Lemma dir_del_loop_ok ds d (Hd : parent d = None) : forall fuel m l dir es,
  vol m ds l -> listing l dir d es -> entries d m es -> (length es < fuel)%nat ->
  wp (dir_del_loop fuel d dir) (fun r l => r = 0 /\ vol (outside d m) ds l) l.
Proof.
  induction fuel as [|fuel IH]; intros m l dir es Hl Hdir He Hf; [lia|]. cbn [dir_del_loop].
  destruct (dir_read_ok _ _ _ _ _ _ Hl Hdir) as (r & info & dir' & l1 & E1 & Hl1 & Hr).
  unfold wp, bind at 1, call at 1. rewrite E1. destruct es as [|[t n] es].
  - destruct Hr as [-> Hdir1]. cbn. destruct (dir_close_ok _ _ _ _ _ _ Hl1 Hdir1) as (r2 & dir2 & l2 & E2 & Hl2).
    unfold bind, call. rewrite E2. by rewrite entries_nil_outside.
  - destruct Hr as (-> & -> & Hdir1). cbn [Z.ltb Z.compare Z.eqb fst snd]. cbn [length] in Hf.
    destruct (decide (t = LFS_TYPE_REG)) as [-> |Ht]; cycle 1.
    { apply IH with es; [done..| |lia]. by eapply entries_cons_other. }
    destruct (entries_remove _ _ _ _ He) as [He1 Hne].
    assert (Hs : is_Some (m !! in_dir d n)) by (apply He; constructor).
    destruct (remove_ok _ _ _ _ _ _ _ Hl1 Hs Hdir1 Hne) as (l2 & E2 & Hl2 & Hdir2).
    unfold bind at 1, call at 1. rewrite E2. cbn [Z.ltb Z.compare].
    eapply wp_mono; [apply (IH _ _ _ _ Hl2 Hdir2 He1); lia|]. cbn. intros r l3. by rewrite outside_delete.
Qed.

(** Deleting a directory's files ends, removes every regular file below
    it and touches nothing else, whatever order littlefs lists them in and
    although entries disappear while it is listing. *)
Theorem fs_dir_del_correct m ds l d :
  vol m ds l -> d ∈ ds -> parent d = None -> d <> ""%string ->
  Z.of_nat (size m + size ds) <= MAX_ENTRIES ->
  wp (fs_dir_del d) (fun r l => r = 0 /\ vol (outside d m) ds l) l.
Proof.
  intros Hl Hd Hp Hne Hsz. unfold fs_dir_del. rewrite decide_False by done.
  destruct (dir_open_ok _ _ _ _ Hl Hd Hp) as (dir & l1 & es & E1 & Hl1 & Hdir & He & Hlen).
  unfold wp, bind at 1, call. rewrite E1. cbn [Z.ltb Z.compare].
  apply (dir_del_loop_ok _ _ Hp _ _ _ _ _ Hl1 Hdir He). lia.
Qed.

(** The regular files directly in directory [d]. *)
Definition inside (d : string) (m : gmap string (list Z)) : gmap string (list Z) :=
  filter (fun kv => parent kv.1 = Some d) m.

Definition regular (es : list (lfs_type * string)) : list string :=
  (filter (fun e => e.1 = LFS_TYPE_REG) es).*2.

Lemma entries_size d m es : parent d = None -> entries d m es ->
  length (regular es) = size (inside d m).
Proof.
  intros Hd [Hnd He]. unfold inside. rewrite <- size_dom. 
  replace (dom _) with (list_to_set (C := gset string) (in_dir d <$> regular es)).
  - rewrite size_list_to_set, length_fmap; [done|]. apply NoDup_fmap_2; [apply in_dir_inj|].
    unfold regular. eapply sublist_NoDup; [exact Hnd|]. apply fmap_sublist, sublist_filter.
  - apply set_eq. intros k. rewrite elem_of_list_to_set, list_elem_of_fmap, elem_of_dom.
    unfold regular. setoid_rewrite list_elem_of_fmap. setoid_rewrite list_elem_of_filter. split.
    + intros (n & -> & [t n'] & -> & [Ht He']). cbn in Ht. subst t. apply He in He' as [x Hx].
      exists x. apply map_lookup_filter_Some_2; [done|]. by apply parent_in_dir.
    + intros [x Hx]. apply map_lookup_filter_Some in Hx as [Hx Hp]. cbn in Hp.
      apply parent_join in Hp as [n ->]. exists n. split; [done|]. exists (LFS_TYPE_REG, n).
      split; [done|]. split; [done|]. apply He. by eexists.
Qed.

Lemma nr_files_loop_ok m ds d : forall fuel l dir es count,
  vol m ds l -> listing l dir d es -> (length es < fuel)%nat ->
  wp (nr_files_loop fuel dir count) (fun r l =>
    r = count + Z.of_nat (length (regular es)) /\ vol m ds l) l.
Proof.
  induction fuel as [|fuel IH]; intros l dir es count Hl Hdir Hf; [lia|]. cbn [nr_files_loop].
  destruct (dir_read_ok _ _ _ _ _ _ Hl Hdir) as (r & info & dir' & l1 & E1 & Hl1 & Hr).
  unfold wp, bind at 1, call at 1. rewrite E1. destruct es as [|[t n] es].
  - destruct Hr as [-> Hdir1]. cbn. destruct (dir_close_ok _ _ _ _ _ _ Hl1 Hdir1) as (r2 & dir2 & l2 & E2 & Hl2).
    unfold bind, call. rewrite E2. cbn. split; [lia|done].
  - destruct Hr as (-> & -> & Hdir1). cbn [Z.ltb Z.compare Z.eqb fst snd]. cbn [length] in Hf.
    eapply wp_mono; [apply (IH _ _ es); [done|done|lia]|]. cbn. intros r l3 [-> Hl3]. split; [|done].
    unfold regular.
    repeat case_decide; try done. rewrite fmap_cons, length_cons, Nat2Z.inj_succ.
    by rewrite Z.add_succ_r, <- Z.add_succ_l.
Qed.

(** [fs_dir_nr_files] ends and returns the number of regular files below
    the directory, without changing the volume. *)
Theorem fs_dir_nr_files_correct m ds l d :
  vol m ds l -> d ∈ ds -> parent d = None -> d <> ""%string ->
  Z.of_nat (size m + size ds) <= MAX_ENTRIES ->
  wp (fs_dir_nr_files d) (fun r l => r = Z.of_nat (size (inside d m)) /\ vol m ds l) l.
Proof.
  intros Hl Hd Hp Hne Hsz. unfold fs_dir_nr_files. rewrite decide_False by done.
  destruct (dir_open_ok _ _ _ _ Hl Hd Hp) as (dir & l1 & es & E1 & Hl1 & Hdir & He & Hlen).
  unfold wp, bind at 1, call. rewrite E1. cbn [Z.ltb Z.compare].
  eapply wp_mono; [apply (nr_files_loop_ok _ _ _ _ _ _ _ 0 Hl1 Hdir); lia|]. cbn.
  intros r l2 [-> Hl2]. by rewrite (entries_size _ _ _ Hp He).
Qed.

Lemma fs_create_dir_ok m ds l d : vol m ds l -> m !! d = None -> parent d = None -> d <> ""%string ->
  wp (fs_create_dir d) (fun r l => r = 0 /\ vol m ({[d]} ∪ ds) l) l.
Proof.
  intros (Hl & Hm & Hds) Hd Hp Hne. subst. unfold fs_create_dir. rewrite decide_False by done.
  pose proof (mkdir_law l d Hl Hd Hp) as H. unfold wp, bind, call.
  destruct (lfs_mkdir d l) as [r l']. destruct H as (-> & H1 & H2 & H3).
  by destruct (decide _).
Qed.

End FsProps.

(** ** The hypotheses hold on a volume in memory *)

Import Ram.

Definition demo : ram :=
  mkRam (<["rk/a"%string := [1; 2]]> (<["state"%string := [7]]> ∅)) {["rk"%string]}.

Lemma small_vol : vol (r_files demo) (r_dirs demo) demo.
Proof.
  split; [|done]. intros n x Hx. cbn in Hx. unfold LFS_FILE_MAX.
  apply lookup_insert_Some in Hx as [[_ <-]|[_ Hx]]; [done|].
  by apply lookup_insert_Some in Hx as [[_ <-]|[_ Hx]].
Qed.

Lemma fs_write_open_atomic_witness :
  wp (let* r := fs_write_open "state" [5; 6] in let* p := fs_read_open "state" 10 in ret (r, p))
    (fun '(r, (n, d)) l =>
       n = Z.of_nat (length d) /\ vol (<["state"%string := d]> (r_files demo)) (r_dirs demo) l /\
       ((r = Z.of_nat (length [5; 6]) /\ d = [5; 6]) \/
        (r < 0 /\ d = default [] (r_files demo !! "state"%string)))) demo.
Proof.
  apply (fs_write_open_atomic (L := Ram) (r_files demo) (r_dirs demo) demo "state" [5; 6] 10 small_vol).
  - left. by eexists.
  - unfold LFS_FILE_MAX. cbn. lia.
  - cbn. lia.
  - vm_compute. discriminate.
Defined.

Lemma fs_dir_del_correct_witness :
  wp (fs_dir_del "rk") (fun r l =>
    r = 0 /\ vol (outside "rk" (r_files demo)) (r_dirs demo) l) demo.
Proof.
  apply (fs_dir_del_correct (L := Ram) (r_files demo) (r_dirs demo) demo "rk" small_vol); [|done|done|].
  - cbn. by apply elem_of_singleton.
  - vm_compute. discriminate.
Defined.

Lemma fs_dir_nr_files_correct_witness :
  wp (fs_dir_nr_files "rk") (fun r l =>
    r = Z.of_nat (size (inside "rk" (r_files demo))) /\ vol (r_files demo) (r_dirs demo) l) demo.
Proof.
  apply (fs_dir_nr_files_correct (L := Ram) (r_files demo) (r_dirs demo) demo "rk" small_vol); [|done|done|].
  - cbn. by apply elem_of_singleton.
  - vm_compute. discriminate.
Defined.

End FsProps.
