(* ===== verification/Board.v ===== *)
(** * The hardware interface

    The memory-mapped registers of the TKey the firmware reads and writes, as
    the class [Board]; [BoardLaws] states how its timer and its entropy source
    behave.  [Sim] is a board whose registers follow a script. *)

From S2P Require Import Prelude.

Module Board.

(** [TIMER_MAX] of timer.h: the start value of the countdown. *)
Definition TIMER_MAX : Z := 0xffffffff.

Class Board := {
  board_t : Type;
  (** the compound device identifier, 32 bytes *)
  cdi : list Z;
  timer_value : board_t -> Z * board_t;
  touch_clear : board_t -> board_t;
  touch_event : board_t -> bool * board_t;
  led_set : Z -> board_t -> board_t;
  (** the next word of the TRNG, after waiting until it is ready *)
  entropy_get : board_t -> Z * board_t;
  (** how often the timer can be read within one tick *)
  polls_per_ms : nat;
}.

(** The timer of the TKey counts the milliseconds down from its start value,
    by the prescaler init.c sets, and halts at 1.  [now] is the time since it
    was started; it passes between two accesses to the registers by any
    amount.  A read takes the processor a fixed number of cycles, so that the
    timer can stand still for a bounded number of reads only: [polls] is how
    many of them are left. *)
Class BoardLaws (B : Board) := {
  now : board_t -> Z;
  polls : board_t -> nat;
  cdi_bytes : bytes cdi /\ length cdi = 32%nat;
  now_range b : 0 <= now b;
  polls_bound b : (polls b <= polls_per_ms)%nat;
  timer_law b :
    match timer_value b with
    | (v, b') => v = Z.max 1 (TIMER_MAX - now b') /\
        (now b < now b' \/ now b' = now b /\ (polls b' < polls b)%nat)
    end;
  touch_clear_law b : now b < now (touch_clear b) \/
    now (touch_clear b) = now b /\ (polls (touch_clear b) <= polls b)%nat;
  touch_event_law b : now b < now (touch_event b).2 \/
    now (touch_event b).2 = now b /\ (polls (touch_event b).2 <= polls b)%nat;
  led_set_law c b : now b < now (led_set c b) \/
    now (led_set c b) = now b /\ (polls (led_set c b) <= polls b)%nat;
  entropy_law b : is_u32 (entropy_get b).1;
}.

(** ** A scripted board *)

Module Sim.

Record sim := mkSim {
  s_time : N;
  (** the answers of the touch sensor, [false] when exhausted *)
  s_touch : list bool;
  s_entropy : Z;
  s_led : Z;
}.
#[export] Instance eta_sim : Eta sim := fun s =>
  mkSim (s_time s) (s_touch s) (s_entropy s) (s_led s).

#[export] Instance Sim : Board := {
  board_t := sim;
  cdi := replicate 32 0x5c;
  timer_value s :=
    let s := s <| s_time := N.succ (s_time s) |> in (Z.max 1 (TIMER_MAX - Z.of_N (s_time s)), s);
  touch_clear s := s;
  touch_event s := (match s_touch s with t :: _ => t | [] => false end,
                    s <| s_touch := tail (s_touch s) |>);
  led_set c s := s <| s_led := c |>;
  entropy_get s := (u32 (s_entropy s), s <| s_entropy := s_entropy s * 1103515245 + 12345 |>);
  polls_per_ms := 1;
}.

#[export, refine] Instance Sim_laws : BoardLaws Sim := {
  now s := Z.of_N (s_time s);
  polls _ := 1%nat;
}.
Proof.
  - split; [|done]. repeat constructor; done.
  - intros b. cbn. lia.
  - intros b. cbn. lia.
  - intros b. cbn. split; [done|]. left. lia.
  - intros b. by right.
  - intros b. by right.
  - intros c b. by right.
  - intros b. apply u32_range.
Defined.

End Sim.

End Board.
