(* ===== verification/Rng.v ===== *)
(** * Random numbers (src/targets/tkey/src/rng.c)

    A hash-based generator: each digest of the state gives sixteen bytes of
    output and, with a counter, half of the next state; fresh entropy is mixed
    in every [RESEED_TIME] digests. *)

From S2P Require Import Prelude Monad Sha256 Crypto Board.
Import Monad Sha256 Crypto Board.

Module Rng.

Definition RESEED_TIME : Z := 4096.

(** [rng_ctx] and [rng_initialized]; zero at program start. *)
Record rng_ctx := mkRng {
  state_ctr_lsb : Z;
  state_ctr_msb : Z;
  reseed_ctr : Z;
  rng_state : list Z;
  rng_digest : list Z;
  valid_bytes : Z;
  rng_initialized : bool;
}.
#[export] Instance eta_rng : Eta rng_ctx := fun r =>
  mkRng (state_ctr_lsb r) (state_ctr_msb r) (reseed_ctr r) (rng_state r) (rng_digest r)
    (valid_bytes r) (rng_initialized r).
Definition rng_zero : rng_ctx := mkRng 0 0 0 (zeros 16) (zeros 8) 0 false.

(** Words of a byte buffer and back, little-endian as in memory. *)
Definition words_bytes (ws : list Z) : list Z := concat (le32 <$> ws).
Fixpoint bytes_words (n : nat) (l : list Z) : list Z :=
  match n with
  | O => []
  | S n => le32_dec l :: bytes_words n (drop 4 l)
  end.

Section Rng.
Context {B : Board}.

Abbreviation RM := (M (rng_ctx * board_t)).

Definition entropy : RM Z := fun '(r, b) => let '(v, b) := entropy_get b in Done (v, (r, b)).
Definition rset (f : rng_ctx -> rng_ctx) : RM unit := modify (fun '(r, b) => (f r, b)).
Definition rget {A} (f : rng_ctx -> A) : RM A := gets (fun '(r, _) => f r).

(** [n] entropy words. *)
Fixpoint entropy_words (n : nat) : RM (list Z) :=
  match n with
  | O => ret []
  | S n => let* w := entropy in let* ws := entropy_words n in ret (w :: ws)
  end.

(** Increment of the 64-bit counter kept in two words. *)
Definition bump_counter (r : rng_ctx) : rng_ctx :=
  let r := r <| state_ctr_lsb := u32 (state_ctr_lsb r + 1) |> in
  if state_ctr_lsb r =? 0 then r <| state_ctr_msb := u32 (state_ctr_msb r + 1) |> else r.

Definition add_word (i : nat) (v : Z) (l : list Z) : list Z := alter (fun x => u32 (x + v)) i l.

(** The part of [rng_update] before the reseeding. *)
Definition mix_digest (r : rng_ctx) : rng_ctx :=
  let r := r <| rng_state := rng_digest r ++ drop 8 (rng_state r) |> in
  let r := bump_counter r in
  let r := r <| rng_state := add_word 14 (state_ctr_msb r) (rng_state r) |> in
  let r := r <| rng_state := add_word 15 (state_ctr_lsb r) (rng_state r) |> in
  r <| reseed_ctr := u32 (reseed_ctr r + 1) |>.

Definition rng_update : RM unit :=
  let* _ := rset mix_digest in
  let* c := rget reseed_ctr in
  if c =? RESEED_TIME then
    let* ws := entropy_words 8 in
    rset (fun r => r <| rng_state := take 8 (rng_state r) ++ ws |> <| reseed_ctr := 0 |>)
  else ret tt.

(** [crypto_sha256(digest, state, 64)]. *)
Definition rng_hash : RM unit :=
  let* st := rget rng_state in
  let* h := lift (crypto_sha256 (words_bytes st)) in
  rset (fun r => r <| rng_digest := bytes_words 8 h |>).

(** The loop of [rng_init]: [state[i]] and [state[i + 8]] alternate. *)
Fixpoint seed_loop (n i : nat) (lo hi : list Z) : RM (list Z) :=
  match n with
  | O => ret (lo ++ hi)
  | S n =>
      let* e1 := entropy in
      let* e2 := entropy in
      seed_loop n (S i) (lo ++ [u32 (le32_dec (slice (4 * i) 4 cdi) + e1)]) (hi ++ [e2])
  end.

Definition rng_init : RM unit :=
  let* st := seed_loop 8 0 [] [] in
  let* lsb := entropy in
  let* msb := entropy in
  let* _ := rset (fun r => r <| rng_state := st |> <| state_ctr_lsb := lsb |>
                             <| state_ctr_msb := msb |> <| reseed_ctr := 0 |>) in
  let* _ := rng_hash in
  let* _ := rng_update in
  rset (fun r => r <| valid_bytes := 16 |> <| rng_initialized := true |>).

(** A new digest, when the last one is used up. *)
Definition refill : RM unit :=
  let* v := rget valid_bytes in
  if v =? 0 then
    let* _ := rng_hash in
    let* _ := rng_update in
    rset (fun r => r <| valid_bytes := 16 |>)
  else ret tt.

(** The [while (dst_index < sz)] loop, [out] the bytes copied so far.  An
    iteration copies at least one byte, so [sz] of them are enough. *)
Fixpoint get_bytes_loop (fuel : nat) (sz : Z) (out : list Z) : RM (list Z) :=
  let dst_index := Z.of_nat (length out) in
  if dst_index <? sz then
    match fuel with
    | O => stop FExit
    | S fuel =>
        let* _ := refill in
        let* valid := rget valid_bytes in
        let* digest := rget (fun r => words_bytes (rng_digest r)) in
        let to_copy := if valid >? sz - dst_index then sz - dst_index else valid in
        let offset := 16 - valid in
        let* d := lift (mem_read digest (Z.to_nat offset) (Z.to_nat to_copy)) in
        let* _ := rset (fun r => r <| valid_bytes := u8 (valid - to_copy) |>) in
        get_bytes_loop fuel sz (out ++ d)
    end
  else ret out.

(** The bytes written to [dst], [None] when the generator is not seeded. *)
Definition rng_get_bytes (sz : Z) : RM (option (list Z)) :=
  let* i := rget rng_initialized in
  if i then
    let* l := get_bytes_loop (Z.to_nat sz) sz [] in
    ret (Some l)
  else ret None.

(** ** Reference: one byte at a time *)

Definition next_byte : RM Z :=
  let* _ := refill in
  let* valid := rget valid_bytes in
  let* digest := rget (fun r => words_bytes (rng_digest r)) in
  let* _ := rset (fun r => r <| valid_bytes := valid - 1 |>) in
  ret (nth (Z.to_nat (16 - valid)) digest 0).

Fixpoint next_bytes (n : nat) : RM (list Z) :=
  match n with
  | O => ret []
  | S n => let* b := next_byte in let* l := next_bytes n in ret (b :: l)
  end.

(** ** The generator state *)

Record rng_ok (r : rng_ctx) : Prop := {
  ok_state : length (rng_state r) = 16%nat;
  ok_digest : length (rng_digest r) = 8%nat;
  ok_valid : 0 <= valid_bytes r <= 16;
}.

Lemma words_bytes_length ws : length (words_bytes ws) = (4 * length ws)%nat.
Proof.
  unfold words_bytes. induction ws as [|w ws IH]; [done|].
  rewrite fmap_cons. cbn [concat]. rewrite length_app, le32_length, IH. cbn. lia.
Qed.

Lemma words_bytes_bytes ws : bytes (words_bytes ws).
Proof.
  unfold words_bytes. induction ws as [|w ws IH]; [constructor|].
  rewrite fmap_cons. cbn [concat]. apply Forall_app. split; [apply le32_bytes|done].
Qed.

Lemma bytes_words_length n l : length (bytes_words n l) = n.
Proof. revert l. induction n as [|n IH]; intros l; [done|]. cbn. by rewrite IH. Qed.

Lemma entropy_words_done n : forall r b, exists ws b',
  entropy_words n (r, b) = Done (ws, (r, b')) /\ length ws = n.
Proof.
  induction n as [|n IH]; intros r b; [by exists [], b|]. cbn [entropy_words]. unfold bind at 1, entropy.
  destruct (entropy_get b) as [w b1]. destruct (IH r b1) as (ws & b2 & E & Hl).
  unfold bind. rewrite E. exists (w :: ws), b2. cbn. by rewrite Hl.
Qed.

Lemma mix_digest_ok r : rng_ok r -> rng_ok (mix_digest r) /\ valid_bytes (mix_digest r) = valid_bytes r /\
  rng_digest (mix_digest r) = rng_digest r /\ rng_initialized (mix_digest r) = rng_initialized r.
Proof.
  destruct r as [lsb msb rc st dg v i]. intros [H1 H2 H3]. cbn in H1, H2, H3.
  unfold mix_digest, bump_counter, add_word. cbn -[u32].
  destruct (_ =? 0); cbn -[u32]; (split; [split; cbn -[u32]; [|done|done]|done]);
    rewrite !length_alter, length_app, length_drop; lia.
Qed.

Lemma rng_update_done r b : rng_ok r -> exists r' b', rng_update (r, b) = Done (tt, (r', b')) /\
  rng_ok r' /\ valid_bytes r' = valid_bytes r /\ rng_digest r' = rng_digest r /\
  rng_initialized r' = rng_initialized r.
Proof.
  intros H. destruct (mix_digest_ok r H) as (H1 & H2 & H3 & H4). unfold rng_update.
  unfold bind, rset, rget, gets, modify. cbn beta iota. destruct (_ =? RESEED_TIME).
  - destruct (entropy_words_done 8 (mix_digest r) b) as (ws & b' & E & Hw).
    rewrite E. eexists _, _. split; [reflexivity|]. cbn -[mix_digest].
    split; [|done]. destruct H1. split; cbn -[mix_digest]; [|done|done]. rewrite length_app, length_take. lia.
  - by exists (mix_digest r), b.
Qed.

Lemma rng_hash_done r b : rng_ok r -> exists r', rng_hash (r, b) = Done (tt, (r', b)) /\ rng_ok r' /\
  valid_bytes r' = valid_bytes r /\ rng_initialized r' = rng_initialized r.
Proof.
  intros [H1 H2 H3]. unfold rng_hash, bind, rget, rset, gets, modify, lift. cbn beta iota.
  rewrite crypto_sha256_correct.
  eexists. split; [reflexivity|]. split; [|done]. split; cbn -[bytes_words]; [done| |done].
  apply bytes_words_length.
Qed.

Lemma refill_done r b : rng_ok r -> exists r' b', refill (r, b) = Done (tt, (r', b')) /\ rng_ok r' /\
  0 < valid_bytes r' /\ rng_initialized r' = rng_initialized r.
Proof.
  intros H. unfold refill, bind, rget, rset, gets, modify. cbn beta iota.
  destruct (valid_bytes r =? 0) eqn:E; zbool.
  - destruct (rng_hash_done r b H) as (r1 & E1 & H1 & _ & I1). rewrite E1.
    destruct (rng_update_done r1 b H1) as (r2 & b2 & E2 & H2 & _ & _ & I2). rewrite E2.
    eexists _, _. split; [reflexivity|]. destruct H2. split; [split; cbn; [done|done|lia]|].
    cbn. split; [lia|congruence].
  - exists r, b. destruct H. split; [done|]. split; [done|]. split; [lia|done].
Qed.

Lemma refill_idle r b : valid_bytes r <> 0 -> refill (r, b) = Done (tt, (r, b)).
Proof.
  intros H. unfold refill, bind, rget, gets. cbn beta iota.
  by apply Z.eqb_neq in H as ->.
Qed.

(** Bytes still in the current digest come one after the other. *)
Lemma next_bytes_valid k : forall r b, rng_ok r -> (k <= Z.to_nat (valid_bytes r))%nat ->
  next_bytes k (r, b) = Done (slice (Z.to_nat (16 - valid_bytes r)) k (words_bytes (rng_digest r)),
    (r <| valid_bytes := valid_bytes r - Z.of_nat k |>, b)).
Proof.
  induction k as [|k IH]; intros r b H Hk; cbn [next_bytes].
  { unfold ret. do 3 f_equal. destruct r; cbn. f_equal. lia. }
  unfold next_byte. destruct H as [H1 H2 H3].
  assert (E : (refill (r, b)) = Done (tt, (r, b))) by (apply refill_idle; lia).
  unfold bind. rewrite E. unfold rget, gets, rset, modify, ret.
  set (r1 := r <| valid_bytes := valid_bytes r - 1 |>).
  assert (Hr1 : rng_ok r1) by (split; cbn; [done|done|lia]).
  rewrite (IH r1 b Hr1) by (cbn; lia). subst r1. cbn [valid_bytes rng_digest set_field eta eta_rng].
  do 3 f_equal.
  - pose proof (words_bytes_length (rng_digest r)) as Hlen. rewrite H2 in Hlen. unfold slice.
    rewrite (drop_S _ (nth (Z.to_nat (16 - valid_bytes r)) (words_bytes (rng_digest r)) 0) (Z.to_nat (16 - valid_bytes r))).
    + cbn [take]. do 2 f_equal. f_equal. lia.
    + destruct (lookup_lt_is_Some_2 (words_bytes (rng_digest r)) (Z.to_nat (16 - valid_bytes r)))
        as [x Hx]; [lia|]. rewrite Hx. f_equal. symmetry. by apply nth_lookup_Some.
  - destruct r; cbn. f_equal. lia.
Qed.

Lemma next_bytes_app n m s :
  next_bytes (n + m) s = (let* a := next_bytes n in let* b := next_bytes m in ret (a ++ b)) s.
Proof.
  revert s. induction n as [|n IH]; intros s; cbn [next_bytes Nat.add].
  - unfold bind, ret. by destruct (next_bytes m s) as [[]|].
  - unfold bind, ret in *. destruct (next_byte s) as [[x s1]|]; [|done]. rewrite IH.
    destruct (next_bytes n s1) as [[a s2]|]; [|done]. by destruct (next_bytes m s2) as [[]|].
Qed.

(** Refilling first makes no difference to the next byte. *)
Lemma next_bytes_refill k r b r1 b1 : (0 < k)%nat -> refill (r, b) = Done (tt, (r1, b1)) ->
  0 < valid_bytes r1 -> next_bytes k (r, b) = next_bytes k (r1, b1).
Proof.
  intros Hk E H1. destruct k as [|k]; [lia|]. cbn [next_bytes]. unfold next_byte, bind.
  rewrite E. rewrite refill_idle by lia. done.
Qed.

Lemma next_bytes_length n s l s' : next_bytes n s = Done (l, s') -> length l = n.
Proof.
  revert s l s'. induction n as [|n IH]; intros s l s'; cbn [next_bytes]; [by intros [= <- _]|].
  unfold bind, ret. destruct (next_byte s) as [[x s1]|]; [|done].
  destruct (next_bytes n s1) as [[l1 s2]|] eqn:E; [|done]. intros [= <- _]. cbn. by rewrite (IH _ _ _ E).
Qed.

Lemma get_bytes_loop_stream sz : forall fuel out r b, rng_ok r -> sz < 2 ^ 32 ->
  (Z.to_nat sz <= fuel + length out)%nat ->
  exists l r' b', next_bytes (Z.to_nat sz - length out) (r, b) = Done (l, (r', b')) /\
    get_bytes_loop fuel sz out (r, b) = Done (out ++ l, (r', b')) /\ rng_ok r' /\
    rng_initialized r' = rng_initialized r.
Proof.
  induction fuel as [|fuel IH]; intros out r b Hr Hsz Hf; cbn [get_bytes_loop];
    destruct (_ <? sz) eqn:E; zbool;
    try (exists [], r, b; rewrite app_nil_r; replace (_ - _)%nat with 0%nat by lia; done); [lia|].
  destruct (refill_done r b Hr) as (r1 & b1 & E1 & [S1 D1 V1] & P1 & I1).
  rewrite (next_bytes_refill (Z.to_nat sz - length out) r b r1 b1 ltac:(lia) E1 P1).
  unfold bind at 1. rewrite E1. unfold bind at 1 2, rget, gets. cbn beta iota.
  set (k := if valid_bytes r1 >? _ then _ else _).
  assert (Hk : 0 < k <= valid_bytes r1 /\ k <= sz - Z.of_nat (length out))
    by (subst k; destruct (_ >? _) eqn:Ek; zbool; lia).
  replace (Z.to_nat sz - length out)%nat with (Z.to_nat k + (Z.to_nat sz - (length out + Z.to_nat k)))%nat by lia.
  pose proof (next_bytes_valid (Z.to_nat k) r1 b1 ltac:(split; lia) ltac:(lia)) as E2.
  rewrite next_bytes_app, (bind_done _ _ _ _ _ E2), Z2Nat.id by lia. unfold bind at 2, lift.
  rewrite mem_read_fits by (rewrite words_bytes_length; lia).
  set (d := slice _ _ _). assert (Hd : length d = Z.to_nat k).
  { apply slice_length. rewrite words_bytes_length. lia. }
  set (r2 := r1 <| valid_bytes := valid_bytes r1 - k |>).
  destruct (IH (out ++ d) r2 b1) as (l & r3 & b3 & E3 & E4 & H3 & I3);
    [split; cbn; done || lia|done|rewrite length_app; lia|].
  rewrite length_app, Hd in E3. exists (d ++ l), r3, b3. unfold bind, rset, modify. rewrite E3. split; [done|].
  rewrite (u8_small (valid_bytes r1 - k)) by (unfold is_byte; lia).
  split; [rewrite app_assoc; exact E4|]. split; [done|]. by rewrite I3.
Qed.

Lemma rng_get_bytes_stream sz r b : rng_ok r -> rng_initialized r = true -> 0 <= sz < 2 ^ 32 ->
  exists l r' b', rng_get_bytes sz (r, b) = Done (Some l, (r', b')) /\
    next_bytes (Z.to_nat sz) (r, b) = Done (l, (r', b')) /\
    length l = Z.to_nat sz /\ rng_ok r' /\ rng_initialized r' = true.
Proof.
  intros Hr Hi Hsz. unfold rng_get_bytes, bind at 1, rget, gets. cbn beta iota. rewrite Hi.
  destruct (get_bytes_loop_stream sz (Z.to_nat sz) [] r b Hr) as (l & r' & b' & E1 & E2 & H & I); [lia|cbn; lia|].
  cbn [length] in E1. rewrite Nat.sub_0_r in E1. unfold bind. rewrite E2. cbn.
  exists l, r', b'. split; [done|]. split; [done|]. split; [by eapply next_bytes_length|].
  split; [done|congruence].
Qed.

(** A seeded generator always delivers, and its output is one stream: a
    request for [n + m] bytes gives the bytes of a request for [n] followed by
    those of a request for [m], and leaves the same state. *)
Theorem rng_get_bytes_split n m r b :
  rng_ok r -> rng_initialized r = true -> 0 <= n -> 0 <= m -> n + m < 2 ^ 32 ->
  exists l1 l2 s1 s2,
    rng_get_bytes n (r, b) = Done (Some l1, s1) /\ rng_get_bytes m s1 = Done (Some l2, s2) /\
    rng_get_bytes (n + m) (r, b) = Done (Some (l1 ++ l2), s2) /\
    length l1 = Z.to_nat n /\ length l2 = Z.to_nat m.
Proof.
  intros Hr Hi Hn Hm Hnm.
  destruct (rng_get_bytes_stream n r b Hr Hi ltac:(lia)) as (l1 & r1 & b1 & E1 & N1 & L1 & H1 & I1).
  destruct (rng_get_bytes_stream m r1 b1 H1 I1 ltac:(lia)) as (l2 & r2 & b2 & E2 & N2 & L2 & H2 & I2).
  destruct (rng_get_bytes_stream (n + m) r b Hr Hi ltac:(lia)) as (l & r3 & b3 & E3 & N3 & _).
  rewrite Z2Nat.inj_add, next_bytes_app in N3 by lia. unfold bind in N3. rewrite N1, N2 in N3.
  injection N3 as <- <- <-. exists l1, l2, (r1, b1), (r2, b2). done.
Qed.

Lemma seed_loop_done n : forall i lo hi r b, exists st b',
  seed_loop n i lo hi (r, b) = Done (st, (r, b')) /\ length st = (length lo + length hi + 2 * n)%nat.
Proof.
  induction n as [|n IH]; intros i lo hi r b; cbn [seed_loop].
  { exists (lo ++ hi), b. split; [done|]. rewrite length_app. lia. }
  unfold bind, entropy. destruct (entropy_get b) as [e1 b1]. destruct (entropy_get b1) as [e2 b2].
  match goal with |- context [seed_loop n ?i ?lo ?hi (r, b2)] =>
    destruct (IH i lo hi r b2) as (st & b' & E & Hl) end.
  exists st, b'. split; [done|]. rewrite Hl, !length_app. cbn. lia.
Qed.

(** Seeding always succeeds and leaves the generator ready. *)
Lemma rng_init_ready r b : length (rng_digest r) = 8%nat -> 0 <= valid_bytes r <= 16 ->
  exists r' b', rng_init (r, b) = Done (tt, (r', b')) /\ rng_ok r' /\ rng_initialized r' = true.
Proof.
  intros Hd Hv. unfold rng_init. destruct (seed_loop_done 8 0 [] [] r b) as (st & b1 & E1 & Hst).
  unfold bind at 1. rewrite E1. unfold bind at 1 2 3, entropy, rset at 1, modify.
  destruct (entropy_get b1) as [e1 b2]. destruct (entropy_get b2) as [e2 b3].
  set (r1 := r <| rng_state := _ |> <| _ := _ |> <| _ := _ |> <| _ := _ |>).
  assert (H1 : rng_ok r1) by (split; cbn; [exact Hst|done|done]).
  destruct (rng_hash_done r1 b3 H1) as (r2 & E2 & H2 & _). unfold bind at 1. rewrite E2.
  destruct (rng_update_done r2 b3 H2) as (r3 & b4 & E3 & H3 & _). unfold bind at 1. rewrite E3.
  eexists _, _. split; [reflexivity|]. destruct H3. split; [|done]. split; cbn; done || lia.
Qed.

End Rng.

(** From start-up on a scripted board: ten bytes, then twenty more. *)
Lemma rng_get_bytes_split_witness :
  exists r b l1 l2 s1 s2,
    rng_init (B := Sim.Sim) (rng_zero, Sim.mkSim 1 [] 7 0) = Done (tt, (r, b)) /\
    rng_get_bytes 10 (r, b) = Done (Some l1, s1) /\ rng_get_bytes 20 s1 = Done (Some l2, s2) /\
    rng_get_bytes (10 + 20) (r, b) = Done (Some (l1 ++ l2), s2) /\
    length l1 = Z.to_nat 10 /\ length l2 = Z.to_nat 20.
Proof.
  destruct (rng_init_ready (B := Sim.Sim) rng_zero (Sim.mkSim 1 [] 7 0)) as (r & b & E & H & I);
    [done|done|]. exists r, b.
  destruct (rng_get_bytes_split 10 20 r b H I) as (l1 & l2 & s1 & s2 & H1); [lia..|].
  exists l1, l2, s1, s2. split; [exact E|exact H1].
Defined.

End Rng.
