(* ===== verification/CtapTypes.v ===== *)
(** * Credentials (src/fido2/inc/ctap.h)

    The packed structures that identify a credential and a resident key, as
    records, with the bytes they have in memory and in the flash files. *)

From S2P Require Import Prelude.

Module CtapTypes.

Definition CREDENTIAL_TAG_SIZE : nat := 16.
Definition CREDENTIAL_NONCE_SIZE : nat := 16.
Definition CREDENTIAL_METADATA_SIZE : nat := 4.
Definition CREDENTIAL_RP_ID_SIZE : nat := 32.
Definition USER_ID_MAX_SIZE : nat := 64.
Definition USER_NAME_LIMIT : nat := 65.
Definition DISPLAY_NAME_LIMIT : nat := 32.
Definition CLIENT_DATA_HASH_SIZE : nat := 32.

Record CTAP_userEntity := mkUser {
  u_id : list Z;
  u_id_size : Z;
  u_name : list Z;
  u_displayName : list Z;
}.
#[export] Instance eta_user : Eta CTAP_userEntity := fun u =>
  mkUser (u_id u) (u_id_size u) (u_name u) (u_displayName u).

Record CredentialId := mkCred {
  cr_version : Z;
  rp_id_lookup : list Z;
  cr_nonce : list Z;
  protected_metadata : list Z;
  cr_count : Z;
  cr_tag : list Z;
}.
#[export] Instance eta_cred : Eta CredentialId := fun c =>
  mkCred (cr_version c) (rp_id_lookup c) (cr_nonce c) (protected_metadata c) (cr_count c) (cr_tag c).

Record rpEntity := mkRp {
  rp_id_hash : list Z;
  rp_id : list Z;
  rp_id_size : Z;
}.
#[export] Instance eta_rp : Eta rpEntity := fun r => mkRp (rp_id_hash r) (rp_id r) (rp_id_size r).

Record CTAP_residentKey := mkRk {
  rk_version : Z;
  rk_id : CredentialId;
  rk_user : CTAP_userEntity;
  rk_rp : rpEntity;
  user_id_lookup : list Z;
  rk_nonce : list Z;
  rk_tag : list Z;
}.
#[export] Instance eta_rk : Eta CTAP_residentKey := fun k =>
  mkRk (rk_version k) (rk_id k) (rk_user k) (rk_rp k) (user_id_lookup k) (rk_nonce k) (rk_tag k).

(** [COSE_key]: [pubkey.x] and [pubkey.y] in one list of 64 bytes. *)
Record COSE_key := mkCose {
  pubkey : list Z;
  kty : Z;
  crv : Z;
}.
#[export] Instance eta_cose : Eta COSE_key := fun c => mkCose (pubkey c) (kty c) (crv c).
Definition cose_zero : COSE_key := mkCose (zeros 64) 0 0.

(** [CTAP_credentialDescriptor]: the type, the bytes of [credential.id], a
    CredentialId or the start of a U2F key handle, and [credential.user]. *)
Record CTAP_credentialDescriptor := mkDesc {
  desc_type : Z;
  desc_id : list Z;
  desc_user : CTAP_userEntity;
}.
#[export] Instance eta_desc : Eta CTAP_credentialDescriptor := fun d =>
  mkDesc (desc_type d) (desc_id d) (desc_user d).
Definition user_zero : CTAP_userEntity := mkUser (zeros 64) 0 (zeros 65) (zeros 32).
Definition desc_zero : CTAP_credentialDescriptor := mkDesc 0 (zeros 57) user_zero.

(** [CTAP_authDataHeader], with the four bytes of [signCount]. *)
Record CTAP_authDataHeader := mkHead {
  ah_rpIdHash : list Z;
  ah_flags : Z;
  ah_signCount : list Z;
}.
#[export] Instance eta_head : Eta CTAP_authDataHeader := fun h => mkHead (ah_rpIdHash h) (ah_flags h) (ah_signCount h).
Definition head_zero : CTAP_authDataHeader := mkHead (zeros 32) 0 (zeros 4).
Definition head_bytes (h : CTAP_authDataHeader) : list Z := ah_rpIdHash h ++ [ah_flags h] ++ ah_signCount h.

(** [CTAP_extensions] with its [CTAP_hmac_secret]; [hs_credential] is the
    pointer [hmac_secret.credential], always into [getAssertionState.creds]:
    the index there, or [None] for NULL. *)
Record CTAP_hmac_secret := mkHs {
  saltLen : Z;
  saltEnc : list Z;
  saltAuth : list Z;
  hs_keyAgreement : COSE_key;
  hs_credential : option nat;
}.
#[export] Instance eta_hs : Eta CTAP_hmac_secret := fun h =>
  mkHs (saltLen h) (saltEnc h) (saltAuth h) (hs_keyAgreement h) (hs_credential h).
Record CTAP_extensions := mkExt {
  hmac_secret_present : Z;
  hmac_secret : CTAP_hmac_secret;
  cred_protect : Z;
}.
#[export] Instance eta_ext : Eta CTAP_extensions := fun e =>
  mkExt (hmac_secret_present e) (hmac_secret e) (cred_protect e).
Definition ext_zero : CTAP_extensions := mkExt 0 (mkHs 0 (zeros 64) (zeros 32) cose_zero None) 0.

(** ** Memory layout *)

Definition user_bytes (u : CTAP_userEntity) : list Z :=
  u_id u ++ [u_id_size u] ++ u_name u ++ u_displayName u.
Definition cred_bytes (c : CredentialId) : list Z :=
  [cr_version c] ++ rp_id_lookup c ++ cr_nonce c ++ protected_metadata c ++ le32 (cr_count c) ++ cr_tag c.
Definition rp_bytes (r : rpEntity) : list Z := rp_id_hash r ++ rp_id r ++ [rp_id_size r].
Definition rk_bytes (k : CTAP_residentKey) : list Z :=
  [rk_version k] ++ cred_bytes (rk_id k) ++ user_bytes (rk_user k) ++ rp_bytes (rk_rp k) ++
  user_id_lookup k ++ rk_nonce k ++ rk_tag k.

Definition user_of (l : list Z) : CTAP_userEntity :=
  mkUser (slice 0 64 l) (nth 64 l 0) (slice 65 65 l) (slice 130 32 l).
Definition cred_of (l : list Z) : CredentialId :=
  mkCred (nth 0 l 0) (slice 1 16 l) (slice 17 16 l) (slice 33 4 l) (le32_dec (slice 37 4 l)) (slice 41 16 l).
Definition rp_of (l : list Z) : rpEntity := mkRp (slice 0 32 l) (slice 32 32 l) (nth 64 l 0).
Definition rk_of (l : list Z) : CTAP_residentKey :=
  mkRk (nth 0 l 0) (cred_of (slice 1 57 l)) (user_of (slice 58 162 l)) (rp_of (slice 220 65 l))
    (slice 285 16 l) (slice 301 16 l) (slice 317 16 l).

(** [sizeof] *)
Definition CRED_SIZE : nat := 57.
Definition USER_SIZE : nat := 162.
Definition RP_SIZE : nat := 65.
Definition RK_SIZE : nat := 333.

(** Fields of the widths of their arrays. *)
Record user_sized (u : CTAP_userEntity) : Prop := {
  us_id : length (u_id u) = 64%nat;
  us_name : length (u_name u) = 65%nat;
  us_displayName : length (u_displayName u) = 32%nat;
}.
Record cred_sized (c : CredentialId) : Prop := {
  cs_lookup : length (rp_id_lookup c) = 16%nat;
  cs_nonce : length (cr_nonce c) = 16%nat;
  cs_metadata : length (protected_metadata c) = 4%nat;
  cs_count : is_u32 (cr_count c);
  cs_tag : length (cr_tag c) = 16%nat;
}.
Record rp_sized (r : rpEntity) : Prop := {
  rs_hash : length (rp_id_hash r) = 32%nat;
  rs_id : length (rp_id r) = 32%nat;
}.
Record rk_sized (k : CTAP_residentKey) : Prop := {
  ks_id : cred_sized (rk_id k);
  ks_user : user_sized (rk_user k);
  ks_rp : rp_sized (rk_rp k);
  ks_lookup : length (user_id_lookup k) = 16%nat;
  ks_nonce : length (rk_nonce k) = 16%nat;
  ks_tag : length (rk_tag k) = 16%nat;
}.

(** A field of a concatenation of fields: skip those before it. *)
Lemma slice_app_skip (a b : list Z) off n : (length a <= off)%nat ->
  slice off n (a ++ b) = slice (off - length a) n b.
Proof. intros. unfold slice. by rewrite drop_app_ge. Qed.
Lemma slice_cons_skip x (b : list Z) off n : (1 <= off)%nat ->
  slice off n (x :: b) = slice (off - 1) n b.
Proof. apply (slice_app_skip [x]). Qed.
Lemma slice_app_here (a b : list Z) off n : off = 0%nat -> length a = n -> slice off n (a ++ b) = a.
Proof. intros -> <-. unfold slice. by rewrite drop_0, take_app_length. Qed.
Lemma slice_all (a : list Z) off n : off = 0%nat -> length a = n -> slice off n a = a.
Proof. intros -> <-. unfold slice. by rewrite drop_0, firstn_all. Qed.
Lemma nth_app_skip (a b : list Z) i : (length a <= i)%nat -> nth i (a ++ b) 0 = nth (i - length a) b 0.
Proof. apply app_nth2. Qed.
Lemma nth_cons_skip x (b : list Z) i : (1 <= i)%nat -> nth i (x :: b) 0 = nth (i - 1) b 0.
Proof. apply (nth_app_skip [x]). Qed.
Lemma nth_cons_here x (b : list Z) i : i = 0%nat -> nth i (x :: b) 0 = x.
Proof. by intros ->. Qed.

#[global] Arguments le32 : simpl never.

Ltac fields :=
  repeat first
    [ rewrite slice_app_here by lia
    | rewrite slice_all by lia
    | rewrite slice_cons_skip by lia
    | rewrite slice_app_skip by lia
    | rewrite nth_cons_here by lia
    | rewrite nth_cons_skip by lia
    | rewrite nth_app_skip by lia ].

Lemma cred_bytes_length c : cred_sized c -> length (cred_bytes c) = CRED_SIZE.
Proof.
  intros [H1 H2 H3 H4 H5]. unfold cred_bytes.
  rewrite !length_app, H1, H2, H3, H5, le32_length. reflexivity.
Qed.
Lemma user_bytes_length u : user_sized u -> length (user_bytes u) = USER_SIZE.
Proof. intros [H1 H2 H3]. unfold user_bytes. rewrite !length_app, H1, H2, H3. reflexivity. Qed.
Lemma rp_bytes_length r : rp_sized r -> length (rp_bytes r) = RP_SIZE.
Proof. intros [H1 H2]. unfold rp_bytes. rewrite !length_app, H1, H2. reflexivity. Qed.
Lemma rk_bytes_length k : rk_sized k -> length (rk_bytes k) = RK_SIZE.
Proof.
  intros [H1 H2 H3 H4 H5 H6]. unfold rk_bytes.
  rewrite !length_app, (cred_bytes_length _ H1), (user_bytes_length _ H2), (rp_bytes_length _ H3), H4, H5, H6.
  reflexivity.
Qed.

Lemma cred_of_bytes c : cred_sized c -> cred_of (cred_bytes c) = c.
Proof.
  intros [H1 H2 H3 H4 H5]. unfold cred_of, cred_bytes. destruct c as [v l n m k t].
  cbn [cr_version rp_id_lookup cr_nonce protected_metadata cr_count cr_tag app] in *.
  pose proof (le32_length k) as Hk. fields. f_equal.
  rewrite <- (app_nil_r (le32 k)). by apply le32_dec_le32.
Qed.

Lemma user_of_bytes u : user_sized u -> user_of (user_bytes u) = u.
Proof.
  intros [H1 H2 H3]. unfold user_of, user_bytes. destruct u as [i z n d].
  cbn [u_id u_id_size u_name u_displayName app] in *. by fields.
Qed.

Lemma rp_of_bytes r : rp_sized r -> rp_of (rp_bytes r) = r.
Proof.
  intros [H1 H2]. unfold rp_of, rp_bytes. destruct r as [h i z]. cbn [rp_id_hash rp_id rp_id_size] in *.
  by fields.
Qed.

(** Reading back what was written. *)
Lemma rk_of_bytes k : rk_sized k -> rk_of (rk_bytes k) = k.
Proof.
  intros [H1 H2 H3 H4 H5 H6]. pose proof (cred_bytes_length _ H1) as L1.
  pose proof (user_bytes_length _ H2) as L2. pose proof (rp_bytes_length _ H3) as L3.
  unfold rk_of, rk_bytes. destruct k as [v i u r ul n t].
  cbn [rk_version rk_id rk_user rk_rp user_id_lookup rk_nonce rk_tag app] in *.
  unfold CRED_SIZE, USER_SIZE, RP_SIZE in *. fields.
  by rewrite cred_of_bytes, user_of_bytes, rp_of_bytes.
Qed.

Lemma le32_le32_dec l : bytes l -> length l = 4%nat -> le32 (le32_dec l) = l.
Proof.
  destruct l as [|a [|b [|c [|d [|]]]]]; try done. rewrite !Forall_cons. intros (A & B & C & D & _) _.
  unfold le32, le32_dec, u8, is_byte in *. f_equal; [|f_equal; [|f_equal; [|f_equal]]].
  - Z.div_mod_to_equations. lia.
  - Z.div_mod_to_equations. lia.
  - Z.div_mod_to_equations. lia.
  - Z.div_mod_to_equations. lia.
Qed.

Lemma slice_slice (l : list Z) a n b m : (b + m <= n)%nat -> slice b m (slice a n l) = slice (a + b) m l.
Proof.
  intros H. unfold slice. rewrite skipn_firstn_comm, take_take, drop_drop.
  by rewrite Nat.min_l by lia.
Qed.

Lemma slice_join (l : list Z) a n m b : b = (a + n)%nat -> slice a n l ++ slice b m l = slice a (n + m) l.
Proof. intros ->. unfold slice. rewrite <- drop_drop. apply take_take_drop. Qed.

Lemma nth_slice (l : list Z) i : (i < length l)%nat -> [nth i l 0] = slice i 1 l.
Proof.
  intros Hi. unfold slice. destruct (lookup_lt_is_Some_2 l i Hi) as [x Hx].
  rewrite (drop_S _ _ _ Hx). cbn. f_equal. by apply nth_lookup_Some.
Qed.

Lemma user_bytes_of l : length l = USER_SIZE -> user_bytes (user_of l) = l.
Proof.
  unfold USER_SIZE, user_bytes, user_of. cbn [u_id u_id_size u_name u_displayName]. intros Hl.
  rewrite nth_slice by lia. rewrite !slice_join by lia. by apply slice_all.
Qed.

Lemma rp_bytes_of l : length l = RP_SIZE -> rp_bytes (rp_of l) = l.
Proof.
  unfold RP_SIZE, rp_bytes, rp_of. cbn [rp_id_hash rp_id rp_id_size]. intros Hl.
  rewrite nth_slice by lia. rewrite !slice_join by lia. by apply slice_all.
Qed.

Lemma cred_bytes_of l : length l = CRED_SIZE -> bytes l -> cred_bytes (cred_of l) = l.
Proof.
  unfold CRED_SIZE, cred_bytes, cred_of.
  cbn [cr_version rp_id_lookup cr_nonce protected_metadata cr_count cr_tag]. intros Hl Hb.
  rewrite le32_le32_dec; [|by apply slice_bytes|apply slice_length; lia].
  rewrite nth_slice by lia. rewrite !slice_join by lia. by apply slice_all.
Qed.

Lemma user_of_sized l : length l = USER_SIZE -> user_sized (user_of l).
Proof. unfold USER_SIZE. intros. split; apply slice_length; lia. Qed.
Lemma rp_of_sized l : length l = RP_SIZE -> rp_sized (rp_of l).
Proof. unfold RP_SIZE. intros. split; apply slice_length; lia. Qed.
Lemma cred_of_sized l : length l = CRED_SIZE -> bytes l -> cred_sized (cred_of l).
Proof.
  unfold CRED_SIZE. intros. split; try (apply slice_length; lia).
  by apply le32_dec_range, slice_bytes.
Qed.

#[export] Instance cred_eq_dec : EqDecision CredentialId.
Proof. solve_decision. Defined.

End CtapTypes.
