(* ===== verification/Dev.v ===== *)
(** * The state of the firmware

    The static variables of device.c, rng.c, crypto.c, ctap.c, ctap_client_pin.c
    and ctap_credential_management.c, grouped by file, with the volume and the hardware; the
    operations of those files are steps [F] of this state.  The elliptic-curve
    functions they call are the class [Ecc]; [MicroEcc] implements those of
    micro-ecc. *)

From S2P Require Import Prelude Monad Lfs Fs Board Sha256 Aes Crypto Rng State CtapTypes.
Import Monad Lfs Fs Board Sha256 Aes Crypto Rng State CtapTypes.

Module Dev.

(** A computation that asks for random bytes through a callback, and gets
    [None] when the callback fails. *)
Inductive draws (A : Type) : Type :=
| Drawn (a : A)
| Draw (n : nat) (k : option (list Z) -> draws A).
#[global] Arguments Drawn {A} a.
#[global] Arguments Draw {A} n k.

(** [P] holds of every result, whatever is drawn. *)
Fixpoint always {A} (P : A -> Prop) (t : draws A) : Prop :=
  match t with
  | Drawn a => P a
  | Draw _ k => forall o, always P (k o)
  end.
(** Every request is for a number of bytes of 32 bits. *)
Fixpoint small {A} (t : draws A) : Prop :=
  match t with
  | Drawn _ => True
  | Draw n k => Z.of_nat n < 2 ^ 32 /\ forall o, small (k o)
  end.

(** micro-ecc and Monocypher's Ed25519, as their headers document them: keys
    and signatures as byte strings; [None] when a function does not return 1,
    and then the result is not written. *)
Class Ecc := {
  uECC_compute_public_key : list Z -> option (list Z);
  uECC_shared_secret : list Z -> list Z -> draws (option (list Z));
  uECC_sign : list Z -> list Z -> draws (option (list Z));
  crypto_ed25519_key_pair : list Z -> list Z * list Z;
  crypto_ed25519_sign : list Z -> list Z -> list Z;
}.
Definition signature64 (o : option (list Z)) : Prop := match o with Some l => length l = 64%nat | None => True end.
Class EccLaws (E : Ecc) := {
  public_key_length k : signature64 (uECC_compute_public_key k);
  shared_small pk k : small (uECC_shared_secret pk k);
  sign_length k h : always signature64 (uECC_sign k h);
  ed25519_secret_length seed : length (crypto_ed25519_key_pair seed).1 = 64%nat;
  ed25519_public_length seed : length (crypto_ed25519_key_pair seed).2 = 32%nat;
  ed25519_sign_length sk m : length (crypto_ed25519_sign sk m) = 64%nat;
}.

(** ** ctap_client_pin.c *)

Record key_agreement_t := mkKa {
  priv_key : list Z;
  pub_key : list Z;
  pub_key_valid : bool;
}.
#[export] Instance eta_ka : Eta key_agreement_t := fun k =>
  mkKa (priv_key k) (pub_key k) (pub_key_valid k).

Record pinUvAuthToken_state_t := mkTs {
  permissions_rp_id_hash : list Z;
  permissions_rp_id_present : bool;
  permissions : Z;
  usage_timer_start_ms : Z;
  usage_timer_last_used_ms : Z;
  in_use : bool;
  user_verified : bool;
  user_present : bool;
}.
#[export] Instance eta_ts : Eta pinUvAuthToken_state_t := fun t =>
  mkTs (permissions_rp_id_hash t) (permissions_rp_id_present t) (permissions t)
    (usage_timer_start_ms t) (usage_timer_last_used_ms t) (in_use t) (user_verified t) (user_present t).
Definition token_state_zero : pinUvAuthToken_state_t := mkTs (zeros 32) false 0 0 0 false false false.

Record pinUvAuthToken_t := mkPt {
  key_agreement : key_agreement_t;
  token : list Z;
  token_state : pinUvAuthToken_state_t;
}.
#[export] Instance eta_pt : Eta pinUvAuthToken_t := fun p =>
  mkPt (key_agreement p) (token p) (token_state p).
Definition pt_zero : pinUvAuthToken_t :=
  mkPt (mkKa (zeros 32) (zeros 64) false) (zeros 32) token_state_zero.

Record pin_vars := mkPin {
  token_p1 : pinUvAuthToken_t;
  token_p2 : pinUvAuthToken_t;
  PIN_BOOT_ATTEMPTS_LEFT : Z;
}.
#[export] Instance eta_pin : Eta pin_vars := fun p =>
  mkPin (token_p1 p) (token_p2 p) (PIN_BOOT_ATTEMPTS_LEFT p).

Definition PIN_LOCKOUT_ATTEMPTS : Z := 8.
Definition PIN_BOOT_ATTEMPTS : Z := 3.

(** ** ctap.c and ctap_credential_management.c *)

(** [struct _getAssertionState]; the fields no code reads are left out. *)
Record getAssertionState_t := mkGas {
  gs_authData : CTAP_authDataHeader;
  gs_extbuf : list Z;
  gs_extensions : CTAP_extensions;
  gs_clientDataHash : list Z;
  gs_creds : list CTAP_credentialDescriptor;
  gs_lastcmd : Z;
  gs_count : Z;
  gs_index : Z;
  gs_user_verified : Z;
}.
#[export] Instance eta_gas : Eta getAssertionState_t := fun g =>
  mkGas (gs_authData g) (gs_extbuf g) (gs_extensions g) (gs_clientDataHash g) (gs_creds g)
    (gs_lastcmd g) (gs_count g) (gs_index g) (gs_user_verified g).
Definition ALLOW_LIST_MAX_SIZE : nat := 20.
Definition gas_zero : getAssertionState_t :=
  mkGas head_zero (zeros 80) ext_zero (zeros 32) (replicate ALLOW_LIST_MAX_SIZE desc_zero) 0 0 0 0.

Record credential_management_state_t := mkCms {
  cms_valid : bool;
  init_cmd : Z;
  timestamp : Z;
  cms_rp_id_hash : list Z;
  list_unique_rps : list Z;
  len_list_unique_rps : Z;
  rk_idx : Z;
  file_idx : Z;
}.
#[export] Instance eta_cms : Eta credential_management_state_t := fun c =>
  mkCms (cms_valid c) (init_cmd c) (timestamp c) (cms_rp_id_hash c) (list_unique_rps c)
    (len_list_unique_rps c) (rk_idx c) (file_idx c).
Definition MAX_UNIQUE_RP : nat := 50.
Definition cms_zero : credential_management_state_t := mkCms false 0 0 (zeros 32) (zeros MAX_UNIQUE_RP) 0 0 0.

(** ** crypto.c *)

(** What [_signing_key] points to: nothing, [key_attest_sign], the static
    [privkey] of [crypto_ecc256_load_key] or the static [sk] of
    [fido2_crypto_ed25519_load_key]. *)
Inductive signing_key := NoKey | AttestKey | EccKey | EdKey.

Record crypto_vars := mkCrypto {
  sha256_ctx : SHA256_CTX;
  aes_ctx : AES_ctx;
  dev_keys : device_keys;
  ses_keys : session_keys;
  key_attest : list Z;
  attestation_available : bool;
  key_attest_sign : list Z;
  ecc_privkey : list Z;
  ed25519_sk : list Z;
  _signing_key : signing_key;
}.
#[export] Instance eta_crypto : Eta crypto_vars := fun c =>
  mkCrypto (sha256_ctx c) (aes_ctx c) (dev_keys c) (ses_keys c) (key_attest c)
    (attestation_available c) (key_attest_sign c) (ecc_privkey c) (ed25519_sk c) (_signing_key c).

Section Dev.
Context {L : Lfs} {B : Board}.

(** The medium, the registers and the random number generator. *)
Record hw_vars := mkHw {
  h_lfs : lfs_t;
  h_board : board_t;
  h_rng : rng_ctx;
}.

(** device.c: [_f_rk], [_up_disabled], [__device_status]; the status values
    given to [ctaphid_update_status], oldest first. *)
Record device_vars := mkDevice {
  f_rk : fs_file_t;
  up_disabled : bool;
  device_status : Z;
  status_updates : list Z;
}.

Record dev := mkDev {
  d_hw : hw_vars;
  d_crypto : crypto_vars;
  d_vars : device_vars;
  STATE : AuthenticatorState;
  d_pin : pin_vars;
  getAssertionState : getAssertionState_t;
  d_cm : credential_management_state_t;
}.

#[export] Instance eta_hw : Eta hw_vars := fun h => mkHw (h_lfs h) (h_board h) (h_rng h).
#[export] Instance eta_device : Eta device_vars := fun d =>
  mkDevice (f_rk d) (up_disabled d) (device_status d) (status_updates d).
#[export] Instance eta_dev : Eta dev := fun d =>
  mkDev (d_hw d) (d_crypto d) (d_vars d) (STATE d) (d_pin d) (getAssertionState d) (d_cm d).

End Dev.

Abbreviation F := (M dev).

(** ** Components' operations as steps of the firmware *)

Section Steps.
Context {L : Lfs} {B : Board}.

Definition fs {A} (op : M lfs_t A) : F A := on d_hw (on h_lfs op).
Definition board {A} (op : board_t -> A * board_t) : F A :=
  on d_hw (on h_board (fun b => Done (op b))).
Definition board_set (op : board_t -> board_t) : F unit :=
  on d_hw (on h_board (fun b => Done (tt, op b))).
Definition rng {A} (op : M (rng_ctx * board_t) A) : F A :=
  on d_hw (fun h =>
    match op (h_rng h, h_board h) with
    | Done (a, (r, b)) => Done (a, h <| h_rng := r |> <| h_board := b |>)
    | Fault f => Fault f
    end).
Definition sha {A} (op : SHA256_CTX -> res (A * SHA256_CTX)) : F A := on d_crypto (on sha256_ctx op).
(** Operations that only change the context. *)
Definition sha_ (op : SHA256_CTX -> res SHA256_CTX) : F unit :=
  sha (fun c => match op c with Done c => Done (tt, c) | Fault f => Fault f end).
Definition aes (op : AES_ctx -> AES_ctx) : F unit := on d_crypto (on aes_ctx (modify op)).
Definition aes_buf (op : AES_ctx -> res (AES_ctx * list Z)) : F (list Z) :=
  on d_crypto (on aes_ctx (fun c =>
    match op c with Done (c, l) => Done (l, c) | Fault f => Fault f end)).

(** Update of a part of the state. *)
Definition upd {T} (p : dev -> T) `{!Setter p} (f : T -> T) : F unit := modify (set_field p f).

End Steps.

End Dev.
