(* ===== verification/MicroEcc.v ===== *)
(** * micro-ecc: keys, key exchange and signatures (src/crypto/micro-ecc/uECC.c)

    The functions the firmware calls, on byte strings.  Random bytes come from the
    callback [uECC_set_rng] installs ([ctap_generate_rng], set by
    [crypto_ecc256_init]): a computation that draws ([Dev.draws]).  [None] is the
    return value 0. *)

From S2P Require Import Prelude Vli P256 Dev.
Import Vli P256 Dev.

#[local] Open Scope Z_scope.

Module MicroEcc.

Definition uECC_RNG_MAX_TRIES : nat := 64.

Fixpoint draws_bind {A B} (t : draws A) (f : A -> draws B) : draws B :=
  match t with
  | Drawn a => f a
  | Draw n k => Draw n (fun o => draws_bind (k o) f)
  end.

(** Bytes read as an array of words: the machine is little-endian. *)
Fixpoint word_array (n : nat) (bs : list Z) : list Z :=
  match n with
  | O => []
  | S n => le32_dec bs :: word_array n (drop 4 bs)
  end.

(** A number of 1 to [top] - 1. *)
Fixpoint random_loop (tries : nat) (top : list Z) : draws (option (list Z)) :=
  match tries with
  | O => Drawn None
  | S tries =>
      let num_words := length top in
      let num_bits := uECC_vli_numBits top in
      Draw (num_words * 4) (fun o =>
        match o with
        | None => Drawn None
        | Some bs =>
            let random := word_array num_words bs in
            let mask := Z.shiftr 0xffffffff (Z.of_nat num_words * 4 * 8 - num_bits) in
            let random := <[(num_words - 1)%nat := Z.land (nth (num_words - 1) random 0) mask]> random in
            if negb (uECC_vli_isZero random) && (uECC_vli_cmp top random =? 1) then Drawn (Some random)
            else random_loop tries top
        end)
  end.
Definition uECC_generate_random_int (top : list Z) : draws (option (list Z)) := random_loop uECC_RNG_MAX_TRIES top.

Definition point_bytes (P : point) : list Z :=
  uECC_vli_nativeToBytes num_bytes P.1 ++ uECC_vli_nativeToBytes num_bytes P.2.
Definition bytes_point (bs : list Z) : point :=
  (uECC_vli_bytesToNative (take num_bytes bs), uECC_vli_bytesToNative (take num_bytes (drop num_bytes bs))).

(** The public and the private key. *)
Fixpoint make_key_loop (tries : nat) : draws (option (list Z * list Z)) :=
  match tries with
  | O => Drawn None
  | S tries =>
      draws_bind (uECC_generate_random_int curve_n) (fun o =>
        match o with
        | None => Drawn None
        | Some _private =>
            match EccPoint_compute_public_key _private with
            | Some _public => Drawn (Some (point_bytes _public, uECC_vli_nativeToBytes num_bytes _private))
            | None => make_key_loop tries
            end
        end)
  end.
Definition uECC_make_key : draws (option (list Z * list Z)) := make_key_loop uECC_RNG_MAX_TRIES.

Definition uECC_shared_secret (public_key private_key : list Z) : draws (option (list Z)) :=
  let _private := uECC_vli_bytesToNative (take num_bytes private_key) in
  let _public := bytes_point public_key in
  draws_bind (uECC_generate_random_int curve_p) (fun initial_Z =>
    match initial_Z with
    | None => Drawn None
    | Some _ =>
        let _public := EccPoint_mult _public (regular _private) initial_Z (num_n_bits + 1) in
        let secret := uECC_vli_nativeToBytes num_bytes _public.1 in
        Drawn (if EccPoint_isZero _public then None else Some secret)
    end).

Definition uECC_compute_public_key (private_key : list Z) : option (list Z) :=
  let _private := uECC_vli_bytesToNative (take num_bytes private_key) in
  if uECC_vli_isZero _private then None
  else if negb (uECC_vli_cmp curve_n _private =? 1) then None
  else option_map point_bytes (EccPoint_compute_public_key _private).

Definition uECC_valid_public_key (public_key : list Z) : bool := uECC_valid_point (bytes_point public_key).

(** ** ECDSA *)

(** [bits_size] is at most 32 after the first test, and [num_n_bits] is 256, so
    that the function returns before its shift. *)
Definition bits2int (bits : list Z) : list Z :=
  let bits := take num_bytes bits in
  let native := uECC_vli_bytesToNative bits in
  native ++ uECC_vli_clear (num_n_words - length native).

(** The signature, from the number [tmp] that hides [k]. *)
Definition sign_hidden (private_key message_hash k : list Z) (P : point) (tmp : list Z) : option (list Z) :=
  let k := uECC_vli_modMult k tmp curve_n in
  let k := uECC_vli_modInv k curve_n in
  let k := uECC_vli_modMult k tmp curve_n in
  let tmp := uECC_vli_bytesToNative (take num_bytes private_key) in
  let s := uECC_vli_modMult tmp P.1 curve_n in
  let tmp := bits2int message_hash in
  let s := uECC_vli_modAdd tmp s curve_n in
  let s := uECC_vli_modMult s k curve_n in
  if uECC_vli_numBits s >? Z.of_nat num_bytes * 8 then None
  else Some (uECC_vli_nativeToBytes num_bytes P.1 ++ uECC_vli_nativeToBytes num_bytes s).

Definition uECC_sign_with_k (private_key message_hash k : list Z) : draws (option (list Z)) :=
  if uECC_vli_isZero k || negb (uECC_vli_cmp curve_n k =? 1) then Drawn None
  else
    let P := EccPoint_mult (curve_Gx, curve_Gy) (regular k) None (num_n_bits + 1) in
    if uECC_vli_isZero P.1 then Drawn None
    else
      draws_bind (uECC_generate_random_int curve_n) (fun o =>
        Drawn (match o with
               | None => None
               | Some tmp => sign_hidden private_key message_hash k P tmp
               end)).

Fixpoint sign_loop (tries : nat) (private_key message_hash : list Z) : draws (option (list Z)) :=
  match tries with
  | O => Drawn None
  | S tries =>
      draws_bind (uECC_generate_random_int curve_n) (fun o =>
        match o with
        | None => Drawn None
        | Some k =>
            draws_bind (uECC_sign_with_k private_key message_hash k) (fun r =>
              match r with
              | Some signature => Drawn (Some signature)
              | None => sign_loop tries private_key message_hash
              end)
        end)
  end.
Definition uECC_sign (private_key message_hash : list Z) : draws (option (list Z)) :=
  sign_loop uECC_RNG_MAX_TRIES private_key message_hash.

(** The functions as the firmware sees them, beside Ed25519. *)
Definition micro_ecc (key_pair : list Z -> list Z * list Z) (sign : list Z -> list Z -> list Z) : Ecc := {|
  Dev.uECC_compute_public_key := uECC_compute_public_key;
  Dev.uECC_shared_secret := uECC_shared_secret;
  Dev.uECC_sign := uECC_sign;
  crypto_ed25519_key_pair := key_pair;
  crypto_ed25519_sign := sign;
|}.

End MicroEcc.
