(* ===== verification/MicroEccProps.v ===== *)
(** * What the functions of micro-ecc compute

    Byte strings and numbers, the range of the random numbers, the check of public
    keys against the curve equation, key generation and the ECDSA equation. *)

From S2P Require Import Prelude Vli VliProps P256 P256Props Primes EcLadder Dev MicroEcc.
Import VliProps P256 P256Props Primes EcLadder Dev MicroEcc.

#[local] Open Scope Z_scope.

Module MicroEccProps.

(** ** Bytes *)

Lemma native_byte l b : words l ->
  u8 (Z.shiftr (nth (b / 4) l 0) (8 * Z.of_nat (b mod 4))) = vli_value l / 2 ^ (8 * Z.of_nat b) mod 2 ^ 8.
Proof.
  intros H. unfold u8. rewrite <- !Z.land_ones, <- Z.shiftr_div_pow2 by lia. apply Z.bits_inj'. intros i Hi.
  rewrite !Z.land_spec, !Z.shiftr_spec by lia.
  destruct (Z.lt_ge_cases i 8) as [Hlt|Hge]; [|by rewrite !Z.ones_spec_high, !andb_false_r by lia].
  pose proof (Nat.div_mod b 4 ltac:(lia)). pose proof (Nat.mod_upper_bound b 4 ltac:(lia)).
  rewrite nth_testbit by (done || lia). do 2 f_equal. lia.
Qed.

Lemma native_bytes_ok l : words l -> forall n, bytes (native_bytes l n) /\ length (native_bytes l n) = n /\
  be_value (native_bytes l n) = vli_value l mod 2 ^ (8 * Z.of_nat n).
Proof.
  intros H. induction n as [|n (Bn & Ln & En)]; cbn [native_bytes be_value length].
  - split_and!; [constructor|done|]. by rewrite Z.mod_1_r.
  - split_and!; [constructor; [apply u8_byte|done]|by rewrite Ln|].
    rewrite native_byte, Ln, En by done. change 256 with (2 ^ 8). rewrite <- Z.pow_mul_r by lia.
    replace (8 * Z.of_nat (S n)) with (8 * Z.of_nat n + 8) by lia. rewrite Z.pow_add_r by lia.
    rewrite Z.rem_mul_r by lia. ring.
Qed.

Lemma nativeToBytes_ok l n v : stands l n v ->
  bytes (uECC_vli_nativeToBytes (4 * n) l) /\ length (uECC_vli_nativeToBytes (4 * n) l) = (4 * n)%nat /\
  be_value (uECC_vli_nativeToBytes (4 * n) l) = v.
Proof.
  intros S. pose proof (stands_range _ _ _ S) as R. destruct S as (H & _ & <-).
  destruct (native_bytes_ok l H (4 * n)) as (B & L & E). split_and!; [done|done|].
  unfold uECC_vli_nativeToBytes. rewrite E. apply Z.mod_small. unfold cap in R.
  by replace (8 * Z.of_nat (4 * n)) with (32 * Z.of_nat n) by lia.
Qed.

(** A byte put in where the bits are still zero. *)
Lemma or_byte l b x h : words l -> (b / 4 < length l)%nat -> is_byte x -> vli_value l = h * 2 ^ (8 * Z.of_nat (S b)) ->
  let l' := <[(b / 4)%nat := Z.lor (nth (b / 4) l 0) (u32 (Z.shiftl x (8 * Z.of_nat (b mod 4))))]> l in
  words l' /\ length l' = length l /\ vli_value l' = vli_value l + x * 2 ^ (8 * Z.of_nat b).
Proof.
  intros H Hb Hx Hv l'. unfold is_byte in Hx. set (i := (b / 4)%nat) in *. set (s := 8 * Z.of_nat (b mod 4)) in *.
  pose proof (Nat.div_mod b 4 ltac:(lia)). pose proof (Nat.mod_upper_bound b 4 ltac:(lia)).
  pose proof (nth_word l i H) as Hw. set (w := nth i l 0) in *.
  assert (Hlow : w mod 2 ^ (s + 8) = 0).
  { apply Z.bits_inj'. intros j Hj. rewrite Z.testbit_0_l. destruct (Z.lt_ge_cases j (s + 8)).
    - rewrite Z.mod_pow2_bits_low by lia. unfold w. rewrite nth_testbit by (done || lia).
      rewrite Hv. apply Z.mul_pow2_bits_low. lia.
    - apply Z.mod_pow2_bits_high. lia. }
  assert (P8 : 2 ^ (s + 8) = 2 ^ s * 256) by (rewrite Z.pow_add_r by lia; done).
  assert (Ps : 0 < 2 ^ s) by (apply Z.pow_pos_nonneg; lia).
  assert (Hp : 2 ^ s * 256 <= 2 ^ 32) by (rewrite <- P8; apply Z.pow_le_mono_r; lia).
  assert (Eu : u32 (Z.shiftl x s) = x * 2 ^ s).
  { rewrite Z.shiftl_mul_pow2 by lia. apply u32_small. unfold is_u32. nia. }
  assert (El : Z.lor w (u32 (Z.shiftl x s)) = w + x * 2 ^ s).
  { rewrite Eu. pose proof (Z.div_mod w (2 ^ (s + 8)) ltac:(lia)) as D. rewrite Hlow in D.
    replace w with (w / 2 ^ (s + 8) * 2 ^ (s + 8)) at 1 by lia. rewrite lor_low by nia. lia. }
  unfold l'. rewrite El. split_and!.
  - apply Forall_insert; [done|]. unfold is_u32. split; [nia|].
    pose proof (Z.div_mod w (2 ^ (s + 8)) ltac:(lia)) as D. rewrite Hlow in D.
    assert (E32 : 2 ^ 32 = 2 ^ (24 - s) * 2 ^ (s + 8)) by (rewrite <- Z.pow_add_r by lia; f_equal; lia).
    assert (w / 2 ^ (s + 8) <= 2 ^ (24 - s) - 1) by (apply Z.lt_le_pred, Z.div_lt_upper_bound; lia). nia.
  - by rewrite length_insert.
  - rewrite value_insert by done. fold w. replace (cap i * (w + x * 2 ^ s - w)) with (x * (cap i * 2 ^ s)) by ring.
    unfold cap. rewrite <- Z.pow_add_r by lia. do 3 f_equal. lia.
Qed.

Lemma bytes_native_ok bs : forall l b h, words l -> bytes bs -> length bs = b -> (b <= 4 * length l)%nat ->
  vli_value l = h * 2 ^ (8 * Z.of_nat b) ->
  words (bytes_native l bs b) /\ length (bytes_native l bs b) = length l /\
  vli_value (bytes_native l bs b) = vli_value l + be_value bs.
Proof.
  induction bs as [|x bs IH]; intros l b h H Hb Lb Hl Hv; cbn [bytes_native be_value length] in *.
  - split_and!; [done|done|lia].
  - apply Forall_cons in Hb as [Hx Hb]. subst b. rewrite Nat.sub_succ, Nat.sub_0_r. set (b := length bs) in *.
    assert (Hi : (b / 4 < length l)%nat) by (apply Nat.Div0.div_lt_upper_bound; lia).
    destruct (or_byte l b x h H Hi Hx Hv) as (H' & L' & V').
    destruct (IH _ b (h * 2 ^ 8 + x) H' Hb eq_refl) as (W & Ln & E); [lia| |].
    + rewrite V', Hv. replace (8 * Z.of_nat (S b)) with (8 + 8 * Z.of_nat b) by lia. rewrite Z.pow_add_r by lia. ring.
    + split_and!; [done|congruence|]. rewrite E, V'. change 256 with (2 ^ 8). rewrite <- Z.pow_mul_r by lia. lia.
Qed.

Lemma bytesToNative_ok bs n : bytes bs -> length bs = (4 * n)%nat -> stands (uECC_vli_bytesToNative bs) n (be_value bs).
Proof.
  intros Hb Lb. unfold uECC_vli_bytesToNative, uECC_vli_clear. rewrite Lb.
  replace ((4 * n + 3) / 4)%nat with n by (apply (Nat.div_unique _ _ _ 3); lia).
  destruct (bytes_native_ok bs (zeros n) (4 * n) 0 (zeros_words n) Hb Lb) as (W & L & E).
  - by rewrite zeros_length.
  - apply value_zeros.
  - rewrite zeros_length in L. rewrite value_zeros in E. by split_and!.
Qed.

Lemma bits2int_ok bs : bytes bs -> length bs = 32%nat -> stands (bits2int bs) 8 (be_value bs).
Proof.
  intros Hb Lb. unfold bits2int, num_bytes, num_n_words. rewrite take_ge by lia.
  pose proof (bytesToNative_ok bs 8 Hb Lb) as S. assert (L : length (uECC_vli_bytesToNative bs) = 8%nat) by apply S.
  rewrite L. unfold uECC_vli_clear. cbn [Nat.sub zeros replicate]. by rewrite app_nil_r.
Qed.

(** ** Random numbers *)

Lemma word_array_ok n : forall bs, bytes bs -> words (word_array n bs) /\ length (word_array n bs) = n.
Proof.
  induction n as [|n IH]; intros bs H; cbn [word_array]; [split; [constructor|done]|].
  destruct (IH (drop 4 bs) (Forall_drop _ _ _ H)) as [Hw L].
  split; [constructor; [by apply le32_dec_range|done]|cbn; by f_equal].
Qed.

(** [P] holds of every result when the generator gives bytes. *)
Fixpoint drawn {A} (P : A -> Prop) (t : draws A) : Prop :=
  match t with
  | Drawn a => P a
  | Draw n k => forall o, match o with Some bs => bytes bs | None => True end -> drawn P (k o)
  end.

Lemma drawn_bind {A B} (P : A -> Prop) (Q : B -> Prop) t f : drawn P t -> (forall a, P a -> drawn Q (f a)) ->
  drawn Q (draws_bind t f).
Proof. intros H Hf. induction t as [a|n k IH]; cbn in *; [by apply Hf|]. intros o Ho. by apply IH, H. Qed.

(** A number of 1 to [m] - 1, of [n] words. *)
Definition random_below (n : nat) (m : Z) (o : option (list Z)) : Prop :=
  match o with
  | Some r => exists v, stands r n v /\ 0 < v < m
  | None => True
  end.

Lemma land_word a b : 0 <= a < 2 ^ 32 -> is_u32 (Z.land a b).
Proof.
  intros Ha. replace (Z.land a b) with (u32 (Z.land a b)); [apply u32_range|]. unfold u32.
  rewrite <- Z.land_ones, <- Z.land_assoc, (Z.land_comm b), Z.land_assoc, Z.land_ones by lia.
  by rewrite Z.mod_small.
Qed.

Lemma random_loop_ok top n m tries : stands top (S n) m -> drawn (random_below (S n) m) (random_loop tries top).
Proof.
  intros St. assert (Lt : length top = S n) by apply St. induction tries as [|tries IH]; cbn [random_loop drawn]; [done|].
  rewrite Lt. intros [bs|] Ho; [|done]. destruct (word_array_ok (S n) bs Ho) as [Hw Lw].
  set (mask := Z.shiftr _ _). set (r := <[_ := _]> _).
  assert (Hr : words r /\ length r = S n).
  { unfold r. rewrite length_insert. split; [|done]. apply Forall_insert; [done|].
    apply land_word. by apply nth_word. }
  assert (Sr : stands r (S n) (vli_value r)) by (by destruct Hr).
  pose proof (stands_range _ _ _ Sr). rewrite (isZero_ok _ _ _ Sr), (vli_cmp_ok _ _ _ _ _ St Sr), sgn_one.
  destruct (Z.eqb_spec (vli_value r) 0), (Z.ltb_spec 0 (m - vli_value r)); cbn [negb andb drawn]; try apply IH.
  exists (vli_value r). split; [done|lia].
Qed.

Lemma generate_random_int_ok top n m : stands top (S n) m -> drawn (random_below (S n) m) (uECC_generate_random_int top).
Proof. apply random_loop_ok. Qed.

(** ** The curve *)

Definition b : Z := 0x5ac635d8aa3a93e7b3ebbd55769886bc651d06b0cc53b0f63bce3c3e27d2604b.
(** The curve of P-256. *)
Definition on_curve (x y : Z) : Prop := y ^ 2 mod p = (x ^ 3 - 3 * x + b) mod p.

Lemma rep_b : rep curve_b b.
Proof. apply rep_below; [|done]. split_and!; [|done|done]. repeat constructor; done. Qed.
Lemma rep_three : rep (3 :: zeros (num_words - 1)) 3.
Proof. apply rep_below; [|done]. split_and!; [|done|done]. repeat constructor; done. Qed.

#[local] Opaque p b uECC_vli_modMult_fast uECC_vli_modSquare_fast uECC_vli_modAdd uECC_vli_modSub.

Lemma x_side_ok l x : rep l x -> rep (x_side_default l) (x ^ 3 - 3 * x + b).
Proof.
  intros Hx. pose proof rep_three. pose proof rep_b. unfold x_side_default.
  eapply rep_eq; [|reps]. cbv beta. ring.
Qed.

Lemma isZero_point P x y : stands P.1 8 x -> stands P.2 8 y -> EccPoint_isZero P = (x =? 0) && (y =? 0).
Proof.
  intros Sx Sy. pose proof (stands_range _ _ _ Sx). pose proof (stands_range _ _ _ Sy). unfold EccPoint_isZero.
  rewrite (isZero_ok _ _ _ (stands_app _ _ _ _ _ _ Sx Sy)). pose proof (cap_pos 8).
  destruct (Z.eqb_spec x 0), (Z.eqb_spec y 0), (Z.eqb_spec (x + cap 8 * y) 0); cbn [andb]; nia.
Qed.

Lemma valid_point_ok P x y : stands P.1 8 x -> stands P.2 8 y ->
  (uECC_valid_point P = true <-> ~ (x = 0 /\ y = 0) /\ x < p /\ y < p /\ on_curve x y).
Proof.
  intros Sx Sy. unfold uECC_valid_point. rewrite (isZero_point _ _ _ Sx Sy).
  rewrite (cmp_unsafe_ok _ _ _ _ _ curve_p_ok Sx), (cmp_unsafe_ok _ _ _ _ _ curve_p_ok Sy), !sgn_one.
  destruct (Z.eqb_spec x 0), (Z.eqb_spec y 0); cbn [andb]; try (split; [done|intros []; tauto]);
  (destruct (Z.ltb_spec 0 (p - x)), (Z.ltb_spec 0 (p - y)); cbn [negb orb]; try (split; [done|lia]);
   pose proof (rep_below _ _ Sx ltac:(lia)) as Rx; pose proof (rep_below _ _ Sy ltac:(lia)) as Ry;
   rewrite (equal_ok _ _ _ _ _ (rep_sqr _ _ Ry) (x_side_ok _ _ Rx)), Z.eqb_eq; unfold on_curve;
   rewrite (Z.pow_2_r y); intuition lia).
Qed.

Lemma bytes_point_ok pk : bytes pk -> length pk = 64%nat ->
  stands (bytes_point pk).1 8 (be_value (take 32 pk)) /\ stands (bytes_point pk).2 8 (be_value (drop 32 pk)).
Proof.
  intros Hb Lb. unfold bytes_point, num_bytes. cbn [fst snd].
  rewrite (take_ge (drop 32 pk)) by (rewrite length_drop; lia).
  split; apply bytesToNative_ok; first [by apply Forall_take|by apply Forall_drop|rewrite ?length_take, ?length_drop; lia].
Qed.

(** ** Key generation *)

(** A scalar made to have 257 bits. *)
Lemma regular_ok k v : stands k 8 v -> 0 < v < order -> exists j, (j = 1 \/ j = 2) /\
  stands (regular k) 8 ((v + j * order) mod cap 8) /\ cap 8 <= v + j * order < 2 * cap 8.
Proof.
  intros Sk Hv. assert (Ho : cap 8 < 2 * order < 2 * cap 8) by done.
  unfold regular, regularize_k. destruct (uECC_vli_add_ok _ _ _ _ _ Sk curve_n_ok) as [S0 E0].
  destruct (uECC_vli_add k curve_n) as [k0 c]. cbn [fst snd] in S0, E0.
  destruct (uECC_vli_add_ok _ _ _ _ _ S0 curve_n_ok) as [S1 _].
  change (num_n_bits <? Z.of_nat num_n_words * 4 * 8) with false. cbn [andb]. rewrite orb_false_r.
  destruct (Z.eqb_spec c 0) as [->|Hc]; cbn [negb].
  - exists 2. pose proof (Z.div_small_iff (v + order) (cap 8) ltac:(lia)) as D.
    rewrite Zplus_mod_idemp_l in S1. replace (v + 2 * order) with (v + order + order) by lia.
    split; [by right|]. split; [done|lia].
  - exists 1. rewrite Z.mul_1_l. split; [by left|]. split; [done|].
    destruct (Z.lt_ge_cases (v + order) (cap 8)); [|lia]. rewrite Z.div_small in E0; lia.
Qed.

Definition G : affine := (vli_value curve_Gx, vli_value curve_Gy).

Lemma curve_G_ok : at_z (curve_Gx, curve_Gy) 1 G.
Proof.
  split; cbn [fst snd]; rewrite Z.mul_1_r; (apply rep_below; [|done]); (split_and!; [|done|done]); repeat constructor; done.
Qed.

Lemma at_z_value P A : at_z P 1 A -> stands P.1 8 (A.1 mod p) /\ stands P.2 8 (A.2 mod p).
Proof. intros [Hx Hy]. unfold rep in *. by rewrite !Z.mul_1_r in *. Qed.

(** A point times a scalar of the size of the order. *)
Lemma regular_mult P A k v iz z : at_z P 1 A -> stands k 8 v -> 0 < v < order ->
  rep (default (1 :: zeros (num_words - 1)) iz) z -> z mod p <> 0 ->
  no_exception P (regular k) iz (num_n_bits + 1) = true ->
  exists j Q, (j = 1 \/ j = 2) /\ multiple A (v + j * order) Q /\
    at_z (EccPoint_mult P (regular k) iz (num_n_bits + 1)) 1 Q.
Proof.
  intros HP Sk Hv Hz Hn He. destruct (regular_ok k v Sk Hv) as (j & Hj & Sr & Hb).
  destruct (EccPoint_mult_ok P A _ _ _ iz z (num_n_bits + 1) HP Sr Hz Hn ltac:(done) He) as (Q & MQ & HQ).
  exists j, Q. split; [done|]. split; [|done]. replace (v + j * order) with (cap 8 + (v + j * order) mod cap 8).
  - change (2 ^ (num_n_bits + 1 - 1)) with (cap 8) in MQ. by rewrite Z.mod_mod in MQ by (pose proof (cap_pos 8); lia).
  - rewrite (Z.mod_eq _ (cap 8)) by (pose proof (cap_pos 8); lia).
    replace ((v + j * order) / cap 8) with 1; [lia|]. apply (Z.div_unique_pos _ _ _ (v + j * order - cap 8)); lia.
Qed.

Lemma num_bytes_eq : num_bytes = (4 * 8)%nat.
Proof. reflexivity. Qed.

Lemma point_bytes_length P : length (point_bytes P) = 64%nat.
Proof.
  assert (H : forall n l, length (native_bytes l n) = n) by (induction n; intros l; cbn; auto).
  unfold point_bytes, uECC_vli_nativeToBytes. rewrite length_app, !H. done.
Qed.

Lemma point_bytes_ok P x y : stands P.1 8 x -> stands P.2 8 y ->
  bytes (point_bytes P) /\ be_value (take 32 (point_bytes P)) = x /\ be_value (drop 32 (point_bytes P)) = y.
Proof.
  intros Sx Sy. destruct (nativeToBytes_ok _ _ _ Sx) as (Bx & Lx & Ex), (nativeToBytes_ok _ _ _ Sy) as (By & Ly & Ey).
  unfold point_bytes. rewrite num_bytes_eq. rewrite take_app_length', drop_app_length' by done.
  split_and!; [by apply Forall_app|done|done].
Qed.

(** Which private keys have a public key, and which it is. *)
Lemma compute_public_key_ok d : bytes d -> length d = 32%nat ->
  match uECC_compute_public_key d with
  | Some pk =>
      0 < be_value d < order /\ length pk = 64%nat /\
      (no_exception (curve_Gx, curve_Gy) (regular (uECC_vli_bytesToNative d)) None (num_n_bits + 1) = true ->
       exists j Q, (j = 1 \/ j = 2) /\ multiple G (be_value d + j * order) Q /\ bytes pk /\
         be_value (take 32 pk) = Q.1 mod p /\ be_value (drop 32 pk) = Q.2 mod p)
  | None => be_value d = 0 \/ order <= be_value d \/
      EccPoint_isZero (EccPoint_mult (curve_Gx, curve_Gy) (regular (uECC_vli_bytesToNative d)) None (num_n_bits + 1)) = true
  end.
Proof.
  intros Hb Lb. pose proof (bytesToNative_ok d 8 Hb Lb) as Sd. pose proof (be_value_range d Hb).
  unfold uECC_compute_public_key. rewrite num_bytes_eq, take_ge by lia.
  rewrite (isZero_ok _ _ _ Sd), (vli_cmp_ok _ _ _ _ _ curve_n_ok Sd), sgn_one.
  destruct (Z.eqb_spec (be_value d) 0); [by left|]. destruct (Z.ltb_spec 0 (order - be_value d)); cbn [negb]; [|right; left; lia].
  unfold EccPoint_compute_public_key. set (R := EccPoint_mult _ _ _ _). destruct (EccPoint_isZero R) eqn:Ez; cbn [option_map]; [by right; right|].
  split; [lia|]. split; [apply point_bytes_length|]. intros He.
  destruct (regular_mult _ G _ _ None 1 curve_G_ok Sd ltac:(lia) rep_one ltac:(done) He) as (j & Q & Hj & MQ & HQ).
  destruct (at_z_value _ _ HQ) as [Sx Sy]. fold R in Sx, Sy. exists j, Q. destruct (point_bytes_ok R _ _ Sx Sy) as (? & ? & ?).
  by split_and!.
Qed.

(** ** Signatures *)

Lemma order_facts : cap 7 <= order /\ Z.odd order = true /\ 1 < order < cap 8.
Proof. done. Qed.
#[local] Opaque order.
#[local] Transparent uECC_vli_modAdd.

Lemma modMult_n l r v w : stands l 8 v -> stands r 8 w -> stands (uECC_vli_modMult l r curve_n) 8 ((v * w) mod order).
Proof. intros Sl Sr. apply modMult_ok; [done|done|done|apply curve_n_ok|apply order_facts]. Qed.

(** The sum modulo [n] of a hash, which may exceed [n], and a number below it. *)
Lemma modAdd_hash l r v w : stands l 8 v -> stands r 8 w -> w < order ->
  exists x, stands (uECC_vli_modAdd l r curve_n) 8 x /\ x mod order = (v + w) mod order.
Proof.
  intros Sl Sr Hw. pose proof (stands_range _ _ _ Sl). pose proof (stands_range _ _ _ Sr).
  destruct order_facts as (_ & _ & Ho). unfold uECC_vli_modAdd.
  destruct (uECC_vli_add_ok l r 8 v w Sl Sr) as [Ss Ec]. destruct (uECC_vli_add l r) as [s c]. cbn [fst snd] in Ss, Ec.
  destruct (uECC_vli_sub_ok s curve_n 8 _ _ Ss curve_n_ok) as [Sd _].
  rewrite (cmp_unsafe_ok _ _ _ _ _ curve_n_ok Ss), sgn_one.
  assert (Es : forall x, x = v + w - order -> x mod order = (v + w) mod order).
  { intros x ->. by rewrite <- Zminus_mod_idemp_r, Z.mod_same, Z.sub_0_r by lia. }
  destruct (decide (v + w < cap 8)) as [Hc|Hc].
  - rewrite Z.div_small in Ec by lia. subst c. rewrite (Z.mod_small (v + w)) in * by lia. cbn [Z.eqb negb orb].
    destruct (Z.ltb_spec 0 (order - (v + w))); cbn [negb]; [by exists (v + w)|].
    rewrite Z.mod_small in Sd by lia. eexists. split; [exact Sd|]. by apply Es.
  - assert (E1 : (v + w) / cap 8 = 1) by (symmetry; apply (Z.div_unique_pos _ _ _ (v + w - cap 8)); lia).
    rewrite E1 in Ec. subst c. cbn [Z.eqb negb orb]. rewrite Zminus_mod_idemp_l, Z.mod_small in Sd by lia.
    eexists. split; [exact Sd|]. by apply Es.
Qed.

Lemma numBits_8 l v : stands l 8 v -> uECC_vli_numBits l <= 256.
Proof.
  intros S. pose proof (stands_range _ _ _ S) as R. destruct (numBits_ok _ _ _ S) as (H1 & H2 & H3).
  destruct (Z.eq_dec v 0) as [->|]; [|].
  - destruct S as (W & L & E). pose proof (numDigits_ok l W) as D. unfold uECC_vli_numBits in *.
    destruct (vli_numDigits l); [lia|]. destruct D as [Hd Hv]. pose proof (cap_pos n). nia.
  - specialize (H3 ltac:(lia)). destruct (Z.le_gt_cases (uECC_vli_numBits l) 256); [done|].
    assert (2 ^ 256 <= 2 ^ (uECC_vli_numBits l - 1)) by (apply Z.pow_le_mono_r; lia). rewrite cap_8 in R. lia.
Qed.

(** [k] inverted behind the number [t]: [t] times the inverse of [k t]. *)
Lemma hidden_inverse lk lt k t : stands lk 8 k -> stands lt 8 t -> 0 < k < order -> 0 < t < order ->
  exists i, stands (uECC_vli_modMult (uECC_vli_modInv (uECC_vli_modMult lk lt curve_n) curve_n) lt curve_n) 8 i /\
    (i * k) mod order = 1.
Proof.
  intros Sk St Hk Ht. pose proof (product_gcd order k t order_prime Hk Ht) as Hg.
  destruct order_facts as (_ & Hodd & Ho). pose proof (modMult_n _ _ _ _ Sk St) as S1.
  rewrite <- Z.gcd_mod_l in Hg. pose proof (Z.mod_pos_bound (k * t) order ltac:(lia)).
  assert (Hx : 0 < (k * t) mod order).
  { destruct (Z.eq_dec ((k * t) mod order) 0) as [E|]; [|lia]. rewrite E, Z.gcd_0_l, Z.abs_eq in Hg by lia. lia. }
  destruct (modInv_ok _ _ 7 _ order S1 curve_n_ok Hodd ltac:(lia) Hx) as (w & Sw & Rw & Hi).
  specialize (Hi Hg). rewrite Z.mul_mod_idemp_r in Hi by lia.
  eexists. split; [exact (modMult_n _ _ _ _ Sw St)|]. rewrite Z.mul_mod_idemp_l by lia.
  by replace (w * t * k) with (w * (k * t)) by ring.
Qed.

(** The second half [s] of a signature with [s k = e + r d] modulo the order. *)
Lemma sign_hidden_ok d e lk P lt k t r :
  bytes d -> length d = 32%nat -> bytes e -> length e = 32%nat ->
  stands lk 8 k -> stands lt 8 t -> 0 < k < order -> 0 < t < order -> stands P.1 8 r ->
  exists sig, sign_hidden d e lk P lt = Some sig /\ bytes sig /\ length sig = 64%nat /\
    be_value (take 32 sig) = r /\ be_value (drop 32 sig) < order /\
    (be_value (drop 32 sig) * k) mod order = (be_value e + r * be_value d) mod order.
Proof.
  intros Bd Ld Be Le Sk St Hk Ht Sr. destruct order_facts as (_ & _ & Ho).
  pose proof (bytesToNative_ok d 8 Bd Ld) as Sd. pose proof (modMult_n _ _ _ _ Sd Sr) as Srd.
  pose proof (Z.mod_pos_bound (be_value d * r) order ltac:(lia)).
  destruct (modAdd_hash _ _ _ _ (bits2int_ok e Be Le) Srd ltac:(lia)) as (x & Sx & Ex).
  unfold sign_hidden. rewrite num_bytes_eq, take_ge by lia.
  set (ki := uECC_vli_modMult (uECC_vli_modInv _ _) _ _).
  destruct (hidden_inverse _ _ _ _ Sk St Hk Ht) as (i & Si & Hi). fold ki in Si.
  clearbody ki.
  pose proof (modMult_n _ _ _ _ Sx Si) as Ss. set (s := uECC_vli_modMult _ ki curve_n) in *.
  pose proof (numBits_8 _ _ Ss). rewrite Z.gtb_ltb. destruct (Z.ltb_spec (Z.of_nat (4 * 8) * 8) (uECC_vli_numBits s)); [lia|].
  destruct (nativeToBytes_ok _ _ _ Sr) as (Br & Lr & Er), (nativeToBytes_ok _ _ _ Ss) as (Bs & Ls & Es).
  eexists. split; [done|]. rewrite take_app_length', drop_app_length' by done. rewrite Er, Es.
  split_and!; [by apply Forall_app|rewrite length_app; lia|done|apply Z.mod_pos_bound; lia|].
  rewrite Z.mul_mod_idemp_l by lia. replace (x * i * k) with (x * (i * k)) by ring.
  rewrite <- Z.mul_mod_idemp_r, Hi, Z.mul_1_r, Ex by lia. rewrite Z.add_mod_idemp_r by lia. f_equal. ring.
Qed.

(** A signature of [e] under [d], made with a number [k], in the words [lk]: its
    first half is the first coordinate [EccPoint_mult] computes for [k], the one
    of a multiple of the base point unless the ladder meets an exceptional case. *)
Definition signature_of (d e : list Z) (sig : list Z) : Prop :=
  bytes sig /\ length sig = 64%nat /\ be_value (take 32 sig) <> 0 /\ be_value (drop 32 sig) < order /\
  exists lk k, stands lk 8 k /\ 0 < k < order /\
    stands (EccPoint_mult (curve_Gx, curve_Gy) (regular lk) None (num_n_bits + 1)).1 8 (be_value (take 32 sig)) /\
    (no_exception (curve_Gx, curve_Gy) (regular lk) None (num_n_bits + 1) = true ->
     exists j Q, (j = 1 \/ j = 2) /\ multiple G (k + j * order) Q /\ be_value (take 32 sig) = Q.1 mod p) /\
    (be_value (drop 32 sig) * k) mod order = (be_value e + be_value (take 32 sig) * be_value d) mod order.

(** ** Every result is a point of the field, exceptional cases included *)

Definition fe (l : list Z) : Prop := exists x, rep l x.
Definition fe_point (P : point) : Prop := fe P.1 /\ fe P.2.

Lemma fe_eight l : fe l -> eight l.
Proof. intros [x (W & L & _)]. by split. Qed.
Lemma fe_product a b : eight a -> eight b -> fe (uECC_vli_modMult_fast a b).
Proof. intros Ha Hb. eexists. by apply rep_product. Qed.
Lemma fe_mul a b : fe a -> fe b -> fe (uECC_vli_modMult_fast a b).
Proof. intros [x Hx] [y Hy]. eexists. by apply rep_mul. Qed.
Lemma fe_sqr a : fe a -> fe (uECC_vli_modSquare_fast a).
Proof. intros [x Hx]. eexists. by apply rep_sqr. Qed.
Lemma fe_add a b : fe a -> fe b -> fe (uECC_vli_modAdd a b curve_p).
Proof. intros [x Hx] [y Hy]. eexists. by apply rep_add. Qed.
Lemma fe_sub a b : fe a -> fe b -> fe (uECC_vli_modSub a b curve_p).
Proof. intros [x Hx] [y Hy]. eexists. by apply rep_sub. Qed.
Lemma fe_half a : fe a -> fe (half_mod_p a).
Proof.
  intros [x Hx]. exists (x * ((p + 1) / 2)). apply (rep_half _ x); [done|]. exists x.
  assert (E : 2 * ((p + 1) / 2) = p + 1) by done. replace (2 * (x * ((p + 1) / 2))) with (x * (2 * ((p + 1) / 2))) by ring.
  rewrite E. ring.
Qed.
Lemma fe_inv a : fe a -> fe (uECC_vli_modInv a curve_p).
Proof.
  intros [x Hx]. pose proof p_big. pose proof (rep_range x). assert (1 < cap 7) by done.
  destruct (Z.eq_dec (x mod p) 0) as [E|E].
  - unfold rep in Hx. rewrite E in Hx. rewrite (modInv_zero _ _ _ Hx). exists 0. apply rep_below; [|lia].
    split_and!; [apply zeros_words|done|done].
  - destruct (modInv_ok a curve_p 7 _ p Hx curve_p_ok odd_p ltac:(lia) ltac:(lia)) as (w & Hw & Rw & _).
    exists w. apply rep_below; [done|lia].
Qed.

Create HintDb field_words.
#[local] Hint Resolve fe_mul fe_sqr fe_add fe_sub fe_half fe_inv : field_words.
#[local] Opaque half_mod_p uECC_vli_modInv.

Lemma fe_apply_z P z : fe_point P -> fe z -> fe_point (apply_z P z).
Proof. destruct P as [X Y]. intros [HX HY] Hz. split; cbn in *; auto 8 with field_words. Qed.
Lemma fe_XYcZ_add P Q : fe_point P -> fe_point Q -> fe_point (XYcZ_add P Q).1 /\ fe_point (XYcZ_add P Q).2.
Proof.
  destruct P as [X1 Y1], Q as [X2 Y2]. intros [H1 H2] [H3 H4]. cbn [fst snd] in *. unfold XYcZ_add, fe_point. cbn [fst snd].
  split_and!; auto 20 with field_words.
Qed.
Lemma fe_XYcZ_addC P Q : fe_point P -> fe_point Q -> fe_point (XYcZ_addC P Q).1 /\ fe_point (XYcZ_addC P Q).2.
Proof.
  destruct P as [X1 Y1], Q as [X2 Y2]. intros [H1 H2] [H3 H4]. cbn [fst snd] in *. unfold XYcZ_addC, fe_point. cbn [fst snd].
  split_and!; auto 20 with field_words.
Qed.

Definition fe_ladder (R : ladder) : Prop := fe_point R.1 /\ fe_point R.2.
Lemma fe_pick R nb : fe_ladder R -> fe_point (pick R nb).
Proof. by intros []; destruct nb. Qed.
Lemma fe_pair nb a c : fe_point a -> fe_point c -> fe_ladder (pair nb a c).
Proof. by destruct nb. Qed.
Lemma fe_ladder_addC R nb : fe_ladder R -> fe_ladder (ladder_addC R nb).
Proof.
  intros H. unfold ladder_addC.
  destruct (fe_XYcZ_addC _ _ (fe_pick R (negb nb) H) (fe_pick R nb H)) as [H1 H2].
  destruct (XYcZ_addC _ _). by apply fe_pair.
Qed.
Lemma fe_ladder_add R nb : fe_ladder R -> fe_ladder (ladder_add R nb).
Proof.
  intros H. unfold ladder_add.
  destruct (fe_XYcZ_add _ _ (fe_pick R nb H) (fe_pick R (negb nb) H)) as [H1 H2].
  destruct (XYcZ_add _ _). by apply fe_pair.
Qed.
Lemma fe_ladder_loop scalar i : forall R, fe_ladder R -> fe_ladder (ladder_loop scalar i R).
Proof. induction i as [|i IH]; intros R H; cbn [ladder_loop]; auto using fe_ladder_addC, fe_ladder_add. Qed.

Lemma fe_double P z : fe_point P -> fe z ->
  let '(X, Y, Z1) := double_jacobian_default (P.1, P.2, z) in fe_point (X, Y) /\ fe Z1.
Proof.
  intros [HX HY] Hz. unfold double_jacobian_default. destruct (uECC_vli_isZero z); [done|].
  unfold fe_point. cbn [fst snd]. split_and!; auto 30 with field_words.
Qed.

(** The words of a point the platform sends may exceed [p]. *)
Definition eight_point (P : point) : Prop := eight P.1 /\ eight P.2.
Lemma fe_apply_z_eight P z : eight_point P -> fe z -> fe_point (apply_z P z).
Proof.
  destruct P as [X Y]. intros [HX HY] Hz. cbn [fst snd] in *.
  split; cbn [apply_z fst snd]; (apply fe_product; [done|apply fe_eight; auto 8 with field_words]).
Qed.

Lemma fe_EccPoint_mult P scalar iz num_bits : eight_point P -> fe (default (1 :: zeros (num_words - 1)) iz) ->
  fe_point (EccPoint_mult P scalar iz num_bits).
Proof.
  intros HP Hz. unfold EccPoint_mult, XYcZ_initial_double. set (z0 := default _ iz) in *.
  pose proof (fe_apply_z_eight P z0 HP Hz) as H1.
  destruct (apply_z P z0) as [X Y]. pose proof (fe_double (X, Y) z0 H1 Hz) as D. cbn [fst snd] in D.
  destruct (double_jacobian_default (X, Y, z0)) as [[X1 Y1] z]. destruct D as [D Dz].
  pose proof (fe_ladder_loop scalar (Z.to_nat (num_bits - 2)) (apply_z P z, (X1, Y1))
    (conj (fe_apply_z_eight P z HP Dz) D)) as H2.
  set (nb := negb _). pose proof (fe_ladder_addC _ nb H2) as H3. set (R := ladder_addC _ nb) in *.
  destruct (fe_ladder_add R nb H3) as [H4 _]. apply fe_apply_z; [done|].
  destruct H3 as [[H5 _] [H6 _]]. destruct HP as [HPx HPy].
  pose proof (fe_pick R (negb nb) (fe_ladder_addC _ nb H2)) as [H7 H8].
  assert (Hm : forall a, fe a -> fe (uECC_vli_modMult_fast a P.1)) by (intros a Ha; apply fe_product; [by apply fe_eight|done]).
  assert (Hn : forall a, fe a -> fe (uECC_vli_modMult_fast a P.2)) by (intros a Ha; apply fe_product; [by apply fe_eight|done]).
  auto 20 with field_words.
Qed.

Lemma fe_point_words P : fe_point P -> stands P.1 8 (vli_value P.1) /\ stands P.2 8 (vli_value P.2) /\
  vli_value P.1 < p /\ vli_value P.2 < p.
Proof.
  intros [[x (Wx & Lx & Ex)] [y (Wy & Ly & Ey)]]. pose proof (rep_range x). pose proof (rep_range y).
  split; [done|]. split; [done|]. lia.
Qed.

(** ** Signing, whatever is drawn *)

Lemma eight_G : eight_point (curve_Gx, curve_Gy).
Proof. destruct (at_z_value _ _ curve_G_ok) as [(? & ? & _) (? & ? & _)]. by split. Qed.
Lemma fe_one : fe (1 :: zeros (num_words - 1)).
Proof. exists 1. apply rep_one. Qed.

Lemma sign_with_k_ok d e lk k : bytes d -> length d = 32%nat -> bytes e -> length e = 32%nat ->
  stands lk 8 k -> 0 < k < order ->
  drawn (fun o => match o with Some sig => signature_of d e sig | None => True end) (uECC_sign_with_k d e lk).
Proof.
  intros Bd Ld Be Le Sk Hk. unfold uECC_sign_with_k.
  destruct (uECC_vli_isZero lk || _); [done|]. set (P := EccPoint_mult _ _ _ _).
  destruct (fe_point_words P (fe_EccPoint_mult _ (regular lk) None (num_n_bits + 1) eight_G fe_one)) as (Sx & _).
  rewrite (isZero_ok _ _ _ Sx). destruct (Z.eqb_spec (vli_value P.1) 0) as [|Hr]; [done|].
  apply (drawn_bind (random_below 8 order)); [apply generate_random_int_ok, curve_n_ok|].
  intros [lt|]; [|done]. intros (t & St & Ht). cbn [drawn].
  destruct (sign_hidden_ok d e lk P lt k t _ Bd Ld Be Le Sk St Hk Ht Sx) as (sig & -> & Bs & Ls & Er & Hs & Heq).
  split; [done|]. split; [done|]. split; [lia|]. split; [done|]. exists lk, k. do 2 (split; [done|]). rewrite Er.
  split; [exact Sx|]. split; [|done]. intros He.
  destruct (regular_mult _ G _ _ None 1 curve_G_ok Sk Hk rep_one ltac:(done) He) as (j & Q & Hj & MQ & HQ).
  fold P in HQ. destruct (at_z_value _ _ HQ) as [(_ & _ & Ex) _]. exists j, Q. by split_and!.
Qed.

Lemma sign_loop_ok d e tries : bytes d -> length d = 32%nat -> bytes e -> length e = 32%nat ->
  drawn (fun o => match o with Some sig => signature_of d e sig | None => True end) (sign_loop tries d e).
Proof.
  intros Bd Ld Be Le. induction tries as [|tries IH]; cbn [sign_loop]; [done|].
  apply (drawn_bind (random_below 8 order)); [apply generate_random_int_ok, curve_n_ok|].
  intros [lk|]; [|done]. intros (k & Sk & Hk). eapply drawn_bind; [by apply (sign_with_k_ok d e lk k)|].
  by intros [sig|].
Qed.

(** ** The exchange of keys *)

(** The secret is the first coordinate of the multiple of the platform's point. *)
Lemma shared_secret_ok pk d : bytes pk -> length pk = 64%nat -> bytes d -> length d = 32%nat ->
  0 < be_value d < order -> be_value (take 32 pk) < p -> be_value (drop 32 pk) < p ->
  drawn (fun o => match o with
    | Some secret => length secret = 32%nat /\ exists z,
        (no_exception (bytes_point pk) (regular (uECC_vli_bytesToNative d)) (Some z) (num_n_bits + 1) = true ->
         exists j Q, (j = 1 \/ j = 2) /\ multiple (be_value (take 32 pk), be_value (drop 32 pk)) (be_value d + j * order) Q /\
           be_value secret = Q.1 mod p)
    | None => True
    end) (uECC_shared_secret pk d).
Proof.
  intros Bp Lp Bd Ld Hd Hx Hy. destruct (bytes_point_ok pk Bp Lp) as [Sx Sy].
  pose proof (bytesToNative_ok d 8 Bd Ld) as Sd. unfold uECC_shared_secret. rewrite num_bytes_eq, (take_ge d) by lia.
  apply (drawn_bind (random_below 8 p)); [apply generate_random_int_ok, curve_p_ok|].
  intros [lz|]; [|done]. intros (z & Sz & Hz). cbn [drawn]. set (R := EccPoint_mult _ _ _ _).
  pose proof (rep_below _ _ Sz ltac:(lia)) as Rz.
  assert (HP : at_z (bytes_point pk) 1 (be_value (take 32 pk), be_value (drop 32 pk))).
  { split; cbn [fst snd]; rewrite Z.mul_1_r; by apply rep_below. }
  assert (H8 : eight_point (bytes_point pk)) by (split; split; (apply Sx || apply Sy)).
  destruct (fe_point_words R (fe_EccPoint_mult _ _ (Some lz) _ H8 (ex_intro _ z Rz))) as (SR & _).
  destruct (EccPoint_isZero R); [done|]. destruct (nativeToBytes_ok _ _ _ SR) as (_ & Ls & Es).
  split; [done|]. exists lz. intros He.
  destruct (regular_mult _ _ _ _ (Some lz) z HP Sd Hd Rz ltac:(rewrite Z.mod_small; lia) He) as (j & Q & Hj & MQ & HQ).
  fold R in HQ. destruct (at_z_value _ _ HQ) as [(_ & _ & Ex) _]. exists j, Q. by rewrite Es.
Qed.

(** C15: [uECC_valid_public_key] accepts 64 bytes exactly when they are two numbers
    below [p], not both zero, that satisfy the curve equation. *)
Theorem valid_public_key_iff pk : bytes pk -> length pk = 64%nat ->
  let x := be_value (take 32 pk) in
  let y := be_value (drop 32 pk) in
  uECC_valid_public_key pk = true <-> ~ (x = 0 /\ y = 0) /\ x < p /\ y < p /\ on_curve x y.
Proof. intros Hb Lb. destruct (bytes_point_ok pk Hb Lb). by apply valid_point_ok. Qed.

(** The base point. *)
Definition base_point : list Z := point_bytes (curve_Gx, curve_Gy).
Lemma valid_public_key_iff_witness :
  uECC_valid_public_key base_point = true <-> ~ (be_value (take 32 base_point) = 0 /\ be_value (drop 32 base_point) = 0) /\
    be_value (take 32 base_point) < p /\ be_value (drop 32 base_point) < p /\
    on_curve (be_value (take 32 base_point)) (be_value (drop 32 base_point)).
Proof.
  assert (H : bytes base_point) by apply (proj1 (point_bytes_ok (curve_Gx, curve_Gy) _ _ (proj1 (at_z_value _ _ curve_G_ok)) (proj2 (at_z_value _ _ curve_G_ok)))).
  apply (valid_public_key_iff base_point H). apply point_bytes_length.
Defined.



End MicroEccProps.
