(* ===== verification/Demo.v ===== *)
(** * A concrete device

    A firmware state over the in-memory volume and the scripted board, on which
    the witnesses of the storage and protocol theorems run. *)

From S2P Require Import Prelude Monad Lfs Fs Board Sha256 Aes Crypto Rng State CtapTypes Dev.
Import Monad Lfs Lfs.Ram Fs Board Board.Sim Sha256 Aes Crypto Rng State CtapTypes Dev.

Module Demo.

Definition demo_files : gmap string (list Z) := <["counter"%string := [41; 0; 0; 0]]> (<["state"%string := [7]]> ∅).
Definition demo_dirs : gset string := {["rk"%string]}.
Definition demo_ram : ram := mkRam demo_files demo_dirs.

Definition demo_state : AuthenticatorState :=
  mkState 1 7 1 8 (replicate 16 3) (replicate 16 4) 0 (replicate 64 5).

Definition demo_crypto : crypto_vars :=
  mkCrypto fresh_ctx (mkAes (zeros 240) (zeros 16))
    (mkDeviceKeys (replicate 32 1) (replicate 32 2) (replicate 32 3))
    (mkSessionKeys (replicate 32 4) (replicate 32 5) (replicate 32 6) (replicate 32 7))
    (zeros 64) false (zeros 32) (zeros 32) (zeros 64) NoKey.

Definition demo_rng : rng_ctx := rng_zero <| rng_initialized := true |>.

(** The touch sensor is pressed at the third look. *)
Definition demo_board : sim := mkSim 5 [false; false; true] 12345 0.

Definition demo_with (m : ram) : dev :=
  mkDev (mkHw m demo_board demo_rng) demo_crypto
    (mkDevice fs_file_zero false 0 []) demo_state (mkPin pt_zero pt_zero PIN_BOOT_ATTEMPTS)
    gas_zero cms_zero.
Definition demo : dev := demo_with demo_ram.

Lemma demo_vol_of m :
  bool_decide (map_Forall (fun _ x => Z.of_nat (length x) <= LFS_FILE_MAX) m) = true ->
  vol m demo_dirs (mkRam m demo_dirs).
Proof. intros H. split; [|done]. intros n x Hx. apply bool_decide_eq_true in H. by apply (H n x). Qed.

Lemma demo_vol : vol demo_files demo_dirs demo_ram.
Proof. by apply demo_vol_of. Qed.

Lemma demo_state_ok : state_ok demo_state.
Proof. split; try done; cbn; unfold is_u32, is_byte; lia. Qed.

Lemma demo_rng_ok : rng_ok demo_rng.
Proof. split; [done|done|]. cbn. lia. Qed.

(** A key exchange both sides agree on: the sum of the secrets, byte by byte. *)
Module Toy.

Definition toy_shared (pk k : list Z) : draws (option (list Z)) :=
  Draw 32 (fun _ => Drawn (Some (zip_with (fun a b => u8 (a + b)) (take 32 pk) k))).

#[export] Instance ToyEcc : Ecc := {
  uECC_compute_public_key k := Some (take 64 (k ++ zeros 64));
  uECC_shared_secret := toy_shared;
  uECC_sign k h := Draw 32 (fun r => Drawn (Some (take 64 (k ++ h ++ default [] r ++ zeros 64))));
  crypto_ed25519_key_pair seed := (take 64 (seed ++ zeros 64), take 32 (seed ++ zeros 32));
  crypto_ed25519_sign sk m := take 64 (sk ++ m ++ zeros 64);
}.
#[export] Instance ToyEcc_laws : EccLaws ToyEcc.
Proof.
  assert (T : forall n (l : list Z), length (take n (l ++ zeros n)) = n).
  { intros n l. rewrite length_take, length_app, zeros_length. lia. }
  split; intros; [apply T|done| |apply T|apply T|].
  - intros o. unfold signature64. rewrite !app_assoc. apply T.
  - cbn [crypto_ed25519_sign ToyEcc]. rewrite app_assoc. apply T.
Qed.

End Toy.

End Demo.
