(* ===== verification/Device.v ===== *)
(** * Device services (src/targets/tkey/src/device.c)

    The clock, the user presence test, random bytes, the sealed state file,
    the signature counter and the files of resident keys. *)

From S2P Require Import Prelude Monad Lfs Fs Board CborParser Crypto Rng State CtapTypes Dev.
Import Monad Lfs Fs Board CborParser Crypto Rng State CtapTypes Dev.

Module Device.

Definition STATE_MAGIC : Z := 0xA5.
Definition STATE_MAGIC_SIZE : nat := 1.
Definition STATE_MAC_SIZE : nat := 16.
Definition STATE_ENVELOPE_BUF_SIZE : nat := 192.
Definition CTAPHID_STATUS_IDLE : Z := 0.
Definition CTAPHID_STATUS_PROCESSING : Z := 1.
Definition CTAPHID_STATUS_UPNEEDED : Z := 2.
Definition LED_BLACK : Z := 0.
Definition LED_GREEN : Z := 2.

Section Device.
Context {L : Lfs} {B : Board}.

Definition device_get_bound_secret : list Z := cdi.

Definition device_disable_up (disable : bool) : F unit :=
  upd d_vars (fun v => v <| up_disabled := disable |>).

Definition millis : F Z :=
  let* timer_val := board timer_value in
  if timer_val <=? 1 then stop FAssert else ret (u32 (TIMER_MAX - timer_val)).

Definition device_set_status (status : Z) : F unit :=
  (if negb (status =? CTAPHID_STATUS_IDLE)
   then upd d_vars (fun v => v <| status_updates := status_updates v ++ [status] |>)
   else ret tt) ;*
  upd d_vars (fun v => v <| device_status := status |>).

(** [while ((millis() - time) < ms)]: the timer moves on after at most
    [polls_per_ms] reads. *)
Fixpoint delay_loop (fuel : nat) (time ms : Z) : F unit :=
  match fuel with
  | O => stop FExit
  | S fuel =>
      let* t := millis in
      if u32 (t - time) <? ms then delay_loop fuel time ms else ret tt
  end.
Definition poll_fuel (ms : Z) : nat := (S polls_per_ms * S (Z.to_nat ms))%nat.
Definition delay (ms : Z) : F unit :=
  let* time := millis in delay_loop (S (poll_fuel ms)) time ms.

Definition device_reboot : F unit := stop FAssert.

Fixpoint wink_loop (n : nat) : F unit :=
  match n with
  | O => ret tt
  | S n =>
      board_set (led_set LED_GREEN) ;* delay 300 ;*
      board_set (led_set LED_BLACK) ;* delay 300 ;* wink_loop n
  end.
Definition device_wink : F unit := wink_loop 2.

(** ** Random bytes *)

(** The result, and the bytes put in [dst] when it is 1. *)
Definition ctap_generate_rng (num : Z) : F (Z * option (list Z)) :=
  let* o := rng (rng_get_bytes num) in
  match o with
  | Some l => ret (1, Some l)
  | None => ret (0, None)
  end.

(** The random bytes micro-ecc asks [ctap_generate_rng] for. *)
Fixpoint run_draws {A} (t : draws A) : F A :=
  match t with
  | Drawn a => ret a
  | Draw n k => let* (_, o) := ctap_generate_rng (Z.of_nat n) in run_draws (k o)
  end.

(** A buffer filled by [ctap_generate_rng], its result ignored. *)
Definition fill_random (buf : list Z) : F (list Z) :=
  let* (_, o) := ctap_generate_rng (Z.of_nat (length buf)) in
  ret (default buf o).

(** ** The state file *)

Definition verify_device_mac (data mac : list Z) : F Z :=
  let* k := gets (fun d => key_device_mac (dev_keys (d_crypto d))) in
  sha (crypto_verify_device_mac k data mac STATE_MAC_SIZE).
Definition compute_device_mac (data : list Z) : F (list Z) :=
  let* k := gets (fun d => key_device_mac (dev_keys (d_crypto d))) in
  sha (crypto_compute_device_mac k data STATE_MAC_SIZE).

(** The result and [*a].  The bytes of [tmp_buf] past those read are never
    used; zeros stand for them. *)
Definition authenticator_read_state (a : AuthenticatorState) : F (Z * AuthenticatorState) :=
  let* (r, d) := fs (fs_read_open "state" (Z.of_nat STATE_ENVELOPE_BUF_SIZE)) in
  if r <=? 0 then ret (0, a)
  else
    let tmp_buf := d ++ zeros (STATE_ENVELOPE_BUF_SIZE - length d) in
    if negb (nth 0 tmp_buf 0 =? STATE_MAGIC) then ret (0, a)
    else
      let cbor_size := u32 (r - Z.of_nat STATE_MAGIC_SIZE - Z.of_nat STATE_MAC_SIZE) in
      let* cbor := lift (mem_read tmp_buf (STATE_MAGIC_SIZE + STATE_MAC_SIZE) (Z.to_nat cbor_size)) in
      let* mac := lift (mem_read tmp_buf STATE_MAGIC_SIZE STATE_MAC_SIZE) in
      let* ok := verify_device_mac cbor mac in
      if ok =? 0 then ret (0, a)
      else
        let* (r, a) := lift (state_cbor_decode cbor a) in
        if negb (r =? 0) then ret (0, a) else ret (1, a).

Definition authenticator_write_state (a : AuthenticatorState) : F unit :=
  let cbor_max_size := (STATE_ENVELOPE_BUF_SIZE - STATE_MAGIC_SIZE - STATE_MAC_SIZE)%nat in
  let* (err, cbor, cbor_size) := lift (state_cbor_encode (zeros cbor_max_size) a) in
  match err with
  | CborNoError =>
      let* data := lift (mem_read cbor 0 cbor_size) in
      let* mac := compute_device_mac data in
      let write_buf := [STATE_MAGIC] ++ mac ++ cbor in
      let write_size := (cbor_size + STATE_MAGIC_SIZE + STATE_MAC_SIZE)%nat in
      let* data := lift (mem_read write_buf 0 write_size) in
      let* r := fs (fs_write_open "state" data) in
      if negb (r =? Z.of_nat write_size) then stop FAssert else ret tt
  | _ => stop FAssert
  end.

(** [ctap_flush_state], [ctap_increment_rk_store], [ctap_decrement_rk_store]
    (ctap.c). *)
Definition ctap_flush_state : F unit :=
  let* s := gets STATE in authenticator_write_state s.
Definition ctap_increment_rk_store : F unit :=
  upd STATE (fun s => s <| rk_stored := u16 (rk_stored s + 1) |>) ;* ctap_flush_state.
Definition ctap_decrement_rk_store : F unit :=
  upd STATE (fun s => s <| rk_stored := u16 (rk_stored s - 1) |>) ;* ctap_flush_state.

(** ** The signature counter *)

Definition ctap_atomic_count (amount : Z) : F Z :=
  let* (_, f) := fs (fs_open_file fs_file_zero "counter" (Z.lor LFS_O_RDWR LFS_O_CREAT)) in
  let* (r, d, f) := fs (fs_read f 4) in
  let lastc := if r <? 0 then 0 else le32_dec (d ++ drop (length d) (zeros 4)) in
  let* amount :=
    if amount =? 0 then
      let* (_, o) := ctap_generate_rng 1 in
      match o with
      | Some l => ret (Z.land (nth 0 l 0) 0x0f + 1)
      | None => stop FOutOfBounds
      end
    else ret amount in
  let lastc := u32 (lastc + amount) in
  let* (_, f) := fs (fs_write_at f (le32 lastc) 0) in
  let* (_, f) := fs (fs_close_file f) in
  ret lastc.

(** ** User presence *)

(** The [do ... while] loop of [ctap_user_presence_test]. *)
Fixpoint presence_loop (fuel : nat) (start_time up_delay : Z) : F Z :=
  match fuel with
  | O => stop FExit
  | S fuel =>
      let* touched := board touch_event in
      if touched : bool then
        board_set (led_set LED_BLACK) ;*
        device_set_status CTAPHID_STATUS_PROCESSING ;* ret 1
      else
        device_set_status CTAPHID_STATUS_UPNEEDED ;*
        let* time := millis in
        let led_on := (u32 (time - start_time) / 100) mod 2 in
        board_set (led_set (if negb (led_on =? 0) then LED_GREEN else LED_BLACK)) ;*
        if u32 (time - start_time) <? up_delay then presence_loop fuel start_time up_delay
        else board_set (led_set LED_BLACK) ;* ret 0
  end.

Definition ctap_user_presence_test (up_delay : Z) : F Z :=
  let* disabled := gets (fun d => up_disabled (d_vars d)) in
  if disabled : bool then ret 2
  else
    let* start_time := millis in
    board_set touch_clear ;*
    presence_loop (S (poll_fuel up_delay)) start_time up_delay.

(** ** Resident keys *)

Definition ctap_reset_rk : F unit := let* _ := fs (fs_dir_del "rk") in ret tt.

Definition ctap_max_number_of_rks : Z := 200.

(** [%x] of a number below 16. *)
Definition hex_digit (n : Z) : string :=
  match String.get (Z.to_nat n) "0123456789abcdef" with
  | Some c => String c EmptyString
  | None => EmptyString
  end.

Definition rpid_hash_to_file (hash : list Z) : string :=
  ("rk/" +:+ hex_digit (Z.shiftr (nth 0 hash 0) 4) +:+ ".dat")%string.

Definition RK : Z := Z.of_nat RK_SIZE.

Definition ctap_store_rk (rk : CTAP_residentKey) : F Z :=
  let path := rpid_hash_to_file (rp_id_lookup (rk_id rk)) in
  let* (r, f) := fs (fs_open_file fs_file_zero path
                       (Z.lor (Z.lor LFS_O_RDWR LFS_O_CREAT) LFS_O_APPEND)) in
  if r <? 0 then ret r
  else
    let* (r, f) := fs (fs_write f (rk_bytes rk)) in
    if r <=? 0 then
      let* _ := fs (fs_close_file f) in ret (-1)
    else
      let* _ := fs (fs_close_file f) in
      ctap_increment_rk_store ;* ret 0.

Definition get_f_rk : F fs_file_t := gets (fun d => f_rk (d_vars d)).
Definition set_f_rk (f : fs_file_t) : F unit := upd d_vars (fun v => v <| f_rk := f |>).

(** An operation of fs.c on [_f_rk]. *)
Definition on_f_rk {A} (op : fs_file_t -> M lfs_t (A * fs_file_t)) : F A :=
  let* f := get_f_rk in
  let* (a, f) := fs (op f) in
  set_f_rk f ;* ret a.

Definition ctap_open_rk_file (rpid_hash : list Z) : F Z :=
  let path := rpid_hash_to_file rpid_hash in
  let* r := on_f_rk (fun f => fs_open_file f path (Z.lor LFS_O_RDWR LFS_O_CREAT)) in
  if r <? 0 then ret (-1)
  else
    let* f := get_f_rk in
    let* r := fs (fs_file_size f) in
    if r <? 0 then ret (-1) else ret (Z.quot r RK).

Definition ctap_close_rk_file : F Z := on_f_rk fs_close_file.

(** The key read into [old]: what was not read keeps its bytes. *)
Definition load_into (old : CTAP_residentKey) (d : list Z) : CTAP_residentKey :=
  rk_of (d ++ drop (length d) (rk_bytes old)).

Definition ctap_load_next_rk (dst_rk : CTAP_residentKey) : F CTAP_residentKey :=
  let* (_, d) := on_f_rk (fun f => fs_read f RK) in ret (load_into dst_rk d).

Definition ctap_load_rk (index : Z) (dst_rk : CTAP_residentKey) : F CTAP_residentKey :=
  let* (_, d) := on_f_rk (fun f => fs_read_at f RK (index * RK)) in ret (load_into dst_rk d).

Definition rk_zero : CTAP_residentKey := rk_of (zeros RK_SIZE).

(** The end shared by the two writes of [ctap_overwrite_rk]; [appended] tells
    whether the counter goes up. *)
Definition write_rk_at (rk : CTAP_residentKey) (offset : Z) (appended : bool) : F Z :=
  let* r := on_f_rk (fun f => fs_write_at f (rk_bytes rk) offset) in
  if r <=? 0 then
    let* _ := ctap_close_rk_file in ret (-1)
  else
    let* _ := ctap_close_rk_file in
    if appended then ctap_increment_rk_store ;* ret 0 else ret 0.

(** The [for] loop of [ctap_overwrite_rk], [n] keys to go, [i] the index,
    [read_rk] the local it reads into.  Fewer than 2^16 keys fit on the volume,
    so that the 16-bit index does not wrap. *)
Fixpoint overwrite_loop (n : nat) (i : Z) (rk read_rk : CTAP_residentKey) : F Z :=
  match n with
  | O => write_rk_at rk (i * RK) true
  | S n =>
      let* (r, d) := on_f_rk (fun f => fs_read f RK) in
      if r <=? 0 then
        let* _ := ctap_close_rk_file in ret (-1)
      else
        let read_rk := load_into read_rk d in
        if negb (memcmp (rp_id_lookup (rk_id read_rk)) (rp_id_lookup (rk_id rk)) =? 0)
        then overwrite_loop n (i + 1) rk read_rk
        else if negb (memcmp (user_id_lookup read_rk) (user_id_lookup rk) =? 0)
        then overwrite_loop n (i + 1) rk read_rk
        else write_rk_at rk (i * RK) false
  end.

Definition ctap_overwrite_rk (rk : CTAP_residentKey) : F Z :=
  let* r := ctap_open_rk_file (rp_id_lookup (rk_id rk)) in
  if r <? 0 then
    let* _ := ctap_close_rk_file in ret (-1)
  else overwrite_loop (Z.to_nat r) 0 rk rk_zero.

(** The [while (remaining > 0)] loop that moves the keys after index [i] down
    by one place, ten at a time; true when a read or write failed. *)
Fixpoint shift_loop (fuel : nat) (i remaining processed : Z) : F bool :=
  if remaining >? 0 then
    match fuel with
    | O => stop FExit
    | S fuel =>
        let to_read := if remaining >? 10 then 10 else remaining in
        let* (r, d) := on_f_rk (fun f => fs_read_at f (to_read * RK) ((i + 1 + processed) * RK)) in
        if r <=? 0 then ret true
        else
          let* r := on_f_rk (fun f => fs_write_at f (take (Z.to_nat r) d) ((i + processed) * RK)) in
          if r <=? 0 then ret true
          else shift_loop fuel i (remaining - to_read) (processed + to_read)
    end
  else ret false.

Fixpoint delete_loop (n : nat) (i count : Z) (id : CredentialId) (rk : CTAP_residentKey) : F Z :=
  match n with
  | O => let* _ := ctap_close_rk_file in ret (-1)
  | S n =>
      let* (r, d) := on_f_rk (fun f => fs_read f RK) in
      if r <=? 0 then
        let* _ := ctap_close_rk_file in ret (-1)
      else
        let rk := load_into rk d in
        if negb (memcmp (rp_id_lookup id) (rp_id_lookup (rk_id rk)) =? 0)
        then delete_loop n (i + 1) count id rk
        else if negb (memcmp (cr_tag id) (cr_tag (rk_id rk)) =? 0)
        then delete_loop n (i + 1) count id rk
        else
          let* failed := shift_loop (Z.to_nat count) i (count - (i + 1)) 0 in
          if failed : bool then
            let* _ := ctap_close_rk_file in ret (-1)
          else
            let* r := on_f_rk (fun f => fs_truncate_file f ((count - 1) * RK)) in
            if r <? 0 then
              let* _ := ctap_close_rk_file in ret (-1)
            else
              let* _ := ctap_close_rk_file in
              ctap_decrement_rk_store ;* ret 0
  end.

Definition ctap_delete_rk (id : CredentialId) : F Z :=
  let* r := ctap_open_rk_file (rp_id_lookup id) in
  if r <=? 0 then
    let* _ := ctap_close_rk_file in ret (-1)
  else delete_loop (Z.to_nat r) 0 r id rk_zero.

End Device.

End Device.
