(* ===== verification/StateSafe.v ===== *)
(** * Reading any bytes as an authenticator state (src/fido2/src/state.c)

    [state_cbor_decode] goes on when [cbor_value_advance] reports an error, so
    that it works on iterators the parser has given up.  They are still inside
    the buffer: reading one stops at an assertion or an error, and every round
    of the loop moves on.  So the decoder ends on any bytes, with a result or
    at an assertion, and never leaves its buffers. *)

From S2P Require Import Prelude CborParser CborProps State.
Import CborParser CborProps State.

Module StateSafe.

(** ** Steps that end or stop at an assertion *)

Definition holds {A} (m : res A) (P : A -> Prop) : Prop :=
  match m with Done a => P a | Fault f => f = FAssert end.

Lemma holds_bind {A B} (m : res A) (k : A -> res B) P Q :
  holds m P -> (forall a, P a -> holds (k a) Q) -> holds (res_bind m k) Q.
Proof. destruct m; cbn; [auto|by intros ->]. Qed.
Lemma holds_mono {A} (m : res A) (P Q : A -> Prop) : holds m P -> (forall a, P a -> Q a) -> holds m Q.
Proof. destruct m; cbn; auto. Qed.
Lemma holds_assertion {A} b (k : unit -> res A) Q :
  (b = true -> holds (k tt) Q) -> holds (res_bind (assertion b) k) Q.
Proof. destruct b; cbn; auto. Qed.

Section Loose.
Context (buf : list Z) (Hbuf : bytes buf).
Abbreviation END := (length buf).

Definition is_string (it : CborValue) : bool := cbor_value_is_byte_string it || cbor_value_is_text_string it.

(** The descriptor at an iterator is not one of an element that fits. *)
Definition unreadable (it : CborValue) : Prop :=
  has_flag IntegerValueTooLarge it = false /\ has_flag UnknownLength it = false /\
  exists e p v, _cbor_value_extract_number buf (ptr it) = Done (e, p, v) /\ e <> CborNoError.

(** An iterator that an operation has left, with an error or without. *)
Record loose (it : CborValue) : Prop := {
  l_ptr : (ptr it <= END)%nat;
  l_remaining : type it <> CborInvalidType -> 1 <= remaining it <= UINT32_MAX;
  l_readable : type it <> CborInvalidType -> is_string it = false -> valid buf it \/ unreadable it;
  l_string : is_string it = true -> has_flag IteratingStringChunks it = false ->
    has_flag UnknownLength it = true -> (ptr it < END)%nat;
}.

Lemma valid_loose it : valid buf it -> loose it.
Proof.
  intros V. pose proof (valid_lt _ _ V). split; [lia|intros _; apply V|by left|by intros].
Qed.

Lemma closed_loose it : type it = CborInvalidType -> (ptr it <= END)%nat -> loose it.
Proof.
  intros Ht Hp. split; [done|done|done|]. unfold is_string, cbor_value_is_byte_string, cbor_value_is_text_string.
  by rewrite Ht.
Qed.

Lemma parsed_loose it : parsed buf it -> loose it.
Proof. intros [(_ & Ht & Hp)|V]; [by apply closed_loose|by apply valid_loose]. Qed.

(** What the steps to the next element leave, from pointer [p] on. *)
Definition step_loose (p : nat) (m : res (CborError * CborValue)) : Prop :=
  holds m (fun '(_, it) => loose it /\ (p <= ptr it)%nat).

Lemma step_weaken p q m : (q <= p)%nat -> step_loose p m -> step_loose q m.
Proof. intros Hq H. eapply holds_mono; [exact H|]. intros [e it] [? ?]. split; [done|lia]. Qed.

Lemma fixed_not_a_string it : is_fixed_type (type it) = true -> is_string it = false.
Proof.
  unfold is_string, cbor_value_is_byte_string, cbor_value_is_text_string, is_fixed_type.
  by destruct (type it =? CborTextStringType), (type it =? CborByteStringType).
Qed.

(** A descriptor that [preparse_value] refuses. *)
Lemma refused_loose it : (ptr it <= END)%nat -> 1 <= remaining it <= UINT32_MAX -> flags it = 0 ->
  (exists e p v, _cbor_value_extract_number buf (ptr it) = Done (e, p, v) /\ e <> CborNoError) -> loose it.
Proof.
  intros Hp Hr Hf Hx. assert (Hu : has_flag UnknownLength it = false) by (unfold has_flag; by rewrite Hf).
  split; [done|done| |congruence]. intros _ _. right.
  split; [unfold has_flag; by rewrite Hf|]. done.
Qed.

Lemma preparse_loose it : (ptr it <= END)%nat -> 1 <= remaining it <= UINT32_MAX ->
  step_loose (ptr it) (preparse_value buf it).
Proof.
  intros Hp Hr. destruct (preparse_value_ok buf Hbuf it Hp Hr) as (e & it' & E & Hpt & Hrem & V).
  unfold step_loose. rewrite E. cbn. split; [|lia]. destruct (decide (e = CborNoError)) as [He|He]; [by apply valid_loose, V|].
  revert E. unfold preparse_value. cbn [set_field ptr]. unfold end_.
  destruct (ptr it =? END)%nat eqn:Ee; [intros [= <- <-]; by apply closed_loose|].
  apply Nat.eqb_neq in Ee. destruct (lookup_lt_is_Some_2 buf (ptr it)) as [d Hd]; [lia|].
  rewrite (rd_lookup _ _ _ Hd). cbn [res_bind]. pose proof (land31 d) as H31.
  assert (X : forall it1, ptr it1 = ptr it -> remaining it1 = remaining it -> flags it1 = 0 ->
    Value64Bit < Z.land d SmallValueMask \/
    (END - ptr it < need (Z.land d SmallValueMask) + 1)%nat ->
    loose it1).
  { intros it1 E1 E2 E3 Hx. unfold need in Hx. apply refused_loose; [lia|lia|done|]. rewrite E1.
    unfold _cbor_value_extract_number. rewrite (rd_lookup _ _ _ Hd). cbn [res_bind].
    destruct (_ <? Value8Bit) eqn:E8; zbool; [unfold Value8Bit, Value64Bit in *; lia|].
    destruct (_ >? Value64Bit) eqn:E64; zbool; [by eexists _, _, _|].
    unfold end_. destruct (END - S (ptr it) <? _)%nat eqn:El; [by eexists _, _, _|].
    apply Nat.ltb_ge in El. lia. }
  destruct (_ >? Value64Bit) eqn:E64; zbool.
  { destruct (negb (_ =? IndefiniteLength)); [intros [= <- <-]; apply X; (done || lia)|].
    destruct (negb (is_fixed_type _)); [by intros [= <- _]|]. intros [= <- <-]; apply X; (done || lia). }
  fold (need (Z.land d SmallValueMask)).
  destruct (_ <? _)%nat eqn:El; [apply Nat.ltb_lt in El; intros [= <- <-]; apply X; (done || lia)|].
  destruct (_ =? SimpleTypesType).
  - unfold preparse_simple. destruct (_ =? FalseValue); [by intros [= <- _]|].
    cbn [set_field ptr]. rewrite (rd_lookup _ _ _ Hd). cbn [res_bind].
    destruct (_ || _); [by intros [= <- _]|]. destruct (_ || _); [by intros [= <- _]|].
    destruct (_ =? SimpleTypeInNextByte); [|by intros [= <- _]].
    intros H. destruct (rd buf (S (ptr it))) as [x|]; [|done]. cbn [res_bind] in H.
    destruct (x <? 32); [|by injection H as [= <- _]]. injection H as [= <- <-]. by apply closed_loose.
  - intros H. exfalso. revert H. destruct (_ <? Value8Bit); [by intros [= <- _]|].
    destruct (_ =? Value8Bit); [destruct (rd buf _); cbn; [by intros [= <- _]|done]|].
    destruct (_ =? Value16Bit); [destruct (get_be _ _ _); cbn; [by intros [= <- _]|done]|by intros [= <- _]].
Qed.

Lemma next_nodecrement_loose it : (ptr it <= END)%nat -> 1 <= remaining it <= UINT32_MAX ->
  step_loose (ptr it) (preparse_next_value_nodecrement buf it).
Proof.
  intros Hp Hr. unfold preparse_next_value_nodecrement.
  destruct (_ && _) eqn:E; [|by apply preparse_loose]. zbool. unfold end_ in *.
  apply Nat.eqb_neq in H0. destruct (lookup_lt_is_Some_2 buf (ptr it)) as [d Hd]; [lia|].
  rewrite (rd_lookup _ _ _ Hd). cbn [res_bind]. destruct (d =? BreakByte); [|by apply preparse_loose].
  cbn. split; [apply closed_loose; cbn; (done || lia)|lia].
Qed.

Lemma next_loose it : (ptr it <= END)%nat -> 1 <= remaining it <= UINT32_MAX ->
  step_loose (ptr it) (preparse_next_value buf it).
Proof.
  intros Hp Hr. unfold preparse_next_value. unfold UINT32_MAX in *.
  destruct (_ && _) eqn:E; [|by apply next_nodecrement_loose].
  rewrite u32_small by (unfold is_u32; lia). cbn [set_field remaining].
  destruct (_ =? 0) eqn:E0; zbool.
  - cbn. split; [by apply closed_loose|done].
  - eapply step_weaken, next_nodecrement_loose; cbn; unfold UINT32_MAX; lia.
Qed.

(** ** Strings *)

Lemma string_not_closed it : is_string it = true -> type it <> CborInvalidType.
Proof. unfold is_string, cbor_value_is_byte_string, cbor_value_is_text_string. intros H Ht. by rewrite Ht in H. Qed.

(** A string that is iterated, or of known length, may be left anywhere. *)
Lemma string_loose it : is_string it = true -> (ptr it <= END)%nat -> 1 <= remaining it <= UINT32_MAX ->
  has_flag IteratingStringChunks it = true \/ has_flag UnknownLength it = false -> loose it.
Proof. intros Hs Hp Hr Hf. split; [done|done|congruence|]. intros _ H1 H2. destruct Hf; congruence. Qed.

Lemma iterating_flag it x : flags it = Z.lor x IteratingStringChunks -> has_flag IteratingStringChunks it = true.
Proof.
  unfold has_flag, IteratingStringChunks. intros ->. apply negb_true_iff, Z.eqb_neq. intros Hb.
  assert (Z.testbit (Z.land (Z.lor x 2) 2) 1 = true) as Ht.
  { rewrite Z.land_spec, Z.lor_spec. change (Z.testbit 2 1) with true. by rewrite orb_true_r. }
  by rewrite Hb in Ht.
Qed.

Lemma chunk_loose it : loose it -> is_string it = true ->
  holds (get_string_chunk buf it) (fun '(e, it', c) => loose it' /\ (ptr it <= ptr it')%nat /\
    (c <> None -> e = CborNoError /\ is_string it' = true /\ (ptr it < ptr it')%nat)).
Proof.
  intros W Hs. pose proof (string_not_closed _ Hs) as Hn. pose proof (l_remaining _ W Hn) as Hr.
  pose proof (l_ptr _ W) as Hp. unfold get_string_chunk. unfold cbor_value_is_length_known.
  set (itr := has_flag IteratingStringChunks it). set (kn := has_flag UnknownLength it).
  destruct (itr && negb kn) eqn:Eik.
  { eapply holds_bind; [by apply (next_loose it)|]. intros [e it'] [W' Hp']. cbn. by split_and!. }
  set (it0 := if negb itr && negb (negb kn) then _ else it). unfold end_.
  assert (H0 : (ptr it <= ptr it0 <= END)%nat /\ remaining it0 = remaining it /\ type it0 = type it /\
    (has_flag IteratingStringChunks it0 = true \/ has_flag UnknownLength it0 = false)).
  { unfold it0. destruct itr eqn:Ei; cbn [negb andb]; [split; [lia|]; do 2 (split; [done|]); by left|].
    destruct kn eqn:Ek; cbn [negb]; [|split; [lia|]; do 2 (split; [done|]); by right].
    pose proof (l_string _ W Hs Ei Ek). cbn [set_field ptr remaining type]. split; [lia|]. do 2 (split; [done|]).
    left. by eapply iterating_flag. }
  destruct H0 as (Hp0 & Hr0 & Ht0 & Hf0). clearbody it0.
  assert (Hs0 : is_string it0 = true) by (unfold is_string, cbor_value_is_byte_string, cbor_value_is_text_string; by rewrite Ht0).
  assert (W0 : forall p, (p <= END)%nat -> loose (it0 <| ptr := p |>)).
  { intros p Hpp. apply string_loose; cbn; [done|done|by rewrite Hr0|done]. }
  destruct (ptr it0 =? END)%nat eqn:Ee.
  { cbn. split; [|by split; [lia|]]. destruct it0; apply (W0 ptr0), Hp0. }
  apply Nat.eqb_neq in Ee. destruct (lookup_lt_is_Some_2 buf (ptr it0)) as [d Hd]; [lia|].
  rewrite (rd_lookup _ _ _ Hd). cbn [res_bind]. destruct (d =? BreakByte).
  { eapply holds_bind; [apply (next_loose (it0 <| ptr := S (ptr it0) |>)); cbn; [lia|by rewrite Hr0]|].
    intros [e it'] [W' Hp']. cbn in Hp' |- *. split; [done|]. split; [lia|done]. }
  destruct (_ =? type it0); [|cbn; split; [destruct it0; apply (W0 ptr0), Hp0|by split; [lia|]]].
  unfold extract_length. destruct (extract_number_any buf Hbuf (ptr it0)) as (e & p' & v & -> & Hp' & Hv); [lia|].
  cbn [res_bind].
  destruct e; try (cbn; split; [apply W0; lia|by split; [lia|]]).
  destruct (negb (v =? u32 v)); cbn [res_bind]; [cbn; split; [apply W0; lia|by split; [lia|]]|].
  destruct (Z.of_nat (END - p') <? u32 v) eqn:El; cbn [res_bind]; [cbn; split; [apply W0; lia|by split; [lia|]]|].
  zbool. pose proof (u32_range v) as Hu. unfold is_u32 in Hu. set (w := u32 v) in *. clearbody w.
  rewrite mem_read_fits by lia. cbn [res_bind holds].
  split; [|cbn; split; [lia|]; intros _; split_and!; (done || lia)].
  apply string_loose; cbn; [done|lia|by rewrite Hr0|left; by eapply iterating_flag].
Qed.

(** The bytes copied so far fit the destination. *)
Lemma iterate_loose fuel : forall it buflen total fits copied,
  loose it -> is_string it = true -> (END - ptr it < fuel)%nat ->
  Z.of_nat (length copied) <= buflen -> (fits = true -> total = Z.of_nat (length copied)) ->
  holds (iterate_chunks buf fuel it buflen total fits copied) (fun '(e, it', t, f, c) =>
    loose it' /\ (ptr it <= ptr it')%nat /\ Z.of_nat (length c) <= buflen /\ (f = true -> t = Z.of_nat (length c))).
Proof.
  induction fuel as [|fuel IH]; intros it buflen total fits copied W Hs Hf Hc Ht; [lia|]. cbn [iterate_chunks].
  eapply holds_bind; [by apply chunk_loose|]. intros [[e it1] c] (W1 & Hp & Hn).
  destruct c as [c|].
  2:{ destruct e; cbn; by split_and!. }
  destruct (Hn ltac:(done)) as (-> & Hs1 & Hlt). pose proof (l_ptr _ W1).
  destruct (_ >? SIZE_MAX); [cbn; by split_and!|].
  destruct (fits && _) eqn:Ef.
  - apply andb_true_iff in Ef as [-> Ef]. specialize (Ht eq_refl). apply Z.geb_le in Ef.
    eapply holds_mono; [apply IH; [done|done|lia| |]|].
    + rewrite length_app. lia.
    + intros _. rewrite length_app. lia.
    + intros [[[[e2 it2] t2] f2] c2] (? & ? & ? & ?). split_and!; (done || lia).
  - eapply holds_mono; [apply IH; (done || lia)|].
    intros [[[[e2 it2] t2] f2] c2] (? & ? & ? & ?). split_and!; (done || lia).
Qed.

Lemma copy_loose it buflen : loose it -> 0 <= buflen ->
  holds (_cbor_value_copy_string buf it buflen) (fun '(e, it', _, c) =>
    loose it' /\ (ptr it <= ptr it')%nat /\ Z.of_nat (length c) <= buflen).
Proof.
  intros W Hb. unfold _cbor_value_copy_string. apply holds_assertion. intros Hs.
  eapply holds_bind; [apply (iterate_loose _ it); [done|exact Hs|unfold end_; lia|cbn; lia|done]|].
  intros [[[[e it'] t] f] c] (W' & Hp & Hc & Ht).
  destruct e; cbn; try (by split_and!). split; [done|]. split; [done|].
  destruct f; cbn [andb]; [|done]. destruct (_ >? _) eqn:E; [|done]. specialize (Ht eq_refl).
  rewrite length_app. cbn. zbool. lia.
Qed.

(** ** Skipping and reading *)

Lemma unreadable_assert it {A} (k : nat -> Z -> res A) : unreadable it ->
  (let! (err, p, v) := _cbor_value_extract_number buf (ptr it) in
   let! _ := assertion (bool_decide (err = CborNoError)) in k p v) = Fault FAssert.
Proof. intros (_ & _ & e & p & v & -> & He). cbn [res_bind]. by rewrite bool_decide_eq_false_2. Qed.

(** Skipping moves on when the element is not a string or a container. *)
Lemma advance_loose it : loose it ->
  holds (cbor_value_advance buf it) (fun '(_, it') => loose it' /\
    ((if is_fixed_type (type it) then S (ptr it) else ptr it) <= ptr it')%nat).
Proof.
  intros W. unfold cbor_value_advance. apply holds_assertion.
  intros Hn%negb_true_iff%Z.eqb_neq. pose proof (l_remaining _ W Hn) as Hr.
  destruct (_ =? 0) eqn:E0; zbool; [lia|]. clear E0.
  unfold CBOR_PARSER_MAX_RECURSIONS. change 1024%nat with (S 1023). set (m := 1023%nat). clearbody m.
  cbn [advance_recursive]. destruct (is_fixed_type (type it)) eqn:Ef.
  { destruct (l_readable _ W Hn (fixed_not_a_string _ Ef)) as [V|U].
    - unfold advance_internal. destruct (v_shape _ _ V) as (d & Hd & Hs). destruct (shape_fixed _ _ _ Hs Ef) as [Hi Hnn].
      destruct (extract_number_ok buf Hbuf _ _ Hd Hi Hnn) as (v & -> & _).
      cbn [res_bind]. rewrite assertion_true by done. cbn [res_bind set_field type].
      rewrite fixed_not_string by done. cbn [res_bind]. eapply step_weaken, next_loose; cbn; lia.
    - unfold advance_internal. by rewrite unreadable_assert. }
  destruct (cbor_value_is_container it) eqn:Ec; cbn [negb].
  2:{ eapply holds_bind; [apply (copy_loose it); [done|unfold SIZE_MAX; lia]|].
      intros [[[e it'] n] c] (W' & Hp & _). by cbn. }
  assert (Hstr : is_string it = false).
  { revert Ec. unfold is_string, cbor_value_is_byte_string, cbor_value_is_text_string, cbor_value_is_container.
    destruct (type it =? CborByteStringType) eqn:E1; zbool; [by rewrite E1|].
    destruct (type it =? CborTextStringType) eqn:E2; zbool; [by rewrite E2|done]. }
  destruct (l_readable _ W Hn Hstr) as [V|U].
  - destruct (enter_container_ok buf Hbuf it V Ec) as (e & r & -> & H). cbn [res_bind].
    destruct e; try (cbn; split; [done|lia]). destruct (H eq_refl) as [P Hp].
    destruct (advance_items_ok buf (advance_recursive buf m) (S (end_ buf)) r
      (advance_recursive_ok buf Hbuf m) P) as (e & r' & -> & H'); [unfold end_; lia|].
    cbn [res_bind]. destruct e; try (cbn; split; [done|lia]). destruct (H' eq_refl) as [A Hp'].
    destruct A as (_ & Ht & Hpr). unfold cbor_value_leave_container.
    rewrite assertion_true by done. cbn [res_bind]. rewrite Ht. cbn [res_bind assertion Z.eqb].
    eapply step_weaken, next_loose; cbn; (done || lia).
  - unfold cbor_value_enter_container. rewrite assertion_true by done. cbn [res_bind].
    destruct U as (Ul & Uu & U). rewrite Uu. by rewrite (unreadable_assert it) by done.
Qed.

Lemma integer_fixed it : cbor_value_is_integer it = true -> is_fixed_type (type it) = true /\ type it <> CborInvalidType.
Proof. unfold cbor_value_is_integer. intros H. zbool. rewrite H. by split. Qed.

Lemma extract_loose it (Q : Z -> Prop) : loose it -> cbor_value_is_integer it = true ->
  (forall v, Q v) -> holds (_cbor_value_extract_int64_helper buf it) Q.
Proof.
  intros W Hi HQ. destruct (integer_fixed _ Hi) as [Hf Hn].
  destruct (l_readable _ W Hn (fixed_not_a_string _ Hf)) as [V|[U _]].
  - destruct (extract_int64_ok buf Hbuf it V) as (v & -> & _). apply HQ.
  - unfold _cbor_value_extract_int64_helper. rewrite U. apply HQ.
Qed.

Lemma get_uint64_loose it : loose it ->
  holds (cbor_value_get_uint64 buf it) (fun _ => is_fixed_type (type it) = true).
Proof.
  intros W. unfold cbor_value_get_uint64. apply holds_assertion.
  intros H%andb_true_iff. apply extract_loose; [done|apply H|]. intros _. apply integer_fixed, H.
Qed.

Lemma get_int64_loose it : loose it -> holds (cbor_value_get_int64 buf it) (fun _ => True).
Proof.
  intros W. unfold cbor_value_get_int64. apply holds_assertion.
  intros H. eapply holds_bind; [by apply (extract_loose it (fun _ => True))|]. by intros v _.
Qed.

(** ** The fields of the state *)

Definition field_result (m : res (Z * AuthenticatorState * bool)) : Prop := holds m (fun '(_, s, _) => sized s).

Lemma store_num_safe set s m : sized s -> (forall v, sized (set v)) -> holds m (fun _ => True) ->
  holds (store_num set s m) (fun '(_, s') => sized s').
Proof. intros Hs Hv H. eapply holds_bind; [exact H|]. intros [r [v|]] _; cbn; auto. Qed.

Lemma get_uint_safe max it : loose it -> holds (get_uint buf max it) (fun _ => True).
Proof. intros W. eapply holds_bind; [by apply get_uint64_loose|]. intros v _. by destruct (_ >? max). Qed.
Lemma get_i8_safe it : loose it -> holds (get_i8 buf it) (fun _ => True).
Proof. intros W. eapply holds_bind; [by apply get_int64_loose|]. intros v _. by destruct (_ || _). Qed.

Lemma store_bytes_safe size field set it : loose it -> size = Z.of_nat (length field) ->
  (forall f, length f = length field -> sized (set f)) ->
  holds (store_bytes buf size field set it) (fun '(_, s') => sized s').
Proof.
  intros W -> Hset. unfold store_bytes, cbor_value_copy_byte_string.
  eapply holds_bind.
  { apply holds_assertion. intros _.
    apply (copy_loose it (Z.of_nat (length field))); [done|lia]. }
  intros [[[e it'] n] c] (_ & _ & Hc). destruct (mem_write field 0 c) as [f|] eqn:E.
  - cbn. apply Hset. by eapply mem_write_length.
  - exfalso. rewrite mem_write_fits in E by lia. done.
Qed.

Lemma known_safe (m : res (Z * AuthenticatorState)) : holds m (fun '(_, s) => sized s) ->
  field_result (let! (ret, s) := m in Done (ret, s, false)).
Proof. intros H. eapply holds_bind; [exact H|]. by intros [r s]. Qed.

Lemma decode_field_safe key it s : loose it -> sized s -> field_result (decode_field buf key it s).
Proof.
  intros W Hs. destruct Hs as (H1 & H2 & H3). unfold decode_field, get_u8, get_u16, get_u32. cbv zeta.
  destruct (_ =? _).
  { eapply holds_bind; [by apply store_num_safe; [by repeat split|by repeat split|apply get_uint_safe]|].
    intros [r s'] Hs'. destruct (negb _); [done|]. by destruct (negb _). }
  destruct (_ =? _); [by apply known_safe, store_num_safe; [by repeat split|by repeat split|apply get_uint_safe]|].
  destruct (_ =? _); [by apply known_safe, store_num_safe; [by repeat split|by repeat split|apply get_uint_safe]|].
  destruct (_ =? _); [by apply known_safe, store_num_safe; [by repeat split|by repeat split|apply get_i8_safe]|].
  destruct (_ =? _); [apply known_safe, store_bytes_safe; [done|by rewrite H1|intros f Hf; repeat split; cbn; congruence]|].
  destruct (_ =? _); [apply known_safe, store_bytes_safe; [done|by rewrite H2|intros f Hf; repeat split; cbn; congruence]|].
  destruct (_ =? _); [by apply known_safe, store_num_safe; [by repeat split|by repeat split|apply get_uint_safe]|].
  destruct (_ =? _); [apply known_safe, store_bytes_safe; [done|by rewrite H3|intros f Hf; repeat split; cbn; congruence]|].
  by repeat split.
Qed.

(** Every round reads a key, and skipping a key moves on. *)
Lemma decode_loop_safe fuel : forall it s, loose it -> sized s -> (END - ptr it < fuel)%nat ->
  holds (decode_loop buf fuel it s) (fun '(_, s') => sized s').
Proof.
  induction fuel as [|fuel IH]; intros it s W Hs Hf; [lia|]. cbn [decode_loop].
  destruct (cbor_value_at_end it); [done|]. eapply holds_bind; [by apply get_uint64_loose|]. intros key Hk.
  eapply holds_bind; [by apply advance_loose|]. rewrite Hk. intros [e m] [W1 Hp]. pose proof (l_ptr _ W1).
  eapply holds_bind; [by apply decode_field_safe|]. intros [[r s1] skip] Hs1.
  destruct (negb _); [done|].
  eapply holds_bind with (P := fun m' => loose m' /\ (ptr m <= ptr m')%nat).
  { destruct skip; [|by cbn]. eapply holds_bind; [by apply advance_loose|]. intros [e1 m1] [W2 Hp2]. cbn.
    split; [done|].
    destruct (is_fixed_type (type m)); lia. }
  intros m2 [W2 Hp2]. eapply holds_bind; [by apply advance_loose|]. intros [e3 m3] [W3 Hp3].
  apply IH; [done|done|].
  pose proof (l_ptr _ W2). pose proof (l_ptr _ W3). destruct (is_fixed_type (type m2)); lia.
Qed.

(** On any bytes the decoder ends, with a result or at an assertion. *)
Lemma state_cbor_decode_safe s : sized s ->
  holds (state_cbor_decode buf s) (fun '(_, s') => sized s').
Proof.
  intros Hs. unfold state_cbor_decode, cbor_parser_init.
  destruct (preparse_value_ok buf Hbuf (mkCv 0 1 0 CborInvalidType 0)) as (e & it & -> & _ & _ & V);
    cbn [ptr remaining]; [lia|unfold UINT32_MAX; lia|]. cbn [res_bind].
  destruct e; try done. specialize (V eq_refl). destruct (cbor_value_is_container it) eqn:Ec.
  - destruct (enter_container_ok buf Hbuf it V Ec) as (e & map & -> & H). cbn [res_bind].
    destruct e; try done. destruct (H eq_refl) as [P Hp].
    apply decode_loop_safe; [by apply parsed_loose|done|lia].
  - unfold cbor_value_enter_container. by rewrite Ec.
Qed.

End Loose.

End StateSafe.
