(* ===== verification/DeviceProps.v ===== *)
(** * The state file and the signature counter are sealed and persistent *)

From S2P Require Import Prelude Monad Lfs Fs FsProps Board Sha256 CborParser CborEncoder CborItems Crypto Rng State StateSafe CtapTypes Dev Device Demo.
Import Monad Lfs Fs FsProps Board Sha256 CborParser CborEncoder CborItems Crypto Rng State StateSafe CtapTypes Dev Device Demo.

Module DeviceProps.

Section DeviceProps.
Context {L : Lfs} {LL : LfsLaws L} {B : Board}.

#[local] Opaque state_bytes hmac.

(** ** Steps that change one part of the state *)

Definition lfs_of (s : dev) : lfs_t := h_lfs (d_hw s).
Definition set_lfs (l : lfs_t) (s : dev) : dev := s <| d_hw := (d_hw s) <| h_lfs := l |> |>.
Definition set_sha (c : SHA256_CTX) (s : dev) : dev :=
  s <| d_crypto := (d_crypto s) <| sha256_ctx := c |> |>.
Definition mac_key (s : dev) : list Z := key_device_mac (dev_keys (d_crypto s)).

Lemma fs_done {A} (op : M lfs_t A) s a l :
  op (lfs_of s) = Done (a, l) -> fs op s = Done (a, set_lfs l s).
Proof. unfold fs, on, lfs_of. by intros ->. Qed.

Lemma fs_wp {A} (op : M lfs_t A) Q s :
  wp op (fun a l => Q a (set_lfs l s)) (lfs_of s) -> wp (fs op) Q s.
Proof. unfold wp, fs, on, lfs_of. by destruct (op _) as [[]|]. Qed.

Lemma sha_done {A} (op : SHA256_CTX -> res (A * SHA256_CTX)) s a c :
  op (sha256_ctx (d_crypto s)) = Done (a, c) -> sha op s = Done (a, set_sha c s).
Proof. unfold sha, on. by intros ->. Qed.

(** What the storage code relies on: a usable hash context and a MAC key. *)
Definition mac_ok (s : dev) : Prop :=
  ctx_ok (sha256_ctx (d_crypto s)) /\ length (mac_key s) = 32%nat.

Lemma compute_mac_done s data : mac_ok s ->
  exists c, compute_device_mac data s = Done (take 16 (hmac (mac_key s) data), set_sha c s) /\ ctx_ok c.
Proof.
  intros [Hc Hk]. unfold compute_device_mac, bind, gets.
  destruct (compute_device_mac_correct (mac_key s) data 16 _ Hc Hk ltac:(lia)) as (c & E & Hc').
  exists c. split; [|done]. by apply sha_done.
Qed.

Lemma verify_mac_done s data mac : mac_ok s -> length mac = 16%nat ->
  exists c, verify_device_mac data mac s
    = Done (b2z (bool_decide (mac = take 16 (hmac (mac_key s) data))), set_sha c s) /\ ctx_ok c.
Proof.
  intros [Hc Hk] Hm. unfold verify_device_mac, bind, gets.
  destruct (compute_device_mac_correct (mac_key s) data 16 _ Hc Hk ltac:(lia)) as (c & E & Hc').
  exists c. split; [|done]. apply sha_done. unfold crypto_verify_device_mac, STATE_MAC_SIZE.
  fold (mac_key s). rewrite E. cbn [res_bind]. rewrite mem_read_fits by lia. cbn [res_bind].
  rewrite slice_all by (done || lia). do 3 f_equal. apply eq_true_iff_eq.
  rewrite Z.eqb_eq, bool_decide_eq_true, memcmp_zero by (rewrite length_take, hmac_length; lia).
  naive_solver.
Qed.

(** ** The state file *)

(** The contents of the file [state] for state [a]: magic, MAC, encoding. *)
Definition sealed (k : list Z) (a : AuthenticatorState) : list Z :=
  [STATE_MAGIC] ++ take 16 (hmac k (state_bytes a)) ++ state_bytes a.

Lemma sealed_length k a : state_ok a -> (17 <= length (sealed k a) <= 141)%nat.
Proof.
  intros Ha. pose proof (state_bytes_length a Ha). unfold sealed.
  rewrite !length_app, length_take, hmac_length. cbn. lia.
Qed.

Lemma write_state_done m ds s a :
  vol m ds (lfs_of s) -> creatable m ds "state" -> mac_ok s -> state_ok a ->
  (exists l c, authenticator_write_state a s = Done (tt, set_lfs l (set_sha c s)) /\
     vol (<["state"%string := sealed (mac_key s) a]> m) ds l /\ ctx_ok c) \/
  authenticator_write_state a s = Fault FAssert.
Proof.
  intros Hl Hn Hm Ha. unfold authenticator_write_state.
  pose proof (state_bytes_length a Ha) as Hb. change (_ - _ - _)%nat with 175%nat.
  rewrite (state_cbor_encode_ok (zeros 175) a Ha) by (rewrite zeros_length; lia). mstep.
  change (overwrite (zeros 175) 0 (state_bytes a))
    with (state_bytes a ++ drop (length (state_bytes a)) (zeros 175)).
  set (rest := drop _ _). 
  rewrite mem_read_fits by (rewrite length_app; lia). rewrite slice_app_here by done. mstep.
  destruct (compute_mac_done s (state_bytes a) Hm) as (c & E1 & Hc).
  run (E1).
  set (mac := take 16 _). assert (Hmac : length mac = 16%nat).
  { unfold mac. rewrite length_take, hmac_length. lia. }
  unfold STATE_MAGIC_SIZE, STATE_MAC_SIZE.
  rewrite mem_read_fits by (rewrite !length_app; cbn; lia). mstep.
  replace (slice 0 (length (state_bytes a) + 1 + 16) ([STATE_MAGIC] ++ mac ++ state_bytes a ++ rest))
    with (sealed (mac_key s) a); cycle 1.
  { unfold sealed. fold mac. rewrite !app_assoc. symmetry. apply slice_app_here; [done|].
    rewrite !length_app. cbn. lia. }
  pose proof (sealed_length (mac_key s) a Ha) as Hsl.
  assert (Hmax : Z.of_nat (length (sealed (mac_key s) a)) <= LFS_FILE_MAX) by (unfold LFS_FILE_MAX; lia).
  destruct (proj1 (wp_done _ _ _) (fs_write_open_ok m ds (lfs_of (set_sha c s)) "state" _ Hl Hn Hmax))
    as (r & l & E2 & Hr).
  run ((fs_done _ _ _ _ E2)).
  replace (length (state_bytes a) + 1 + 16)%nat with (length (sealed (mac_key s) a)); cycle 1.
  { unfold sealed. fold mac. rewrite !length_app, Hmac. cbn. lia. }
  destruct Hr as [[-> Hv]|[Hr _]].
  - left. exists l, c. by rewrite Z.eqb_refl.
  - right. destruct (r =? Z.of_nat _) eqn:E; zbool; [lia|done].
Qed.

Lemma read_state_done m ds s a0 a :
  vol m ds (lfs_of s) -> m !! "state"%string = Some (sealed (mac_key s) a) -> mac_ok s ->
  state_ok a -> sized a0 ->
  exists l c, authenticator_read_state a0 s = Done ((1, a), set_sha c (set_lfs l s)) /\
    vol m ds l /\ ctx_ok c.
Proof.
  intros Hl Hn Hm Ha H0. unfold authenticator_read_state.
  pose proof (sealed_length (mac_key s) a Ha) as Hsl.
  destruct (proj1 (wp_done _ _ _) (fs_read_open_ok m ds (lfs_of s) "state" _ 192 Hl Hn ltac:(lia)))
    as (p & l & E1 & Hv & ->).
  destruct (_ >? 192) eqn:E; zbool; [lia|].
  change (Z.of_nat STATE_ENVELOPE_BUF_SIZE) with 192. run ((fs_done _ _ _ _ E1)).
  destruct (_ <=? 0) eqn:E2; zbool; [lia|]. set (rest := zeros _).
  unfold STATE_MAGIC_SIZE, STATE_MAC_SIZE. set (mac := take 16 (hmac (mac_key s) (state_bytes a))).
  assert (Hmac : length mac = 16%nat) by (unfold mac; rewrite length_take, hmac_length; lia).
  assert (Hlen : length (sealed (mac_key s) a) = (17 + length (state_bytes a))%nat).
  { unfold sealed. fold mac. rewrite !length_app, Hmac. done. }
  rewrite u32_small by (unfold is_u32; lia).
  replace (Z.to_nat (Z.of_nat (length (sealed (mac_key s) a)) - Z.of_nat 1 - Z.of_nat 16))
    with (length (state_bytes a)) by lia.
  assert (Hs : sealed (mac_key s) a ++ rest = [STATE_MAGIC] ++ mac ++ state_bytes a ++ rest).
  { unfold sealed. fold mac. by rewrite !app_assoc. }
  rewrite Hs. change (nth 0 _ 0 =? STATE_MAGIC) with true. cbn [negb].
  rewrite mem_read_fits by (rewrite !length_app, Hmac; cbn; lia). mstep.
  rewrite mem_read_fits by (rewrite !length_app, Hmac; cbn; lia). mstep. cbn [app]. fields.
  destruct (verify_mac_done (set_lfs l s) (state_bytes a) mac Hm Hmac) as (c & E3 & Hc). run E3.
  rewrite bool_decide_true by done. cbn [b2z Z.eqb].
  rewrite (state_cbor_decode_bytes a0 a Ha H0). mstep. by exists l, c.
Qed.

(** C28: the state that [authenticator_write_state] stores is the state that
    [authenticator_read_state] returns, sealed under the device MAC key, into
    whatever structure it is read; when the file cannot be written the device
    stops at an assertion, and nothing else can happen. *)
Theorem state_persists m ds s a a0 :
  vol m ds (lfs_of s) -> creatable m ds "state" -> mac_ok s -> state_ok a -> sized a0 ->
  match (let* _ := authenticator_write_state a in authenticator_read_state a0) s with
  | Done (r, s') => r = (1, a) /\ vol (<["state"%string := sealed (mac_key s) a]> m) ds (lfs_of s')
  | Fault f => f = FAssert
  end.
Proof.
  intros Hl Hn Hm Ha H0. destruct (write_state_done _ _ _ _ Hl Hn Hm Ha) as [(l & c & E & Hl1 & Hc)|E].
  - run E. destruct (read_state_done (<["state"%string := sealed (mac_key s) a]> m) ds
      (set_lfs l (set_sha c s)) a0 a) as (l2 & c2 & -> & Hl2 & _); try done.
    + by rewrite lookup_insert_eq.
    + split; [exact Hc|apply Hm].
  - unfold bind. by rewrite E.
Qed.


(** ** The signature counter *)

Definition counter_of (m : gmap string (list Z)) : Z :=
  le32_dec (default [] (m !! "counter"%string) ++ zeros 4).

Lemma le32_dec_padded l : (length l <= 4)%nat -> le32_dec (l ++ zeros (4 - length l)) = le32_dec (l ++ zeros 4).
Proof. destruct l as [|? [|? [|? [|? [|]]]]]; try done; cbn in *; lia. Qed.

Lemma put_at_front d l : (length l <= length d)%nat -> put_at 0 d l = d.
Proof. intros H. unfold put_at. cbn. by rewrite drop_ge, app_nil_r by lia. Qed.

Lemma random_done s n : rng_ok (h_rng (d_hw s)) -> rng_initialized (h_rng (d_hw s)) = true ->
  0 <= n < 2 ^ 32 -> exists l r b,
  ctap_generate_rng n s = Done ((1, Some l), s <| d_hw := (d_hw s) <| h_rng := r |> <| h_board := b |> |>) /\
  length l = Z.to_nat n /\ rng_ok r /\ rng_initialized r = true.
Proof.
  intros H I Hn. destruct (rng_get_bytes_stream n _ (h_board (d_hw s)) H I Hn) as (l & r & b & E & _ & Hl & H' & I').
  exists l, r, b. split; [|done]. unfold ctap_generate_rng, bind, rng, on. by rewrite E.
Qed.

(** [ctap_atomic_count] returns the stored counter plus the amount (or,
    for amount 0, plus a random step of 1 to 16) modulo 2^32, and stores what
    it returns; only when the write fails does the file keep the old value. *)
Theorem atomic_count_correct m ds s amount :
  vol m ds (lfs_of s) -> creatable m ds "counter" ->
  (length (default [] (m !! "counter"%string)) <= 4)%nat ->
  rng_ok (h_rng (d_hw s)) -> rng_initialized (h_rng (d_hw s)) = true -> is_u32 amount ->
  wp (ctap_atomic_count amount) (fun r s' => exists step,
    (amount = 0 -> 1 <= step <= 16) /\ (amount <> 0 -> step = amount) /\
    r = u32 (counter_of m + step) /\
    (vol (<["counter"%string := le32 r]> m) ds (lfs_of s') \/
     vol (touched "counter" m) ds (lfs_of s'))) s.
Proof.
  intros Hl Hn Hold Hr Hi Ha. unfold ctap_atomic_count. set (old := default [] _) in *.
  apply wp_bind, fs_wp. eapply wp_mono.
  { apply fs_open_file_ok; [exact Hl|done|]. right. by split. }
  intros [r f] l (-> & Hl1 & Ho). apply wp_bind, fs_wp.
  change (opened_view "counter" (Z.lor LFS_O_RDWR LFS_O_CREAT) (m !! "counter"%string))
    with (mkFv "counter" 0 old false false false) in Ho.
  eapply wp_mono; [by apply fs_read_ok; unfold LFS_FILE_MAX; try lia|].
  intros [[r d] f1] l1 (-> & -> & Hl2 & Ho2). cbn [fv_pos fv_data drop] in *.
  rewrite drop_0, (take_ge old) in * by lia. destruct (_ <? 0) eqn:E; zbool; [lia|]. clear E.
  replace (drop (length old) (zeros 4)) with (zeros (4 - length old)) by (symmetry; apply drop_replicate).
  rewrite le32_dec_padded by done. change (le32_dec (old ++ zeros 4)) with (counter_of m).
  apply wp_bind. apply wp_mono with (P := fun step s' =>
    lfs_of s' = l1 /\ (amount = 0 -> 1 <= step <= 16) /\ (amount <> 0 -> step = amount)).
  { destruct (amount =? 0) eqn:E; zbool; [|by apply wp_ret].
    destruct (random_done (set_lfs l1 (set_lfs l s)) 1 Hr Hi ltac:(lia)) as (rl & r & b & Er & Hlen & _).
    apply wp_bind. unfold wp at 1. rewrite Er. apply wp_ret. split; [done|]. split; [|lia]. intros _.
    change 15 with (Z.ones 4). rewrite Z.land_ones by lia.
    pose proof (Z.mod_pos_bound (nth 0 rl 0) (2 ^ 4)). lia. }
  intros step s' (Hs & Hz & Hnz). apply wp_bind, fs_wp. rewrite Hs.
  eapply wp_mono; [eapply fs_write_at_ok; try done; unfold LFS_FILE_MAX; rewrite le32_length; lia|].
  intros [w f2] l2 (Hl3 & v & Ho3 & Hw). apply wp_bind, fs_wp.
  eapply wp_mono; [by eapply fs_close_file_ok|]. intros [w2 f3] l3 (_ & _ & Hl4). apply wp_ret.
  exists step. split; [done|]. split; [done|]. split; [done|]. cbn [lfs_of set_lfs].
  destruct Hw as [[_ ->]|[_ Hv]].
  - left. unfold committed, written, touched in Hl4. cbn -[put_at le32] in Hl4.
    rewrite insert_insert_eq, put_at_front in Hl4 by (rewrite le32_length; done). done.
  - right. unfold committed in Hl4. by rewrite Hv, andb_false_r in Hl4.
Qed.

End DeviceProps.

Import Lfs.Ram Board.Sim.

Lemma state_persists_witness :
  match (let* _ := authenticator_write_state demo_state in authenticator_read_state zero_state) demo with
  | Done (r, s') => r = (1, demo_state) /\
      vol (<["state"%string := sealed (replicate 32 3) demo_state]> demo_files) demo_dirs (lfs_of s')
  | Fault f => f = FAssert
  end.
Proof.
  apply (state_persists (L := Ram) (B := Sim) demo_files demo_dirs demo demo_state zero_state demo_vol).
  - left. by eexists.
  - by split.
  - apply demo_state_ok.
  - by split.
Defined.


Lemma atomic_count_correct_witness :
  wp (ctap_atomic_count 0) (fun r s' => exists step,
    (0 = 0 -> 1 <= step <= 16) /\ (0 <> 0 -> step = 0) /\
    r = u32 (counter_of demo_files + step) /\
    (vol (<["counter"%string := le32 r]> demo_files) demo_dirs (lfs_of s') \/
     vol (touched "counter" demo_files) demo_dirs (lfs_of s'))) demo.
Proof.
  apply (atomic_count_correct (L := Ram) (B := Sim) demo_files demo_dirs demo 0 demo_vol).
  - left. by eexists.
  - vm_compute. lia.
  - apply demo_rng_ok.
  - reflexivity.
  - unfold is_u32. lia.
Defined.

End DeviceProps.
