(* ===== verification/Presence.v ===== *)
(** * The clock and the user presence test (device.c) *)

From S2P Require Import Prelude Monad Lfs Board Dev Device Demo.
Import Monad Lfs Board Dev Device Demo.

Module Presence.

Section Presence.
Context {L : Lfs} {B : Board} {BL : BoardLaws B}.

Definition board_of (s : dev) : board_t := h_board (d_hw s).
Definition set_board (b : board_t) (s : dev) : dev := s <| d_hw := (d_hw s) <| h_board := b |> |>.

(** Everything but the registers, the device status and the keepalives. *)
Definition same_but_board (s s' : dev) : Prop :=
  h_lfs (d_hw s') = h_lfs (d_hw s) /\ h_rng (d_hw s') = h_rng (d_hw s) /\
  d_crypto s' = d_crypto s /\ STATE s' = STATE s /\ d_pin s' = d_pin s /\
  getAssertionState s' = getAssertionState s /\ d_cm s' = d_cm s /\
  f_rk (d_vars s') = f_rk (d_vars s) /\ up_disabled (d_vars s') = up_disabled (d_vars s).

Lemma same_refl s : same_but_board s s.
Proof. by repeat split. Qed.
Lemma same_trans s1 s2 s3 : same_but_board s1 s2 -> same_but_board s2 s3 -> same_but_board s1 s3.
Proof. unfold same_but_board. intuition congruence. Qed.
Lemma same_board b s : same_but_board s (set_board b s).
Proof. by repeat split. Qed.

(** ** The clock *)

(** [b'] is not before [b], and has not more reads of a timer that stands still. *)
Definition later (b b' : board_t) : Prop :=
  now b < now b' \/ now b' = now b /\ (polls b' <= polls b)%nat.

Lemma later_trans b1 b2 b3 : later b1 b2 -> later b2 b3 -> later b1 b3.
Proof. unfold later. lia. Qed.

(** What a read of the timer returns, and the time it stands for. *)
Definition reading (b : board_t) : Z := (timer_value b).1.
Definition clock (b : board_t) : Z := TIMER_MAX - reading b.

Lemma reading_law b : let b' := (timer_value b).2 in
  1 <= reading b /\ (1 < reading b -> clock b = now b') /\ later b b' /\
  (now b < now b' \/ (polls b' < polls b)%nat).
Proof.
  pose proof (timer_law b) as H. unfold clock, reading, later. destruct (timer_value b) as [v b'].
  cbn [fst snd] in *. cbn zeta. destruct H as [-> H].
  intuition lia.
Qed.

(** [millis] reads the timer once, and stops when it has run down. *)
Lemma millis_reads s : let b := board_of s in
  millis s = if reading b <=? 1 then Fault FAssert else Done (clock b, set_board (timer_value b).2 s).
Proof.
  intros b. pose proof (reading_law b) as (H1 & H2 & _). pose proof (now_range (timer_value b).2) as Hn.
  assert (Hc : 1 < reading b -> u32 (clock b) = clock b).
  { intros H. apply u32_small. pose proof (H2 H). unfold is_u32, clock, TIMER_MAX in *. lia. }
  unfold millis, bind, board, on. fold (board_of s). fold b.
  unfold clock, reading in *. destruct (timer_value b) as [v b'].
  cbn [fst snd] in *. destruct (v <=? 1) eqn:E; [done|]. zbool. rewrite Hc by lia. done.
Qed.

Lemma set_status_done st s : exists s', device_set_status st s = Done (tt, s') /\ same_but_board s s' /\
  board_of s' = board_of s.
Proof.
  unfold device_set_status, bind, upd, modify. destruct (negb _); eexists; (split; [reflexivity|]); by repeat split.
Qed.

Lemma set_board_id b s : board_of s = b -> set_board b s = s.
Proof. intros <-. by destruct s as [[]]. Qed.

Lemma led_done c s : board_set (led_set c) s = Done (tt, set_board (led_set c (board_of s)) s).
Proof. reflexivity. Qed.

(** ** The rounds of the test *)

(** What a round without a touch leaves: a look at the sensor, a read of the
    clock, the light that changes ten times a second. *)
Definition round_clock (b : board_t) : Z := clock (touch_event b).2.
Definition blink (elapsed : Z) : Z := if negb ((elapsed / 100) mod 2 =? 0) then LED_GREEN else LED_BLACK.
Definition round (start : Z) (b : board_t) : board_t :=
  led_set (blink (round_clock b - start)) (timer_value (touch_event b).2).2.
Definition touched (b : board_t) : bool := (touch_event b).1.
Definition timer_ended (b : board_t) : bool := reading (touch_event b).2 <=? 1.

(** From [b0], [n] rounds of a test that began at [start] lead to [b]: none saw
    a touch, and each read a time before the end of the delay. *)
Inductive rounds (start delay : Z) (b0 : board_t) : nat -> board_t -> Prop :=
| rounds_none : rounds start delay b0 0 b0
| rounds_more n b :
    rounds start delay b0 n b ->
    touched b = false -> timer_ended b = false -> round_clock b - start < delay ->
    rounds start delay b0 (S n) (round start b).

(** How the test ends after rounds that have led to [b]. *)
Definition ends (start delay : Z) (b : board_t) (r : Z) (b' : board_t) : Prop :=
  touched b = true /\ r = 1 /\ b' = led_set LED_BLACK (touch_event b).2 \/
  touched b = false /\ timer_ended b = false /\ delay <= round_clock b - start /\ r = 0 /\
    b' = led_set LED_BLACK (round start b).

(** Reads of the clock that may still happen before the delay has passed. *)
Definition reads_left (start delay : Z) (b : board_t) : Z :=
  (delay - (now b - start)) * Z.of_nat (S polls_per_ms) + Z.of_nat (polls b).

Lemma reads_left_step start delay b b' : later b b' -> now b < now b' \/ (polls b' < polls b)%nat ->
  reads_left start delay b' < reads_left start delay b.
Proof. unfold later, reads_left. pose proof (polls_bound b'). nia. Qed.
Lemma reads_left_later start delay b b' : later b b' -> reads_left start delay b' <= reads_left start delay b.
Proof. unfold later, reads_left. pose proof (polls_bound b'). nia. Qed.
Lemma reads_left_pos start delay b : now b < start + delay -> 0 <= reads_left start delay b.
Proof. intros H. unfold reads_left. apply Z.add_nonneg_nonneg; [apply Z.mul_nonneg_nonneg|]; lia. Qed.

Lemma round_later start b : let b1 := (timer_value (touch_event b).2).2 in
  later b b1 /\ (now b < now b1 \/ (polls b1 < polls b)%nat) /\ later b1 (round start b) /\
  (timer_ended b = false -> round_clock b = now b1).
Proof.
  cbn. pose proof (touch_event_law b) as Ht. unfold round, timer_ended, round_clock.
  set (b0 := (touch_event b).2) in *. pose proof (reading_law b0) as (_ & Hc & Hl & Hs).
  set (b1 := (timer_value b0).2) in *. pose proof (led_set_law (blink (clock b0 - start)) b1) as Hd.
  unfold later in *. split; [lia|]. split; [lia|]. split; [lia|]. intros H. zbool. apply Hc. lia.
Qed.

(** One pass of the loop, by what the round sees. *)
Lemma presence_loop_round fuel start delay s : let b := board_of s in
  0 <= start -> is_u32 delay -> (timer_ended b = false -> start <= round_clock b) ->
  exists s', same_but_board s s' /\
  presence_loop (S fuel) start delay s =
    if touched b then Done (1, set_board (led_set LED_BLACK (touch_event b).2) s')
    else if timer_ended b then Fault FAssert
    else if round_clock b - start <? delay then presence_loop fuel start delay (set_board (round start b) s')
    else Done (0, set_board (led_set LED_BLACK (round start b)) s').
Proof.
  intros b H0 Hd Hst. cbn [presence_loop].
  assert (E1 : board touch_event s = Done (touched b, set_board (touch_event b).2 s)).
  { unfold board, on, touched. fold (board_of s). fold b. by destruct (touch_event b). }
  run E1. destruct (touched b) eqn:Et.
  - unfold bind at 1. rewrite led_done. cbv beta iota.
    match goal with |- context [(device_set_status _ ;* _) ?x] =>
      destruct (set_status_done CTAPHID_STATUS_PROCESSING x) as (s2 & E2 & S2 & B2) end.
    run E2. exists s2. split; [eapply same_trans; [|exact S2]; by repeat split|].
    rewrite (set_board_id _ s2) by done. done.
  - destruct (set_status_done CTAPHID_STATUS_UPNEEDED (set_board (touch_event b).2 s)) as (s2 & E2 & S2 & B2).
    run E2. pose proof (millis_reads s2) as Hm. cbn in Hm. rewrite B2 in Hm.
    change (board_of (set_board _ s)) with (touch_event b).2 in Hm.
    exists s2. split; [eapply same_trans; [apply same_board|exact S2]|].
    unfold timer_ended, round, round_clock in *. set (b1 := (touch_event b).2) in *.
    destruct (reading b1 <=? 1) eqn:Er.
    { unfold bind at 1. by rewrite Hm. }
    run Hm. rewrite u32_small.
    + fold (blink (clock b1 - start)). run (led_done (blink (clock b1 - start)) (set_board (timer_value b1).2 s2)).
      by destruct (_ <? delay).
    + pose proof (reading_law b1) as (Hr & Hc & _). pose proof (now_range (timer_value b1).2).
      specialize (Hst eq_refl). zbool. unfold is_u32, clock, TIMER_MAX in *. lia.
Qed.

(** The whole loop, from rounds already made. *)
Lemma presence_loop_ends start delay b0 : 0 <= start -> is_u32 delay ->
  forall fuel n s, rounds start delay b0 n (board_of s) -> start <= now (board_of s) ->
  (0 < fuel)%nat -> reads_left start delay (board_of s) < Z.of_nat fuel ->
  exists n b, rounds start delay b0 n b /\ now (board_of s) <= now b /\
    match presence_loop fuel start delay s with
    | Done (r, s') => ends start delay b r (board_of s') /\ same_but_board s s'
    | Fault f => f = FAssert /\ touched b = false /\ timer_ended b = true
    end.
Proof.
  intros H0 Hd. induction fuel as [|fuel IH]; intros n s Hr Hn Hp Hf; [lia|]. set (b := board_of s) in *.
  pose proof (round_later start b) as (L1 & L2 & L3 & Hc).
  destruct (presence_loop_round fuel start delay s H0 Hd) as (s1 & S1 & E).
  { fold b. intros He. rewrite Hc by done. unfold later in L1. lia. }
  rewrite E. clear E. change (board_of s) with b. destruct (touched b) eqn:Et.
  { exists n, b. split; [done|]. split; [done|]. split; [by left|]. eapply same_trans; [exact S1|apply same_board]. }
  destruct (timer_ended b) eqn:Ee; [by exists n, b|]. specialize (Hc eq_refl).
  destruct (_ <? delay) eqn:Ed; zbool.
  - set (s2 := set_board (round start b) s1).
    pose proof (reads_left_step start delay _ _ L1 L2). pose proof (reads_left_later start delay _ _ L3).
    assert (Hb : now (timer_value (touch_event b).2).2 < start + delay) by lia.
    pose proof (reads_left_pos start delay _ Hb).
    destruct (IH (S n) s2) as (m & b' & Hm & Hb' & R); [by apply rounds_more| |lia| |].
    + change (board_of s2) with (round start b). unfold later in *. lia.
    + change (board_of s2) with (round start b). lia.
    + change (board_of s2) with (round start b) in Hb'. exists m, b'. split; [done|]. split; [unfold later in *; lia|].
      destruct (presence_loop fuel start delay s2) as [[r s']|f]; [|done]. destruct R as [R S2].
      split; [done|]. eapply same_trans, same_trans; [exact S1|apply same_board|exact S2].
  - exists n, b. split; [done|]. split; [done|]. split; [right; by repeat split|].
    eapply same_trans; [exact S1|apply same_board].
Qed.

(** C31: the user presence test always ends.  With user presence disabled it
    answers 2 and touches nothing.  Otherwise it discards the touches of the
    past, and then makes rounds of a look at the touch sensor and a read of the
    clock: it answers 1 exactly when the look that ends the rounds shows a
    touch, and 0 exactly when no look has shown one and the clock has been read
    at or after the end of the delay; it stops the device only when the timer
    has run down, after 49 days.  Nothing but the registers and the status
    reports changes. *)
Theorem user_presence_correct s delay : is_u32 delay ->
  let start := clock (board_of s) in
  let b0 := touch_clear (timer_value (board_of s)).2 in
  if up_disabled (d_vars s) then ctap_user_presence_test delay s = Done (2, s)
  else if reading (board_of s) <=? 1 then ctap_user_presence_test delay s = Fault FAssert
  else exists n b, rounds start delay b0 n b /\
    match ctap_user_presence_test delay s with
    | Done (r, s') => ends start delay b r (board_of s') /\ same_but_board s s'
    | Fault f => f = FAssert /\ touched b = false /\ timer_ended b = true
    end.
Proof.
  intros Hd start b0. unfold ctap_user_presence_test. mstep. destruct (up_disabled (d_vars s)); [done|].
  pose proof (millis_reads s) as Hm. cbn zeta in Hm. pose proof (reading_law (board_of s)) as (_ & Hc & _).
  fold start in Hm, Hc. set (b1 := (timer_value (board_of s)).2) in *.
  destruct (reading (board_of s) <=? 1) eqn:Er; [unfold bind; by rewrite Hm|]. run Hm.
  assert (E2 : board_set touch_clear (set_board b1 s) = Done (tt, set_board b0 s)) by done. run E2.
  zbool. specialize (Hc ltac:(lia)). pose proof (touch_clear_law b1) as Ht. fold b0 in Ht.
  assert (Hn : 0 <= start) by (rewrite Hc; apply now_range).
  destruct (presence_loop_ends start delay b0 Hn Hd (S (poll_fuel delay)) 0 (set_board b0 s))
    as (n & b & R & _ & H); [apply rounds_none| |lia| |].
  - change (board_of (set_board b0 s)) with b0. lia.
  - change (board_of (set_board b0 s)) with b0. unfold reads_left, poll_fuel, is_u32 in *.
    pose proof (polls_bound b0). assert (start <= now b0) by lia. nia.
  - exists n, b. split; [done|]. destruct (presence_loop _ _ _ _) as [[r s']|f]; [|done].
    destruct H as [H S]. split; [done|]. eapply same_trans; [apply same_board|exact S].
Qed.

(** [delay] waits at least as long as asked, and ends. *)
Lemma delay_loop_ends start ms : 0 <= start -> is_u32 ms ->
  forall fuel s, start <= now (board_of s) -> (0 < fuel)%nat -> reads_left start ms (board_of s) < Z.of_nat fuel ->
  match delay_loop fuel start ms s with
  | Done (_, s') => same_but_board s s' /\ start + ms <= now (board_of s')
  | Fault f => f = FAssert
  end.
Proof.
  intros H0 Hd. induction fuel as [|fuel IH]; intros s Hn Hp Hf; [lia|]. cbn [delay_loop].
  pose proof (reading_law (board_of s)) as (Hr & Hc & L1 & L2). set (b1 := (timer_value (board_of s)).2) in *.
  pose proof (millis_reads s) as Hm. cbn zeta in Hm. fold b1 in Hm.
  destruct (_ <=? 1) eqn:Er; [unfold bind; by rewrite Hm|]. run Hm. zbool. specialize (Hc ltac:(lia)).
  assert (Hb : start <= now b1) by (unfold later in L1; lia). rewrite u32_small by
    (unfold is_u32, clock, TIMER_MAX in *; lia). rewrite Hc.
  destruct (_ <? ms) eqn:E; zbool; [|by split; [apply same_board|]; change (board_of (set_board b1 s)) with b1; lia].
  pose proof (reads_left_step start ms _ _ L1 L2) as Hs.
  pose proof (reads_left_pos start ms b1 ltac:(lia)).
  pose proof (IH (set_board b1 s)) as H1. change (board_of (set_board b1 s)) with b1 in H1.
  specialize (H1 Hb ltac:(lia) ltac:(lia)). destruct (delay_loop _ _ _ _) as [[[] s']|f]; [|done].
  destruct H1 as [S1 N1]. split; [|done]. eapply same_trans; [apply same_board|exact S1].
Qed.

Lemma delay_ends ms s : is_u32 ms ->
  match delay ms s with
  | Done (_, s') => same_but_board s s' /\ now (board_of s) + ms <= now (board_of s')
  | Fault f => f = FAssert
  end.
Proof.
  intros Hd. unfold delay. pose proof (reading_law (board_of s)) as (Hr & Hc & L1 & _).
  set (b1 := (timer_value (board_of s)).2) in *. pose proof (millis_reads s) as Hm. cbn zeta in Hm. fold b1 in Hm.
  destruct (_ <=? 1) eqn:Er; [unfold bind; by rewrite Hm|]. run Hm. zbool. specialize (Hc ltac:(lia)).
  pose proof (now_range b1). rewrite Hc.
  pose proof (delay_loop_ends (now b1) ms ltac:(done) Hd (S (poll_fuel ms)) (set_board b1 s)) as H1.
  change (board_of (set_board b1 s)) with b1 in H1. specialize (H1 ltac:(lia) ltac:(lia)).
  destruct (delay_loop _ _ _ _) as [[[] s']|f].
  - destruct H1 as [S1 N1].
    + unfold reads_left, poll_fuel, is_u32 in *. pose proof (polls_bound b1). nia.
    + split; [eapply same_trans; [apply same_board|exact S1]|]. unfold later in L1. lia.
  - apply H1. unfold reads_left, poll_fuel, is_u32 in *. pose proof (polls_bound b1). nia.
Qed.

End Presence.

(** ** On the concrete device: the third look sees the touch *)

Import Lfs.Ram Board.Sim.

Lemma user_presence_correct_witness :
  is_u32 1000 /\ match ctap_user_presence_test 1000 demo with Done (r, _) => r = 1 | Fault _ => False end /\
  exists n b, rounds (clock (board_of demo)) 1000 (touch_clear (timer_value (board_of demo)).2) n b /\
    match ctap_user_presence_test 1000 demo with
    | Done (r, s') => ends (clock (board_of demo)) 1000 b r (board_of s') /\ same_but_board demo s'
    | Fault f => f = FAssert /\ touched b = false /\ timer_ended b = true
    end.
Proof.
  split; [unfold is_u32; lia|]. split; [vm_compute; reflexivity|].
  exact (user_presence_correct (L := Ram) (BL := Sim_laws) demo 1000 ltac:(unfold is_u32; lia)).
Defined.

End Presence.
