(* ===== verification/RkStore.v ===== *)
(** * The files of resident keys

    A file holds the keys whose relying party hashes to its name, one after
    the other.  Seen as lists of keys, [ctap_store_rk] appends, [ctap_overwrite_rk]
    replaces the key of the same account or appends, and [ctap_delete_rk]
    removes the key it is given; each of them either does all of it or leaves
    the file as it was. *)

From S2P Require Import Prelude Monad Lfs Fs Board Sha256 Crypto Rng State CtapTypes Dev Device Demo DeviceProps.
Import Monad Lfs Fs Board Sha256 Crypto Rng State CtapTypes Dev Device Demo DeviceProps.

Module RkStore.

#[local] Opaque state_bytes hmac.

(** ** Files as lists of keys *)

Definition rk_file (ks : list CTAP_residentKey) : list Z := concat (rk_bytes <$> ks).

Abbreviation rks_sized := (Forall rk_sized).

Lemma rk_file_app a b : rk_file (a ++ b) = rk_file a ++ rk_file b.
Proof. unfold rk_file. by rewrite fmap_app, concat_app. Qed.

Lemma rk_file_one k : rk_file [k] = rk_bytes k.
Proof. apply app_nil_r. Qed.

Lemma rk_file_length ks : rks_sized ks -> length (rk_file ks) = (length ks * RK_SIZE)%nat.
Proof.
  induction 1 as [|k ks Hk _ IH]; [done|]. change (k :: ks) with ([k] ++ ks).
  rewrite rk_file_app, !length_app, IH. unfold rk_file. cbn [fmap list_fmap concat].
  rewrite app_nil_r, rk_bytes_length by done. cbn [length]. lia.
Qed.

Lemma rk_file_split n ks : rks_sized ks -> (n <= length ks)%nat ->
  take (n * RK_SIZE) (rk_file ks) = rk_file (take n ks) /\
  drop (n * RK_SIZE) (rk_file ks) = rk_file (drop n ks).
Proof.
  intros Hs Hn. rewrite <- (take_drop n ks) at 1 3. rewrite rk_file_app.
  assert (E : (n * RK_SIZE)%nat = length (rk_file (take n ks))).
  { rewrite rk_file_length by (by apply Forall_take). rewrite length_take. by rewrite Nat.min_l. }
  by rewrite E, take_app_length, drop_app_length.
Qed.

(** The keys [i], …, [i + n - 1], where they are in the file. *)
Lemma rk_file_sub n i ks : rks_sized ks -> (i + n <= length ks)%nat ->
  take (n * RK_SIZE) (drop (i * RK_SIZE) (rk_file ks)) = rk_file (take n (drop i ks)).
Proof.
  intros Hs Hn. rewrite (proj2 (rk_file_split i ks Hs ltac:(lia))).
  apply rk_file_split; [by apply Forall_drop|]. rewrite length_drop. lia.
Qed.

(** Keys [new] put in place of the keys from [i] on. *)
Definition put_keys (i : nat) (new ks : list CTAP_residentKey) : list CTAP_residentKey :=
  take i ks ++ new ++ drop (i + length new) ks.

Lemma put_keys_file i new ks : rks_sized ks -> rks_sized new -> (i <= length ks)%nat ->
  put_at (i * RK_SIZE) (rk_file new) (rk_file ks) = rk_file (put_keys i new ks).
Proof.
  intros Hs Hn Hi. unfold put_at, put_keys. rewrite !rk_file_app.
  rewrite (rk_file_length ks), (rk_file_length new) by done.
  replace (i * RK_SIZE - length ks * RK_SIZE)%nat with 0%nat by (unfold RK_SIZE; lia). cbn [zeros replicate app].
  rewrite (proj1 (rk_file_split i ks Hs Hi)). f_equal. f_equal.
  replace (i * RK_SIZE + length new * RK_SIZE)%nat with ((i + length new) * RK_SIZE)%nat by lia.
  destruct (decide (i + length new <= length ks)%nat) as [Hl|Hl].
  - by apply rk_file_split.
  - rewrite !drop_ge; [done|lia|]. rewrite rk_file_length by done. unfold RK_SIZE. lia.
Qed.

Lemma put_keys_drop i new ks j : (i <= length ks)%nat -> (i + length new <= j)%nat ->
  drop j (put_keys i new ks) = drop j ks.
Proof.
  intros Hi Hj. unfold put_keys. rewrite drop_app_ge by (rewrite length_take; lia).
  rewrite drop_app_ge by (rewrite length_take; lia). rewrite drop_drop. f_equal. rewrite length_take. lia.
Qed.

Lemma put_keys_put_keys i new new2 ks : (i + length new <= length ks)%nat ->
  put_keys (i + length new) new2 (put_keys i new ks) = put_keys i (new ++ new2) ks.
Proof.
  intros Hi. unfold put_keys at 1. rewrite put_keys_drop by lia. unfold put_keys.
  rewrite (app_assoc (take i ks)), take_app_length' by (rewrite length_app, length_take; lia).
  rewrite <- !app_assoc, length_app. do 4 f_equal. lia.
Qed.

Lemma put_keys_length i new ks : (i + length new <= length ks)%nat -> length (put_keys i new ks) = length ks.
Proof. intros H. unfold put_keys. rewrite !length_app, length_take, length_drop. lia. Qed.

Lemma append_file k ks : rks_sized ks -> rk_sized k ->
  put_at (length (rk_file ks)) (rk_bytes k) (rk_file ks) = rk_file (ks ++ [k]).
Proof.
  intros Hs Hk. rewrite rk_file_length, <- rk_file_one, put_keys_file by (done || by constructor).
  unfold put_keys. rewrite firstn_all, (drop_ge ks) by (cbn; lia). by rewrite app_nil_r.
Qed.

Lemma put_keys_sized i new ks : rks_sized ks -> rks_sized new -> rks_sized (put_keys i new ks).
Proof. intros. apply Forall_app. split; [by apply Forall_take|]. apply Forall_app. split; [done|by apply Forall_drop]. Qed.

Lemma put_keys_one i k ks : (i <= length ks)%nat ->
  put_keys i [k] ks = if decide (i < length ks)%nat then <[i := k]> ks else ks ++ [k].
Proof.
  intros Hi. unfold put_keys. cbn [length app]. case_decide.
  - rewrite insert_take_drop by done. by rewrite Nat.add_1_r.
  - replace i with (length ks) by lia. by rewrite firstn_all, drop_ge by lia.
Qed.

(** A key read back from a file: what the read leaves of the old one is
    beyond it. *)
Lemma load_key old k : rk_sized old -> rk_sized k -> load_into old (rk_bytes k) = k.
Proof.
  intros Ho Hk. unfold load_into. rewrite drop_ge, app_nil_r; [by apply rk_of_bytes|].
  by rewrite !rk_bytes_length.
Qed.

Lemma rk_zero_sized : rk_sized rk_zero.
Proof. repeat split; cbn; unfold is_u32; try done; vm_compute; try done; discriminate. Qed.

Lemma lookups_equal a b : length a = 16%nat -> length b = 16%nat -> (memcmp a b =? 0) = bool_decide (a = b).
Proof.
  intros Ha Hb. apply eq_true_iff_eq. rewrite Z.eqb_eq, bool_decide_eq_true. apply memcmp_zero. congruence.
Qed.

(** ** The path *)

Lemma hex_digit_cases n : hex_digit n = EmptyString \/ exists c, hex_digit n = String c EmptyString.
Proof. unfold hex_digit. destruct (String.get _ _); eauto. Qed.

Lemma path_props h : rpid_hash_to_file h <> "state"%string /\ rpid_hash_to_file h <> "rk"%string /\
  parent (rpid_hash_to_file h) = Some "rk"%string.
Proof. unfold rpid_hash_to_file. repeat split; discriminate. Qed.

Abbreviation rk_dir := ({["rk"%string]} : gset string).

Lemma path_creatable m h : creatable m rk_dir (rpid_hash_to_file h).
Proof.
  destruct (path_props h) as (_ & H1 & H2). right. split; [by rewrite elem_of_singleton|].
  intros d. rewrite H2. intros [= <-]. by apply elem_of_singleton.
Qed.
Lemma state_creatable m : creatable m rk_dir "state".
Proof. right. split; [by rewrite elem_of_singleton|done]. Qed.

(** ** What the operations do, on lists of keys *)

Section Spec.
Context (rk : CTAP_residentKey).

Definition same_account (k : CTAP_residentKey) : bool :=
  bool_decide (rp_id_lookup (rk_id k) = rp_id_lookup (rk_id rk)) &&
  bool_decide (user_id_lookup k = user_id_lookup rk).

(** The key of the same account replaced, or [rk] appended. *)
Fixpoint upsert (ks : list CTAP_residentKey) : list CTAP_residentKey :=
  match ks with
  | [] => [rk]
  | k :: ks => if same_account k then rk :: ks else k :: upsert ks
  end.
Definition has_account (ks : list CTAP_residentKey) : bool := existsb same_account ks.
End Spec.

Section Spec.
Context (id : CredentialId).

Definition is_credential (k : CTAP_residentKey) : bool :=
  bool_decide (rp_id_lookup id = rp_id_lookup (rk_id k)) && bool_decide (cr_tag id = cr_tag (rk_id k)).

Fixpoint remove_first (ks : list CTAP_residentKey) : list CTAP_residentKey :=
  match ks with
  | [] => []
  | k :: ks => if is_credential k then ks else k :: remove_first ks
  end.
Definition has_credential (ks : list CTAP_residentKey) : bool := existsb is_credential ks.
End Spec.

(** ** Steps on the open file [_f_rk] *)

Section Steps.
Context {L : Lfs} {LL : LfsLaws L} {B : Board}.

Definition set_rk (f : fs_file_t) (s : dev) : dev := s <| d_vars := (d_vars s) <| f_rk := f |> |>.

(** The state [s0] with another volume and another [_f_rk]. *)
Definition with_file (s0 s : dev) (m : gmap string (list Z)) (P : fs_file_t -> lfs_t -> Prop) : Prop :=
  exists f l, s = set_rk f (set_lfs l s0) /\ vol m rk_dir l /\ P f l.
Definition closed (s0 : dev) (m : gmap string (list Z)) (s : dev) : Prop :=
  with_file s0 s m (fun f _ => open f = false).
Definition opened_at (s0 : dev) (m : gmap string (list Z)) (v : fview) (s : dev) : Prop :=
  with_file s0 s m (fun f => is_open f v).

(** A view of the file at [path] with keys [ks]. *)
Definition rk_view (path : string) (pos : nat) (ks : list CTAP_residentKey) (dirty : bool) : fview :=
  mkFv path pos (rk_file ks) false dirty false.

Lemma on_f_rk_wp {A} (op : fs_file_t -> M lfs_t (A * fs_file_t)) Q s :
  wp (op (f_rk (d_vars s))) (fun '(a, f) l => Q a (set_rk f (set_lfs l s))) (lfs_of s) ->
  wp (on_f_rk op) Q s.
Proof.
  intros H. unfold on_f_rk, get_f_rk, set_f_rk, upd. apply wp_bind, wp_gets, wp_bind, fs_wp.
  eapply wp_mono; [exact H|]. intros [a f] l Hq. apply wp_bind, wp_modify, wp_ret. exact Hq.
Qed.

Lemma with_file_lfs s0 s m P : with_file s0 s m P ->
  vol m rk_dir (lfs_of s) /\ P (f_rk (d_vars s)) (lfs_of s).
Proof. by intros (f & l & -> & ? & ?). Qed.

Lemma with_file_step s0 s m P m' (P' : fs_file_t -> lfs_t -> Prop) f l : with_file s0 s m P ->
  vol m' rk_dir l -> P' f l -> with_file s0 (set_rk f (set_lfs l s)) m' P'.
Proof. intros (f0 & l0 & -> & _) Hl Hp. by exists f, l. Qed.

Lemma opened_step s0 s m P m' v f l : with_file s0 s m P ->
  vol m' rk_dir l -> is_open f v l -> opened_at s0 m' v (set_rk f (set_lfs l s)).
Proof. intros Hs Hl Ho. by apply (with_file_step s0 s m P m' (fun f => is_open f v)). Qed.

Lemma fits n : Z.of_nat n < 65536 -> Z.of_nat n * RK <= LFS_FILE_MAX.
Proof. unfold RK, RK_SIZE, LFS_FILE_MAX. lia. Qed.

Lemma open_ok s0 m h s ks : closed s0 m s ->
  let path := rpid_hash_to_file h in
  default [] (m !! path) = rk_file ks -> rks_sized ks ->
  wp (ctap_open_rk_file h) (fun r s' => r = Z.of_nat (length ks) /\
    opened_at s0 (touched path m) (rk_view path 0 ks false) s') s.
Proof.
  intros Hc path Hm Hs. unfold ctap_open_rk_file. fold path. destruct (with_file_lfs _ _ _ _ Hc) as [Hl Ho].
  apply wp_bind, on_f_rk_wp. eapply wp_mono.
  { apply fs_open_file_ok; [exact Hl|exact Ho|]. right. split; [done|apply path_creatable]. }
  intros [r f] l (-> & Hl1 & Ho1). cbn [Z.ltb Z.compare].
  assert (E : opened_view path (Z.lor LFS_O_RDWR LFS_O_CREAT) (m !! path) = rk_view path 0 ks false).
  { unfold opened_view, rk_view. by rewrite Hm. }
  rewrite E in Ho1. apply wp_bind, wp_gets, wp_bind, fs_wp.
  eapply wp_mono; [eapply (fs_file_size_ok _ _ _ _ _ Hl1 Ho1)|]. intros r l' (-> & -> & _).
  cbn [fv_data rk_view]. rewrite rk_file_length by done.
  destruct (_ <? 0) eqn:E0; zbool; [lia|]. apply wp_ret. split.
  - rewrite Nat2Z.inj_mul. apply Z.quot_mul. discriminate.
  - by apply (opened_step _ _ _ _ _ _ _ _ Hc).
Qed.

Lemma close_rk_ok s0 m v s : opened_at s0 m v s ->
  wp ctap_close_rk_file (fun r s' => r = 0 /\ closed s0 (committed v m) s') s.
Proof.
  intros Hs. destruct (with_file_lfs _ _ _ _ Hs) as [Hl Ho]. apply on_f_rk_wp.
  eapply wp_mono; [by eapply fs_close_file_ok|]. intros [r f] l (-> & Hf & Hl'). split; [done|].
  by eapply (with_file_step s0 s m _ _ (fun f _ => open f = false)).
Qed.

(** Reading [n] keys from key [i] on. *)
Lemma read_keys_ok s0 m path pos ks dirty s n i : opened_at s0 m (rk_view path pos ks dirty) s ->
  rks_sized ks -> Z.of_nat (length ks) < 65536 -> (i + n <= length ks)%nat ->
  wp (on_f_rk (fun f => fs_read_at f (Z.of_nat n * RK) (Z.of_nat i * RK))) (fun '(r, d) s' =>
    d = rk_file (take n (drop i ks)) /\ r = Z.of_nat n * RK /\
    exists pos, opened_at s0 m (rk_view path pos ks dirty) s') s.
Proof.
  intros Hs Hk Hf Hn. destruct (with_file_lfs _ _ _ _ Hs) as [Hl Ho]. apply on_f_rk_wp.
  pose proof (fits n ltac:(lia)). pose proof (fits i ltac:(lia)).
  eapply wp_mono; [apply (fs_read_at_ok _ _ _ _ _ _ _ Hl Ho); [done|unfold RK, RK_SIZE in *; lia..]|].
  intros [[r d] f] l (-> & -> & Hl1 & Ho1). cbn [fv_data rk_view].
  replace (Z.to_nat (Z.of_nat n * RK)) with (n * RK_SIZE)%nat by (unfold RK; lia).
  replace (Z.to_nat (Z.of_nat i * RK)) with (i * RK_SIZE)%nat by (unfold RK; lia).
  rewrite rk_file_sub by (done || lia). split; [done|]. split.
  - rewrite rk_file_length by (by apply Forall_take, Forall_drop).
    rewrite length_take, length_drop, Nat.min_l by lia. unfold RK. lia.
  - eexists. by eapply opened_step.
Qed.

(** Reading the next key. *)
Lemma read_next_ok s0 m path ks dirty s i k : opened_at s0 m (rk_view path (i * RK_SIZE) ks dirty) s ->
  rks_sized ks -> ks !! i = Some k ->
  wp (on_f_rk (fun f => fs_read f RK)) (fun '(r, d) s' =>
    d = rk_bytes k /\ r = RK /\ opened_at s0 m (rk_view path (S i * RK_SIZE) ks dirty) s') s.
Proof.
  intros Hs Hk Hi. destruct (with_file_lfs _ _ _ _ Hs) as [Hl Ho]. apply on_f_rk_wp.
  pose proof (lookup_lt_Some _ _ _ Hi).
  eapply wp_mono; [apply (fs_read_ok _ _ _ _ _ _ Hl Ho); [done|vm_compute; split; discriminate]|].
  intros [[r d] f] l (-> & -> & Hl1 & Ho1). cbn [fv_data fv_pos rk_view] in *.
  assert (E : take (Z.to_nat RK) (drop (i * RK_SIZE) (rk_file ks)) = rk_bytes k).
  { change (Z.to_nat RK) with (1 * RK_SIZE)%nat. rewrite rk_file_sub by (done || lia).
    rewrite (drop_S _ _ _ Hi), firstn_cons, take_0. apply rk_file_one. }
  rewrite E in *. assert (El : length (rk_bytes k) = RK_SIZE).
  { apply rk_bytes_length. by eapply Forall_lookup_1. }
  rewrite El in *. split; [done|]. split; [done|].
  eapply opened_step; [exact Hs|exact Hl1|].
  replace (S i * RK_SIZE)%nat with (i * RK_SIZE + RK_SIZE)%nat by lia. exact Ho1.
Qed.

(** Writing keys over those from key [i] on; after a failed write, closing
    the file leaves it as it was. *)
Lemma write_keys_ok s0 m path pos ks dirty s i new : opened_at s0 m (rk_view path pos ks dirty) s ->
  rks_sized ks -> rks_sized new -> (i <= length ks)%nat -> Z.of_nat (i + length new) < 65536 ->
  wp (on_f_rk (fun f => fs_write_at f (rk_file new) (Z.of_nat i * RK))) (fun r s' =>
    (r = Z.of_nat (length new) * RK /\
       exists pos, opened_at s0 m (rk_view path pos (put_keys i new ks) true) s') \/
    (r < 0 /\ exists v, fv_failed v = true /\ opened_at s0 m v s')) s.
Proof.
  intros Hs Hk Hnew Hi Hf. destruct (with_file_lfs _ _ _ _ Hs) as [Hl Ho]. apply on_f_rk_wp.
  pose proof (fits (i + length new) ltac:(lia)).
  assert (El : Z.of_nat (length (rk_file new)) = Z.of_nat (length new) * RK).
  { rewrite rk_file_length by done. unfold RK. lia. }
  eapply wp_mono; [apply (fs_write_at_ok _ _ _ _ _ (rk_file new) (Z.of_nat i * RK) Hl Ho);
    [done|done|unfold RK; lia|lia]|].
  intros [r f] l (Hl1 & v & Ho1 & [[-> ->]|[Hr Hv]]).
  - left. rewrite El. split; [done|]. unfold rk_view. rewrite <- put_keys_file by done.
    replace (i * RK_SIZE)%nat with (Z.to_nat (Z.of_nat i * RK)) by (unfold RK; lia).
    eexists. by eapply opened_step.
  - right. split; [done|]. exists v. split; [done|].
    by eapply opened_step.
Qed.

Lemma truncate_ok s0 m path pos ks dirty s n : opened_at s0 m (rk_view path pos ks dirty) s ->
  rks_sized ks -> (n <= length ks)%nat ->
  wp (on_f_rk (fun f => fs_truncate_file f (Z.of_nat n * RK))) (fun r s' => r = 0 /\
    exists pos, opened_at s0 m (rk_view path pos (take n ks) true) s') s.
Proof.
  intros Hs Hk Hn. destruct (with_file_lfs _ _ _ _ Hs) as [Hl Ho]. apply on_f_rk_wp.
  eapply wp_mono; [apply (fs_truncate_file_ok _ _ _ _ _ (Z.of_nat n * RK) Hl Ho); [done|]|].
  { cbn [fv_data rk_view]. rewrite rk_file_length by done. unfold RK. split; [lia|].
    apply Z.le_trans with (Z.of_nat (length ks) * Z.of_nat RK_SIZE); [apply Z.mul_le_mono_nonneg_r|]; lia. }
  intros [r f] l (-> & Hl1 & p & Ho1). split; [done|]. exists p.
  eapply opened_step; [exact Hs|exact Hl1|].
  cbn in Ho1. replace (Z.to_nat (Z.of_nat n * RK)) with (n * RK_SIZE)%nat in Ho1 by (unfold RK; lia).
  unfold resize_to in Ho1. rewrite (proj1 (rk_file_split n ks Hk Hn)) in Ho1.
  replace (n * RK_SIZE - length (rk_file ks))%nat with 0%nat in Ho1; [by rewrite app_nil_r in Ho1|].
  rewrite rk_file_length by done. assert (n * RK_SIZE <= length ks * RK_SIZE)%nat by (apply Nat.mul_le_mono_r; lia).
  lia.
Qed.

(** ** The counter of stored keys *)

(** The device is ready to store keys: the volume holds [m], and no key file
    is open. *)
Definition storage (m : gmap string (list Z)) (s : dev) : Prop :=
  vol m rk_dir (lfs_of s) /\ mac_ok s /\ state_ok (STATE s) /\ open (f_rk (d_vars s)) = false.

(** The state of [s] was stored again, with [n] keys. *)
Definition flushed (s : dev) (m : gmap string (list Z)) (n : Z) (s' : dev) : Prop :=
  STATE s' = (STATE s) <| rk_stored := n |> /\
  storage (<["state"%string := sealed (mac_key s) (STATE s')]> m) s'.

Lemma set_count_ok s m n (f : AuthenticatorState -> AuthenticatorState) : storage m s ->
  0 <= n < 65536 -> f (STATE s) = (STATE s) <| rk_stored := n |> ->
  wpa (upd STATE f ;* ctap_flush_state) (fun _ => flushed s m n) s.
Proof.
  intros (Hl & Hm & Hs & Ho) Hn Hf. set (s1 := set_field STATE f s).
  assert (E1 : STATE s1 = (STATE s) <| rk_stored := n |>) by exact Hf.
  assert (Hs1 : state_ok (STATE s1)).
  { rewrite E1. destruct Hs as [? ? ? ? ? ? ? ?]. by split. }
  unfold wpa. unfold upd. mstep. fold s1. unfold ctap_flush_state. mstep.
  destruct (write_state_done m rk_dir s1 (STATE s1)) as [(l & c & -> & Hl' & Hc)| -> ]; [exact Hl| |exact Hm|done| |].
  - apply state_creatable.
  - split; [exact E1|]. split; [exact Hl'|]. split; [|done]. split; [exact Hc|apply Hm].
  - done.
Qed.

Lemma increment_ok s m : storage m s ->
  wpa ctap_increment_rk_store (fun _ => flushed s m (u16 (rk_stored (STATE s) + 1))) s.
Proof. intros. apply set_count_ok; [done| |done]. apply Z.mod_pos_bound. lia. Qed.
Lemma decrement_ok s m : storage m s ->
  wpa ctap_decrement_rk_store (fun _ => flushed s m (u16 (rk_stored (STATE s) - 1))) s.
Proof. intros. apply set_count_ok; [done| |done]. apply Z.mod_pos_bound. lia. Qed.

Lemma storage_closed m0 m s0 s : storage m0 s0 -> closed s0 m s ->
  storage m s /\ STATE s = STATE s0 /\ mac_key s = mac_key s0.
Proof. intros (_ & Hm & Hs & _) (f & l & -> & Hl & Hf). by split. Qed.

Lemma storage_is_closed m s : storage m s -> closed s m s.
Proof.
  intros (Hl & _ & _ & Hf). exists (f_rk (d_vars s)), (lfs_of s). split; [|done].
  destruct s as [[] ? [] ? ?]. reflexivity.
Qed.

Lemma storage_step s0 s1 m0 m n s' : storage m0 s0 -> closed s0 m s1 -> flushed s1 m n s' -> flushed s0 m n s'.
Proof.
  intros H0 H1 [E Hs]. destruct (storage_closed _ _ _ _ H0 H1) as (_ & E1 & E2).
  unfold flushed. rewrite E1, E2 in *. done.
Qed.

Lemma committed_keys path pos ks m : 
  committed (rk_view path pos ks true) (touched path m) = <[path := rk_file ks]> m.
Proof. apply insert_insert_eq. Qed.
Lemma committed_failed v m : fv_failed v = true -> committed v m = m.
Proof. unfold committed. intros ->. by rewrite andb_false_r. Qed.

(** How an operation on the keys of file [path] may end: the file holds
    [ks]; or the volume was full and the file is as before. *)
Definition all_or_nothing (s : dev) (m : gmap string (list Z)) (path : string)
    (Q : gmap string (list Z) -> dev -> Prop) (ks : list CTAP_residentKey) (r : Z) (s' : dev) : Prop :=
  (r = 0 /\ Q (<[path := rk_file ks]> m) s') \/ (r = -1 /\ closed s (touched path m) s').

(** ** Storing a key *)

(** Storing a key appends it to the file its relying party hashes to and
    counts it in the sealed state; when the volume is full the file and the
    count stay as they were and the result is -1. *)
Theorem store_rk_appends s m rk ks :
  let path := rpid_hash_to_file (rp_id_lookup (rk_id rk)) in
  storage m s -> default [] (m !! path) = rk_file ks -> rks_sized ks -> rk_sized rk ->
  Z.of_nat (length ks) < 65535 ->
  wpa (ctap_store_rk rk)
    (all_or_nothing s m path (fun m' => flushed s m' (u16 (rk_stored (STATE s) + 1))) (ks ++ [rk])) s.
Proof.
  intros path Hst Hm Hks Hrk Hlen. pose proof Hst as (Hl & _ & _ & Ho).
  unfold ctap_store_rk. fold path. apply wpa_wp_bind, fs_wp. eapply wp_mono.
  { apply fs_open_file_ok; [exact Hl|done|]. right. split; [done|apply path_creatable]. }
  intros [r f] l (-> & Hl1 & Ho1). cbn [Z.ltb Z.compare]. apply wpa_wp_bind, fs_wp.
  change (opened_view path _ _) with (mkFv path 0 (default [] (m !! path)) true false false) in Ho1.
  rewrite Hm in Ho1. eapply wp_mono; [apply (fs_write_ok _ _ _ _ _ (rk_bytes rk) Hl1 Ho1); [done|]|].
  { cbn [write_pos fv_append fv_data]. rewrite rk_bytes_length, rk_file_length by done.
    pose proof (fits (S (length ks)) ltac:(lia)). unfold RK in *. lia. }
  intros [r f1] l1 (Hl2 & v & Ho2 & Hr).
  assert (Hc : forall l2 m', vol m' rk_dir l2 ->
    closed s m' (set_lfs l2 (set_lfs l1 (set_lfs l s)))).
  { intros l2 m' H2. exists (f_rk (d_vars s)), l2. split; [|done]. destruct s as [[] ? [] ? ?]. reflexivity. }
  destruct Hr as [[-> ->]|[Hr Hv]].
  - rewrite rk_bytes_length by done. change (Z.of_nat RK_SIZE <=? 0) with false. cbn iota.
    apply wpa_wp_bind, fs_wp. eapply wp_mono; [by eapply fs_close_file_ok|].
    intros [r2 f2] l2 (-> & _ & Hl3). apply wpa_bind.
    assert (E : committed (written (mkFv path 0 (rk_file ks) true false false) (rk_bytes rk)) (touched path m)
                = <[path := rk_file (ks ++ [rk])]> m).
    { change (<[path := put_at (length (rk_file ks)) (rk_bytes rk) (rk_file ks)]> (touched path m) =
              <[path := rk_file (ks ++ [rk])]> m). rewrite append_file by done. apply insert_insert_eq. }
    rewrite E in Hl3. specialize (Hc l2 _ Hl3).
    destruct (storage_closed _ _ _ _ Hst Hc) as (Hst2 & E2 & _).
    eapply wpa_mono; [by apply increment_ok|]. intros [] s' Hf. left. split; [done|].
    rewrite E2 in Hf. by eapply storage_step.
  - destruct (r <=? 0) eqn:E; zbool; [|lia].
    apply wpa_wp_bind, fs_wp. eapply wp_mono; [by eapply fs_close_file_ok|].
    intros [r2 f2] l2 (-> & _ & Hl3). rewrite committed_failed in Hl3 by done. right. split; [done|]. by apply Hc.
Qed.

(** ** Replacing a key *)

Definition overwritten (rk : CTAP_residentKey) (ks : list CTAP_residentKey) (s : dev)
    (m : gmap string (list Z)) (s' : dev) : Prop :=
  if has_account rk ks then closed s m s' else flushed s m (u16 (rk_stored (STATE s) + 1)) s'.

Lemma write_rk_at_ok m path pos ks s0 s i rk (appended : bool) : storage m s0 ->
  opened_at s0 (touched path m) (rk_view path pos ks false) s ->
  rks_sized ks -> rk_sized rk -> Z.of_nat (length ks) < 65535 -> (i <= length ks)%nat ->
  wpa (write_rk_at rk (Z.of_nat i * RK) appended)
    (all_or_nothing s0 m path
       (fun m' s' => if appended then flushed s0 m' (u16 (rk_stored (STATE s0) + 1)) s' else closed s0 m' s')
       (put_keys i [rk] ks)) s.
Proof.
  intros Hst Ho Hks Hrk Hlen Hi. unfold write_rk_at. apply wpa_wp_bind. rewrite <- rk_file_one.
  eapply wp_mono; [apply (write_keys_ok _ _ _ _ _ _ _ _ [rk] Ho Hks); [by constructor|done|cbn; lia]|].
  intros r s1 [(-> & pos1 & H1)|(Hr & v & Hv & H1)].
  - change (Z.of_nat (length [rk]) * RK <=? 0) with false. cbn iota.
    apply wpa_wp_bind. eapply wp_mono; [by eapply close_rk_ok|]. intros _ s2 [_ H2].
    rewrite committed_keys in H2. destruct appended; [|left; done].
    destruct (storage_closed _ _ _ _ Hst H2) as (Hst2 & E2 & _). apply wpa_bind.
    eapply wpa_mono; [by apply increment_ok|]. intros [] s3 H3. left. split; [done|].
    rewrite E2 in H3. by eapply storage_step.
  - destruct (r <=? 0) eqn:E; zbool; [|lia]. apply wpa_wp_bind.
    eapply wp_mono; [by eapply close_rk_ok|]. intros _ s2 [_ H2].
    rewrite committed_failed in H2 by done. by right.
Qed.

Lemma same_account_tests rk k : rk_sized rk -> rk_sized k ->
  same_account rk k = (memcmp (rp_id_lookup (rk_id k)) (rp_id_lookup (rk_id rk)) =? 0) &&
                      (memcmp (user_id_lookup k) (user_id_lookup rk) =? 0).
Proof.
  intros [[] _ _ ? _ _] [[] _ _ ? _ _]. unfold same_account. by rewrite !lookups_equal.
Qed.

Lemma overwrite_loop_ok m path s0 rk ks : storage m s0 -> rks_sized ks -> rk_sized rk ->
  Z.of_nat (length ks) < 65535 ->
  forall n i s old, (i + n = length ks)%nat -> rk_sized old ->
  has_account rk (take i ks) = false ->
  opened_at s0 (touched path m) (rk_view path (i * RK_SIZE) ks false) s ->
  wpa (overwrite_loop n (Z.of_nat i) rk old)
    (all_or_nothing s0 m path (overwritten rk ks s0) (take i ks ++ upsert rk (drop i ks))) s.
Proof.
  intros Hst Hks Hrk Hlen. induction n as [|n IH]; intros i s old Hi Hold Hno Ho; cbn [overwrite_loop].
  - rewrite firstn_all2 in * by lia. rewrite drop_ge by lia. cbn [upsert].
    unfold overwritten. rewrite Hno.
    replace (ks ++ [rk]) with (put_keys i [rk] ks).
    + by apply (write_rk_at_ok _ _ _ _ _ _ i rk true Hst Ho); try done; lia.
    + rewrite put_keys_one by lia. by rewrite decide_False by lia.
  - destruct (lookup_lt_is_Some_2 ks i ltac:(lia)) as [k Hk].
    assert (Hks' : rk_sized k) by (by eapply Forall_lookup_1).
    apply wpa_wp_bind. eapply wp_mono; [by eapply read_next_ok|]. intros [r d] s1 (-> & -> & H1).
    change (RK <=? 0) with false. cbn iota. rewrite load_key by done.
    assert (Hnext : same_account rk k = false -> wpa (overwrite_loop n (Z.of_nat i + 1) rk k)
      (all_or_nothing s0 m path (overwritten rk ks s0) (take i ks ++ upsert rk (drop i ks))) s1).
    { intros Hf. rewrite (drop_S _ _ _ Hk). cbn [upsert]. rewrite Hf, cons_middle, app_assoc.
      rewrite <- (take_S_r _ _ _ Hk). replace (Z.of_nat i + 1) with (Z.of_nat (S i)) by lia.
      apply IH; [lia|done| |done]. unfold has_account in *. rewrite (take_S_r _ _ _ Hk), existsb_app, Hno.
      cbn. by rewrite Hf. }
    pose proof (same_account_tests rk k Hrk Hks') as Ht.
    destruct (memcmp (rp_id_lookup _) _ =? 0); cbn [negb andb] in *; [|by apply Hnext].
    destruct (memcmp (user_id_lookup _) _ =? 0); cbn [negb andb] in *; [|by apply Hnext].
    assert (Hh : has_account rk ks = true).
    { apply existsb_exists. exists k. split; [|done]. apply list_elem_of_In. by eapply list_elem_of_lookup_2. }
    unfold overwritten. rewrite Hh.
    rewrite (drop_S _ _ _ Hk). cbn [upsert]. rewrite Ht. change (rk :: drop (S i) ks) with ([rk] ++ drop (S i) ks).
    rewrite <- Nat.add_1_r. change (take i ks ++ [rk] ++ drop (i + 1) ks) with (put_keys i [rk] ks).
    by apply (write_rk_at_ok _ _ _ _ _ _ i rk false Hst H1); try done; lia.
Qed.

(** [ctap_overwrite_rk] replaces the key of the same relying party and
    user in place when the file holds one, without counting it; otherwise it
    appends the key and counts it.  On a full volume the file stays as it was
    and the result is -1. *)
Theorem overwrite_rk_upserts s m rk ks :
  let path := rpid_hash_to_file (rp_id_lookup (rk_id rk)) in
  storage m s -> default [] (m !! path) = rk_file ks -> rks_sized ks -> rk_sized rk ->
  Z.of_nat (length ks) < 65535 ->
  wpa (ctap_overwrite_rk rk) (all_or_nothing s m path (overwritten rk ks s) (upsert rk ks)) s.
Proof.
  intros path Hst Hm Hks Hrk Hlen. unfold ctap_overwrite_rk. apply wpa_wp_bind.
  eapply wp_mono; [by apply (open_ok s m _ s ks); [apply storage_is_closed|..]|].
  intros r s1 (-> & H1). destruct (_ <? 0) eqn:E; zbool; [lia|]. rewrite Nat2Z.id.
  apply (overwrite_loop_ok m path s rk ks Hst Hks Hrk Hlen _ 0%nat); (done || apply rk_zero_sized).
Qed.

(** ** Deleting a key *)

Lemma shift_loop_ok s0 m path i ks : rks_sized ks -> Z.of_nat (length ks) < 65535 ->
  forall fuel p q pos dirty s, (S i + p + q = length ks)%nat -> (q <= fuel)%nat ->
  opened_at s0 m (rk_view path pos (put_keys i (take p (drop (S i) ks)) ks) dirty) s ->
  wp (shift_loop fuel (Z.of_nat i) (Z.of_nat q) (Z.of_nat p)) (fun failed s' =>
    if failed : bool then exists v, fv_failed v = true /\ opened_at s0 m v s'
    else exists pos dirty, opened_at s0 m (rk_view path pos (put_keys i (drop (S i) ks) ks) dirty) s') s.
Proof.
  intros Hks Hlen. induction fuel as [|fuel IH]; intros p q pos dirty s Hn Hq Ho; cbn [shift_loop].
  - destruct (_ >? 0) eqn:E; zbool; [lia|]. apply wp_ret. exists pos, dirty.
    rewrite (take_ge (drop _ _)) in Ho; [done|]. rewrite length_drop. lia.
  - destruct (_ >? 0) eqn:E; zbool.
    2:{ apply wp_ret. exists pos, dirty.
        rewrite (take_ge (drop _ _)) in Ho; [done|]. rewrite length_drop. lia. }
    set (new := take p (drop (S i) ks)) in *.
    assert (Hnew : length new = p) by (unfold new; rewrite length_take, length_drop; lia).
    set (t := Nat.min 10 q). set (moved := take t (drop (i + 1 + p) ks)).
    assert (Hmv : length moved = t) by (unfold moved, t; rewrite length_take, length_drop; lia).
    assert (Hs1 : rks_sized new) by (by apply Forall_take, Forall_drop).
    assert (Hs2 : rks_sized moved) by (by apply Forall_take, Forall_drop).
    pose proof (put_keys_sized i new ks Hks Hs1) as Hs3.
    assert (El : length (put_keys i new ks) = length ks) by (apply put_keys_length; lia).
    replace (if Z.of_nat q >? 10 then 10 else Z.of_nat q) with (Z.of_nat t); cycle 1.
    { unfold t. destruct (Z.of_nat q >? 10) eqn:E1; zbool; lia. }
    replace (Z.of_nat i + 1 + Z.of_nat p) with (Z.of_nat (i + 1 + p)) by lia.
    replace (Z.of_nat i + Z.of_nat p) with (Z.of_nat (i + p)) by lia.
    assert (Ht : (0 < t)%nat /\ (t <= q)%nat) by (unfold t; lia).
    apply wp_bind. eapply wp_mono; [apply (read_keys_ok _ _ _ _ _ _ _ t (i + 1 + p) Ho Hs3); lia|].
    intros [r d] s1 (-> & -> & pos1 & H1). rewrite put_keys_drop by lia. fold moved.
    assert (Hrk : 0 < Z.of_nat t * RK) by (unfold RK, RK_SIZE; lia).
    destruct (_ <=? 0) eqn:E2; zbool; [lia|]. clear E2.
    rewrite (take_ge (rk_file moved)); cycle 1.
    { rewrite rk_file_length, Hmv by done. unfold RK. lia. }
    apply wp_bind. eapply wp_mono; [apply (write_keys_ok _ _ _ _ _ _ _ (i + p) moved H1 Hs3 Hs2); lia|].
    intros r s2 [(-> & pos2 & H2)|(Hr & v & Hv & H2)].
    + rewrite Hmv. destruct (_ <=? 0) eqn:E2; zbool; [lia|].
      replace (Z.of_nat q - Z.of_nat t) with (Z.of_nat (q - t)) by lia.
      replace (Z.of_nat p + Z.of_nat t) with (Z.of_nat (p + t)) by lia.
      apply IH with (pos := pos2) (dirty := true); [lia|lia|].
      rewrite <- Hnew in H2 at 1. rewrite put_keys_put_keys in H2 by lia.
      unfold new, moved in H2. replace (i + 1 + p)%nat with (S i + p)%nat in H2 by lia.
      rewrite <- drop_drop, take_take_drop in H2. exact H2.
    + destruct (r <=? 0) eqn:E2; zbool; [|lia]. apply wp_ret. by exists v.
Qed.

Lemma credential_tests id k : cred_sized id -> rk_sized k ->
  is_credential id k = (memcmp (rp_id_lookup id) (rp_id_lookup (rk_id k)) =? 0) &&
                       (memcmp (cr_tag id) (cr_tag (rk_id k)) =? 0).
Proof. intros [] [[] _ _ ? _ _]. unfold is_credential. by rewrite !lookups_equal. Qed.

(** What the end of [ctap_delete_rk] does once the keys have been moved. *)
Lemma delete_end_ok s0 m path pos ks dirty s i : storage m s0 -> rks_sized ks ->
  (i < length ks)%nat ->
  opened_at s0 (touched path m) (rk_view path pos (put_keys i (drop (S i) ks) ks) dirty) s ->
  wpa (let* r := on_f_rk (fun f => fs_truncate_file f ((Z.of_nat (length ks) - 1) * RK)) in
       if r <? 0 then let* _ := ctap_close_rk_file in ret (-1)
       else let* _ := ctap_close_rk_file in ctap_decrement_rk_store ;* ret 0)
    (all_or_nothing s0 m path (fun m' => flushed s0 m' (u16 (rk_stored (STATE s0) - 1)))
       (take i ks ++ drop (S i) ks)) s.
Proof.
  intros Hst Hks Hi Ho. assert (Hd : rks_sized (drop (S i) ks)) by (by apply Forall_drop).
  assert (El : length (put_keys i (drop (S i) ks) ks) = length ks).
  { apply put_keys_length. rewrite length_drop. lia. }
  apply wpa_wp_bind. replace (Z.of_nat (length ks) - 1) with (Z.of_nat (length ks - 1)) by lia.
  eapply wp_mono; [eapply (truncate_ok _ _ _ _ _ _ _ (length ks - 1) Ho); [by apply put_keys_sized|lia]|].
  intros r s1 (-> & pos1 & H1). cbn [Z.ltb Z.compare]. apply wpa_wp_bind.
  eapply wp_mono; [by eapply close_rk_ok|]. intros _ s2 [_ H2]. rewrite committed_keys in H2.
  replace (take (length ks - 1) (put_keys i (drop (S i) ks) ks)) with (take i ks ++ drop (S i) ks) in H2; cycle 1.
  { unfold put_keys. rewrite app_assoc, take_app_length'; [done|].
    rewrite length_app, length_take, length_drop. lia. }
  destruct (storage_closed _ _ _ _ Hst H2) as (Hst2 & E2 & _). apply wpa_bind.
  eapply wpa_mono; [by apply decrement_ok|]. intros [] s3 H3. left. split; [done|].
  rewrite E2 in H3. by eapply storage_step.
Qed.

Lemma delete_loop_ok m path s0 id ks : storage m s0 -> rks_sized ks -> cred_sized id ->
  Z.of_nat (length ks) < 65535 ->
  forall n i s old, (i + n = length ks)%nat -> rk_sized old ->
  has_credential id (take i ks) = false ->
  opened_at s0 (touched path m) (rk_view path (i * RK_SIZE) ks false) s ->
  wpa (delete_loop n (Z.of_nat i) (Z.of_nat (length ks)) id old) (fun r s' =>
    all_or_nothing s0 m path (fun m' => flushed s0 m' (u16 (rk_stored (STATE s0) - 1)))
      (take i ks ++ remove_first id (drop i ks)) r s' /\ (r = 0 -> has_credential id ks = true)) s.
Proof.
  intros Hst Hks Hid Hlen. induction n as [|n IH]; intros i s old Hi Hold Hno Ho; cbn [delete_loop].
  - apply wpa_wp_bind. eapply wp_mono; [by eapply close_rk_ok|]. intros _ s1 [_ H1].
    split; [|by intros]. right. by split.
  - destruct (lookup_lt_is_Some_2 ks i ltac:(lia)) as [k Hk].
    assert (Hks' : rk_sized k) by (by eapply Forall_lookup_1).
    apply wpa_wp_bind. eapply wp_mono; [by eapply read_next_ok|]. intros [r d] s1 (-> & -> & H1).
    change (RK <=? 0) with false. cbn iota. rewrite load_key by done.
    pose proof (credential_tests id k Hid Hks') as Ht.
    assert (Hnext : is_credential id k = false ->
      wpa (delete_loop n (Z.of_nat i + 1) (Z.of_nat (length ks)) id k) (fun r s' =>
        all_or_nothing s0 m path (fun m' => flushed s0 m' (u16 (rk_stored (STATE s0) - 1)))
          (take i ks ++ remove_first id (drop i ks)) r s' /\ (r = 0 -> has_credential id ks = true)) s1).
    { intros Hf. rewrite (drop_S _ _ _ Hk). cbn [remove_first]. rewrite Hf, cons_middle, app_assoc.
      rewrite <- (take_S_r _ _ _ Hk). replace (Z.of_nat i + 1) with (Z.of_nat (S i)) by lia.
      apply IH; [lia|done| |done]. unfold has_credential in *. rewrite (take_S_r _ _ _ Hk), existsb_app, Hno.
      cbn. by rewrite Hf. }
    destruct (memcmp (rp_id_lookup _) _ =? 0); cbn [negb andb] in *; [|by apply Hnext].
    destruct (memcmp (cr_tag _) _ =? 0); cbn [negb andb] in *; [|by apply Hnext].
    rewrite (drop_S _ _ _ Hk). cbn [remove_first]. rewrite Ht.
    assert (Hh : has_credential id ks = true).
    { apply existsb_exists. exists k. split; [|done]. apply list_elem_of_In. by eapply list_elem_of_lookup_2. }
    replace (Z.of_nat (length ks) - (Z.of_nat i + 1)) with (Z.of_nat (length ks - S i)) by lia.
    apply wpa_wp_bind. rewrite Nat2Z.id. eapply wp_mono.
    { apply (shift_loop_ok s0 (touched path m) path i ks Hks Hlen (length ks) 0 (length ks - S i)
               (S i * RK_SIZE) false); [lia|lia|].
      replace (put_keys i (take 0 (drop (S i) ks)) ks) with ks; [done|].
      unfold put_keys. rewrite take_0. cbn [length app]. by rewrite Nat.add_0_r, take_drop. }
    intros [|] s2 H2.
    + destruct H2 as (v & Hv & H2). apply wpa_wp_bind. eapply wp_mono; [by eapply close_rk_ok|].
      intros _ s3 [_ H3]. rewrite committed_failed in H3 by done. split; [|by intros]. right. by split.
    + destruct H2 as (pos2 & dirty & H2). eapply wpa_mono; [by eapply delete_end_ok; try done; lia|].
      intros r s3 H3. by split.
Qed.

(** C29: [ctap_delete_rk] removes the first key with the relying party and tag
    of the credential, closing the gap, and uncounts it; when there is none,
    or the volume is full, the file and the count stay as they were and the
    result is -1. *)
Theorem delete_rk_removes s m id ks :
  let path := rpid_hash_to_file (rp_id_lookup id) in
  storage m s -> default [] (m !! path) = rk_file ks -> rks_sized ks -> cred_sized id ->
  Z.of_nat (length ks) < 65535 ->
  wpa (ctap_delete_rk id) (fun r s' =>
    all_or_nothing s m path (fun m' => flushed s m' (u16 (rk_stored (STATE s) - 1)))
      (remove_first id ks) r s' /\ (r = 0 -> has_credential id ks = true)) s.
Proof.
  intros path Hst Hm Hks Hid Hlen. unfold ctap_delete_rk. apply wpa_wp_bind.
  eapply wp_mono; [by apply (open_ok s m _ s ks); [apply storage_is_closed|..]|].
  intros r s1 (-> & H1). destruct (_ <=? 0) eqn:E; zbool.
  - apply wpa_wp_bind. eapply wp_mono; [by eapply close_rk_ok|]. intros _ s2 [_ H2].
    split; [|by intros]. right. by split.
  - rewrite Nat2Z.id. apply (delete_loop_ok m path s id ks Hst Hks Hid Hlen _ 0%nat); (done || apply rk_zero_sized).
Qed.

End Steps.

Import Lfs.Ram Board.Sim.

(** A device that stores one key, [rk_zero]. *)
Definition demo_rks : gmap string (list Z) := <["rk/0.dat"%string := rk_file [rk_zero]]> demo_files.
Definition demo_rk_dev : dev := demo_with (mkRam demo_rks demo_dirs).

Lemma demo_storage : storage demo_rks demo_rk_dev.
Proof.
  split; [by apply demo_vol_of; vm_compute|]. split; [by split|]. split; [apply demo_state_ok|done].
Qed.

Lemma store_rk_appends_witness :
  wpa (ctap_store_rk rk_zero)
    (all_or_nothing demo_rk_dev demo_rks (rpid_hash_to_file (rp_id_lookup (rk_id rk_zero)))
       (fun m' => flushed demo_rk_dev m' (u16 (rk_stored (STATE demo_rk_dev) + 1))) [rk_zero; rk_zero])
    demo_rk_dev.
Proof.
  apply (store_rk_appends demo_rk_dev demo_rks rk_zero [rk_zero] demo_storage).
  - reflexivity.
  - constructor; [apply rk_zero_sized|constructor].
  - apply rk_zero_sized.
  - cbn. lia.
Defined.

Lemma overwrite_rk_upserts_witness :
  wpa (ctap_overwrite_rk rk_zero)
    (all_or_nothing demo_rk_dev demo_rks (rpid_hash_to_file (rp_id_lookup (rk_id rk_zero)))
       (overwritten rk_zero [rk_zero] demo_rk_dev)
       (upsert rk_zero [rk_zero]))
    demo_rk_dev.
Proof.
  apply (overwrite_rk_upserts demo_rk_dev demo_rks rk_zero [rk_zero] demo_storage).
  - reflexivity.
  - constructor; [apply rk_zero_sized|constructor].
  - apply rk_zero_sized.
  - cbn. lia.
Defined.

Lemma delete_rk_removes_witness :
  wpa (ctap_delete_rk (rk_id rk_zero)) (fun r s' =>
    all_or_nothing demo_rk_dev demo_rks (rpid_hash_to_file (rp_id_lookup (rk_id rk_zero)))
      (fun m' => flushed demo_rk_dev m' (u16 (rk_stored (STATE demo_rk_dev) - 1)))
      (remove_first (rk_id rk_zero) [rk_zero]) r s' /\
    (r = 0 -> has_credential (rk_id rk_zero) [rk_zero] = true)) demo_rk_dev.
Proof.
  apply (delete_rk_removes demo_rk_dev demo_rks (rk_id rk_zero) [rk_zero] demo_storage).
  - reflexivity.
  - constructor; [apply rk_zero_sized|constructor].
  - apply rk_zero_sized.
  - cbn. lia.
Defined.

End RkStore.
