(* ===== verification/CtapStatus.v ===== *)
(** * CTAP status codes and functions that return them (ctap_errors.h)

    A [CtapStatus] function of the source either returns an error code at
    once or goes on to the end: [X S A] is a stateful computation that ends
    with such a code or with its results.  [let^] continues after a success;
    [cbor] is the macro [cbor_check_ret] around a parser operation. *)

From S2P Require Import Prelude Monad CborParser.
Import Monad CborParser.

Module CtapStatus.

Definition CTAP2_OK : Z := 0x00.
Definition CTAP1_ERR_INVALID_COMMAND : Z := 0x01.
Definition CTAP1_ERR_INVALID_PARAMETER : Z := 0x02.
Definition CTAP1_ERR_INVALID_LENGTH : Z := 0x03.
Definition CTAP2_ERR_INVALID_CBOR : Z := 0x12.
Definition CTAP2_ERR_MISSING_PARAMETER : Z := 0x14.
Definition CTAP2_ERR_LIMIT_EXCEEDED : Z := 0x15.
Definition CTAP2_ERR_CREDENTIAL_EXCLUDED : Z := 0x19.
Definition CTAP2_ERR_INVALID_CREDENTIAL : Z := 0x22.
Definition CTAP2_ERR_UNSUPPORTED_ALGORITHM : Z := 0x26.
Definition CTAP2_ERR_OPERATION_DENIED : Z := 0x27.
Definition CTAP2_ERR_KEY_STORE_FULL : Z := 0x28.
Definition CTAP2_ERR_UNSUPPORTED_OPTION : Z := 0x2B.
Definition CTAP2_ERR_INVALID_OPTION : Z := 0x2C.
Definition CTAP2_ERR_KEEPALIVE_CANCEL : Z := 0x2D.
Definition CTAP2_ERR_NO_CREDENTIALS : Z := 0x2E.
Definition CTAP2_ERR_USER_ACTION_TIMEOUT : Z := 0x2F.
Definition CTAP2_ERR_NOT_ALLOWED : Z := 0x30.
Definition CTAP2_ERR_PIN_INVALID : Z := 0x31.
Definition CTAP2_ERR_PIN_BLOCKED : Z := 0x32.
Definition CTAP2_ERR_PIN_AUTH_INVALID : Z := 0x33.
Definition CTAP2_ERR_PIN_AUTH_BLOCKED : Z := 0x34.
Definition CTAP2_ERR_PIN_NOT_SET : Z := 0x35.
Definition CTAP2_ERR_PUAT_REQUIRED : Z := 0x36.
Definition CTAP2_ERR_PIN_POLICY_VIOLATION : Z := 0x37.
Definition CTAP2_ERR_INVALID_SUBCOMMAND : Z := 0x3E.
Definition CTAP2_ERR_UNAUTHORIZED_PERMISSION : Z := 0x40.
Definition CTAP1_ERR_OTHER : Z := 0x7F.
Definition CTAP2_ERR_USER_PRESENCE_DISABLED : Z := 0xF1.

Definition X (S A : Type) : Type := M S (Z + A).
#[global] Arguments X : simpl never.

(** Parsing code keeps no state. *)
Definition P (A : Type) : Type := X unit A.

Section Status.
Context {S : Type}.

Definition ok {A} (a : A) : X S A := ret (inr a).
Definition throw {A} (status : Z) : X S A := ret (inl status).
Definition xbind {A B} (m : X S A) (k : A -> X S B) : X S B :=
  bind m (fun r => match r with inl e => ret (inl e) | inr a => k a end).

(** [if (!b) return (CtapStatus){status};] *)
Definition guard (b : bool) (status : Z) : X S unit := if b then ok tt else throw status.

(** [cbor_check_ret]: every parser error becomes INVALID_CBOR. *)
Definition cbor {A} (m : res (CborError * A)) : X S A :=
  bind (lift m) (fun '(err, a) =>
    match err with
    | CborNoError => ok a
    | _ => throw CTAP2_ERR_INVALID_CBOR
    end).

(** A parser run in stateful code. *)
Definition parse {A} (m : P A) : X S A :=
  lift (match m tt with
        | Done (r, _) => Done r
        | Fault f => Fault f
        end).

(** The status a caller sees. *)
Definition status_of {A} (r : Z + A) : Z := match r with inl e => e | inr _ => CTAP2_OK end.

Lemma xbind_ok {A B} (a : A) (k : A -> X S B) s : xbind (ok a) k s = k a s.
Proof. done. Qed.
Lemma xbind_throw {A B} e (k : A -> X S B) s : xbind (throw e) k s = Done (inl e, s).
Proof. done. Qed.
Lemma xbind_done {A B} (m : X S A) (k : A -> X S B) s r s' : m s = Done (r, s') ->
  xbind m k s = match r with inl e => Done (inl e, s') | inr a => k a s' end.
Proof. unfold xbind, bind. intros ->. by destruct r. Qed.

Lemma wp_xbind {A B} (m : X S A) (k : A -> X S B) Q s :
  wp m (fun r s' => match r with inl e => Q (inl e) s' | inr a => wp (k a) Q s' end) s ->
  wp (xbind m k) Q s.
Proof.
  intros H. apply wp_bind. eapply wp_mono; [exact H|]. intros [e|a] s' Hq; [by apply wp_ret|done].
Qed.
Lemma wpa_xbind {A B} (m : X S A) (k : A -> X S B) Q s :
  wpa m (fun r s' => match r with inl e => Q (inl e) s' | inr a => wpa (k a) Q s' end) s ->
  wpa (xbind m k) Q s.
Proof.
  intros H. apply wpa_bind. eapply wpa_mono; [exact H|]. intros [e|a] s' Hq; done.
Qed.

End Status.

Notation "'let^' x := m 'in' k" := (xbind m (fun x => k))
  (at level 10, x pattern, m at level 200, k at level 200) : res_scope.
Notation "m ^; k" := (xbind m (fun _ => k))
  (at level 100, right associativity) : res_scope.

(** ** Parsers that cannot stop the device *)

(** Whatever the input, [m] returns; its result, when there is one, satisfies [Q]. *)
Definition safe {A} (m : P A) (Q : A -> Prop) : Prop :=
  exists r, m tt = Done (r, tt) /\ match r with inl _ => True | inr a => Q a end.

Lemma safe_ok {A} (a : A) (Q : A -> Prop) : Q a -> safe (ok a) Q.
Proof. intros H. by exists (inr a). Qed.
Lemma safe_throw {A} e (Q : A -> Prop) : safe (throw e) Q.
Proof. by exists (inl e). Qed.
Lemma safe_bind {A B} (m : P A) (k : A -> P B) R Q :
  safe m R -> (forall a, R a -> safe (k a) Q) -> safe (xbind m k) Q.
Proof.
  intros ([e|a] & E & H) Hk.
  - exists (inl e). split; [|done]. by rewrite (xbind_done _ _ _ _ _ E).
  - destruct (Hk a H) as (r & E2 & H2). exists r. split; [|done]. by rewrite (xbind_done _ _ _ _ _ E).
Qed.
Lemma safe_mono {A} (m : P A) (R Q : A -> Prop) : safe m R -> (forall a, R a -> Q a) -> safe m Q.
Proof. intros (r & E & H) HQ. exists r. split; [done|]. destruct r; auto. Qed.
Lemma safe_guard b e (Q : unit -> Prop) : (b = true -> Q tt) -> safe (guard b e) Q.
Proof. intros H. unfold guard. destruct b; [by apply safe_ok; auto|apply safe_throw]. Qed.
Lemma safe_cbor {A} (m : res (CborError * A)) (Q : A -> Prop) :
  (exists e a, m = Done (e, a) /\ (e = CborNoError -> Q a)) -> safe (cbor m) Q.
Proof.
  intros (e & a & -> & H). destruct e; try apply safe_throw. apply safe_ok. auto.
Qed.

Lemma parse_safe {S A} (m : P A) Q (s : S) : safe m Q ->
  exists r, parse m s = Done (r, s) /\ match r with inl _ => True | inr a => Q a end.
Proof. intros (r & E & H). exists r. split; [|done]. unfold parse, lift. by rewrite E. Qed.

End CtapStatus.
