(* ===== verification/CborApi.v ===== *)
(** * CBOR operations the requests are read with (cborparser.c, cbor.h)

    Lengths, checked integers, tags and the search of a key in a map, and
    what they promise on a valid iterator. *)

From S2P Require Import Prelude CborParser CborProps.
Import CborParser CborProps.

Module CborApi.

Definition INT_MAX : Z := 2147483647.

Definition cbor_value_is_tag (v : CborValue) : bool := type v =? CborTagType.
Definition cbor_value_is_array (v : CborValue) : bool := type v =? CborArrayType.
Definition cbor_value_is_map (v : CborValue) : bool := type v =? CborMapType.

Section Api.
Context (buf : list Z).

Definition cbor_value_get_int_checked (v : CborValue) : res (CborError * Z) :=
  let! _ := assertion (cbor_value_is_integer v) in
  let! n := _cbor_value_extract_int64_helper buf v in
  if n >? INT_MAX then Done (CborErrorDataTooLarge, 0)
  else Done (CborNoError, if has_flag NegativeInteger v then - n - 1 else n).

(** The length of a map or an array, for the type [t]. *)
Definition get_length (t : Z) (v : CborValue) : res (CborError * Z) :=
  let! _ := assertion (type v =? t) in
  if negb (cbor_value_is_length_known v) then Done (CborErrorUnknownLength, 0)
  else
    let! n := _cbor_value_extract_int64_helper buf v in
    Done (if negb (u32 n =? n) then CborErrorDataTooLarge else CborNoError, u32 n).
Definition cbor_value_get_array_length : CborValue -> res (CborError * Z) := get_length CborArrayType.
Definition cbor_value_get_map_length : CborValue -> res (CborError * Z) := get_length CborMapType.

Definition cbor_value_calculate_string_length (v : CborValue) : res (CborError * Z) :=
  let! (err, _, n, _) := _cbor_value_copy_string buf v SIZE_MAX in Done (err, n).

(** [while (cbor_value_is_tag(it))]: a tag takes at least a byte, so that
    [end_ + 1] rounds are enough. *)
Fixpoint skip_tags (fuel : nat) (it : CborValue) : res (CborError * CborValue) :=
  if cbor_value_is_tag it then
    match fuel with
    | O => Fault FExit
    | S fuel =>
        let! (err, it) := cbor_value_advance_fixed buf it in
        match err with
        | CborNoError => skip_tags fuel it
        | _ => Done (err, it)
        end
    end
  else Done (CborNoError, it).
Definition cbor_value_skip_tag (it : CborValue) : res (CborError * CborValue) := skip_tags (S (end_ buf)) it.

(** [iterate_string_chunks] with [memcmp] against [s], which has no zero byte:
    the iterator behind the string and whether it is [s]. *)
Definition string_is (s : list Z) (v : CborValue) : res (CborError * CborValue * bool) :=
  let! _ := assertion (cbor_value_is_byte_string v || cbor_value_is_text_string v) in
  let! (err, it, _, fits, copied) := iterate_chunks buf (end_ buf + 2) v (Z.of_nat (length s)) 0 true [] in
  Done (err, it, fits && bool_decide (copied = s)).

(** The [while] loop of [cbor_value_map_find_value]. *)
Fixpoint find_loop (fuel : nat) (s : list Z) (element : CborValue) : res (CborError * CborValue) :=
  if cbor_value_at_end element then Done (CborNoError, element <| type := CborInvalidType |>)
  else
    match fuel with
    | O => Fault FExit
    | S fuel =>
        let next element :=
          let! (err, element) := cbor_value_skip_tag element in
          match err with
          | CborNoError =>
              let! (err, element) := cbor_value_advance buf element in
              match err with
              | CborNoError => find_loop fuel s element
              | _ => Done (err, element)
              end
          | _ => Done (err, element)
          end in
        let! (err, element) := cbor_value_skip_tag element in
        match err with
        | CborNoError =>
            if cbor_value_is_text_string element then
              let! (err, element, equals) := string_is s element in
              match err with
              | CborNoError => if equals : bool then preparse_value buf element else next element
              | _ => Done (err, element)
              end
            else
              let! (err, element) := cbor_value_advance buf element in
              match err with
              | CborNoError => next element
              | _ => Done (err, element)
              end
        | _ => Done (err, element)
        end
    end.

(** An element takes at least a byte. *)
Definition cbor_value_map_find_value (map : CborValue) (s : list Z) : res (CborError * CborValue) :=
  let! _ := assertion (cbor_value_is_map map) in
  let! (err, element) := cbor_value_enter_container buf map in
  match err with
  | CborNoError => find_loop (S (end_ buf)) s element
  | _ => Done (err, element)
  end.

End Api.

(** A map of unknown length that ends after a key stops the device. *)
Example map_find_odd :
  (let! (_, it) := cbor_parser_init [0xbf; 0x61; 0x78; 0xff] in
   cbor_value_map_find_value [0xbf; 0x61; 0x78; 0xff] it [105; 100]) = Fault FAssert.
Proof. vm_compute. reflexivity. Qed.

(** ** Promises on a valid iterator *)

Section Safety.
Context (buf : list Z) (Hbuf : bytes buf).

Lemma get_int_checked_ok it : valid buf it -> cbor_value_is_integer it = true ->
  exists e v, cbor_value_get_int_checked buf it = Done (e, v) /\ - INT_MAX - 1 <= v <= INT_MAX.
Proof.
  intros V Hi. unfold cbor_value_get_int_checked. rewrite assertion_true by done. cbn [res_bind].
  destruct (extract_int64_ok buf Hbuf it V) as (n & -> & Hn). cbn [res_bind].
  unfold INT_MAX. destruct (n >? 2147483647) eqn:E; zbool; eexists _, _; (split; [done|]); [lia|].
  destruct (has_flag _ _); lia.
Qed.

Lemma get_length_ok t it : valid buf it -> type it = t ->
  exists e n, get_length buf t it = Done (e, n) /\ is_u32 n.
Proof.
  intros V Ht. unfold get_length. rewrite Ht, Z.eqb_refl. cbn [assertion res_bind].
  destruct (negb (cbor_value_is_length_known it)); [by exists CborErrorUnknownLength, 0|].
  destruct (extract_int64_ok buf Hbuf it V) as (n & -> & Hn). cbn [res_bind].
  eexists _, _. split; [done|]. apply u32_range.
Qed.

Lemma string_type it : cbor_value_is_byte_string it || cbor_value_is_text_string it = true ->
  is_fixed_type (type it) = false /\ cbor_value_is_container it = false.
Proof.
  unfold cbor_value_is_byte_string, cbor_value_is_text_string, is_fixed_type, cbor_value_is_container.
  intros [H|H]%orb_true_iff; apply Z.eqb_eq in H; rewrite H; done.
Qed.

Lemma copy_ok it n : valid buf it -> cbor_value_is_byte_string it || cbor_value_is_text_string it = true ->
  exists e it' m c, _cbor_value_copy_string buf it n = Done (e, it', m, c) /\
    (e = CborNoError -> parsed buf it' /\ (ptr it < ptr it')%nat).
Proof.
  intros V Hs. destruct (string_type it Hs). by apply copy_string_ok.
Qed.

End Safety.

End CborApi.
