(* ===== verification/CborSteps.v ===== *)
(** * Counting the elements of a container of known length

    Skipping an element takes at most one from [remaining]; so a loop over the
    counted pairs of a map never finds the iterator at the end of the map
    where a value is due. *)

From S2P Require Import Prelude CborParser CborProps CborApi.
Import CborParser CborProps CborApi.

Module CborSteps.

(** Break down a successful computation. *)
Ltac inv_bind H :=
  match type of H with
  | res_bind ?m _ = Done _ =>
      let E := fresh "E" in destruct m eqn:E; [cbn [res_bind] in H|discriminate H]
  end.

Section Steps.
Context (buf : list Z) (Hbuf : bytes buf).

Lemma preparse_value_remaining it e it' : (ptr it <= length buf)%nat -> 1 <= remaining it <= UINT32_MAX ->
  preparse_value buf it = Done (e, it') -> remaining it' = remaining it.
Proof.
  intros Hp Hr H. destruct (preparse_value_ok buf Hbuf it Hp Hr) as (e1 & it1 & E & _ & H1 & _).
  rewrite E in H. by injection H as [= <- <-].
Qed.

(** The small number kept in [extra] is the one the descriptor has. *)
Definition exact (it : CborValue) : Prop :=
  type it = CborMapType \/ type it = CborArrayType ->
  has_flag IntegerValueTooLarge it = false -> has_flag UnknownLength it = false ->
  exists p, _cbor_value_extract_number buf (ptr it) = Done (CborNoError, p, extra it).

Lemma get_be_1 i : get_be buf i 1 = match buf !! i with Some x => Done x | None => Fault FOutOfBounds end.
Proof.
  unfold get_be, mem_read. destruct (buf !! i) as [x|] eqn:E.
  - rewrite decide_True by (apply lookup_lt_Some in E; lia). cbn [res_bind]. unfold slice.
    rewrite (drop_S _ _ _ E), firstn_cons, take_0. f_equal. cbn. lia.
  - rewrite decide_False; [done|]. apply lookup_ge_None in E. lia.
Qed.

Lemma preparse_value_exact it it' : (ptr it <= length buf)%nat -> 1 <= remaining it <= UINT32_MAX ->
  preparse_value buf it = Done (CborNoError, it') -> exact it'.
Proof.
  intros Hp Hr H Ht Hl Hu. destruct (preparse_value_ok buf Hbuf it Hp Hr) as (e & it1 & E & Hpt & _ & V).
  rewrite E in H. injection H as [= -> ->]. specialize (V eq_refl).
  destruct (v_shape _ _ V) as (d & Hd & Hs).
  assert (Hty : Z.land d MajorTypeMask = type it').
  { destruct Hs as [|_ _ _ Hf _]; [done|]. symmetry. apply Hf. destruct Ht as [-> | ->]; done. }
  revert E. rewrite Hpt in Hd. unfold preparse_value. cbn [set_field ptr]. unfold end_.
  destruct (ptr it =? length buf)%nat; [done|]. rewrite (rd_lookup _ _ _ Hd). cbn [res_bind].
  rewrite Hpt. pose proof (land31 d). set (ty := Z.land d MajorTypeMask) in *.
  rewrite <- Hty in Ht. clear Hty Hs V Hpt. set (info := Z.land d SmallValueMask) in *.
  destruct (info >? Value64Bit) eqn:Ei.
  { destruct (negb _); [by destruct (_ =? CborSimpleType)|].
    destruct (negb _); [|by destruct (_ =? CborSimpleType)]. intros [= <-]. exfalso. revert Hu. done. }
  destruct (_ <? _)%nat eqn:El; [done|]. apply Nat.ltb_ge in El.
  replace (Z.shiftr ty MajorTypeShift =? SimpleTypesType) with false by (by destruct Ht as [Ht|Ht]; rewrite Ht).
  replace (Z.shiftr ty MajorTypeShift =? NegativeIntegerType) with false by (by destruct Ht as [Ht|Ht]; rewrite Ht).
  unfold _cbor_value_extract_number. rewrite (rd_lookup _ _ _ Hd). cbn [res_bind]. fold info.
  destruct (info <? Value8Bit) eqn:E8; [intros [= <-]; by eexists|].
  rewrite Ei. zbool. unfold Value8Bit, Value16Bit, Value64Bit in *.
  destruct (info =? 24) eqn:E24; zbool.
  { rewrite E24 in *. change (bytes_needed 24) with 1%nat in *. intros H1. inv_bind H1.
    injection H1 as [= <-]. unfold end_. destruct (_ <? 1)%nat eqn:E1; [apply Nat.ltb_lt in E1; lia|].
    rewrite get_be_1. cbn [ptr] in E. unfold rd in E. destruct (buf !! S (ptr it)); [|done]. injection E as [= ->].
    cbn [res_bind]. by eexists. }
  destruct (info =? 25) eqn:E25; zbool.
  { rewrite E25 in *. change (bytes_needed 25) with 2%nat in *. intros H1. inv_bind H1.
    injection H1 as [= <-]. unfold end_. destruct (_ <? 2)%nat eqn:E1; [apply Nat.ltb_lt in E1; lia|].
    cbn [ptr] in E. rewrite E. cbn [res_bind]. by eexists. }
  intros [= <-]. exfalso. revert Hl. done.
Qed.

(** What one step leaves of an iterator with [r] elements to go. *)
Definition took_one (r : Z) (it' : CborValue) : Prop := r - 1 <= remaining it' <= r /\ exact it'.

Lemma exact_end it : type it = CborInvalidType -> exact it.
Proof. intros H [Ht|Ht]; rewrite H in Ht; discriminate. Qed.

Lemma preparse_nodecrement_took it it' : (ptr it <= length buf)%nat -> 1 <= remaining it < UINT32_MAX ->
  preparse_next_value_nodecrement buf it = Done (CborNoError, it') -> remaining it' = remaining it /\ exact it'.
Proof.
  intros Hp Hr. unfold preparse_next_value_nodecrement.
  destruct (remaining it =? UINT32_MAX) eqn:E; zbool; [lia|]. cbn [andb]. intros H. split.
  - eapply preparse_value_remaining; [exact Hp|lia|exact H].
  - eapply preparse_value_exact; [exact Hp|lia|exact H].
Qed.

Lemma preparse_next_took it it' : (ptr it <= length buf)%nat -> 1 <= remaining it < UINT32_MAX ->
  preparse_next_value buf it = Done (CborNoError, it') -> took_one (remaining it) it'.
Proof.
  intros Hp Hr. unfold preparse_next_value, took_one. destruct (_ && _) eqn:E.
  - unfold UINT32_MAX in *. rewrite u32_small by (unfold is_u32; lia). cbn [set_field remaining].
    destruct (_ =? 0) eqn:E0; zbool.
    + intros [= <-]. cbn. split; [lia|by apply exact_end].
    + intros Hd. apply preparse_nodecrement_took in Hd as [Hd Hx]; cbn in *; unfold UINT32_MAX; [|lia..].
      split; [lia|done].
  - intros Hd. apply preparse_nodecrement_took in Hd as [Hd Hx]; [|lia..]. split; [lia|done].
Qed.

Lemma advance_internal_took it it' : valid buf it -> is_fixed_type (type it) = true ->
  remaining it < UINT32_MAX ->
  advance_internal buf it = Done (CborNoError, it') -> took_one (remaining it) it'.
Proof.
  intros V Hf Hr. destruct (v_shape _ _ V) as (d & Hd & Hs). destruct (shape_fixed _ _ _ Hs Hf) as [Hi Hn].
  unfold advance_internal. destruct (extract_number_ok buf Hbuf _ _ Hd Hi Hn) as (v & -> & _).
  cbn [res_bind]. rewrite assertion_true by done. cbn [res_bind set_field type].
  rewrite fixed_not_string by done. cbn [res_bind]. pose proof (v_remaining _ _ V).
  intros H1. apply preparse_next_took in H1; cbn in *; [done|lia|lia].
Qed.

Lemma chunk_took it it' c : in_string buf it -> remaining it < UINT32_MAX ->
  get_string_chunk buf it = Done (CborNoError, it', c) ->
  match c with
  | None => took_one (remaining it) it'
  | Some _ => remaining it' = remaining it
  end.
Proof.
  intros [Hp Hr Hf] Hm. unfold get_string_chunk.
  set (itr := has_flag IteratingStringChunks it) in *. set (kn := cbor_value_is_length_known it).
  destruct (itr && kn) eqn:Eik.
  { intros H. inv_bind H. destruct a as [e it1]. injection H as [= -> <- <-].
    apply (preparse_next_took it); [exact Hp|lia|exact E]. }
  set (it0 := if negb itr && negb kn then _ else it).
  assert (H0 : remaining it0 = remaining it /\ (ptr it0 <= length buf)%nat).
  { unfold it0. destruct itr; cbn; [done|]. specialize (Hf eq_refl). destruct (negb kn); cbn; split; lia. }
  destruct H0 as [Hr0 Hp0]. clearbody it0.
  destruct (_ =? _)%nat; [done|]. intros H. inv_bind H. destruct (_ =? BreakByte) eqn:Eb.
  { inv_bind H. destruct a0 as [e it1]. injection H as [= -> <- <-]. rewrite <- Hr0.
    unfold rd in E. destruct (buf !! ptr it0) eqn:El; [|done]. apply lookup_lt_Some in El.
    apply (preparse_next_took (it0 <| ptr := S (ptr it0) |>)) in E0; cbn in *; [done|lia|lia]. }
  destruct (_ =? type it0); [|done]. inv_bind H. destruct a0 as [[e p] len].
  destruct e; try done. destruct (_ <? len); [done|]. inv_bind H.
  injection H as [= <- <-]. done.
Qed.

Lemma iterate_took fuel : forall it buflen total fits copied it' t f c,
  in_string buf it -> remaining it < UINT32_MAX ->
  iterate_chunks buf fuel it buflen total fits copied = Done (CborNoError, it', t, f, c) ->
  took_one (remaining it) it'.
Proof.
  induction fuel as [|fuel IH]; intros it buflen total fits copied it' t f c S Hm; [done|].
  cbn [iterate_chunks]. intros H. inv_bind H. destruct a as [[e it1] oc].
  destruct (get_string_chunk_ok buf Hbuf it S) as (e2 & it2 & c2 & E2 & H2).
  rewrite E in E2. injection E2 as [= <- <- <-].
  destruct e; try done. specialize (H2 eq_refl). pose proof (chunk_took it it1 oc S Hm E) as H3.
  destruct oc as [ch|].
  - destruct H2 as [S1 _]. destruct (_ >? SIZE_MAX); [done|].
    rewrite <- H3. destruct (fits && _); eapply IH; try exact H; (done || lia).
  - by injection H as [= <- _ _ _].
Qed.

Lemma advance_took it it' : valid buf it -> remaining it < UINT32_MAX ->
  cbor_value_advance buf it = Done (CborNoError, it') -> took_one (remaining it) it'.
Proof.
  intros V Hm. pose proof (v_remaining _ _ V). unfold cbor_value_advance.
  rewrite assertion_true by (apply negb_true_iff, Z.eqb_neq, (v_type _ _ V)). cbn [res_bind].
  destruct (_ =? 0) eqn:E0; zbool; [lia|]. unfold CBOR_PARSER_MAX_RECURSIONS.
  set (n := 1024%nat). clearbody n. destruct n as [|n]; cbn [advance_recursive];
    (destruct (is_fixed_type (type it)) eqn:Ef; [by apply advance_internal_took|]);
    (destruct (cbor_value_is_container it) eqn:Ec; cbn [negb];
     [|intros H1; inv_bind H1; destruct a as [[[e it1] m] c]; injection H1 as [= -> <-];
       unfold _cbor_value_copy_string in E; inv_bind E; inv_bind E;
       destruct a0 as [[[[e2 it2] t2] f2] c2]; destruct e2; try done;
       destruct f2; [|done]; injection E as [= <- _ _];
       destruct (valid_in_string buf it V Ef); by eapply iterate_took]); [done|].
  intros H1. inv_bind H1. destruct a as [e r]. destruct e; try done. inv_bind H1. destruct a as [e r1].
  destruct e; try done.
  destruct (enter_container_ok buf Hbuf it V Ec) as (e & r2 & E2 & Hp). rewrite E in E2.
  injection E2 as [= <- <-]. destruct (Hp eq_refl) as [Pr _].
  destruct (advance_items_ok buf (advance_recursive buf n) (S (end_ buf)) r
    (advance_recursive_ok buf Hbuf n) Pr) as (e & r3 & E3 & H3); [unfold end_; lia|].
  rewrite E1 in E3. injection E3 as [= <- <-]. destruct (H3 eq_refl) as [A _].
  unfold cbor_value_leave_container in H1. inv_bind H1. inv_bind H1.
  destruct A as (_ & _ & Hpr). apply preparse_next_took in H1; cbn in *; [done|lia|lia].
Qed.

(** ** Maps of known length *)

(** An element of a container, known exactly. *)
Definition good (it : CborValue) : Prop := valid buf it /\ exact it.

(** [r] elements of a counted container are still to come, at least. *)
Record counted (r : Z) (it : CborValue) : Prop := {
  c_parsed : parsed buf it;
  c_exact : exact it;
  c_left : r <= remaining it < UINT32_MAX;
}.

Lemma counted_good r it : counted r it -> 1 <= r \/ type it <> CborInvalidType -> good it.
Proof.
  intros [[(H0 & Ht & _)|V] Hx Hl] Hr; [|done]. exfalso. destruct Hr; [lia|done].
Qed.

Lemma advance_counted r it : counted r it -> good it ->
  exists e it', cbor_value_advance buf it = Done (e, it') /\ (e = CborNoError -> counted (r - 1) it').
Proof.
  intros [_ _ Hl] [V _]. destruct (value_advance_ok buf it Hbuf V) as (e & it' & E & H).
  exists e, it'. split; [done|]. intros ->. destruct (H eq_refl) as [P _].
  destruct (advance_took it it' V ltac:(lia) E) as [H1 H2]. split; [done|done|].
  lia.
Qed.

(** The number in the iterator is the one behind its descriptor. *)
Lemma helper_exact it v p w : good it -> cbor_value_is_container it = true ->
  has_flag UnknownLength it = false ->
  _cbor_value_extract_int64_helper buf it = Done v ->
  _cbor_value_extract_number buf (ptr it) = Done (CborNoError, p, w) -> v = w.
Proof.
  intros [V Hx] Hc Hu Hv Hw. unfold cbor_value_is_container in Hc.
  rewrite orb_true_iff, !Z.eqb_eq in Hc. unfold _cbor_value_extract_int64_helper in Hv.
  destruct (has_flag IntegerValueTooLarge it) eqn:Hl.
  - destruct (v_shape _ _ V) as (d & Hd & [Hu'|_ Hi Hn _ Hw']); [congruence|].
    unfold _cbor_value_decode_int64_internal in Hv. unfold _cbor_value_extract_number in Hw.
    rewrite (rd_lookup _ _ _ Hd) in Hv, Hw. cbn [res_bind] in Hv, Hw. rewrite Hl in Hv.
    cbn [assertion orb res_bind] in Hv. pose proof (land31 d).
    destruct (need_bound (Z.land d SmallValueMask)) as (_ & _ & _ & H32 & H64); [lia|].
    assert (Hb : Z.land d 1 = Z.land (Z.land d SmallValueMask) 1).
    { by rewrite <- Z.land_assoc. }
    rewrite Hb in Hv. destruct (Hw' Hl) as [E|E]; [pose proof (H32 E) as Hn'|pose proof (H64 E) as Hn'];
      rewrite Hn' in Hn; rewrite E in Hv, Hw.
    + change (Value32Bit <? Value8Bit) with false in Hw.
      change (Value32Bit >? Value64Bit) with false in Hw. change (bytes_needed Value32Bit) with 4%nat in Hw.
      unfold end_ in Hw. destruct (_ <? 4)%nat eqn:E1; [apply Nat.ltb_lt in E1; lia|].
      inv_bind Hv. change (Z.land Value32Bit 1 =? 0) with true in Hv. cbn iota in Hv, Hw.
      rewrite Hv in Hw. cbn [res_bind] in Hw. by injection Hw.
    + change (Value64Bit <? Value8Bit) with false in Hw.
      change (Value64Bit >? Value64Bit) with false in Hw. change (bytes_needed Value64Bit) with 8%nat in Hw.
      unfold end_ in Hw. destruct (_ <? 8)%nat eqn:E1; [apply Nat.ltb_lt in E1; lia|].
      inv_bind Hv. change (Z.land Value64Bit 1 =? 0) with false in Hv. cbn iota in Hv, Hw.
      rewrite Hv in Hw. cbn [res_bind] in Hw. by injection Hw.
  - injection Hv as [= <-]. destruct (Hx ltac:(tauto) Hl Hu) as (p' & E). rewrite E in Hw. by injection Hw.
Qed.

(** Entering a map or array of known length counts its elements. *)
Lemma enter_counted it n r : good it -> cbor_value_is_container it = true ->
  cbor_value_enter_container buf it = Done (CborNoError, r) ->
  get_length buf (type it) it = Done (CborNoError, n) ->
  counted (if type it =? CborMapType then 2 * n else n) r.
Proof.
  intros G Hc E Hn. pose proof G as [V Hx].
  destruct (enter_container_ok buf Hbuf it V Hc) as (e & r' & E' & H). rewrite E in E'.
  injection E' as [= <- <-]. destruct (H eq_refl) as [Pr _].
  unfold get_length, cbor_value_is_length_known in Hn. rewrite Z.eqb_refl in Hn.
  cbn [assertion res_bind] in Hn. rewrite negb_involutive in Hn.
  unfold cbor_value_enter_container in E. rewrite assertion_true in E by done. cbn [res_bind] in E.
  destruct (has_flag UnknownLength it) eqn:Hu; [done|].
  inv_bind Hn. rename a into v. destruct (negb (u32 v =? v)) eqn:Ev; [done|].
  apply negb_false_iff, Z.eqb_eq in Ev. injection Hn as [= <-].
  inv_bind E. destruct a as [[e1 p] len]. inv_bind E.
  assert (e1 = CborNoError) as -> by (destruct e1; done).
  assert (v = len) as -> by (by eapply helper_exact). cbn [set_field remaining] in E.
  destruct (negb _ || _) eqn:E3; [done|]. destruct (_ && _) eqn:E4; [done|]. zbool.
  rewrite Ev in *. unfold UINT32_MAX in *. pose proof (u32_range len) as Hr. unfold is_u32 in Hr. rewrite Ev in Hr.
  assert (Hrem : (if type it =? CborMapType then u32 (len * 2) else len)
               = if type it =? CborMapType then 2 * len else len).
  { destruct (type it =? CborMapType) eqn:Em; [|done]. apply andb_false_iff in E4 as [?|E4]; [congruence|].
    rewrite Z.gtb_ltb, Z.ltb_ge in E4. change (4294967295 / 2) with 2147483647 in E4.
    rewrite u32_small by (unfold is_u32; lia). lia. }
  assert (Hlt : (if type it =? CborMapType then 2 * len else len) < 4294967295).
  { destruct (type it =? CborMapType) eqn:Em; [|lia]. apply andb_false_iff in E4 as [?|E4]; [congruence|].
    rewrite Z.gtb_ltb, Z.ltb_ge in E4. change (4294967295 / 2) with 2147483647 in E4. lia. }
  destruct (len =? 0) eqn:Ez; zbool.
  - subst len. injection E as [= <-]. split; [done|by apply exact_end|]. cbn [set_field remaining] in *.
    rewrite Hrem. unfold UINT32_MAX. destruct (_ =? _); lia.
  - assert (Hp : (p <= length buf)%nat).
    { destruct (v_shape _ _ V) as (d & Hd & [?|_ Hi Hpn _ _]); [congruence|].
      destruct (extract_number_ok buf Hbuf _ _ Hd Hi Hpn) as (w & E5 & _). rewrite E5 in E1. injection E1 as [= <- _].
      lia. }
    apply preparse_nodecrement_took in E as [Hrm Hex]; cbn [set_field ptr remaining] in *.
    + split; [done|done|]. rewrite Hrm, Hrem. unfold UINT32_MAX. lia.
    + done.
    + rewrite Hrem. unfold UINT32_MAX. destruct (_ =? _); lia.
Qed.

End Steps.

End CborSteps.
