(* ===== verification/CborFind.v ===== *)
(** * Searching a key in a map

    [cbor_value_map_find_value] ends on every map and stays inside the buffer.
    It stops the device at an assertion when a map of unknown length ends after
    a key, and when the key looked for is the last element of such a map it
    returns what follows the map. *)

From S2P Require Import Prelude CborParser CborProps CborApi CborSteps.
Import CborParser CborProps CborApi CborSteps.

#[local] Open Scope Z_scope.

Module CborFind.

(** ** An iterator with nothing left counts like one of unknown length *)

(** [remaining] is decremented from 0 to [UINT32_MAX]. *)
Definition behind (it : CborValue) : CborValue := mkCv (ptr it) UINT32_MAX (extra it) (type it) (flags it).

Section Find.
Context (buf : list Z) (Hbuf : bytes buf).

Lemma preparse_value_remaining_any r p rm ex ty fl :
  preparse_value buf (mkCv p r ex ty fl)
  = res_map (fun '(e, it') => (e, it' <| remaining := r |>)) (preparse_value buf (mkCv p rm ex ty fl)).
Proof.
  unfold preparse_value, preparse_simple. cbn [set_field ptr remaining type flags extra].
  repeat first
    [ progress cbn [res_map res_bind set_field ptr remaining type flags extra]
    | match goal with
      | |- context [if ?b then _ else _] => destruct b
      | |- context [rd buf ?i] => destruct (rd buf i)
      | |- context [get_be buf ?i ?n] => destruct (get_be buf i n)
      end ]; done.
Qed.

Lemma preparse_next_open it : remaining it = 0 -> type it <> CborTagType ->
  preparse_next_value buf it = preparse_next_value buf (behind it).
Proof.
  intros H0 Ht. destruct it as [p rm ex ty fl]. cbn in H0, Ht. subst rm.
  unfold preparse_next_value. cbn [set_field remaining type]. apply Z.eqb_neq in Ht. by rewrite Ht.
Qed.

(** The part of [get_string_chunk] that reads a chunk. *)
Definition chunk_tail (p : nat) (rm ex ty fl : Z) : res (CborError * CborValue * option (list Z)) :=
  let it := mkCv p rm ex ty fl in
  if (ptr it =? end_ buf)%nat then Done (CborErrorUnexpectedEOF, it, None)
  else
    let! d := rd buf (ptr it) in
    if d =? BreakByte then
      let! (err, it) := preparse_next_value buf (it <| ptr := S (ptr it) |>) in Done (err, it, None)
    else if Z.land d MajorTypeMask =? type it then
      let! (err, p, len) := extract_length buf (ptr it) in
      let it := it <| ptr := p |> in
      match err with
      | CborNoError =>
          if Z.of_nat (end_ buf - p) <? len then Done (CborErrorUnexpectedEOF, it, None)
          else
            let! chunk := mem_read buf p (Z.to_nat len) in
            Done (CborNoError, it <| ptr := (p + Z.to_nat len)%nat |>
                                  <| flags := Z.lor (flags it) IteratingStringChunks |>, Some chunk)
      | _ => Done (err, it, None)
      end
    else Done (CborErrorIllegalType, it, None).

Lemma chunk_open it : remaining it = 0 -> type it <> CborTagType ->
  match get_string_chunk buf it, get_string_chunk buf (behind it) with
  | Done (e1, i1, c1), Done (e2, i2, c2) => e1 = e2 /\ c1 = c2 /\
      (is_Some c1 -> remaining i1 = 0 /\ type i1 = type it /\ i2 = behind i1)
  | Fault f, Fault g => f = g
  | _, _ => False
  end.
Proof.
  intros H0 Ht. destruct it as [p rm ex ty fl]. cbn in H0, Ht. subst rm.
  assert (Hn : forall p fl, preparse_next_value buf (mkCv p 0 ex ty fl) = preparse_next_value buf (mkCv p UINT32_MAX ex ty fl)).
  { intros p' fl'. by rewrite (preparse_next_open (mkCv p' 0 ex ty fl')). }
  assert (Hs : forall m : res (CborError * CborValue),
    match (let! (err, it) := m in Done (err, it, @None (list Z))), (let! (err, it) := m in Done (err, it, @None (list Z))) with
    | Done (e1, i1, c1), Done (e2, i2, c2) => e1 = e2 /\ c1 = c2 /\
        (is_Some c1 -> remaining i1 = 0 /\ type i1 = ty /\ i2 = behind i1)
    | Fault f, Fault g => f = g
    | _, _ => False
    end).
  { intros [[e i]|f]; cbn; [|done]. do 2 (split; [done|]). by intros [? ?]. }
  unfold get_string_chunk. cbn [set_field ptr flags type remaining extra].
  unfold cbor_value_is_length_known, has_flag. cbn [flags type].
  destruct (_ && _) eqn:E1; [rewrite Hn; apply Hs|].
  assert (Hg : forall p fl,
    match chunk_tail p 0 ex ty fl, chunk_tail p UINT32_MAX ex ty fl with
    | Done (e1, i1, c1), Done (e2, i2, c2) => e1 = e2 /\ c1 = c2 /\
        (is_Some c1 -> remaining i1 = 0 /\ type i1 = ty /\ i2 = behind i1)
    | Fault f, Fault g => f = g
    | _, _ => False
    end).
  { clear p fl E1. intros p fl. unfold chunk_tail. cbn [set_field ptr remaining type flags extra].
    destruct (p =? end_ buf)%nat; [by do 2 (split; [done|]); intros [? ?]|].
    destruct (rd buf p) as [d|]; [|done]. cbn [res_bind].
    destruct (d =? BreakByte); [rewrite Hn; apply Hs|].
    destruct (_ =? ty); [|by do 2 (split; [done|]); intros [? ?]].
    destruct (extract_length buf p) as [[[e q] len]|]; [|done]. cbn [res_bind].
    destruct e; try (by do 2 (split; [done|]); intros [? ?]).
    destruct (_ <? len); [by do 2 (split; [done|]); intros [? ?]|].
    destruct (mem_read buf q _); [|done]. by cbn. }
  clear E1. destruct (negb _ && negb _); apply Hg.
Qed.

Lemma iterate_open fuel : forall it buflen total fits copied, remaining it = 0 -> type it <> CborTagType ->
  match iterate_chunks buf fuel it buflen total fits copied,
        iterate_chunks buf fuel (behind it) buflen total fits copied with
  | Done (e1, _, t1, f1, c1), Done (e2, _, t2, f2, c2) => (e1, t1, f1, c1) = (e2, t2, f2, c2)
  | Fault f, Fault g => f = g
  | _, _ => False
  end.
Proof.
  induction fuel as [|fuel IH]; intros it buflen total fits copied H0 Ht; [done|]. cbn [iterate_chunks].
  pose proof (chunk_open it H0 Ht) as C.
  destruct (get_string_chunk buf it) as [[[e1 i1] c1]|], (get_string_chunk buf (behind it)) as [[[e2 i2] c2]|];
    [|done..]. destruct C as (<- & <- & C). cbn [res_bind]. destruct e1; try done. destruct c1 as [c1|]; [|done].
  destruct C as (R1 & T1 & ->); [done|]. destruct (_ >? SIZE_MAX); [done|].
  destruct (fits && _); apply IH; congruence.
Qed.

(** The string found behind a map is read as any other string. *)
Lemma copy_open it n : remaining it = 0 ->
  res_map (fun '(e, _, m, c) => (e, m, c)) (_cbor_value_copy_string buf it n)
  = res_map (fun '(e, _, m, c) => (e, m, c)) (_cbor_value_copy_string buf (behind it) n).
Proof.
  intros H0. unfold _cbor_value_copy_string, cbor_value_is_byte_string, cbor_value_is_text_string.
  change (type (behind it)) with (type it). destruct (_ || _) eqn:Et; [|done]. cbn [assertion res_bind].
  assert (Ht : type it <> CborTagType) by (intros Ht; rewrite Ht in Et; discriminate).
  pose proof (iterate_open (end_ buf + 2) it n 0 true [] H0 Ht) as C.
  destruct (iterate_chunks buf _ it _ _ _ _) as [[[[[e1 i1] t1] f1] c1]|],
    (iterate_chunks buf _ (behind it) _ _ _ _) as [[[[[e2 i2] t2] f2] c2]|]; [|done|done|].
  - injection C as [= <- <- <- <-]. cbn [res_bind]. by destruct e1.
  - by rewrite C.
Qed.

(** ** The search *)

Lemma skip_tags_ok fuel : forall it, parsed buf it -> (end_ buf - ptr it < fuel)%nat ->
  exists e it', skip_tags buf fuel it = Done (e, it') /\
    (e = CborNoError -> parsed buf it' /\ (ptr it <= ptr it')%nat).
Proof.
  induction fuel as [|fuel IH]; intros it Hp Hf; [lia|]. cbn [skip_tags].
  destruct (cbor_value_is_tag it) eqn:Et; [|by exists CborNoError, it]. unfold cbor_value_is_tag in Et. zbool.
  destruct Hp as [(_ & Ht & _)|V]; [by rewrite Et in Ht|].
  assert (Hx : is_fixed_type (type it) = true) by by rewrite Et.
  unfold cbor_value_advance_fixed. rewrite Hx, Et. cbn [negb assertion res_bind].
  replace (CborTagType =? CborInvalidType) with false by done. cbn [negb assertion res_bind].
  pose proof (v_remaining _ _ V). destruct (_ =? 0) eqn:E0; zbool; [lia|].
  destruct (advance_internal_ok buf Hbuf it V Hx) as (e & it1 & -> & H1). cbn [res_bind].
  destruct e; try (by eexists _, _). destruct (H1 eq_refl) as [P1 Hlt]. pose proof (valid_lt _ _ V).
  unfold end_ in *. destruct (IH it1 P1) as (e & it2 & -> & H2); [lia|]. exists e, it2. split; [done|].
  intros He. destruct (H2 He). split; [done|lia].
Qed.

(** An element, or what follows the map. *)
Definition found (it : CborValue) : Prop :=
  type it = CborInvalidType \/ valid buf it \/ remaining it = 0 /\ valid buf (behind it).

Lemma preparse_found it : (ptr it <= end_ buf)%nat -> 0 <= remaining it <= UINT32_MAX ->
  exists e it', preparse_value buf it = Done (e, it') /\ (e = CborNoError -> found it').
Proof.
  intros Hp Hr. destruct (Z.eq_dec (remaining it) 0) as [H0|H0].
  - destruct (preparse_value_ok buf Hbuf (behind it)) as (e & it' & E & _ & _ & V);
      [done|cbn; unfold UINT32_MAX; lia|].
    assert (E' : preparse_value buf it = Done (e, it' <| remaining := 0 |>)).
    { destruct it as [p rm ex ty fl]. cbn in H0. subst rm.
      change (preparse_value buf (mkCv p UINT32_MAX ex ty fl) = Done (e, it')) in E.
      by rewrite (preparse_value_remaining_any 0 p UINT32_MAX), E. }
    exists e, (it' <| remaining := 0 |>). split; [done|]. intros He. right. right. split; [done|].
    specialize (V He). destruct (preparse_value_ok buf Hbuf (behind it)) as (e2 & it2 & E2 & _ & R2 & _);
      [done|cbn; unfold UINT32_MAX; lia|]. rewrite E in E2. injection E2 as [= <- <-].
    destruct it' as [p' rm' ex' ty' fl']. cbn in R2. by subst rm'.
  - destruct (preparse_value_ok buf Hbuf it Hp ltac:(lia)) as (e & it' & E & _ & _ & V).
    exists e, it'. split; [done|]. intros He. right. left. by apply V.
Qed.

(** A step that may stop at an assertion. *)
Definition or_assert (m : res (CborError * CborValue)) (Q : CborValue -> Prop) : Prop :=
  match m with
  | Done (e, it) => e = CborNoError -> Q it
  | Fault f => f = FAssert
  end.

Lemma or_assert_bind m k P Q : or_assert m P ->
  (forall it, P it -> or_assert (k it) Q) ->
  or_assert (let! (err, it) := m in match err with CborNoError => k it | _ => Done (err, it) end) Q.
Proof.
  unfold or_assert at 1. destruct m as [[e it]|f]; cbn [res_bind]; [|done].
  intros H Hk. destruct e; try done. by apply Hk, H.
Qed.

Lemma advance_or_assert it : parsed buf it ->
  or_assert (cbor_value_advance buf it) (fun it' => parsed buf it' /\ (ptr it < ptr it')%nat).
Proof.
  intros [(H0 & Ht & _)|V].
  - unfold cbor_value_advance. by rewrite Ht.
  - destruct (value_advance_ok buf it Hbuf V) as (e & it' & -> & H). exact H.
Qed.

Lemma find_loop_ok fuel s : forall it, parsed buf it -> (end_ buf - ptr it < fuel)%nat ->
  or_assert (find_loop buf fuel s it) found.
Proof.
  induction fuel as [|fuel IH]; intros it Hp Hf; [lia|]. cbn [find_loop]. unfold cbor_value_at_end.
  destruct (remaining it =? 0); [intros _; by left|].
  assert (Hskip : forall it, parsed buf it -> or_assert (cbor_value_skip_tag buf it)
                    (fun it' => parsed buf it' /\ (ptr it <= ptr it')%nat)).
  { intros x Hx. destruct (skip_tags_ok (S (end_ buf)) x Hx) as (e & x' & E & H); [lia|].
    unfold cbor_value_skip_tag. rewrite E. exact H. }
  assert (Hle : forall x, parsed buf x -> (ptr x <= end_ buf)%nat).
  { intros x [(_ & _ & Hx)|Vx]; [done|]. pose proof (valid_lt _ _ Vx). unfold end_. lia. }
  pose (next element :=
    let! (err, element) := cbor_value_skip_tag buf element in
    match err with
    | CborNoError =>
        let! (err, element) := cbor_value_advance buf element in
        match err with
        | CborNoError => find_loop buf fuel s element
        | _ => Done (err, element)
        end
    | _ => Done (err, element)
    end).
  assert (Hnext : forall x, parsed buf x -> (ptr it < ptr x)%nat -> or_assert (next x) found).
  { intros x Px Hx. unfold next. eapply or_assert_bind; [by apply Hskip|]. intros x1 [P1 H1].
    eapply or_assert_bind; [by apply advance_or_assert|]. intros x2 [P2 H2]. apply IH; [done|].
    pose proof (Hle _ P2). lia. }
  eapply or_assert_bind; [by apply Hskip|]. intros it1 [P1 H1].
  destruct (cbor_value_is_text_string it1) eqn:Et.
  - assert (Hs : cbor_value_is_byte_string it1 || cbor_value_is_text_string it1 = true) by (rewrite Et; apply orb_true_r).
    destruct (string_type it1 Hs) as [Hx _]. unfold cbor_value_is_text_string in Et. zbool.
    destruct P1 as [(_ & Ht & _)|V1]; [by rewrite Et in Ht|].
    destruct (valid_in_string buf it1 V1 Hx) as [S1 Hni].
    destruct (iterate_chunks_ok buf Hbuf (end_ buf + 2) it1 (Z.of_nat (length s)) 0 true [] S1)
      as (e & it2 & t & f & c & E & H2); [unfold end_; lia|].
    unfold string_is. rewrite Hs. cbn [assertion res_bind]. rewrite E. cbn [res_bind].
    destruct e; try (by intros ?). destruct (H2 eq_refl) as (P2 & _ & Hlt). specialize (Hlt Hni).
    destruct (_ && _); [|apply (Hnext it2); [done|lia]].
    destruct (preparse_found it2) as (e & it3 & -> & H3); [by apply Hle| |exact H3].
    destruct P2 as [(-> & _)|V2]; [unfold UINT32_MAX; lia|]. pose proof (v_remaining _ _ V2). lia.
  - eapply or_assert_bind; [by apply advance_or_assert|]. intros it2 [P2 H2]. apply (Hnext it2); [done|lia].
Qed.

Lemma map_find_ok it s : valid buf it -> type it = CborMapType ->
  or_assert (cbor_value_map_find_value buf it s) found.
Proof.
  intros V Ht. unfold cbor_value_map_find_value, cbor_value_is_map. rewrite Ht. cbn [Z.eqb assertion res_bind].
  replace (CborMapType =? CborMapType) with true by done. cbn [assertion res_bind].
  apply (or_assert_bind _ _ (parsed buf)).
  - destruct (enter_container_ok buf Hbuf it V) as (e & r & -> & H).
    + unfold cbor_value_is_container. by rewrite Ht.
    + intros He. by apply H.
  - intros r Pr. apply find_loop_ok; [done|]. lia.
Qed.

End Find.

(** With the key looked for at the end of a map of unknown length, the value is
    what follows the map. *)
Example map_find_behind :
  (let! (_, it) := cbor_parser_init [0xbf; 0x61; 0x78; 0xff; 0x18; 0x2a] in
   let! (_, v) := cbor_value_map_find_value [0xbf; 0x61; 0x78; 0xff; 0x18; 0x2a] it [0x78] in
   cbor_value_get_int_checked [0xbf; 0x61; 0x78; 0xff; 0x18; 0x2a] v) = Done (CborNoError, 42).
Proof. vm_compute. reflexivity. Qed.

End CborFind.
