(* ===== verification/CtapParse.v ===== *)
(** * Reading the parts of CTAP2 requests (src/fido2/src/ctap_parse.c, cose_key.c)

    Every parser works on the request bytes [buf] and either stops with a
    status code or gives the values it stored.  A destination buffer is an
    argument and part of the result where its old bytes can show through. *)

From Stdlib Require Import Ascii.
From stdpp Require Import strings.
From S2P Require Import Prelude Monad CborParser CborProps CborApi CborSteps CtapStatus CtapTypes.
Import Monad CborParser CborProps CborApi CborSteps CtapStatus CtapTypes.

#[local] Open Scope Z_scope.

Module CtapParse.

Definition DOMAIN_NAME_MAX_SIZE : nat := 253.
Definition PIN_UV_AUTH_PARAM_MAX_SIZE : nat := 32.
Definition PIN_UV_AUTH_PARAM_V2_SIZE : Z := 32.
Definition PIN_UV_AUTH_PARAM_V1_SIZE : Z := 16.
Definition U2F_KEY_HANDLE_SIZE : Z := 48.
Definition PUB_KEY_CRED_PUB_KEY : Z := 0x01.
Definition PUB_KEY_CRED_CTAP1 : Z := 0x41.
Definition PUB_KEY_CRED_UNKNOWN : Z := 0x3F.
Definition COSE_KEY_LABEL_KTY : Z := 1.
Definition COSE_KEY_LABEL_ALG : Z := 3.
Definition COSE_KEY_LABEL_CRV : Z := -1.
Definition COSE_KEY_LABEL_X : Z := -2.
Definition COSE_KEY_LABEL_Y : Z := -3.

(** A C string: the bytes before the first zero. *)
Fixpoint cstr (l : list Z) : list Z :=
  match l with
  | [] => []
  | x :: l => if x =? 0 then [] else x :: cstr l
  end.

(** Text of the source as bytes. *)
Definition text (s : string) : list Z := Z.of_nat <$> (Ascii.nat_of_ascii <$> String.list_ascii_of_string s).

Section Parse.
Context (buf : list Z).

(** ** The loops over maps *)

(** [cbor_value_enter_container] of a map and its number of pairs. *)
Definition enter_map (it : CborValue) : P (CborValue * Z) :=
  guard (type it =? CborMapType) CTAP2_ERR_INVALID_CBOR ^;
  let^ map := cbor (cbor_value_enter_container buf it) in
  let^ map_length := cbor (cbor_value_get_map_length buf it) in
  ok (map, map_length).

Section Entries.
Context {S A : Type}.

(** [for (i = 0; i < map_length; i++)] over integer keys; [case key map a] is
    the [switch] on the key with the iterator at the value. *)
Fixpoint int_entries (case : Z -> CborValue -> A -> X S A) (n : nat) (map : CborValue) (a : A)
    : X S (CborValue * A) :=
  match n with
  | O => ok (map, a)
  | Datatypes.S n =>
      guard (type map =? CborIntegerType) CTAP2_ERR_INVALID_CBOR ^;
      let^ key := cbor (cbor_value_get_int_checked buf map) in
      let^ map := cbor (cbor_value_advance buf map) in
      let^ a := case key map a in
      let^ map := cbor (cbor_value_advance buf map) in
      int_entries case n map a
  end.

(** A string copied to a buffer of [n] bytes: whether it fits, its length and
    the bytes written, the terminating zero included when there is room. *)
Definition copy_string (v : CborValue) (n : nat) : P (bool * Z * list Z) :=
  let* (err, _, sz, d) := lift (_cbor_value_copy_string buf v (Z.of_nat n)) in
  match err with
  | CborNoError => ok (true, sz, d)
  | CborErrorOutOfMemory => ok (false, sz, d)
  | _ => throw CTAP2_ERR_INVALID_CBOR
  end.

(** A text key read into a local buffer of [n] bytes whose last byte is then
    set to zero. *)
Definition text_key (n : nat) (map : CborValue) : P (list Z) :=
  guard (type map =? CborTextStringType) CTAP2_ERR_INVALID_CBOR ^;
  let^ (fits, _, d) := copy_string map n in
  guard fits CTAP2_ERR_LIMIT_EXCEEDED ^;
  ok (cstr (take (n - 1) d)).

(** The same loop over text keys. *)
Fixpoint text_entries (key_size : nat) (case : list Z -> CborValue -> A -> P A) (n : nat)
    (map : CborValue) (a : A) : P (CborValue * A) :=
  match n with
  | O => ok (map, a)
  | Datatypes.S n =>
      let^ key := text_key key_size map in
      let^ map := cbor (cbor_value_advance buf map) in
      let^ a := case key map a in
      let^ map := cbor (cbor_value_advance buf map) in
      text_entries key_size case n map a
  end.
End Entries.

(** An integer value of the type the switch expects. *)
Definition int_value (map : CborValue) : P Z :=
  guard (type map =? CborIntegerType) CTAP2_ERR_INVALID_CBOR ^;
  cbor (cbor_value_get_int_checked buf map).

(** ** ctap_parse.c *)

(** [dst] of [len] bytes. *)
Definition ctap_parse_fixed_length_byte_string (map : CborValue) (len : nat) : P (list Z) :=
  guard (type map =? CborByteStringType) CTAP2_ERR_INVALID_CBOR ^;
  let^ (fits, sz, d) := copy_string map len in
  guard fits CTAP2_ERR_INVALID_CBOR ^;
  guard (sz =? Z.of_nat len) CTAP1_ERR_INVALID_LENGTH ^;
  ok d.

(** [empty], the buffer and [*len]. *)
Definition ctap_parse_pinUvAuthParam (map : CborValue) (pinUvAuthParam : list Z)
    : P (bool * list Z * Z) :=
  guard (type map =? CborByteStringType) CTAP2_ERR_INVALID_CBOR ^;
  let^ sz := cbor (cbor_value_get_string_length buf map) in
  if sz =? 0 then ok (true, pinUvAuthParam, 0)
  else
    let^ (fits, sz, d) := copy_string map PIN_UV_AUTH_PARAM_MAX_SIZE in
    guard fits CTAP2_ERR_INVALID_CBOR ^;
    let* out := lift (mem_write pinUvAuthParam 0 d) in
    guard ((sz =? PIN_UV_AUTH_PARAM_V2_SIZE) || (sz =? PIN_UV_AUTH_PARAM_V1_SIZE)) CTAP1_ERR_INVALID_LENGTH ^;
    ok (false, out, u8 sz).

(** The old and the new values of [*rk], [*uv] and [*up]. *)
Definition option_case (key : list Z) (map : CborValue) (o : Z * Z * Z) : P (Z * Z * Z) :=
  guard (type map =? CborBooleanType) CTAP2_ERR_INVALID_CBOR ^;
  let '(rk, uv, up) := o in
  let* b := lift (cbor_value_get_boolean map) in
  if bool_decide (key = text "rk") then ok (b2z b, uv, up)
  else if bool_decide (key = text "uv") then ok (rk, b2z b, up)
  else if bool_decide (key = text "up") then ok (rk, uv, b2z b)
  else ok (rk, uv, up).
Definition ctap_parse_options (val : CborValue) (o : Z * Z * Z) : P (Z * Z * Z) :=
  let^ (map, map_length) := enter_map val in
  let^ (_, o) := text_entries 8 option_case (Z.to_nat map_length) map o in
  ok o.

(** [rp->id], 254 bytes, and [rp->size]. *)
Definition ctap_parse_rp_id (id : list Z) (val : CborValue) : P (list Z * Z) :=
  guard (type val =? CborTextStringType) CTAP2_ERR_INVALID_CBOR ^;
  let^ (fits, sz, d) := copy_string val DOMAIN_NAME_MAX_SIZE in
  guard fits CTAP2_ERR_LIMIT_EXCEEDED ^;
  let* id := lift (mem_write id 0 d) in
  let* id := lift (mem_write id DOMAIN_NAME_MAX_SIZE [0]) in
  ok (id, sz).

(** A name of at most [n] bytes, the last one zero; one that does not fit is
    left out. *)
Definition user_text (map : CborValue) (n : nat) (field : list Z) : P (list Z) :=
  guard (type map =? CborTextStringType) CTAP2_ERR_INVALID_CBOR ^;
  let^ (_, _, d) := copy_string map n in
  let* field := lift (mem_write field 0 d) in
  let* field := lift (mem_write field (n - 1) [0]) in
  ok field.

Definition user_case (key : list Z) (map : CborValue) (user : CTAP_userEntity) : P CTAP_userEntity :=
  if bool_decide (key = text "id") then
    guard (type map =? CborByteStringType) CTAP2_ERR_INVALID_CBOR ^;
    let^ (fits, sz, d) := copy_string map USER_ID_MAX_SIZE in
    guard fits CTAP2_ERR_LIMIT_EXCEEDED ^;
    let* id := lift (mem_write (u_id user) 0 d) in
    guard (sz <=? 255) CTAP2_ERR_INVALID_CBOR ^;
    ok (user <| u_id := id |> <| u_id_size := u8 sz |>)
  else if bool_decide (key = text "name") then
    let^ n := user_text map USER_NAME_LIMIT (u_name user) in ok (user <| u_name := n |>)
  else if bool_decide (key = text "displayName") then
    let^ n := user_text map DISPLAY_NAME_LIMIT (u_displayName user) in ok (user <| u_displayName := n |>)
  else if bool_decide (key = text "icon") then
    guard (type map =? CborTextStringType) CTAP2_ERR_INVALID_CBOR ^; ok user
  else ok user.
Definition ctap_parse_user_entity (user : CTAP_userEntity) (val : CborValue) : P CTAP_userEntity :=
  let^ (map, map_length) := enter_map val in
  let^ (_, user) := text_entries 24 user_case (Z.to_nat map_length) map user in
  ok user.

(** A step on [*cred], which keeps what was written before an error.  [keytype]
    is a local of 12 bytes, not initialised: when the string does not
    fit, the type becomes UNKNOWN whatever it holds. *)
Definition ctap_parse_pubkey_credential_descriptor (arr : CborValue) : X CTAP_credentialDescriptor unit :=
  modify (fun cred => cred <| desc_type := 0 |>) ;*
  guard (type arr =? CborMapType) CTAP2_ERR_INVALID_CBOR ^;
  let^ val := cbor (cbor_value_map_find_value buf arr (text "id")) in
  guard (type val =? CborByteStringType) CTAP2_ERR_MISSING_PARAMETER ^;
  let^ sz := cbor (cbor_value_calculate_string_length buf val) in
  if sz >? Z.of_nat CRED_SIZE then
    modify (fun cred => cred <| desc_type := PUB_KEY_CRED_UNKNOWN |>) ;* ok tt
  else
    let^ (fits, buflen, d) := parse (copy_string val CRED_SIZE) in
    guard fits CTAP2_ERR_INVALID_CBOR ^;
    let* cred := gets id in
    let* i := lift (mem_write (desc_id cred) 0 d) in
    modify (fun cred => cred <| desc_id := i |>) ;*
    (if buflen =? U2F_KEY_HANDLE_SIZE then modify (fun cred => cred <| desc_type := PUB_KEY_CRED_CTAP1 |>) else ret tt) ;*
    let^ val := cbor (cbor_value_map_find_value buf arr (text "type")) in
    guard (type val =? CborTextStringType) CTAP2_ERR_MISSING_PARAMETER ^;
    let^ (fits, _, d) := parse (copy_string val 12) in
    modify (fun cred =>
      if fits && bool_decide (cstr d = text "public-key")
      then if 0 =? desc_type cred then cred <| desc_type := PUB_KEY_CRED_PUB_KEY |> else cred
      else cred <| desc_type := PUB_KEY_CRED_UNKNOWN |>) ;*
    ok tt.

(** ** cose_key.c *)

(** The key and whether [x] and [y] were there. *)
Definition cose_case (key : Z) (map : CborValue) (c : COSE_key * bool * bool) : P (COSE_key * bool * bool) :=
  let '(cose, xkey, ykey) := c in
  if key =? COSE_KEY_LABEL_KTY then
    let^ v := int_value map in ok (cose <| kty := v |>, xkey, ykey)
  else if key =? COSE_KEY_LABEL_ALG then ok c
  else if key =? COSE_KEY_LABEL_CRV then
    let^ v := int_value map in ok (cose <| crv := v |>, xkey, ykey)
  else if key =? COSE_KEY_LABEL_X then
    let^ d := ctap_parse_fixed_length_byte_string map 32 in
    let* p := lift (mem_write (pubkey cose) 0 d) in ok (cose <| pubkey := p |>, true, ykey)
  else if key =? COSE_KEY_LABEL_Y then
    let^ d := ctap_parse_fixed_length_byte_string map 32 in
    let* p := lift (mem_write (pubkey cose) 32 d) in ok (cose <| pubkey := p |>, xkey, true)
  else ok c.
Definition cose_key_parse (it : CborValue) (cose : COSE_key) : P COSE_key :=
  let cose := cose <| kty := 0 |> <| crv := 0 |> in
  let^ (map, map_length) := enter_map it in
  let^ (_, (cose, xkey, ykey)) := int_entries cose_case (Z.to_nat map_length) map (cose, false, false) in
  guard (negb (negb xkey || negb ykey || (kty cose =? 0) || (crv cose =? 0))) CTAP2_ERR_MISSING_PARAMETER ^;
  ok cose.

End Parse.

End CtapParse.
