(* ===== verification/ParseProps.v ===== *)
(** * Parsing requests never stops the device

    From an element of the request every parser of ctap_parse.c and
    cose_key.c returns, with a status code or with values of the sizes of
    their destinations, whatever the bytes of the request are. *)

From S2P Require Import Prelude Monad CborParser CborProps CborApi CborSteps CtapStatus CtapTypes CtapParse.
Import Monad CborParser CborProps CborApi CborSteps CtapStatus CtapTypes CtapParse.

#[local] Open Scope Z_scope.

Module ParseProps.

Section Safe.
Context (buf : list Z) (Hbuf : bytes buf).

(** ** Copied strings *)

Lemma chunk_bytes it it' c : get_string_chunk buf it = Done (CborNoError, it', Some c) -> bytes c.
Proof.
  unfold get_string_chunk. destruct (_ && _); [intros H; inv_bind H; by destruct a|].
  destruct (_ =? _)%nat; [done|]. intros H. inv_bind H. destruct (_ =? BreakByte); [inv_bind H; by destruct a0|].
  destruct (_ =? type _); [|done]. inv_bind H. destruct a0 as [[e p] len]. destruct e; try done.
  destruct (_ <? len); [done|]. inv_bind H. injection H as [= _ <-].
  unfold mem_read in E1. case_decide; [|done]. injection E1 as [= <-]. by apply slice_bytes.
Qed.

Lemma iterate_copied fuel : forall it n total fits c e it' t f c',
  iterate_chunks buf fuel it n total fits c = Done (e, it', t, f, c') ->
  bytes c -> Z.of_nat (length c) <= Z.max 0 n -> (fits = true -> Z.of_nat (length c) = total) ->
  bytes c' /\ Z.of_nat (length c') <= Z.max 0 n /\ (f = true -> Z.of_nat (length c') = t).
Proof.
  induction fuel as [|fuel IH]; intros it n total fits c e it' t f c' H B L F; [done|].
  cbn [iterate_chunks] in H. inv_bind H. destruct a as [[e1 it1] o].
  destruct e1; try (by injection H as [= _ _ <- <- <-]).
  destruct o as [d|]; [|by injection H as [= _ _ <- <- <-]].
  destruct (_ >? SIZE_MAX); [by injection H as [= _ _ <- <- <-]|]. destruct (fits && _) eqn:Ef.
  - apply andb_true_iff in Ef as [-> Hn]. zbool. specialize (F eq_refl). eapply IH; [exact H|..].
    + apply Forall_app. split; [done|]. by eapply chunk_bytes.
    + rewrite length_app. lia.
    + intros _. rewrite length_app. lia.
  - by eapply IH.
Qed.

(** What a copied string may be for a buffer of [n] bytes. *)
Definition copied (n : nat) (c : bool * Z * list Z) : Prop :=
  let '(fits, sz, d) := c in
  bytes d /\ (length d <= n)%nat /\ (fits = true -> 0 <= sz <= Z.of_nat (length d)).

Lemma copy_string_copied it n e it' sz d :
  _cbor_value_copy_string buf it (Z.of_nat n) = Done (e, it', sz, d) ->
  e = CborNoError \/ e = CborErrorOutOfMemory ->
  copied n (match e with CborNoError => true | _ => false end, sz, d).
Proof.
  unfold _cbor_value_copy_string. intros H He. inv_bind H. inv_bind H.
  destruct a0 as [[[[e1 it1] t] f] c].
  destruct (iterate_copied _ _ _ _ _ _ _ _ _ _ _ E0) as (B & L & F); [constructor|cbn; lia|done|].
  rewrite Z.max_r in L by lia.
  destruct e1; try (inversion H; subst; destruct He as [?|?]; try discriminate;
    (split; [done|]; split; [lia|discriminate])).
  injection H as [= <- _ <- <-]. destruct f; cbn [andb].
  - specialize (F eq_refl). destruct (_ >? t) eqn:El; zbool.
    + split; [apply Forall_app; split; [done|by repeat constructor]|]. rewrite length_app. cbn. split; lia.
    + split; [done|]. split; lia.
  - split; [done|]. split; [lia|done].
Qed.

Lemma copy_string_safe it n : good buf it ->
  cbor_value_is_byte_string it || cbor_value_is_text_string it = true ->
  safe (copy_string buf it n) (copied n).
Proof.
  intros [V _] Hs. destruct (copy_ok buf Hbuf it (Z.of_nat n) V Hs) as (e & it' & sz & d & E & _).
  unfold copy_string, safe, bind, lift. rewrite E.
  destruct e; try (eexists; split; [reflexivity|done]);
    (eexists; split; [reflexivity|]; apply (copy_string_copied _ _ _ _ _ _ E); auto).
Qed.

Lemma byte_string_is it : type it = CborByteStringType ->
  cbor_value_is_byte_string it || cbor_value_is_text_string it = true.
Proof. unfold cbor_value_is_byte_string. by intros ->. Qed.
Lemma text_string_is it : type it = CborTextStringType ->
  cbor_value_is_byte_string it || cbor_value_is_text_string it = true.
Proof. unfold cbor_value_is_byte_string, cbor_value_is_text_string. by intros ->. Qed.

(** ** The loops *)

Lemma guard_bind {A} b e (k : P A) Q :
  (b = true -> safe k Q) -> safe (guard b e ^; k) Q.
Proof.
  intros H. apply (safe_bind _ _ (fun _ => b = true)); [by apply safe_guard|].
  intros []. exact H.
Qed.

Lemma advance_safe r it : counted buf r it -> good buf it ->
  safe (cbor (cbor_value_advance buf it)) (counted buf (r - 1)).
Proof.
  intros C G. apply safe_cbor.
  destruct (advance_counted buf Hbuf r it C G) as (e & it' & E & H). by exists e, it'.
Qed.

Lemma enter_map_safe it : good buf it ->
  safe (enter_map buf it) (fun '(map, n) => 0 <= n /\ counted buf (2 * n) map).
Proof.
  intros G. unfold enter_map. apply guard_bind. intros Ht. zbool. pose proof G as [V _].
  assert (Hc : cbor_value_is_container it = true).
  { unfold cbor_value_is_container. rewrite Ht. done. }
  apply (safe_bind _ _ (fun r => cbor_value_enter_container buf it = Done (CborNoError, r))).
  { destruct (enter_container_ok buf Hbuf it V Hc) as (e & r & E & _). rewrite E.
    apply safe_cbor. exists e, r. split; [done|]. by intros ->. }
  intros map E. apply (safe_bind _ _ (fun n => 0 <= n /\ counted buf (2 * n) map)).
  - destruct (get_length_ok buf Hbuf CborMapType it V Ht) as (e & n & En & Hn).
    unfold cbor_value_get_map_length. rewrite En. apply safe_cbor. exists e, n. split; [done|].
    intros ->. unfold is_u32 in Hn. split; [lia|].
    replace (2 * n) with (if type it =? CborMapType then 2 * n else n) by (by rewrite Ht).
    eapply enter_counted; try done. by rewrite Ht.
  - intros n [H0 C]. by apply safe_ok.
Qed.

Lemma get_int_safe it : good buf it -> type it = CborIntegerType ->
  safe (cbor (cbor_value_get_int_checked buf it)) (fun v => - INT_MAX - 1 <= v <= INT_MAX).
Proof.
  intros [V _] Ht. apply safe_cbor.
  destruct (get_int_checked_ok buf Hbuf it V) as (e & v & E & H); [unfold cbor_value_is_integer; by rewrite Ht|].
  by exists e, v.
Qed.

Section Entries.
Context {A : Type} (I : A -> Prop).

Lemma int_entries_safe case n : forall map a,
  (forall key map a, good buf map -> I a -> safe (case key map a) I) ->
  counted buf (2 * Z.of_nat n) map -> I a -> safe (int_entries buf case n map a) (fun '(_, a) => I a).
Proof.
  induction n as [|n IH]; intros map a Hcase C Ia; cbn [int_entries]; [by apply safe_ok|].
  apply guard_bind. intros Ht. zbool.
  assert (G : good buf map) by (apply (counted_good buf _ _ C); left; lia).
  eapply safe_bind; [by apply get_int_safe|]. intros key _.
  eapply safe_bind; [by apply (advance_safe _ _ C)|]. intros map1 C1. cbn beta in C1.
  assert (G1 : good buf map1) by (apply (counted_good buf _ _ C1); left; lia).
  eapply safe_bind; [by apply Hcase|]. intros a1 Ia1.
  eapply safe_bind; [by apply (advance_safe _ _ C1)|]. intros map2 C2. cbn beta in C2.
  apply IH; try done. by replace (2 * Z.of_nat n) with (2 * Z.of_nat (S n) - 1 - 1) by lia.
Qed.

Lemma text_key_safe n it : good buf it -> safe (text_key buf n it) (fun _ => True).
Proof.
  intros G. unfold text_key. apply guard_bind. intros Ht. zbool.
  eapply safe_bind; [by apply copy_string_safe; [|apply text_string_is]|].
  intros [[fits sz] d] _. apply guard_bind. intros _. by apply safe_ok.
Qed.

Lemma text_entries_safe key_size case n : forall map a,
  (forall key map a, good buf map -> I a -> safe (case key map a) I) ->
  counted buf (2 * Z.of_nat n) map -> I a -> safe (text_entries buf key_size case n map a) (fun '(_, a) => I a).
Proof.
  induction n as [|n IH]; intros map a Hcase C Ia; cbn [text_entries]; [by apply safe_ok|].
  assert (G : good buf map) by (apply (counted_good buf _ _ C); left; lia).
  eapply safe_bind; [by apply text_key_safe|]. intros key _.
  eapply safe_bind; [by apply (advance_safe _ _ C)|]. intros map1 C1. cbn beta in C1.
  assert (G1 : good buf map1) by (apply (counted_good buf _ _ C1); left; lia).
  eapply safe_bind; [by apply Hcase|]. intros a1 Ia1.
  eapply safe_bind; [by apply (advance_safe _ _ C1)|]. intros map2 C2. cbn beta in C2.
  apply IH; try done. by replace (2 * Z.of_nat n) with (2 * Z.of_nat (S n) - 1 - 1) by lia.
Qed.

(** A map parsed from its first entry on. *)
Lemma int_map_safe case it a : good buf it -> I a ->
  (forall key map a, good buf map -> I a -> safe (case key map a) I) ->
  safe (let^ (map, n) := enter_map buf it in int_entries buf case (Z.to_nat n) map a) (fun '(_, a) => I a).
Proof.
  intros G Ia Hcase. eapply safe_bind; [by apply enter_map_safe|]. intros [map n] [Hn C].
  apply int_entries_safe; try done. by rewrite Z2Nat.id.
Qed.
End Entries.

(** ** The parsers *)

Lemma fixed_length_safe it len : good buf it ->
  safe (ctap_parse_fixed_length_byte_string buf it len) (fun d => length d = len /\ bytes d).
Proof.
  intros G. unfold ctap_parse_fixed_length_byte_string. apply guard_bind. intros Ht. zbool.
  eapply safe_bind; [by apply copy_string_safe; [|apply byte_string_is]|].
  intros [[fits sz] d] (B & L & F). do 2 (apply guard_bind; intros ?). zbool. apply safe_ok.
  specialize (F H). split; [lia|done].
Qed.

(** A destination that the copied bytes fit keeps its length. *)
Lemma write_safe {A} dst off src (k : list Z -> P A) Q :
  (off + length src <= length dst)%nat -> bytes dst -> bytes src ->
  (forall dst', length dst' = length dst -> bytes dst' -> safe (k dst') Q) ->
  safe (let* dst' := lift (mem_write dst off src) in k dst') Q.
Proof.
  intros Hl Bd Bs Hk. pose proof (mem_write_fits dst off src Hl) as E.
  destruct (Hk (take off dst ++ src ++ drop (off + length src) dst)) as (r & E2 & H).
  - by eapply mem_write_length.
  - by eapply mem_write_bytes.
  - exists r. split; [|done]. rewrite E. exact E2.
Qed.

Lemma string_length_safe it : good buf it ->
  cbor_value_is_byte_string it || cbor_value_is_text_string it = true ->
  safe (cbor (cbor_value_get_string_length buf it)) is_u32.
Proof.
  intros [V _] Hs. apply safe_cbor. unfold cbor_value_get_string_length. rewrite Hs. cbn [assertion res_bind].
  destruct (negb _); [by exists CborErrorUnknownLength, 0|].
  destruct (extract_int64_ok buf Hbuf it V) as (n & -> & _). cbn [res_bind].
  eexists _, _. split; [done|]. intros _. apply u32_range.
Qed.

Lemma pinUvAuthParam_safe it out : good buf it -> length out = PIN_UV_AUTH_PARAM_MAX_SIZE -> bytes out ->
  safe (ctap_parse_pinUvAuthParam buf it out)
    (fun '(_, out, _) => length out = PIN_UV_AUTH_PARAM_MAX_SIZE /\ bytes out).
Proof.
  intros G Lo Bo. unfold ctap_parse_pinUvAuthParam. apply guard_bind. intros Ht. zbool.
  eapply safe_bind; [by apply string_length_safe; [|apply byte_string_is]|]. intros sz _.
  destruct (sz =? 0); [by apply safe_ok|].
  eapply safe_bind; [by apply copy_string_safe; [|apply byte_string_is]|].
  intros [[fits n] d] (B & L & _). apply guard_bind. intros _.
  apply write_safe; [lia|done|done|]. intros out' Lo' Bo'. apply guard_bind. intros _.
  apply safe_ok. split; [lia|done].
Qed.

Lemma int_value_safe it : good buf it -> safe (int_value buf it) (fun _ => True).
Proof.
  intros G. unfold int_value. apply guard_bind. intros Ht. zbool.
  eapply safe_mono; [by apply get_int_safe|done].
Qed.

Lemma ctap_parse_options_safe it o : good buf it -> safe (ctap_parse_options buf it o) (fun _ => True).
Proof.
  intros G. unfold ctap_parse_options. eapply safe_bind; [by apply enter_map_safe|].
  intros [map n] [Hn C]. apply (safe_bind _ _ (fun _ => True)); [|intros [? ?] _; by apply safe_ok].
  eapply safe_mono; [apply (text_entries_safe (fun _ => True))|intros [? ?] ?; exact I].
  - intros key m [[rk uv] up] _ _. unfold option_case. apply guard_bind. intros Ht.
    unfold safe, bind, lift, cbor_value_get_boolean, cbor_value_is_boolean. rewrite Ht.
    cbn [assertion res_bind]. repeat case_bool_decide; eexists; (split; [reflexivity|exact I]).
  - by rewrite Z2Nat.id.
  - done.
Qed.

Lemma ctap_parse_rp_id_safe it id : good buf it -> length id = S DOMAIN_NAME_MAX_SIZE -> bytes id ->
  safe (ctap_parse_rp_id buf id it) (fun '(id, sz) =>
    length id = S DOMAIN_NAME_MAX_SIZE /\ bytes id /\ 0 <= sz <= Z.of_nat DOMAIN_NAME_MAX_SIZE).
Proof.
  intros G Li Bi. unfold ctap_parse_rp_id. apply guard_bind. intros Ht. zbool.
  eapply safe_bind; [by apply copy_string_safe; [|apply text_string_is]|].
  intros [[fits sz] d] (B & L & F). apply guard_bind. intros Hf. specialize (F Hf).
  apply write_safe; [lia|done|done|]. intros id1 L1 B1.
  apply write_safe; [cbn [length]; lia|done|by repeat constructor|]. intros id2 L2 B2.
  apply safe_ok. repeat split; [lia|done|lia|lia].
Qed.

(** A user whose fields have the sizes of their arrays. *)
Record user_ok (u : CTAP_userEntity) : Prop := {
  uo_sized : user_sized u;
  uo_id : bytes (u_id u);
  uo_name : bytes (u_name u);
  uo_displayName : bytes (u_displayName u);
}.

Lemma user_text_safe it n field : good buf it -> length field = n -> (1 <= n)%nat -> bytes field ->
  safe (user_text buf it n field) (fun f => length f = n /\ bytes f).
Proof.
  intros G L Hn B. unfold user_text. apply guard_bind. intros Ht. zbool.
  eapply safe_bind; [by apply copy_string_safe; [|apply text_string_is]|].
  intros [[fits sz] d] (Bd & Ld & _). apply write_safe; [lia|done|done|]. intros f1 L1 B1.
  apply write_safe; [cbn [length]; lia|done|by repeat constructor|]. intros f2 L2 B2.
  apply safe_ok. split; [lia|done].
Qed.

Lemma user_case_safe key it u : good buf it -> user_ok u -> safe (user_case buf key it u) user_ok.
Proof.
  intros G [[Li Ln Ld] Bi Bn Bd]. unfold user_case. repeat case_bool_decide.
  - apply guard_bind. intros Ht. zbool.
    eapply safe_bind; [by apply copy_string_safe; [|apply byte_string_is]|].
    intros [[fits sz] d] (B & L & _). apply guard_bind. intros _.
    apply write_safe; [unfold USER_ID_MAX_SIZE in L; lia|done|done|]. intros id L1 B1.
    apply guard_bind. intros _. apply safe_ok. split; [split; cbn; first [assumption|congruence]|done..].
  - eapply safe_bind; [by apply user_text_safe; [| |unfold USER_NAME_LIMIT; lia|]|].
    intros f [Lf Bf]. apply safe_ok. split; [split; cbn; first [assumption|congruence]|done..].
  - eapply safe_bind; [by apply user_text_safe; [| |unfold DISPLAY_NAME_LIMIT; lia|]|].
    intros f [Lf Bf]. apply safe_ok. split; [split; cbn; first [assumption|congruence]|done..].
  - apply guard_bind. intros _. by apply safe_ok.
  - by apply safe_ok.
Qed.

Lemma ctap_parse_user_entity_safe u it : good buf it -> user_ok u ->
  safe (ctap_parse_user_entity buf u it) user_ok.
Proof.
  intros G U. unfold ctap_parse_user_entity. eapply safe_bind; [by apply enter_map_safe|].
  intros [map n] [Hn C]. eapply safe_bind.
  - apply (text_entries_safe user_ok _ _ _ map u); [|by rewrite Z2Nat.id|done].
    intros key m a Gm Ia. by apply user_case_safe.
  - intros [m v] Iv. by apply safe_ok.
Qed.

Definition cose_ok (c : COSE_key) : Prop := length (pubkey c) = 64%nat /\ bytes (pubkey c).

Lemma cose_case_safe key it c : good buf it -> cose_ok c.1.1 ->
  safe (cose_case buf key it c) (fun c => cose_ok c.1.1).
Proof.
  destruct c as [[cose xkey] ykey]. intros G [L B]. cbn in L, B. unfold cose_case.
  assert (HI : safe (int_value buf it) (fun _ => True)) by by apply int_value_safe.
  destruct (_ =? COSE_KEY_LABEL_KTY); [eapply safe_bind; [exact HI|]; intros v _; by apply safe_ok|].
  destruct (_ =? COSE_KEY_LABEL_ALG); [by apply safe_ok|].
  destruct (_ =? COSE_KEY_LABEL_CRV); [eapply safe_bind; [exact HI|]; intros v _; by apply safe_ok|].
  destruct (_ =? COSE_KEY_LABEL_X); [|destruct (_ =? COSE_KEY_LABEL_Y); [|by apply safe_ok]].
  all: eapply safe_bind; [by apply fixed_length_safe|]; intros d [Ld Bd].
  all: apply write_safe; [lia|done|done|]; intros p Lp Bp; apply safe_ok; split; cbn; congruence || done.
Qed.

Lemma cose_key_parse_safe it c : good buf it -> cose_ok c -> safe (cose_key_parse buf it c) cose_ok.
Proof.
  intros G Hc. unfold cose_key_parse. eapply safe_bind; [by apply enter_map_safe|].
  intros [map n] [Hn C]. eapply safe_bind.
  - apply (int_entries_safe (fun c => cose_ok c.1.1) _ _ map (c <| kty := 0 |> <| crv := 0 |>, false, false));
      [|by rewrite Z2Nat.id|done]. intros key m a Gm Ia. by apply cose_case_safe.
  - intros [m [[c' xkey] ykey]] Ic. apply guard_bind. intros _. by apply safe_ok.
Qed.

End Safe.

End ParseProps.
