(* ===== verification/CtapEncode.v ===== *)
(** * Writing the parts of CTAP2 responses (src/fido2/src/cose_key.c, ctap.c)

    [Enc] is an encoder with the buffer it writes to.  A handler that fails
    gives up its encoder: [ctap_request] then sets the response length to 0. *)

From Stdlib Require Import Ascii.
From stdpp Require Import strings.
From S2P Require Import Prelude Monad CborParser CborEncoder CborItems CtapStatus CtapTypes CtapParse.
Import Monad CborParser CborEncoder CborItems CtapStatus CtapTypes CtapParse.

#[local] Open Scope Z_scope.

Module CtapEncode.

Definition COSE_KEY_KTY_OKP : Z := 1.
Definition COSE_KEY_KTY_EC2 : Z := 2.
Definition COSE_KEY_CRV_P256 : Z := 1.
Definition COSE_KEY_CRV_ED25519 : Z := 6.
Definition COSE_ALG_ES256 : Z := -7.
Definition COSE_ALG_EDDSA : Z := -8.
Definition COSE_ALG_ECDH_ES_HKDF_256 : Z := -25.

Definition Enc : Type := CborEncoder * list Z.

Section Encode.
Context {S : Type}.

(** [cbor_ret = op(...); cbor_check_ret(cbor_ret);] *)
Definition emit (op : CborEncoder -> list Z -> res encres) (e : Enc) : X S Enc :=
  let* (err, c, out) := lift (op (fst e) (snd e)) in
  match err with
  | CborNoError => ok (c, out)
  | _ => throw CTAP2_ERR_INVALID_CBOR
  end.

(** [cbor_encoder_create_map] and [cbor_encoder_create_array]: the parent and
    the container's encoder. *)
Definition open_container (op : CborEncoder -> list Z -> res (CborEncoder * encres)) (e : Enc)
    : X S (CborEncoder * Enc) :=
  let* (parent, (err, c, out)) := lift (op (fst e) (snd e)) in
  match err with
  | CborNoError => ok (parent, (c, out))
  | _ => throw CTAP2_ERR_INVALID_CBOR
  end.
Definition open_map (n : Z) : Enc -> X S (CborEncoder * Enc) := open_container (cbor_encoder_create_map n).
Definition open_array (n : Z) : Enc -> X S (CborEncoder * Enc) := open_container (cbor_encoder_create_array n).

(** [cbor_encoder_close_container] *)
Definition close (parent : CborEncoder) (e : Enc) : X S Enc :=
  emit (fun c out => Done (cbor_encoder_close_container parent c out)) e.

(** [cbor_encode_text_stringz] *)
Definition text_stringz (s : list Z) : CborEncoder -> list Z -> res encres :=
  cbor_encode_text_string (cstr s).

(** ** cose_key.c *)

Definition cose_key_add (cose_key : Enc) (x y : list Z) (algtype : Z) : X S Enc :=
  let ec := negb (algtype =? COSE_ALG_EDDSA) in
  let^ (parent, map) := open_map (if ec then 5 else 4) cose_key in
  let^ map := emit (cbor_encode_int COSE_KEY_LABEL_KTY) map in
  let^ map := emit (cbor_encode_int (if ec then COSE_KEY_KTY_EC2 else COSE_KEY_KTY_OKP)) map in
  let^ map := emit (cbor_encode_int COSE_KEY_LABEL_ALG) map in
  let^ map := emit (cbor_encode_int algtype) map in
  let^ map := emit (cbor_encode_int COSE_KEY_LABEL_CRV) map in
  let^ map := emit (cbor_encode_int (if ec then COSE_KEY_CRV_P256 else COSE_KEY_CRV_ED25519)) map in
  let^ map := emit (cbor_encode_int COSE_KEY_LABEL_X) map in
  let* x := lift (mem_read x 0 32) in
  let^ map := emit (cbor_encode_byte_string x) map in
  let^ map :=
    (if ec then
       let^ map := emit (cbor_encode_int COSE_KEY_LABEL_Y) map in
       let* y := lift (mem_read y 0 32) in
       emit (cbor_encode_byte_string y) map
     else ok map) in
  close parent map.

(** ** ctap.c *)

Definition ctap_get_credential_id_size (type : Z) : nat :=
  if type =? PUB_KEY_CRED_CTAP1 then Z.to_nat U2F_KEY_HANDLE_SIZE else CRED_SIZE.

(** The bytes at [cred_id]. *)
Definition ctap_cbor_encode_credential_descriptor (map : Enc) (cred_id : list Z) (type : Z) : X S Enc :=
  let^ (parent, desc) := open_map 2 map in
  let^ desc := emit (cbor_encode_text_string (text "id")) desc in
  let* id := lift (mem_read cred_id 0 (ctap_get_credential_id_size type)) in
  let^ desc := emit (cbor_encode_byte_string id) desc in
  let^ desc := emit (cbor_encode_text_string (text "type")) desc in
  let^ desc := emit (cbor_encode_text_string (text "public-key")) desc in
  close parent desc.

Definition ctap_cbor_encode_user_entity (map : Enc) (user : CTAP_userEntity) (is_verified : Z) : X S Enc :=
  let dispname := negb (nth 0 (u_name user) 0 =? 0) && negb (is_verified =? 0) in
  let^ (parent, entity) := open_map (if dispname then 3 else 1) map in
  let^ entity := emit (cbor_encode_text_string (text "id")) entity in
  let* id := lift (mem_read (u_id user) 0 (Z.to_nat (u_id_size user))) in
  let^ entity := emit (cbor_encode_byte_string id) entity in
  let^ entity :=
    (if dispname then
       let^ entity := emit (cbor_encode_text_string (text "name")) entity in
       let^ entity := emit (text_stringz (u_name user)) entity in
       let^ entity := emit (cbor_encode_text_string (text "displayName")) entity in
       emit (text_stringz (u_displayName user)) entity
     else ok entity) in
  close parent entity.

(** ** What has been written *)

(** The encoder of a container with [rem - 1] elements to come, on a buffer
    [out] into which [acc] was written from the start. *)
Definition enc_at (out acc : list Z) (rem fl : Z) : Enc :=
  (mkEnc (length acc) (Some (length out)) rem fl, overwrite out 0 acc).

(** [m] succeeds and goes on with [a]. *)
Definition gives {A} (m : X S A) (a : A) : Prop := forall s, m s = Done (inr a, s).

Lemma gives_ok {A} (a : A) : gives (ok a) a.
Proof. done. Qed.
Lemma gives_bind {A B} (m : X S A) (k : A -> X S B) a b : gives m a -> gives (k a) b -> gives (xbind m k) b.
Proof. intros H1 H2 s. unfold xbind, bind. rewrite H1. apply H2. Qed.
Lemma gives_read {A} (l : list Z) off n (k : list Z -> X S A) a : (off + n <= length l)%nat ->
  gives (k (slice off n l)) a -> gives (let* x := lift (mem_read l off n) in k x) a.
Proof. intros Hl H s. unfold bind, lift. rewrite mem_read_fits by done. apply H. Qed.

(** A leaf written in its place. *)
Definition small (c : item) : Prop := item_ok c /\ leaf c = true /\ item_num c < 2 ^ 63.

Lemma emit_item c out acc rem fl : small c -> (length (acc ++ item_bytes c) <= length out)%nat -> rem <> 0 ->
  gives (emit (encode_item c) (enc_at out acc rem fl)) (enc_at out (acc ++ item_bytes c) (rem - 1) fl).
Proof.
  intros (Hc & Hlf & Hn) Hl Hr s. unfold emit, bind, lift, enc_at. cbn [fst snd].
  rewrite encode_item_ok by done. done.
Qed.

(** An integer as an item. *)
Definition int_item (v : Z) : item := if v <? 0 then INint (- v - 1) else IUint v.

Lemma encode_int_item v : - 2 ^ 63 <= v < 2 ^ 63 -> cbor_encode_int v = encode_item (int_item v) /\ small (int_item v).
Proof.
  intros Hv. unfold int_item, small. destruct (v <? 0) eqn:E; zbool; cbn; (split; [|lia]).
  - by replace (- (- v - 1) - 1) with v by lia.
  - rewrite cbor_encode_int_eq by lia. by rewrite (proj2 (Z.ltb_ge v 0) E).
Qed.

Lemma emit_int v out acc rem fl : - 2 ^ 63 <= v < 2 ^ 63 ->
  (length (acc ++ item_bytes (int_item v)) <= length out)%nat -> rem <> 0 ->
  gives (emit (cbor_encode_int v) (enc_at out acc rem fl)) (enc_at out (acc ++ item_bytes (int_item v)) (rem - 1) fl).
Proof. intros Hv Hl Hr. destruct (encode_int_item v Hv) as [-> Hs]. by apply emit_item. Qed.

Lemma open_map_at n out acc rem fl : 0 <= n < 2 ^ 32 -> (length (acc ++ item_bytes (IMap n)) <= length out)%nat ->
  rem <> 0 ->
  gives (open_map n (enc_at out acc rem fl))
    (mkEnc (length acc) (Some (length out)) (rem - 1) fl, enc_at out (acc ++ item_bytes (IMap n)) (2 * n + 1) 32).
Proof.
  intros Hn Hl Hr s. unfold open_map, open_container, bind, lift, enc_at, cbor_encoder_create_map, create_container.
  change (Z.land (Z.shiftl MapType MajorTypeShift) ContainerIsMap) with 32. cbn [negb Z.eqb fst snd enc_data enc_end].
  unfold encode_number_no_update. unfold item_bytes in *. cbn [item_num item_mt item_str] in *.
  rewrite app_nil_r in *. rewrite length_app in Hl.
  change (Z.shiftl MapType MajorTypeShift) with 0xa0.
  rewrite append_fits; cbn; rewrite ?overwrite_len by (cbn; lia); try done.
  unfold saturated_decrement. cbn [enc_remaining]. rewrite (proj2 (Z.eqb_neq rem 0) Hr). cbn [negb res_bind set_field].
  rewrite <- (overwrite_app out 0 acc) by (cbn; lia). cbn. unfold ok, ret, enc_at. cbn. rewrite length_app.
  do 6 f_equal. lia.
Qed.

Lemma close_at parent out acc fl : gives (close parent (enc_at out acc 1 fl))
  (mkEnc (length acc) (Some (length out)) (enc_remaining parent) (enc_flags parent), overwrite out 0 acc).
Proof. intros s. reflexivity. Qed.

(** ** Whole structures *)

(** The items [l] still fit behind [acc]. *)
Definition room (out acc : list Z) (l : list item) : Prop := (length (acc ++ items_bytes l) <= length out)%nat.

Lemma room_step out acc c l : room out acc (c :: l) ->
  (length (acc ++ item_bytes c) <= length out)%nat /\ room out (acc ++ item_bytes c) l.
Proof.
  unfold room, items_bytes. cbn [fmap list_fmap concat]. rewrite app_assoc, !length_app. lia.
Qed.

Lemma gives_emit {A} op c l out acc rem fl (k : Enc -> X S A) a : op = encode_item c -> small c ->
  room out acc (c :: l) -> rem <> 0 ->
  (room out (acc ++ item_bytes c) l -> gives (k (enc_at out (acc ++ item_bytes c) (rem - 1) fl)) a) ->
  gives (let^ e := emit op (enc_at out acc rem fl) in k e) a.
Proof.
  intros -> Hs [Hl R]%room_step Hr Hk. eapply gives_bind; [by apply emit_item|]. by apply Hk.
Qed.

Lemma gives_open_map {A} n l out acc rem fl (k : CborEncoder * Enc -> X S A) a : 0 <= n < 2 ^ 32 ->
  room out acc (IMap n :: l) -> rem <> 0 ->
  (room out (acc ++ item_bytes (IMap n)) l ->
   gives (k (mkEnc (length acc) (Some (length out)) (rem - 1) fl,
             enc_at out (acc ++ item_bytes (IMap n)) (2 * n + 1) 32)) a) ->
  gives (let^ pm := open_map n (enc_at out acc rem fl) in k pm) a.
Proof.
  intros Hn [Hl R]%room_step Hr Hk. eapply gives_bind; [by apply open_map_at|]. by apply Hk.
Qed.

Lemma items_bytes_cons c l : items_bytes (c :: l) = item_bytes c ++ items_bytes l.
Proof. done. Qed.

Lemma small_num v : 0 <= v < 2 ^ 63 -> small (IUint v).
Proof. unfold small. cbn. lia. Qed.
Lemma small_neg v : 0 <= v < 2 ^ 63 -> small (INint v).
Proof. unfold small. cbn. lia. Qed.
Lemma small_bytes l : Z.of_nat (length l) < 2 ^ 32 -> small (IBytes l).
Proof. unfold small. cbn. lia. Qed.
Lemma small_text l : Z.of_nat (length l) < 2 ^ 32 -> small (IText l).
Proof. unfold small. cbn. lia. Qed.

End Encode.

(** One step through the code of a response; the string lengths it asks for
    are left to the caller's facts. *)
Ltac emit_side :=
  first [ apply small_num; lia | apply small_neg; lia
        | apply small_bytes; cbn; rewrite ?slice_length by lia; lia | apply small_text; cbn; lia ].
Ltac emit_as c :=
  match goal with
  | R : room _ _ _ |- _ =>
      eapply (gives_emit _ c); [reflexivity|emit_side|exact R|lia|]; clear R; intros R
  end.

(** The key as [cose_key_add] writes it for the elliptic curve algorithms. *)
Definition cose_items (x y : list Z) (alg : Z) : list item :=
  [IMap 5; IUint 1; IUint 2; IUint 3; INint (- alg - 1); INint 0; IUint 1; INint 1; IBytes x; INint 2; IBytes y].

Lemma cose_key_add_at {S} out acc rem fl x y alg : length x = 32%nat -> length y = 32%nat ->
  - 1000 <= alg < 0 -> alg <> COSE_ALG_EDDSA ->
  room out acc (cose_items x y alg) -> rem <> 0 ->
  gives (S := S) (cose_key_add (enc_at out acc rem fl) x y alg)
    (enc_at out (acc ++ items_bytes (cose_items x y alg)) (rem - 1) fl).
Proof.
  intros Lx Ly Ha Hed R Hr. unfold cose_key_add. rewrite (proj2 (Z.eqb_neq _ _) Hed). cbn [negb].
  assert (Hal : cbor_encode_int alg = encode_item (INint (- alg - 1)) /\ small (INint (- alg - 1))).
  { replace (INint (- alg - 1)) with (int_item alg) by (unfold int_item; by rewrite (proj2 (Z.ltb_lt _ _)) by lia).
    apply encode_int_item. lia. }
  destruct Hal as [Hal Hsm]. unfold cose_items in *.
  eapply gives_open_map; [lia|exact R|done|]. clear R; intros R. cbn beta iota.
  emit_as (IUint 1). emit_as (IUint 2). emit_as (IUint 3).
  eapply gives_emit; [exact Hal|exact Hsm|exact R|lia|]; clear R; intros R.
  emit_as (INint 0). emit_as (IUint 1). emit_as (INint 1).
  apply gives_read; [lia|]. replace (slice 0 32 x) with x by (unfold slice; by rewrite drop_0, firstn_all2 by lia).
  emit_as (IBytes x).
  eapply gives_bind.
  { emit_as (INint 2). apply gives_read; [lia|].
    replace (slice 0 32 y) with y by (unfold slice; by rewrite drop_0, firstn_all2 by lia).
    apply room_step in R as [R _]. apply (emit_item (IBytes y)); [emit_side|exact R|lia]. }
  cbn beta. match goal with |- gives (close ?p (enc_at _ ?a _ _)) (enc_at _ ?b _ _) =>
    replace b with a by (cbn [items_bytes fmap list_fmap concat]; by rewrite ?items_bytes_cons, app_nil_r, <- !app_assoc) end.
  apply close_at.
Qed.

End CtapEncode.
