(* ===== verification/AesBlocks.v ===== *)
(** * Decryption of arbitrary ciphertext (src/crypto/tiny-AES-c/aes.c)

    [InvCipher] maps blocks to blocks, so CBC decryption of any whole number
    of blocks runs to the end and gives as many bytes as it was given. *)

From S2P Require Import Prelude Sha256 Aes Crypto.
Import Sha256 Aes Crypto.

Module AesBlocks.

Lemma rsbox_byte b : is_byte b -> is_byte (getSBoxInvert b).
Proof.
  intros Hb. apply (bool_decide_eq_true (is_byte (getSBoxInvert b))).
  revert b Hb. apply byte_forall. vm_compute. reflexivity.
Qed.

Lemma InvSubBytes_block s : block s -> block (InvSubBytes s).
Proof.
  intros [Hl Hb]. split; [by unfold InvSubBytes; rewrite length_fmap|].
  apply Forall_fmap. eapply Forall_impl; [done|]. apply rsbox_byte.
Qed.

Lemma InvShiftRows_block s : block s -> block (InvShiftRows s).
Proof.
  intros [Hl Hb]. name_state s Hl. split; [done|].
  cbv -[is_byte]. repeat rewrite Forall_cons in Hb. repeat rewrite Forall_cons. tauto.
Qed.

#[local] Arguments xtime : simpl never.
#[local] Arguments Multiply : simpl never.

Lemma Multiply_byte x y : is_byte x -> y = 0x0e \/ y = 0x0b \/ y = 0x0d \/ y = 0x09 -> is_byte (Multiply x y).
Proof.
  intros Hx [-> | [-> | [-> | ->]]]; rewrite ?Multiply_0e, ?Multiply_0b, ?Multiply_0d, ?Multiply_09;
    auto 10 with tkey.
Qed.

Lemma inv_mix4_bytes a b c d : bytes [a; b; c; d] -> bytes (inv_mix4 a b c d).
Proof.
  rewrite !Forall_cons. intros (?&?&?&?&_). unfold inv_mix4.
  repeat (apply Forall_cons_2; [apply lxor_byte; [apply lxor_byte; [apply lxor_byte|]|]; apply Multiply_byte; tauto|]). by apply Forall_nil_2.
Qed.

Lemma InvMixColumns_block s : block s -> block (InvMixColumns s).
Proof.
  intros [Hl Hb]. name_state s Hl. split; [done|]. rewrite InvMixColumns_columns.
  rewrite !Forall_cons in Hb. destruct_and!.
  do 3 (apply Forall_app_2; [apply inv_mix4_bytes; by rewrite !Forall_cons|]).
  apply inv_mix4_bytes. by rewrite !Forall_cons.
Qed.

#[local] Opaque AddRoundKey InvSubBytes InvShiftRows InvMixColumns.

Section Keyed.
Context (rk : list Z) (Hrk : round_keys rk).

Lemma InvCipher_block s : block s -> block (InvCipher rk s).
Proof.
  intros Hs. unfold InvCipher. apply AddRoundKey_block; [unfold Nr; lia|done|].
  apply InvSubBytes_block, InvShiftRows_block.
  assert (Hs0 : block (AddRoundKey Nr rk s)) by (by apply AddRoundKey_block).
  revert Hs0. generalize (AddRoundKey Nr rk s). clear s Hs.
  assert (Hr : Forall (fun r => (r <= Nr)%nat) (rev (seq 1 (Nr - 1)))) by (apply Forall_rev, rounds_le).
  induction Hr as [|r rs Hr _ IH]; intros s Hs; [done|]. rewrite fold_left_step. apply IH.
  by apply InvMixColumns_block, AddRoundKey_block, InvSubBytes_block, InvShiftRows_block.
Qed.

#[local] Opaque InvCipher Cipher.

Lemma cbc_decrypt_any n : forall iv c, block iv -> bytes c -> length c = (16 * n)%nat ->
  exists iv' p, (forall q, cbc_decrypt_blocks n rk iv (c ++ q) = Done (iv', p ++ q)) /\
    bytes p /\ length p = length c.
Proof.
  induction n as [|n IH]; intros iv c Hiv Hc Hl.
  { destruct c; [|done]. by exists iv, []. }
  rewrite <- (take_drop 16 c) in Hc, Hl |- *. set (b := take 16 c) in *. set (r := drop 16 c) in *.
  assert (Hb : length b = 16%nat).
  { rewrite length_app in Hl. unfold b, r in *. rewrite length_take, length_drop in *. lia. }
  clearbody b r. apply Forall_app in Hc as [Hbb Hrb]. rewrite length_app in Hl.
  assert (Hblk : block b) by (by split).
  destruct (IH b r Hblk Hrb) as (iv' & p & E & Hp & Lp); [lia|].
  pose proof (InvCipher_block b Hblk) as [Li Bi]. destruct Hiv as [Lv Bv].
  exists iv', (XorWithIv (InvCipher rk b) iv ++ p). unfold XorWithIv. split.
  - intros q. rewrite <- !app_assoc. cbn [cbc_decrypt_blocks]. unfold AES_BLOCKLEN.
    rewrite mem_read_front by done. cbn [res_bind].
    replace (drop 16 (b ++ r ++ q)) with (r ++ q) by (rewrite <- Hb; by rewrite drop_app_length).
    by rewrite E.
  - split; [apply Forall_app; split; [by apply xor_bytes_bytes|done]|].
    rewrite !length_app, xor_bytes_length by lia. lia.
Qed.

Lemma cbc_encrypt_any n : forall iv p, block iv -> bytes p -> length p = (16 * n)%nat ->
  exists iv' c, (forall q, cbc_encrypt_blocks n rk iv (p ++ q) = Done (iv', c ++ q)) /\
    bytes c /\ length c = length p.
Proof.
  induction n as [|n IH]; intros iv p Hiv Hp Hl.
  { destruct p; [|done]. by exists iv, []. }
  rewrite <- (take_drop 16 p) in Hp, Hl |- *. set (b := take 16 p) in *. set (r := drop 16 p) in *.
  assert (Hb : length b = 16%nat).
  { rewrite length_app in Hl. unfold b, r in *. rewrite length_take, length_drop in *. lia. }
  clearbody b r. apply Forall_app in Hp as [Hbb Hrb]. rewrite length_app in Hl.
  assert (Hc : block (Cipher rk (XorWithIv b iv))).
  { apply Cipher_block; [done|]. destruct Hiv. unfold XorWithIv.
    split; [rewrite xor_bytes_length; lia|by apply xor_bytes_bytes]. }
  destruct (IH _ r Hc Hrb) as (iv' & c & E & B & Lc); [lia|].
  exists iv', (Cipher rk (XorWithIv b iv) ++ c). split.
  - intros q. rewrite <- !app_assoc. cbn [cbc_encrypt_blocks]. unfold AES_BLOCKLEN.
    rewrite mem_read_front by done. cbn [res_bind].
    replace (drop 16 (b ++ r ++ q)) with (r ++ q) by (rewrite <- Hb; by rewrite drop_app_length).
    by rewrite E.
  - destruct Hc as [L1 B1]. split; [by apply Forall_app|]. rewrite !length_app. lia.
Qed.

End Keyed.

(** The bytes the firmware's buffer decryption leaves in front of [q]. *)
Definition cbc_plain (key iv c : list Z) : list Z :=
  match AES_CBC_decrypt_buffer (AES_init_ctx_iv key iv) c (Z.of_nat (length c)) with
  | Done (_, p) => p
  | Fault _ => []
  end.
Definition cbc_cipher (key iv p : list Z) : list Z :=
  match AES_CBC_encrypt_buffer (AES_init_ctx_iv key iv) p (Z.of_nat (length p)) with
  | Done (_, c) => c
  | Fault _ => []
  end.

Record aes_key (key : list Z) : Prop := {
  ak_bytes : bytes key;
  ak_length : length key = 32%nat;
}.

Lemma init_iv key iv c : block iv -> crypto_aes256_init key (Some iv) c = AES_init_ctx_iv key iv.
Proof. intros [Hl _]. reflexivity. Qed.
Lemma init_none key c : crypto_aes256_init key None c = AES_init_ctx_iv key (zeros 16).
Proof. reflexivity. Qed.
Lemma zeros_block : block (zeros 16).
Proof. split; [done|apply zeros_bytes]. Qed.

Lemma aes_decrypt_done key iv c q n : aes_key key -> block iv -> bytes c -> length c = (16 * n)%nat ->
  exists ctx, AES_CBC_decrypt_buffer (AES_init_ctx_iv key iv) (c ++ q) (Z.of_nat (length c))
    = Done (ctx, cbc_plain key iv c ++ q) /\ bytes (cbc_plain key iv c) /\ length (cbc_plain key iv c) = length c.
Proof.
  intros [Hk Lk] Hiv Hc Hl. pose proof (KeyExpansion_round_keys key Hk ltac:(lia)) as Hrk.
  destruct (cbc_decrypt_any _ Hrk n iv c Hiv Hc Hl) as (iv' & p & E & Hp & Lp).
  assert (Ep : cbc_plain key iv c = p).
  { unfold cbc_plain, AES_CBC_decrypt_buffer, AES_init_ctx_iv, AES_BLOCKLEN. cbn [RoundKey Iv].
    rewrite (take_ge iv) by (destruct Hiv; lia). rewrite Hl, Nat2Z.inj_mul. change (Z.of_nat 16) with 16.
    rewrite blocks_of_mul. specialize (E []). rewrite !app_nil_r in E. by rewrite E. }
  rewrite Ep. unfold AES_CBC_decrypt_buffer, AES_init_ctx_iv, AES_BLOCKLEN. cbn [RoundKey Iv].
  rewrite (take_ge iv) by (destruct Hiv; lia). rewrite Hl, Nat2Z.inj_mul. change (Z.of_nat 16) with 16.
  rewrite blocks_of_mul, E. cbn [res_bind].
  eexists. split; [reflexivity|]. split; [done|lia].
Qed.

(** Encryption of whole blocks, undone by decryption under the same key and IV. *)
Lemma aes_encrypt_done key iv p q n : aes_key key -> block iv -> bytes p -> length p = (16 * n)%nat ->
  exists ctx, AES_CBC_encrypt_buffer (AES_init_ctx_iv key iv) (p ++ q) (Z.of_nat (length p))
    = Done (ctx, cbc_cipher key iv p ++ q) /\ bytes (cbc_cipher key iv p) /\
    length (cbc_cipher key iv p) = length p /\ cbc_plain key iv (cbc_cipher key iv p) = p.
Proof.
  intros [Hk Lk] Hiv Hp Hl. pose proof (KeyExpansion_round_keys key Hk ltac:(lia)) as Hrk.
  destruct (cbc_encrypt_any _ Hrk n iv p Hiv Hp Hl) as (iv1 & c & E & Bc & Lc).
  destruct (cbc_roundtrip _ Hrk n iv p [] Hiv Hp Hl) as (c' & iv2 & iv3 & E' & _ & _ & D).
  rewrite E in E'. injection E' as [= <- ->%app_inv_tail].
  unfold cbc_cipher, cbc_plain, AES_CBC_encrypt_buffer, AES_CBC_decrypt_buffer, AES_init_ctx_iv, AES_BLOCKLEN.
  cbn [RoundKey Iv]. rewrite (take_ge iv) by (destruct Hiv; lia).
  specialize (D []). pose proof (E []) as E0. rewrite !app_nil_r in D, E0.
  rewrite Hl, Nat2Z.inj_mul. change (Z.of_nat 16) with 16. rewrite blocks_of_mul, E, E0. cbn [res_bind].
  rewrite Lc, Hl, Nat2Z.inj_mul. change (Z.of_nat 16) with 16. rewrite blocks_of_mul, D. cbn [res_bind].
  eexists. split; [reflexivity|]. split; [done|]. split; [lia|done].
Qed.


End AesBlocks.
