(* ===== verification/Credential.v ===== *)
(** * Credential identifiers (src/fido2/src/ctap.c)

    A credential is made by this device for one relying party when its tag is
    the MAC of its other fields and of the relying party; the MACs and the
    encryption of metadata use the session keys. *)

From Stdlib Require Import Ascii.
From stdpp Require Import strings.
From S2P Require Import Prelude Monad Lfs Fs Board Sha256 Aes Crypto Rng State CtapTypes Dev Device CtapStatus CtapParse.
Import Monad Lfs Fs Board Sha256 Aes Crypto Rng State CtapTypes Dev Device CtapStatus CtapParse.

#[local] Open Scope Z_scope.

Module Credential.

Definition CREDENTIAL_TAG_SIZE : nat := 16.
Definition CREDENTIAL_NONCE_SIZE : nat := 16.
Definition CREDENTIAL_METADATA_SIZE : nat := 4.
Definition CREDENTIAL_RP_ID_SIZE : nat := 32.
Definition CREDENTIAL_META_FLAGS_BYTE : nat := 0.
Definition CREDENTIAL_META_ALG_BYTE : nat := 2.
Definition CREDENTIAL_META_CRED_PROTECT_BYTE : nat := 3.
Definition CREDENTIAL_META_IS_RK_BITMASK : Z := 1.
Definition EXT_CRED_PROTECT_OPTIONAL_WITH_CREDID : Z := 0x02.
Definition EXT_CRED_PROTECT_REQUIRED : Z := 0x03.
Definition CTAP2_UP_DELAY_MS : Z := 29000.
(** [sizeof] of the key without its tag *)
Definition RK_HMAC_SIZE : nat := RK_SIZE - CREDENTIAL_TAG_SIZE.

(** [crypto_aes256_ctr_xcrypt_buffer] (crypto.c): a context of its own. *)
Definition crypto_aes256_ctr_xcrypt_buffer (key iv buffer : list Z) (length : Z) : res (list Z) :=
  let! (_, out) := AES_CTR_xcrypt_buffer (AES_init_ctx_iv key iv) buffer length in Done out.

Section Credential.
Context {L : Lfs} {B : Board}.

Definition cred_mac_key : F (list Z) := gets (fun d => key_cred_mac (ses_keys (d_crypto d))).

(** ** MACs *)

(** HMAC over the pieces, cut to [mac_len] bytes. *)
Fixpoint sha_pieces (ps : list (list Z)) : F unit :=
  match ps with
  | [] => ret tt
  | p :: ps => sha_ (crypto_sha256_update p) ;* sha_pieces ps
  end.

Definition ctap_compute_mac (data : list Z) (mac_len : nat) : F (list Z) :=
  let* key := cred_mac_key in
  sha_ (crypto_sha256_hmac_init key CRYPTO_KEY_LEN) ;*
  sha_ (crypto_sha256_update data) ;*
  let* buf := sha (crypto_sha256_hmac_final key CRYPTO_KEY_LEN) in
  lift (mem_read buf 0 mac_len).

Definition ctap_verify_mac (mac data : list Z) : F Z :=
  let* local_mac := ctap_compute_mac data CREDENTIAL_TAG_SIZE in
  let* mac := lift (mem_read mac 0 CREDENTIAL_TAG_SIZE) in
  ret (b2z (memcmp local_mac mac =? 0)).

Definition ctap_make_auth_tag (version : Z) (rp_id_lookup nonce metadata : list Z) (count : Z) : F (list Z) :=
  let* key := cred_mac_key in
  sha_ (crypto_sha256_hmac_init key CRYPTO_KEY_LEN) ;*
  sha_pieces [[version]; rp_id_lookup; nonce; metadata; le32 count] ;*
  let* hashbuf := sha (crypto_sha256_hmac_final key CRYPTO_KEY_LEN) in
  lift (mem_read hashbuf 0 CREDENTIAL_TAG_SIZE).

Definition derive_user_id_lookup (id : list Z) (size : nat) : F (list Z) :=
  let* id := lift (mem_read id 0 size) in ctap_compute_mac id CREDENTIAL_TAG_SIZE.

(** [rp_id_hash] and [rp_id_lookup]. *)
Definition ctap_derive_rp_id_info (rp_id : list Z) (size : nat) : F (list Z * list Z) :=
  let* id := lift (mem_read rp_id 0 size) in
  sha_ (fun c => Done (crypto_sha256_init c)) ;*
  sha_ (crypto_sha256_update id) ;*
  let* rp_id_hash := sha crypto_sha256_final in
  let* rp_id_lookup := ctap_compute_mac rp_id_hash CREDENTIAL_TAG_SIZE in
  ret (rp_id_hash, rp_id_lookup).

(** ** Metadata *)

(** Counter mode under the metadata key; [length] is a [uint8_t]. *)
Definition ctap_xcrypt_buf (iv data : list Z) (length : Z) : F (list Z) :=
  let* key := gets (fun d => key_meta_enc (ses_keys (d_crypto d))) in
  lift (crypto_aes256_ctr_xcrypt_buffer key iv data (u8 length)).

Definition credential_metadata (c : CredentialId) : F (list Z) :=
  ctap_xcrypt_buf (cr_nonce c) (protected_metadata c) (Z.of_nat CREDENTIAL_METADATA_SIZE).

Definition CREDID_ALG_EDDSA : Z := 1.
Definition ctap_restore_metadata_cose_alg (credential : CredentialId) : F Z :=
  let* metadata := credential_metadata credential in
  let alg := nth CREDENTIAL_META_ALG_BYTE metadata 0 in
  ret (if alg =? CREDID_ALG_EDDSA then -8 else -7).

(** The status and [*is_rk]. *)
Definition ctap_check_credential_metadata (credential : CredentialId) (is_verified is_from_credid_list : bool)
    : F (Z * Z) :=
  let* metadata := credential_metadata credential in
  let cred_protect := nth CREDENTIAL_META_CRED_PROTECT_BYTE metadata 0 in
  let is_rk := Z.land (nth CREDENTIAL_META_FLAGS_BYTE metadata 0) CREDENTIAL_META_IS_RK_BITMASK in
  ret ((if cred_protect =? EXT_CRED_PROTECT_OPTIONAL_WITH_CREDID then
          if negb is_from_credid_list && negb is_verified then CTAP2_ERR_NOT_ALLOWED else 0
        else if cred_protect =? EXT_CRED_PROTECT_REQUIRED then
          if negb is_verified then CTAP2_ERR_NOT_ALLOWED else 0
        else 0), is_rk).

(** ** U2F key handles (u2f.c): the tag and the key, 16 and 32 bytes *)

Definition U2F_KEY_HANDLE_KEY_SIZE : nat := 32.
Definition U2F_KEY_HANDLE_TAG_SIZE : nat := 16.

Definition u2f_make_auth_tag (key appid : list Z) : F (list Z) :=
  let* mac := cred_mac_key in
  sha_ (crypto_sha256_hmac_init mac CRYPTO_KEY_LEN) ;*
  sha_pieces [key; appid] ;*
  let* hashbuf := sha (crypto_sha256_hmac_final mac CRYPTO_KEY_LEN) in
  lift (mem_read hashbuf 0 CREDENTIAL_TAG_SIZE).

(** The bytes at [kh] of which [key_handle_len] were given. *)
Definition u2f_authenticate_credential (kh : list Z) (key_handle_len : Z) (appid : list Z) : F Z :=
  if key_handle_len =? Z.of_nat CRED_SIZE then
    let* b := lift (mem_read kh 0 CRED_SIZE) in
    let cred := cred_of b in
    let* app16 := lift (mem_read appid 0 16) in
    if negb (memcmp (rp_id_lookup cred) app16 =? 0) then ret 0
    else
      let* tag := ctap_make_auth_tag (cr_version cred) app16 (cr_nonce cred)
                    (protected_metadata cred) (cr_count cred) in
      ret (b2z (memcmp (cr_tag cred) tag =? 0))
  else if key_handle_len =? U2F_KEY_HANDLE_SIZE then
    let* kh_tag := lift (mem_read kh 0 U2F_KEY_HANDLE_TAG_SIZE) in
    let* kh_key := lift (mem_read kh U2F_KEY_HANDLE_TAG_SIZE U2F_KEY_HANDLE_KEY_SIZE) in
    let* appid := lift (mem_read appid 0 32) in
    let* tag := u2f_make_auth_tag kh_key appid in
    ret (b2z (memcmp kh_tag tag =? 0))
  else ret 0.

(** ** Credentials of a relying party *)

Definition ctap_credential_belongs_to_rp (rp_id_lookup rp_id_hash : list Z) (desc : CTAP_credentialDescriptor)
    : F Z :=
  if desc_type desc =? PUB_KEY_CRED_CTAP1 then
    u2f_authenticate_credential (desc_id desc) U2F_KEY_HANDLE_SIZE rp_id_hash
  else if desc_type desc =? PUB_KEY_CRED_PUB_KEY then
    let id := cred_of (desc_id desc) in
    let* tag := ctap_make_auth_tag (cr_version id) rp_id_lookup (cr_nonce id) (protected_metadata id) (cr_count id) in
    let* r := lift (secure_memeq (cr_tag id) tag CREDENTIAL_TAG_SIZE) in
    ret (b2z (r =? 1))
  else ret 0.

Definition is_cred_id_matching_rk (credId : CredentialId) (rk : CTAP_residentKey) : Z :=
  b2z (memcmp (cred_bytes credId) (cred_bytes (rk_id rk)) =? 0).

(** The [for] loop; [i] is a [uint16_t] that a count below 65536 keeps from
    wrapping. *)
Fixpoint verify_rk_loop (n : nat) (input_cred : CredentialId) (lookup_rk : CTAP_residentKey) : F Z :=
  match n with
  | O => let* _ := ctap_close_rk_file in ret 0
  | S n =>
      let* lookup_rk := ctap_load_next_rk lookup_rk in
      if negb (memcmp (rp_id_lookup input_cred) (rp_id_lookup (rk_id lookup_rk)) =? 0)
      then verify_rk_loop n input_cred lookup_rk
      else if is_cred_id_matching_rk input_cred lookup_rk =? 0
      then verify_rk_loop n input_cred lookup_rk
      else
        let* ok := ctap_verify_mac (rk_tag lookup_rk) (take RK_HMAC_SIZE (rk_bytes lookup_rk)) in
        if ok =? 0 then verify_rk_loop n input_cred lookup_rk
        else let* _ := ctap_close_rk_file in ret 1
  end.

(** [lookup_rk] is a local that is not initialised; zeros stand for it. *)
Definition ctap_verify_rk_exists (input_cred : CredentialId) : F Z :=
  let* count := ctap_open_rk_file (rp_id_lookup input_cred) in
  if count <=? 0 then
    let* _ := ctap_close_rk_file in ret 0
  else verify_rk_loop (Z.to_nat count) input_cred rk_zero.

(** ** The relying party's name in a resident key *)

(** [memchr(rpid, ':', rpid_len)] *)
Fixpoint find_colon (l : list Z) : option nat :=
  match l with
  | [] => None
  | x :: l => if x =? 58 then Some 0%nat else S <$> find_colon l
  end.

(** The 32 bytes at [stored_rpid] and [*stored_len]. *)
Definition truncate_rpid (stored_rpid rpid : list Z) (rpid_len : nat) : res (list Z * Z) :=
  let! rpid := mem_read rpid 0 rpid_len in
  if (rpid_len <=? CREDENTIAL_RP_ID_SIZE)%nat then
    let! stored := mem_write stored_rpid 0 rpid in Done (stored, u8 (Z.of_nat rpid_len))
  else
    let used := match find_colon rpid with
                | Some p => Nat.min (p + 1) CREDENTIAL_RP_ID_SIZE
                | None => 0%nat
                end in
    let! stored := mem_write stored_rpid 0 (take used rpid) in
    if (CREDENTIAL_RP_ID_SIZE - used <? 3)%nat then Done (stored, u8 (Z.of_nat used))
    else
      let! stored := mem_write stored used [0xe2; 0x80; 0xa6] in
      let used := (used + 3)%nat in
      let to_copy := (CREDENTIAL_RP_ID_SIZE - used)%nat in
      let! stored := mem_write stored used (drop (rpid_len - to_copy) rpid) in
      if (used + to_copy =? CREDENTIAL_RP_ID_SIZE)%nat
      then Done (stored, Z.of_nat CREDENTIAL_RP_ID_SIZE)
      else Fault FAssert.

(** ** User presence and the signature counter *)

Definition ctap2_user_presence_test : F Z :=
  let* r := ctap_user_presence_test CTAP2_UP_DELAY_MS in
  ret (if r =? 2 then CTAP2_ERR_USER_PRESENCE_DISABLED
       else if r =? 1 then CTAP2_OK
       else if r =? -1 then CTAP2_ERR_KEEPALIVE_CANCEL
       else CTAP2_ERR_OPERATION_DENIED).

(** The count, and the four bytes of [authData->signCount]. *)
Definition ctap_auth_data_update_count : F (Z * list Z) :=
  let* count := ctap_atomic_count 0 in
  let* count := if count =? 0 then ctap_atomic_count 0 else ret count in
  ret (count, be32 count).

End Credential.

(** ** Signatures *)

Fixpoint leading_zeros (l : list Z) : nat :=
  match l with
  | [] => 0
  | x :: l => if x =? 0 then S (leading_zeros l) else 0
  end.

(** The 72 bytes at [out_sigder] and the length. *)
Definition ctap_encode_der_sig (in_sigbuf : list Z) : res (list Z * Z) :=
  let! r := mem_read in_sigbuf 0 32 in
  let! s := mem_read in_sigbuf 32 32 in
  let lead_r := leading_zeros r in
  let lead_s := leading_zeros s in
  let! bs := mem_read in_sigbuf (32 + lead_s) 1 in
  let! br := mem_read in_sigbuf lead_r 1 in
  let pad_s := if Z.land (nth 0 bs 0) 0x80 =? 0x80 then 1%nat else 0%nat in
  let pad_r := if Z.land (nth 0 br 0) 0x80 =? 0x80 then 1%nat else 0%nat in
  let zs := Z.of_nat pad_s - Z.of_nat lead_s in
  let zr := Z.of_nat pad_r - Z.of_nat lead_r in
  let out := zeros 72 in
  let! out := mem_write out 0 [0x30] in
  let! out := mem_write out 1 [u8 (0x44 + zs + zr)] in
  let! out := mem_write out 2 [0x02] in
  let! out := mem_write out (3 + pad_r) [0] in
  let! out := mem_write out 3 [u8 (0x20 + zr)] in
  let! rb := mem_read in_sigbuf lead_r (32 - lead_r) in
  let! out := mem_write out (4 + pad_r) rb in
  let! out := mem_write out (4 + 32 + pad_r - lead_r) [0x02] in
  let! out := mem_write out (5 + 32 + pad_r + pad_s - lead_r) [0] in
  let! out := mem_write out (5 + 32 + pad_r - lead_r) [u8 (0x20 + zs)] in
  let! sb := mem_read in_sigbuf (32 + lead_s) (32 - lead_s) in
  let! out := mem_write out (6 + 32 + pad_r + pad_s - lead_r) sb in
  let tmp := 0x46 + zs + zr in
  Done (out, if tmp <? 0 then 0 else tmp).

End Credential.
