(* ===== verification/SigProps.v ===== *)
(** * Signatures in DER ([ctap_encode_der_sig], src/fido2/src/ctap.c)

    The encoder writes into 72 bytes by computed offsets.  A reader of DER
    that accepts minimal positive integers only gets the two numbers back. *)

From S2P Require Import Prelude Crypto CborParser CborEncoder CtapTypes Credential.
Import Crypto CborParser CborEncoder CtapTypes Credential.

#[local] Open Scope Z_scope.

Module SigProps.

(** ** A reader of ECDSA-Sig-Value (RFC 3279, X.690) *)

(** INTEGER: at least one byte, positive, no superfluous zero in front. *)
Definition der_integer (l : list Z) : option (Z * list Z) :=
  match l with
  | 0x02 :: n :: l =>
      let body := take (Z.to_nat n) l in
      if (Z.to_nat n <=? length l)%nat && (0 <? n) &&
         (nth 0 body 0 <? 128) && negb ((nth 0 body 0 =? 0) && (nth 1 body 0 <? 128) && (1 <? n))
      then Some (be_value body, drop (Z.to_nat n) l) else None
  | _ => None
  end.
Definition der_signature (l : list Z) : option (Z * Z) :=
  match l with
  | 0x30 :: n :: l =>
      if n =? Z.of_nat (length l) then
        match der_integer l with
        | Some (r, l) =>
            match der_integer l with
            | Some (s, []) => Some (r, s)
            | _ => None
            end
        | None => None
        end
      else None
  | _ => None
  end.

(** ** What the encoder writes *)

(** The bytes of a number: no zeros in front but the one that keeps it
    positive. *)
Definition pad (l : list Z) : list Z := if Z.land (nth 0 l 0) 0x80 =? 0x80 then [0] else [].
Definition magnitude (l : list Z) : list Z := drop (leading_zeros l) l.
Definition der_int (l : list Z) : list Z :=
  let body := pad (magnitude l) ++ magnitude l in 0x02 :: Z.of_nat (length body) :: body.
Definition der_sig (r s : list Z) : list Z :=
  0x30 :: Z.of_nat (length (der_int r ++ der_int s)) :: der_int r ++ der_int s.

Lemma leading_zeros_le l : (leading_zeros l <= length l)%nat.
Proof. induction l as [|x l IH]; cbn; [done|]. destruct (x =? 0); lia. Qed.

Lemma leading_zeros_lt l : be_value l <> 0 -> (leading_zeros l < length l)%nat.
Proof.
  induction l as [|x l IH]; cbn [leading_zeros length be_value]; [done|]. intros H.
  destruct (x =? 0) eqn:Ex; zbool; [|lia]. subst x. specialize (IH ltac:(lia)). lia.
Qed.

Lemma magnitude_value l : be_value (magnitude l) = be_value l.
Proof.
  unfold magnitude. induction l as [|x l IH]; [done|]. cbn [leading_zeros].
  destruct (x =? 0) eqn:Ex; zbool; [|done]. subst x. rewrite skipn_cons, IH. cbn [be_value]. lia.
Qed.

Lemma magnitude_head l : be_value l <> 0 -> nth 0 (magnitude l) 0 <> 0.
Proof.
  unfold magnitude. induction l as [|x l IH]; cbn [leading_zeros be_value]; [done|]. intros H.
  destruct (x =? 0) eqn:Ex; zbool; [|done]. subst x. rewrite skipn_cons. apply IH. lia.
Qed.

Lemma high_bit b : is_byte b -> (Z.land b 0x80 =? 0x80) = (128 <=? b).
Proof.
  intros Hb. change 0x80 with (2 ^ 7). unfold is_byte in Hb. apply eq_bool_prop_intro. 
  rewrite !Is_true_true, Z.eqb_eq, Z.leb_le.
  assert (Ht : Z.testbit b 7 = (128 <=? b)).
  { rewrite Z.testbit_eqb by lia. change (2 ^ 7) with 128. destruct (128 <=? b) eqn:E; zbool.
    - apply Z.eqb_eq. assert (b / 128 = 1) as -> by (Z.div_mod_to_equations; lia). done.
    - apply Z.eqb_neq. rewrite Z.div_small by lia. done. }
  assert (Hl : Z.land b (2 ^ 7) = if Z.testbit b 7 then 2 ^ 7 else 0).
  { apply Z.bits_inj'. intros n Hn. rewrite Z.land_spec, Z.pow2_bits_eqb by lia.
    destruct (Z.eqb_spec 7 n) as [<-|Hne].
    - rewrite andb_true_r. destruct (Z.testbit b 7); [by rewrite Z.pow2_bits_true|by rewrite Z.bits_0].
    - rewrite andb_false_r. destruct (Z.testbit b 7); [by rewrite Z.pow2_bits_false by lia|by rewrite Z.bits_0]. }
  rewrite Hl, Ht. destruct (128 <=? b) eqn:E; zbool; (split; [intros; try lia|intros; try lia]); try done.
Qed.

(** A length byte written after the zero that may follow it. *)
Lemma put_length (o pd : list Z) p y : pd = [] \/ pd = [0] -> (p + 2 <= length o)%nat ->
  overwrite (overwrite o (p + length pd) [0]) p [y] = overwrite o p (y :: pd).
Proof.
  intros Hpd Hl. unfold overwrite. destruct Hpd as [-> | ->]; cbn [length app].
  - rewrite Nat.add_0_r. rewrite take_app_le, (take_ge (take p o)) by (rewrite length_take; lia).
    rewrite drop_app_ge by (rewrite length_take; lia). rewrite length_take, Nat.min_l by lia.
    by replace (p + 1 - p)%nat with 1%nat by lia.
  - rewrite take_app_le by (rewrite length_take; lia). rewrite take_take, Nat.min_l by lia. f_equal. f_equal.
    rewrite drop_app_ge by (rewrite length_take; lia). rewrite length_take, Nat.min_l by lia.
    rewrite Nat.sub_diag, drop_0. cbn. do 2 f_equal. lia.
Qed.

Lemma mem_write_over dst off src : (off + length src <= length dst)%nat ->
  mem_write dst off src = Done (overwrite dst off src).
Proof. intros. by rewrite mem_write_fits. Qed.

(** Behind what was written from the start. *)
Lemma write_next z acc p x : p = length acc -> (length acc + length x <= length z)%nat ->
  mem_write (overwrite z 0 acc) p x = Done (overwrite z 0 (acc ++ x)).
Proof.
  intros -> Hl. rewrite mem_write_over by (rewrite overwrite_len; lia).
  by rewrite <- (overwrite_app z 0 acc x) by lia.
Qed.

Lemma write_padded {A} z acc p q pd y (k : list Z -> res A) : p = length acc -> q = (p + length pd)%nat ->
  pd = [] \/ pd = [0] -> (length acc + 2 <= length z)%nat ->
  (let! o := mem_write (overwrite z 0 acc) q [0] in let! o := mem_write o p [y] in k o)
  = k (overwrite z 0 (acc ++ y :: pd)).
Proof.
  intros -> -> Hpd Hl. assert (Lp : (length pd <= 1)%nat) by (by destruct Hpd as [-> | ->]; cbn; lia).
  rewrite mem_write_over by (rewrite overwrite_len; cbn; lia). cbn [res_bind].
  rewrite mem_write_over by (rewrite !overwrite_len; rewrite ?overwrite_len; cbn; lia). cbn [res_bind].
  rewrite put_length by (done || rewrite overwrite_len; lia).
  by rewrite <- (overwrite_app z 0 acc (y :: pd)) by (cbn; lia).
Qed.

Lemma pad_cases l : pad l = [] \/ pad l = [0].
Proof. unfold pad. destruct (_ =? _); auto. Qed.

Lemma nth_magnitude l : nth (leading_zeros l) l 0 = nth 0 (magnitude l) 0.
Proof. unfold magnitude. by rewrite nth_skipn, Nat.add_0_r. Qed.

Lemma magnitude_length l : length (magnitude l) = (length l - leading_zeros l)%nat.
Proof. apply length_drop. Qed.

Lemma encode_der_done r s : length r = 32%nat -> length s = 32%nat -> be_value r <> 0 -> be_value s <> 0 ->
  ctap_encode_der_sig (r ++ s) = Done (overwrite (zeros 72) 0 (der_sig r s), Z.of_nat (length (der_sig r s))).
Proof.
  intros Lr Ls Hr Hs. pose proof (leading_zeros_lt r Hr) as Ha. pose proof (leading_zeros_lt s Hs) as Hb.
  rewrite Lr in Ha. rewrite Ls in Hb. unfold ctap_encode_der_sig.
  assert (Lrs : length (r ++ s) = 64%nat) by (rewrite length_app; lia).
  do 2 (rewrite mem_read_fits by lia; cbn [res_bind]).
  rewrite (slice_app_here r s 0 32) by lia. rewrite (slice_app_skip r s 32), (slice_all s) by lia.
  set (a := leading_zeros r) in *. set (b := leading_zeros s) in *.
  do 2 (rewrite mem_read_fits by lia; cbn [res_bind]).
  assert (Es : slice (32 + b) 1 (r ++ s) = [nth 0 (magnitude s) 0]).
  { rewrite slice_app_skip by lia. rewrite Lr. replace (32 + b - 32)%nat with b by lia.
    rewrite <- nth_slice by lia. by rewrite <- nth_magnitude. }
  assert (Er : slice a 1 (r ++ s) = [nth 0 (magnitude r) 0]).
  { unfold slice. rewrite drop_app_le, take_app_le by (rewrite ?length_drop; lia).
    change (take 1 (drop a r)) with (slice a 1 r). rewrite <- nth_slice by lia. by rewrite <- nth_magnitude. }
  rewrite Es, Er. cbn [nth].
  assert (Hp : forall l, (if Z.land (nth 0 (magnitude l) 0) 0x80 =? 0x80 then 1%nat else 0%nat) = length (pad (magnitude l)))
    by (intros l; unfold pad; by destruct (_ =? _)).
  rewrite !Hp. clear Hp Es Er.
  pose proof (magnitude_length r) as LR. pose proof (magnitude_length s) as LS. rewrite Lr in LR. rewrite Ls in LS. fold a in LR. fold b in LS.
  assert (ER : slice a (32 - a) (r ++ s) = magnitude r).
  { unfold slice. rewrite drop_app_le, take_app_le, take_ge by (rewrite ?length_drop; lia). done. }
  assert (ES : slice (32 + b) (32 - b) (r ++ s) = magnitude s).
  { rewrite slice_app_skip by lia. rewrite Lr. replace (32 + b - 32)%nat with b by lia.
    unfold slice. rewrite take_ge by (rewrite length_drop; lia). done. }
  set (R := magnitude r) in *. set (S := magnitude s) in *.
  pose proof (pad_cases R) as PR. pose proof (pad_cases S) as PS.
  assert (BR : (length (pad R) <= 1)%nat) by (by destruct PR as [-> | ->]; cbn; lia).
  assert (BS : (length (pad S) <= 1)%nat) by (by destruct PS as [-> | ->]; cbn; lia).
  assert (U : forall l x, l = R /\ x = a \/ l = S /\ x = b ->
    u8 (0x20 + (Z.of_nat (length (pad l)) - Z.of_nat x)) = Z.of_nat (length (pad l ++ l))).
  { intros l x Hx. rewrite length_app. unfold u8. rewrite Z.mod_small by (destruct Hx as [[-> ->]|[-> ->]]; lia).
    destruct Hx as [[-> ->]|[-> ->]]; lia. }
  rewrite (U R a), (U S b) by auto. clear U.
  assert (LD : length (der_int r ++ der_int s) = (4 + length (pad R) + (32 - a) + length (pad S) + (32 - b))%nat).
  { rewrite length_app. unfold der_int. cbn [length]. rewrite !length_app. fold R S. lia. }
  assert (UL : u8 (0x44 + (Z.of_nat (length (pad S)) - Z.of_nat b) + (Z.of_nat (length (pad R)) - Z.of_nat a))
    = Z.of_nat (length (der_int r ++ der_int s))).
  { rewrite LD. unfold u8. rewrite Z.mod_small by lia. lia. }
  rewrite UL. set (LL := Z.of_nat (length (der_int r ++ der_int s))) in *.
  rewrite (mem_write_over (zeros 72)) by (cbn; lia). cbn [res_bind].
  do 2 (rewrite write_next by (cbn; lia); cbn [res_bind app]).
  rewrite (write_padded _ _ _ _ (pad R)) by (done || cbn; lia). cbn [app].
  rewrite mem_read_fits, ER by lia. cbn [res_bind].
  rewrite write_next by (cbn; lia). cbn [res_bind].
  rewrite write_next by (cbn; rewrite ?length_app; cbn; lia). cbn [res_bind].
  rewrite (write_padded _ _ _ _ (pad S)) by (done || cbn; rewrite ?length_app; cbn; lia).
  rewrite mem_read_fits, ES by lia. cbn [res_bind].
  rewrite write_next by (cbn; rewrite !length_app; cbn; lia). cbn [res_bind].
  destruct (_ <? 0) eqn:E0; zbool; [lia|]. f_equal. f_equal.
  - f_equal. unfold der_sig. fold LL. unfold der_int. fold R S. cbn [app]. rewrite <- !app_assoc. cbn [app].
    done.
  - unfold der_sig. cbn [length]. rewrite LD. lia.
Qed.

(** ** Reading it back *)

Lemma bytes_magnitude l : bytes l -> bytes (magnitude l).
Proof. apply Forall_drop. Qed.

Lemma der_integer_int l rest : bytes l -> (length l <= 32)%nat -> be_value l <> 0 ->
  der_integer (der_int l ++ rest) = Some (be_value l, rest).
Proof.
  intros Hb Hl Hv. pose proof (magnitude_head l Hv) as Hh. pose proof (bytes_magnitude l Hb) as Bm.
  pose proof (magnitude_value l) as Vm. pose proof (magnitude_length l) as Lm. pose proof (leading_zeros_lt l Hv).
  unfold der_int. set (m := magnitude l) in *. destruct m as [|x m]; [done|]. cbn [nth] in Hh.
  inversion Bm as [|? ? Hx Bm']; subst. pose proof (high_bit x Hx) as Hhb.
  unfold der_integer. cbn [app]. unfold pad. cbn [nth]. rewrite Hhb.
  unfold is_byte in Hx. destruct (128 <=? x) eqn:E8; zbool.
  - cbn [app length] in *. rewrite Nat2Z.id. rewrite (proj2 (Nat.leb_le _ _)) by (cbn; rewrite length_app; lia).
    rewrite (proj2 (Z.ltb_lt 0 _)) by lia. cbn [take nth andb]. change (0 <? 128) with true.
    rewrite (proj2 (Z.ltb_ge x 128)) by lia. rewrite andb_false_r. cbn [andb negb].
    rewrite take_app_length, !skipn_cons, drop_app_length, <- Vm.
    by replace (be_value (0 :: x :: m)) with (be_value (x :: m)) by (cbn [be_value]; lia).
  - cbn [app length] in *. rewrite Nat2Z.id. rewrite (proj2 (Nat.leb_le _ _)) by (cbn; rewrite length_app; lia).
    rewrite (proj2 (Z.ltb_lt 0 _)) by lia. cbn [take nth andb]. rewrite (proj2 (Z.ltb_lt x 128)) by lia.
    rewrite (proj2 (Z.eqb_neq x 0)) by done. cbn [andb negb].
    rewrite take_app_length, skipn_cons, drop_app_length. by rewrite <- Vm.
Qed.

(** C37: for the two numbers of a signature, none of them 0, the encoder
    writes a DER ECDSA-Sig-Value of 8 to 72 bytes, inside its buffer, from which a
    strict reader gets the same two numbers. *)
Theorem encode_der_sig_round_trip r s : bytes r -> bytes s -> length r = 32%nat -> length s = 32%nat ->
  be_value r <> 0 -> be_value s <> 0 ->
  exists out len, ctap_encode_der_sig (r ++ s) = Done (out, len) /\ length out = 72%nat /\ 8 <= len <= 72 /\
    der_signature (take (Z.to_nat len) out) = Some (be_value r, be_value s).
Proof.
  intros Br Bs Lr Ls Hr Hs. pose proof (encode_der_done r s Lr Ls Hr Hs) as H.
  assert (LI : forall l, length l = 32%nat -> be_value l <> 0 -> (3 <= length (der_int l) <= 35)%nat).
  { intros l Ll Hl. unfold der_int. cbn [length]. rewrite length_app, magnitude_length.
    pose proof (leading_zeros_lt l Hl). destruct (pad_cases (magnitude l)) as [-> | ->]; cbn [length]; lia. }
  pose proof (LI r Lr Hr) as L1. pose proof (LI s Ls Hs) as L2.
  assert (LD : length (der_sig r s) = (2 + length (der_int r) + length (der_int s))%nat)
    by (unfold der_sig; cbn [length]; rewrite length_app; lia).
  eexists _, _. split; [exact H|]. split; [by rewrite overwrite_len by (rewrite zeros_length; lia)|]. split; [lia|].
  rewrite Nat2Z.id. unfold overwrite. change (take 0 (zeros 72)) with (@nil Z). rewrite app_nil_l, take_app_length.
  unfold der_sig, der_signature. rewrite Z.eqb_refl, der_integer_int by (done || lia).
  rewrite <- (app_nil_r (der_int s)). by rewrite der_integer_int by (done || lia).
Qed.

(** Numbers with zeros in front and with the high bit set. *)
Definition demo_r : list Z := [0; 0; 0x81] ++ replicate 29 7.
Definition demo_s : list Z := 0xff :: replicate 31 1.
Lemma encode_der_sig_round_trip_witness :
  exists out len, ctap_encode_der_sig (demo_r ++ demo_s) = Done (out, len) /\ length out = 72%nat /\ 8 <= len <= 72 /\
    der_signature (take (Z.to_nat len) out) = Some (be_value demo_r, be_value demo_s).
Proof.
  apply (encode_der_sig_round_trip demo_r demo_s);
    [repeat constructor; unfold is_byte; lia|repeat constructor; unfold is_byte; lia|done|done|done|done].
Defined.

End SigProps.
