(* ===== verification/Attestation.v ===== *)
(** * The attestation key and certificate (src/targets/tkey/src/attestation.c)

    [att_key_t] is its 64 bytes in memory and on flash: the encrypted key, the
    nonce and the MAC. *)

From S2P Require Import Prelude Monad Lfs Fs Board Sha256 Aes Crypto Rng State CtapTypes Dev Device Credential.
Import Monad Lfs Fs Board Sha256 Aes Crypto Rng State CtapTypes Dev Device Credential.

#[local] Open Scope Z_scope.

Module Attestation.

Definition ATTESTATION_MAX_CERT_SIZE : Z := 1024.
Definition ATTESTATION_SIGN_KEY_SIZE : nat := 32.
Definition ATTESTATION_NONCE_SIZE : nat := 16.
Definition ATTESTATION_MAC_SIZE : nat := 16.
(** [sizeof(att_key_t)] *)
Definition ATT_KEY_SIZE : nat := ATTESTATION_SIGN_KEY_SIZE + ATTESTATION_NONCE_SIZE + ATTESTATION_MAC_SIZE.

Definition att_key_enc (k : list Z) : list Z := slice 0 ATTESTATION_SIGN_KEY_SIZE k.
Definition att_nonce (k : list Z) : list Z := slice ATTESTATION_SIGN_KEY_SIZE ATTESTATION_NONCE_SIZE k.
Definition att_mac (k : list Z) : list Z :=
  slice (ATTESTATION_SIGN_KEY_SIZE + ATTESTATION_NONCE_SIZE) ATTESTATION_MAC_SIZE k.

Section Attestation.
Context {L : Lfs} {B : Board}.

(** Close the local file [f] and return [r]. *)
Definition close_with {A} (f : fs_file_t) (r : A) : F A := let* _ := fs (fs_close_file f) in ret r.

(** The result and [*key_buf]. *)
Definition attestation_read_key (key_buf : list Z) : F (Z * list Z) :=
  let* (r, f) := fs (fs_open_file fs_file_zero "attestation_key" LFS_O_RDONLY) in
  if r <? 0 then ret (r, key_buf)
  else
    let* file_size := fs (fs_file_size f) in
    if file_size <? 0 then close_with f (file_size, key_buf)
    else if negb (file_size =? Z.of_nat ATT_KEY_SIZE) then close_with f (-1, key_buf)
    else
      let* (r, d, f) := fs (fs_read f file_size) in
      let* key_buf := lift (mem_write key_buf 0 d) in
      let* _ := fs (fs_close_file f) in
      if r <? 0 then ret (r, key_buf)
      else
        let data := att_key_enc key_buf ++ att_nonce key_buf in
        let* k := gets (fun d => key_device_mac (dev_keys (d_crypto d))) in
        let* ok := sha (crypto_verify_device_mac k data (att_mac key_buf) ATTESTATION_MAC_SIZE) in
        if ok =? 0 then ret (-1, zeros ATT_KEY_SIZE) else ret (0, key_buf).

(** The open file when [name] is new or empty, else the result. *)
Definition open_empty (name : string) : F (Z + fs_file_t) :=
  let* (r, f) := fs (fs_open_file fs_file_zero name (Z.lor LFS_O_RDWR LFS_O_CREAT)) in
  if r <? 0 then ret (inl r)
  else
    let* size := fs (fs_file_size f) in
    if size <? 0 then close_with f (inl size)
    else if size >? 0 then close_with f (inl (-1))
    else ret (inr f).

(** The last write; both branches of the source close the file. *)
Definition write_and_close (f : fs_file_t) (data : list Z) : F Z :=
  let* (r, f) := fs (fs_write f data) in close_with f r.

Definition attestation_write_key (key : list Z) (key_size : Z) : F Z :=
  if negb (key_size =? Z.of_nat ATTESTATION_SIGN_KEY_SIZE) then ret (-1)
  else
    let* o := open_empty "attestation_key" in
    match o with
    | inl r => ret r
    | inr f =>
        let* key_enc := lift (mem_read key 0 ATTESTATION_SIGN_KEY_SIZE) in
        let* o := rng (rng_get_bytes (Z.of_nat ATTESTATION_NONCE_SIZE)) in
        let nonce := default (zeros ATTESTATION_NONCE_SIZE) o in
        let* encryption_key := gets (fun d => key_attestation_enc (dev_keys (d_crypto d))) in
        let* key_enc := lift (crypto_aes256_ctr_xcrypt_buffer encryption_key nonce key_enc
                                (Z.of_nat ATTESTATION_SIGN_KEY_SIZE)) in
        let* k := gets (fun d => key_device_mac (dev_keys (d_crypto d))) in
        let* mac := sha (crypto_compute_device_mac k (key_enc ++ nonce) ATTESTATION_MAC_SIZE) in
        write_and_close f (key_enc ++ nonce ++ mac)
    end.

(** The result, the bytes read into [cert_buf], and [*cert_size] when it was
    set. *)
Definition attestation_read_cert (cert_buf_size : Z) : F (Z * list Z * option Z) :=
  let* (r, f) := fs (fs_open_file fs_file_zero "attestation_cert" LFS_O_RDONLY) in
  if r <? 0 then ret (r, [], None)
  else
    let* file_size := fs (fs_file_size f) in
    if file_size <? 0 then close_with f (file_size, [], None)
    else if file_size >? cert_buf_size then close_with f (-1, [], None)
    else
      let* (r, d, f) := fs (fs_read f file_size) in
      let* _ := fs (fs_close_file f) in
      ret (if r <? 0 then r else 0, d, Some file_size).

Definition attestation_write_cert (cert : list Z) (cert_size : nat) : F Z :=
  if Z.of_nat cert_size >? ATTESTATION_MAX_CERT_SIZE then ret (-1)
  else
    let* o := open_empty "attestation_cert" in
    match o with
    | inl r => ret r
    | inr f => let* data := lift (mem_read cert 0 cert_size) in write_and_close f data
    end.

Definition attestation_read_aaguid : list Z :=
  [0xdb; 0xe4; 0x2d; 0x66; 0x22; 0xbe; 0x46; 0x24; 0x88; 0x11; 0x97; 0x2a; 0x8e; 0x65; 0x36; 0x7e].

(** ** Key derivation with its effect on crypto.c's statics *)

Definition derive_device_keys : F unit :=
  let* k := sha (crypto_derive_device_keys device_get_bound_secret) in
  upd d_crypto (fun c => c <| dev_keys := k |>) ;*
  let* key_buf := gets (fun d => key_attest (d_crypto d)) in
  let* (r, key_buf) := attestation_read_key key_buf in
  upd d_crypto (fun c => c <| key_attest := key_buf |>) ;*
  if r <? 0 then ret tt else upd d_crypto (fun c => c <| attestation_available := true |>).

Definition derive_session_keys : F unit :=
  let* salt := gets (fun d => key_salt (STATE d)) in
  let* k := sha (crypto_derive_session_keys device_get_bound_secret salt) in
  upd d_crypto (fun c => c <| ses_keys := k |>).

End Attestation.

End Attestation.
