(* ===== verification/Signing.v ===== *)
(** * Keys of credentials and signatures (src/fido2/src/crypto.c, cose_key.c, ctap.c)

    The static [_signing_key] names the buffer that holds the private key; the
    elliptic curve operations themselves are those of [Ecc]. *)

From S2P Require Import Prelude Monad Lfs Fs Board CborParser CborEncoder Sha256 Aes Crypto Rng State CtapTypes.
From S2P Require Import Dev Device CtapStatus CtapParse CtapEncode Credential Attestation.
Import Monad Lfs Fs Board CborParser CborEncoder Sha256 Aes Crypto Rng State CtapTypes
  Dev Device CtapStatus CtapParse CtapEncode Credential Attestation.

#[local] Open Scope Z_scope.

Module Signing.

(** [cose_key_add] as one encoder operation: after an error the caller is left
    with its own encoder and what was written to the buffer. *)
Definition cose_key_op (x y : list Z) (algtype : Z) (cose_key : CborEncoder) (out : list Z) : res encres :=
  let ec := negb (algtype =? COSE_ALG_EDDSA) in
  let! (parent, r) := cbor_encoder_create_map (if ec then 5 else 4) cose_key out in
  let! (err, map, out) :=
    let? (map, out) := Done r in
    let? (map, out) := cbor_encode_int COSE_KEY_LABEL_KTY map out in
    let? (map, out) := cbor_encode_int (if ec then COSE_KEY_KTY_EC2 else COSE_KEY_KTY_OKP) map out in
    let? (map, out) := cbor_encode_int COSE_KEY_LABEL_ALG map out in
    let? (map, out) := cbor_encode_int algtype map out in
    let? (map, out) := cbor_encode_int COSE_KEY_LABEL_CRV map out in
    let? (map, out) := cbor_encode_int (if ec then COSE_KEY_CRV_P256 else COSE_KEY_CRV_ED25519) map out in
    let? (map, out) := cbor_encode_int COSE_KEY_LABEL_X map out in
    let! x := mem_read x 0 32 in
    let? (map, out) := cbor_encode_byte_string x map out in
    if ec then
      let? (map, out) := cbor_encode_int COSE_KEY_LABEL_Y map out in
      let! y := mem_read y 0 32 in
      cbor_encode_byte_string y map out
    else Done (CborNoError, map, out) in
  match err with
  | CborNoError => Done (cbor_encoder_close_container parent map out)
  | _ => Done (err, parent, out)
  end.

Section Signing.
Context {L : Lfs} {B : Board} {E : Ecc}.

(** ** crypto.c *)

Definition credential_key (data : list Z) : F (list Z) :=
  let* k := gets (fun d => key_cred_priv (ses_keys (d_crypto d))) in
  sha (crypto_derive_credential_key k data []).

Definition crypto_ecc256_load_attestation_key : F unit :=
  let* att := gets (fun d => key_attest (d_crypto d)) in
  let* k := gets (fun d => key_attestation_enc (dev_keys (d_crypto d))) in
  let* key := lift (crypto_aes256_ctr_xcrypt_buffer k (att_nonce att) (att_key_enc att)
                      (Z.of_nat ATTESTATION_SIGN_KEY_SIZE)) in
  upd d_crypto (fun c => c <| key_attest_sign := key |> <| _signing_key := AttestKey |>).

Definition crypto_ecc256_load_key (data : list Z) : F unit :=
  let* privkey := credential_key data in
  upd d_crypto (fun c => c <| ecc_privkey := privkey |> <| _signing_key := EccKey |>).

(** The buffer [_signing_key] points to; a null pointer has none. *)
Definition signing_buffer : F (list Z) :=
  let* c := gets d_crypto in
  match _signing_key c with
  | NoKey => stop FOutOfBounds
  | AttestKey => ret (key_attest_sign c)
  | EccKey => ret (ecc_privkey c)
  | EdKey => ret (ed25519_sk c)
  end.

Definition crypto_ecc256_sign (data : list Z) : F (list Z) :=
  let* buf := signing_buffer in
  let* k := lift (mem_read buf 0 32) in
  let* o := run_draws (uECC_sign k data) in
  match o with
  | None => stop FExit
  | Some sig =>
      upd d_crypto (fun c =>
        match _signing_key c with
        | AttestKey => c <| key_attest_sign := zeros ATTESTATION_SIGN_KEY_SIZE |>
        | _ => c
        end) ;*
      ret sig
  end.

(** [x] and [y]. *)
Definition crypto_ecc256_derive_public_key (data : list Z) : F (list Z * list Z) :=
  let* privkey := credential_key data in
  let pubkey := default (zeros 64) (uECC_compute_public_key privkey) in
  let* x := lift (mem_read pubkey 0 32) in
  let* y := lift (mem_read pubkey 32 32) in
  ret (x, y).

Definition fido2_crypto_ed25519_derive_public_key (data : list Z) : F (list Z) :=
  let* seed := credential_key data in ret (crypto_ed25519_key_pair seed).2.

Definition fido2_crypto_ed25519_load_key (data : list Z) : F unit :=
  let* seed := credential_key data in
  upd d_crypto (fun c => c <| ed25519_sk := (crypto_ed25519_key_pair seed).1 |> <| _signing_key := EdKey |>).

Definition fido2_crypto_ed25519_sign (data1 data2 : list Z) : F (list Z) :=
  if (512 <? length data1)%nat || (512 <? length data2)%nat then ret (zeros 64)
  else
    let* buf := signing_buffer in
    let* sk := lift (mem_read buf 0 64) in
    ret (crypto_ed25519_sign sk (data1 ++ data2)).

(** ** cose_key.c *)

(** The status and the encoder, which the callers go on with in any case. *)
Definition cose_key_generate (cose_key : Enc) (hmac_input : list Z) (credtype algtype : Z) : F (Z * Enc) :=
  if negb (credtype =? PUB_KEY_CRED_PUB_KEY) then ret (CTAP2_ERR_INVALID_CREDENTIAL, cose_key)
  else
    let add x y :=
      let* (err, c, out) := lift (cose_key_op x y algtype (fst cose_key) (snd cose_key)) in
      ret (match err with CborNoError => CTAP2_OK | _ => CTAP2_ERR_INVALID_CBOR end, (c, out)) in
    if algtype =? COSE_ALG_ES256 then
      let* (x, y) := crypto_ecc256_derive_public_key hmac_input in add x y
    else if algtype =? COSE_ALG_EDDSA then
      let* x := fido2_crypto_ed25519_derive_public_key hmac_input in add x []
    else ret (CTAP2_ERR_UNSUPPORTED_ALGORITHM, cose_key).

(** ** ctap.c *)

(** The [sigder] bytes that count, after a key was loaded. *)
Definition ctap_sign_data (data clientDataHash : list Z) (alg : Z) : F (list Z) :=
  let* h := lift (mem_read clientDataHash 0 CLIENT_DATA_HASH_SIZE) in
  if alg =? COSE_ALG_EDDSA then fido2_crypto_ed25519_sign data h
  else
    sha_ (fun c => Done (crypto_sha256_init c)) ;*
    sha_ (crypto_sha256_update data) ;*
    sha_ (crypto_sha256_update h) ;*
    let* hashbuf := sha crypto_sha256_final in
    let* sigbuf := crypto_ecc256_sign hashbuf in
    let* (sigder, len) := lift (ctap_encode_der_sig sigbuf) in
    lift (mem_read sigder 0 (Z.to_nat len)).

End Signing.

End Signing.
