(* ===== verification/ClientPin.v ===== *)
(** * authenticatorClientPIN (src/fido2/src/ctap_client_pin.c)

    The PIN, its retry counters, the key agreement and the pinUvAuthToken of
    each of the two protocols.  The request parser and the command are in
    [ClientPinCmd]. *)

From Stdlib Require Import Ascii.
From stdpp Require Import strings.
From S2P Require Import Prelude Monad Lfs Fs Board CborParser CborEncoder Sha256 Aes Crypto Rng State CtapTypes.
From S2P Require Import Dev Device CtapStatus CborApi CtapParse CtapEncode Credential.
Import Monad Lfs Fs Board CborParser CborEncoder Sha256 Aes Crypto Rng State CtapTypes
  Dev Device CtapStatus CborApi CtapParse CtapEncode Credential.

#[local] Open Scope Z_scope.

Module ClientPin.

Definition CP_Cmd_pinUvAuthProtocol : Z := 0x01.
Definition CP_Cmd_subCommand : Z := 0x02.
Definition CP_Cmd_keyAgreement : Z := 0x03.
Definition CP_Cmd_pinUvAuthParam : Z := 0x04.
Definition CP_Cmd_newPinEnc : Z := 0x05.
Definition CP_Cmd_pinHashEnc : Z := 0x06.
Definition CP_Cmd_permissions : Z := 0x09.
Definition CP_Cmd_rpId : Z := 0x0A.
Definition CP_SubCmd_getPINRetries : Z := 0x01.
Definition CP_SubCmd_getKeyAgreement : Z := 0x02.
Definition CP_SubCmd_setPIN : Z := 0x03.
Definition CP_SubCmd_changePIN : Z := 0x04.
Definition CP_SubCmd_getPinToken : Z := 0x05.
Definition CP_SubCmd_getPinUvAuthTokenUsingPinWithPermissions : Z := 0x09.
Definition CP_Resp_keyAgreement : Z := 0x01.
Definition CP_Resp_pinUvAuthToken : Z := 0x02.
Definition CP_Resp_pinRetries : Z := 0x03.
Definition CP_Resp_powerCycleState : Z := 0x04.
Definition CP_pinUvAuthToken_permissions_mc : Z := 0x01.
Definition CP_pinUvAuthToken_permissions_ga : Z := 0x02.
Definition CP_pinUvAuthToken_permissions_lbw : Z := 0x10.
Definition CP_pinUvAuthToken_permissions_defined_mask : Z := 0x3f.
Definition CP_pinUvAuthToken_permissions_default_mask : Z := 0x03.
Definition CP_pinUvAuthToken_permissions_unsupported_mask : Z := 0x38.
Definition NEW_PIN_ENC_MAX_SIZE : nat := 80.
Definition NEW_PIN_ENC_MIN_SIZE : nat := 64.
Definition NEW_PIN_MAX_SIZE : nat := 64.
Definition NEW_PIN_MIN_SIZE : nat := 4.
Definition PINUVAUTHTOKEN_SIZE : nat := 32.
Definition CP_IV_SIZE : nat := 16.
Definition TOKEN_MAX_USAGE_PERIOD_MS : Z := 10 * 60 * 1000.
Definition TOKEN_MAX_USER_PRESENT_MS : Z := 30 * 1000.

(** [HKDF_INFO_AES] and [HKDF_INFO_HMAC], without the terminating zero. *)
Definition HKDF_INFO_AES : list Z := text "CTAP2 AES key".
Definition HKDF_INFO_HMAC : list Z := text "CTAP2 HMAC key".

(** ** The tokens of the two protocols *)

(** The object [get_pin_protocol_state] points to. *)
Definition get_pin_protocol_state (pin_protocol : Z) (v : pin_vars) : pinUvAuthToken_t :=
  if pin_protocol =? 1 then token_p1 v else token_p2 v.
Definition set_pin_protocol_state (pin_protocol : Z) (f : pinUvAuthToken_t -> pinUvAuthToken_t) (v : pin_vars)
    : pin_vars :=
  if pin_protocol =? 1 then v <| token_p1 := f (token_p1 v) |> else v <| token_p2 := f (token_p2 v) |>.

Definition auth_param_size (proto : Z) : nat := if proto =? 2 then 32%nat else 16%nat.

Section ClientPin.
Context {L : Lfs} {B : Board} {E : Ecc}.

Definition get_pt (pin_protocol : Z) : F pinUvAuthToken_t :=
  gets (fun d => get_pin_protocol_state pin_protocol (d_pin d)).
Definition upd_pt (pin_protocol : Z) (f : pinUvAuthToken_t -> pinUvAuthToken_t) : F unit :=
  upd d_pin (set_pin_protocol_state pin_protocol f).
Definition upd_ts (pin_protocol : Z) (f : pinUvAuthToken_state_t -> pinUvAuthToken_state_t) : F unit :=
  upd_pt pin_protocol (fun p => p <| token_state := f (token_state p) |>).
Definition upd_ka (pin_protocol : Z) (f : key_agreement_t -> key_agreement_t) : F unit :=
  upd_pt pin_protocol (fun p => p <| key_agreement := f (key_agreement p) |>).

(** ** Locking *)

Definition ctap_client_pin_is_boot_locked : F bool :=
  gets (fun d => PIN_BOOT_ATTEMPTS_LEFT (d_pin d) <=? 0).
Definition ctap_client_pin_is_locked : F bool := gets (fun d => remaining_tries (STATE d) <=? 0).
Definition ctap_client_pin_is_set : F bool := gets (fun d => is_pin_set (STATE d) =? 1).
Definition leftover_pin_attempts : F Z :=
  gets (fun d => if remaining_tries (STATE d) <=? 0 then 0 else remaining_tries (STATE d)).

Definition upd_state (f : AuthenticatorState -> AuthenticatorState) : F unit := upd STATE f.

Definition lock_device_permanently : F unit :=
  upd_pt 1 (fun p => p <| token := zeros PINUVAUTHTOKEN_SIZE |>) ;*
  upd_pt 2 (fun p => p <| token := zeros PINUVAUTHTOKEN_SIZE |>) ;*
  upd_state (fun s => s <| pin_hash_enc := zeros 16 |> <| pin_hash_iv := zeros 16 |>) ;*
  ctap_flush_state.

(** Both counters are [int8_t]. *)
Definition decrement_pin_attempts : F Z :=
  upd d_pin (fun v =>
    if PIN_BOOT_ATTEMPTS_LEFT v >? 0
    then v <| PIN_BOOT_ATTEMPTS_LEFT := PIN_BOOT_ATTEMPTS_LEFT v - 1 |> else v) ;*
  let* locked := ctap_client_pin_is_locked in
  if negb locked then
    upd_state (fun s => s <| remaining_tries := remaining_tries s - 1 |>) ;*
    ctap_flush_state ;*
    let* locked := ctap_client_pin_is_locked in
    (if locked : bool then lock_device_permanently else ret tt) ;*
    ret 0
  else ret 255.

Definition reset_pin_attempts : F unit :=
  let* tries := gets (fun d => remaining_tries (STATE d)) in
  if tries =? PIN_LOCKOUT_ATTEMPTS then ret tt
  else
    upd d_pin (fun v => v <| PIN_BOOT_ATTEMPTS_LEFT := PIN_BOOT_ATTEMPTS |>) ;*
    upd_state (fun s => s <| remaining_tries := PIN_LOCKOUT_ATTEMPTS |>) ;*
    ctap_flush_state.

(** ** Key agreement *)

(** The [while (1)] loop.  It ends at the first draw that is a valid scalar;
    a draw fails with probability below 2^-31, and [SCALAR_TRIES] of them in a
    row stand for a generator that never gives one. *)
Definition SCALAR_TRIES : nat := 64.
Fixpoint regenerate_loop (fuel : nat) (pin_protocol : Z) : F unit :=
  match fuel with
  | O => stop FExit
  | S fuel =>
      let* pt := get_pt pin_protocol in
      let* k := fill_random (priv_key (key_agreement pt)) in
      upd_ka pin_protocol (fun ka => ka <| priv_key := k |>) ;*
      let* valid := lift (crypto_ecc256_is_valid_scalar k) in
      if negb (valid =? 0) then ret tt else regenerate_loop fuel pin_protocol
  end.
Definition regenerate_key_agreement (pin_protocol : Z) : F unit :=
  regenerate_loop SCALAR_TRIES pin_protocol ;*
  upd_ka pin_protocol (fun ka => ka <| pub_key_valid := false |>).

(** [crypto_ecc256_shared_secret] (crypto.c) exits when micro-ecc refuses. *)
Definition crypto_ecc256_shared_secret (pubkey privkey : list Z) : F (list Z) :=
  let* o := run_draws (uECC_shared_secret pubkey privkey) in
  match o with
  | Some s => ret s
  | None => stop FExit
  end.

(** The encryption key and the MAC key. *)
Definition kdf (ikm : list Z) (pin_protocol : Z) : F (list Z * list Z) :=
  if pin_protocol =? 1 then
    sha_ (fun c => Done (crypto_sha256_init c)) ;*
    sha_ (crypto_sha256_update ikm) ;*
    let* k := sha crypto_sha256_final in ret (k, k)
  else
    let* prk := sha (crypto_hkdf_extract_sha256 None ikm) in
    let* enc_key := sha (crypto_hkdf_expand_sha256 prk HKDF_INFO_AES 32) in
    let* mac_key := sha (crypto_hkdf_expand_sha256 prk HKDF_INFO_HMAC 32) in
    ret (enc_key, mac_key).

Definition ecdh (platform_pubkey : list Z) (pin_protocol : Z) : F (list Z * list Z) :=
  let* pt := get_pt pin_protocol in
  let* shared_point := crypto_ecc256_shared_secret platform_pubkey (priv_key (key_agreement pt)) in
  kdf shared_point pin_protocol.
Definition ctap_client_pin_decapsulate : list Z -> Z -> F (list Z * list Z) := ecdh.

(** ** Encryption and MACs *)

(** In place on [len] bytes of [buf]. *)
Definition decrypt (buf : list Z) (len : nat) (enc_key : list Z) (pin_protocol : Z) : F (list Z) :=
  if pin_protocol =? 1 then
    aes (crypto_aes256_init enc_key None) ;*
    aes_buf (crypto_aes256_decrypt buf (Z.of_nat len))
  else if negb (CP_IV_SIZE <? len)%nat then stop FAssert
  else
    let* iv := lift (mem_read buf 0 CP_IV_SIZE) in
    let ciphertext_len := (len - CP_IV_SIZE)%nat in
    aes (crypto_aes256_init enc_key (Some iv)) ;*
    let* rest := aes_buf (crypto_aes256_decrypt (drop CP_IV_SIZE buf) (Z.of_nat ciphertext_len)) in
    let buf := take CP_IV_SIZE buf ++ rest in
    let* plain := lift (mem_read buf CP_IV_SIZE ciphertext_len) in
    let* buf := lift (mem_write buf 0 plain) in
    lift (mem_write buf ciphertext_len (zeros CP_IV_SIZE)).

(** The status and the token, encrypted. *)
Definition encrypt_pinUvAuthToken (enc_key : list Z) (pin_protocol : Z) : F (Z * list Z) :=
  let* pt := get_pt pin_protocol in
  let* t := lift (mem_read (token pt) 0 PINUVAUTHTOKEN_SIZE) in
  if pin_protocol =? 1 then
    aes (crypto_aes256_init enc_key None) ;*
    let* out := aes_buf (crypto_aes256_encrypt t (Z.of_nat PINUVAUTHTOKEN_SIZE)) in
    ret (0, out)
  else
    let* (r, iv) := ctap_generate_rng (Z.of_nat CP_IV_SIZE) in
    match iv with
    | Some iv =>
        aes (crypto_aes256_init enc_key (Some iv)) ;*
        let* out := aes_buf (crypto_aes256_encrypt t (Z.of_nat PINUVAUTHTOKEN_SIZE)) in
        ret (0, iv ++ out)
    | None => ret (-1, [])
    end.

Definition ctap_client_pin_verify (key message signature : list Z) (pin_protocol : Z) : F Z :=
  sha_ (crypto_sha256_hmac_init key 32) ;*
  sha_ (crypto_sha256_update message) ;*
  let* expected := sha (crypto_sha256_hmac_final key 32) in
  let* eq := lift (secure_memeq signature expected (auth_param_size pin_protocol)) in
  ret (if eq =? 0 then -1 else 0).

(** ** The stored PIN *)

Definition pin_enc_key : F (list Z) := gets (fun d => key_pin_enc (dev_keys (d_crypto d))).

(** [pin] of [len] bytes. *)
Definition store_pin (pin : list Z) (len : nat) : F unit :=
  let* pin := lift (mem_read pin 0 len) in
  sha_ (fun c => Done (crypto_sha256_init c)) ;*
  sha_ (crypto_sha256_update pin) ;*
  let* pin_hash := sha crypto_sha256_final in
  let* old_iv := gets (fun d => pin_hash_iv (STATE d)) in
  let* iv := fill_random old_iv in
  upd_state (fun s => s <| pin_hash_iv := iv |>) ;*
  let* key := pin_enc_key in
  aes (crypto_aes256_init key (Some iv)) ;*
  let* pin_hash := aes_buf (crypto_aes256_encrypt pin_hash STATE_PIN_HASH_SIZE) in
  let* h := lift (mem_read pin_hash 0 (Z.to_nat STATE_PIN_HASH_SIZE)) in
  upd_state (fun s => s <| pin_hash_enc := h |> <| is_pin_set := 1 |>) ;*
  ctap_flush_state.

Definition verify_against_stored_pin (pin_hash : list Z) : F Z :=
  let* st := gets STATE in
  let* stored_pin := lift (mem_read (pin_hash_enc st) 0 (Z.to_nat STATE_PIN_HASH_SIZE)) in
  let* key := pin_enc_key in
  aes (crypto_aes256_init key (Some (pin_hash_iv st))) ;*
  let* stored_pin := aes_buf (crypto_aes256_decrypt stored_pin STATE_PIN_HASH_SIZE) in
  lift (secure_memeq pin_hash stored_pin (Z.to_nat STATE_PIN_HASH_SIZE)).

(** ** The state of a token *)

Definition ctap_client_pin_clear_user_present (pin_protocol : Z) : F unit :=
  upd_ts pin_protocol (fun t => if in_use t then t <| user_present := false |> else t).
Definition ctap_client_pin_clear_user_verified (pin_protocol : Z) : F unit :=
  upd_ts pin_protocol (fun t => if in_use t then t <| user_verified := false |> else t).
Definition ctap_client_pin_clear_PinUvAuthToken_permissions_except_Lbw (pin_protocol : Z) : F unit :=
  upd_ts pin_protocol (fun t =>
    if in_use t then t <| permissions := Z.land (permissions t) CP_pinUvAuthToken_permissions_lbw |> else t).
Definition stop_using_pinUvAuthToken (pin_protocol : Z) : F unit :=
  upd_ts pin_protocol (fun _ => token_state_zero).

Definition get_user_present (pin_protocol : Z) : F bool :=
  let* pt := get_pt pin_protocol in
  ret (if in_use (token_state pt) then user_present (token_state pt) else false).
Definition ctap_client_pin_get_user_verified (pin_protocol : Z) : F bool :=
  let* pt := get_pt pin_protocol in
  ret (if in_use (token_state pt) then user_verified (token_state pt) else false).

Definition begin_using_pinUvAuthToken (user_is_present : bool) (pin_protocol permissions_ : Z) : F unit :=
  upd_ts pin_protocol (fun t =>
    t <| user_present := user_is_present |> <| permissions := permissions_ |>
      <| user_verified := true |> <| in_use := true |>) ;*
  let* now := millis in
  upd_ts pin_protocol (fun t => t <| usage_timer_start_ms := now |> <| usage_timer_last_used_ms := now |>).

(** The timers are read again after each step of the source; the differences
    wrap as [uint32_t]. *)
Definition pinUvAuthToken_usage_time_observer (pin_protocol : Z) : F unit :=
  let* pt := get_pt pin_protocol in
  if negb (in_use (token_state pt)) then ret tt
  else
    let* now := millis in
    let* pt := get_pt pin_protocol in
    (if u32 (now - usage_timer_start_ms (token_state pt)) >? TOKEN_MAX_USAGE_PERIOD_MS
     then stop_using_pinUvAuthToken pin_protocol else ret tt) ;*
    let* pt := get_pt pin_protocol in
    (if u32 (now - usage_timer_start_ms (token_state pt)) >? TOKEN_MAX_USER_PRESENT_MS
     then ctap_client_pin_clear_user_present pin_protocol else ret tt) ;*
    let* pt := get_pt pin_protocol in
    if u32 (now - usage_timer_last_used_ms (token_state pt)) >? TOKEN_MAX_USER_PRESENT_MS
    then stop_using_pinUvAuthToken pin_protocol
    else upd_ts pin_protocol (fun t => t <| usage_timer_last_used_ms := now |>).

Definition reset_pinUvAuthToken (pin_protocol : Z) : F Z :=
  upd_ts pin_protocol (fun _ => token_state_zero) ;*
  let* (r, o) := ctap_generate_rng (Z.of_nat PINUVAUTHTOKEN_SIZE) in
  match o with
  | Some t => upd_pt pin_protocol (fun p => p <| token := t |>) ;* ret 0
  | None => ret (-1)
  end.

Definition associate_permissions_rp_id (rp_id : list Z) (rp_id_size : nat) (pin_protocol : Z) : F unit :=
  if (0 <? rp_id_size)%nat then
    let* (h, _) := ctap_derive_rp_id_info rp_id rp_id_size in
    upd_ts pin_protocol (fun t => t <| permissions_rp_id_hash := h |> <| permissions_rp_id_present := true |>)
  else ret tt.

(** ** What the other commands ask of a token *)

Definition ctap_client_pin_verify_auth_ex (pinUvAuthParam buf : list Z) (pin_protocol : Z) : X dev unit :=
  pinUvAuthToken_usage_time_observer pin_protocol ;*
  let* pt := get_pt pin_protocol in
  if negb (in_use (token_state pt)) then throw CTAP2_ERR_PIN_AUTH_INVALID
  else
    let* r := ctap_client_pin_verify (token pt) buf pinUvAuthParam pin_protocol in
    if r <? 0 then throw CTAP2_ERR_PIN_AUTH_INVALID else ok tt.
Definition ctap_client_pin_verify_auth (pinUvAuthParam clientDataHash : list Z) (pin_protocol : Z) : X dev unit :=
  let* h := lift (mem_read clientDataHash 0 CLIENT_DATA_HASH_SIZE) in
  ctap_client_pin_verify_auth_ex pinUvAuthParam h pin_protocol.

Definition ctap_client_pin_permissions_rp_id_present (pin_protocol : Z) : F bool :=
  let* pt := get_pt pin_protocol in ret (permissions_rp_id_present (token_state pt)).

Definition ctap_client_pin_verify_permissions_rp_id (pin_protocol : Z) (rp_id_hash : list Z) : F bool :=
  let* pt := get_pt pin_protocol in
  let t := token_state pt in
  if permissions_rp_id_present t then
    let* a := lift (mem_read (permissions_rp_id_hash t) 0 32) in
    let* b := lift (mem_read rp_id_hash 0 32) in
    ret (memcmp a b =? 0)
  else ret true.

Definition ctap_client_pin_verify_permissions (pin_protocol requested_permission : Z) : F bool :=
  let* pt := get_pt pin_protocol in
  ret (negb (Z.land (permissions (token_state pt)) requested_permission =? 0)).

(** ** Handing out a token, changing the PIN *)

(** What a wrong PIN leads to. *)
Definition wrong_pin {A} (pinProtocol : Z) : X dev A :=
  regenerate_key_agreement pinProtocol ;*
  let* _ := decrement_pin_attempts in
  let* locked := ctap_client_pin_is_locked in
  if locked : bool then throw CTAP2_ERR_PIN_BLOCKED
  else
    let* boot_locked := ctap_client_pin_is_boot_locked in
    if boot_locked : bool then throw CTAP2_ERR_PIN_AUTH_BLOCKED
    else throw CTAP2_ERR_PIN_INVALID.

(** [pinTokenEnc] *)
Definition add_enc_pinUvAuthToken (platform_pubkey pinHashEnc : list Z) (pinProtocol permissions_ : Z)
    (rp_id : list Z) (rp_id_size : nat) : X dev (list Z) :=
  let* (enc_key, mac_key) := ctap_client_pin_decapsulate platform_pubkey pinProtocol in
  let hash_enc_size := if pinProtocol =? 2 then 32%nat else 16%nat in
  let* pin_hash := decrypt pinHashEnc hash_enc_size enc_key pinProtocol in
  let* eq := verify_against_stored_pin pin_hash in
  if eq =? 0 then wrong_pin pinProtocol
  else
    reset_pin_attempts ;*
    let* _ := reset_pinUvAuthToken 1 in
    let* _ := reset_pinUvAuthToken 2 in
    begin_using_pinUvAuthToken false pinProtocol permissions_ ;*
    associate_permissions_rp_id rp_id rp_id_size pinProtocol ;*
    let* (r, out) := encrypt_pinUvAuthToken enc_key pinProtocol in
    if negb (r =? 0) then throw CTAP1_ERR_OTHER else ok out.

(** Stops at index 0, whatever is there. *)
Fixpoint trailing_zeros (buf : list Z) (indx : nat) : nat :=
  match indx with
  | O => 0%nat
  | S i => if nth indx buf 0 =? 0 then S (trailing_zeros buf i) else 0%nat
  end.

(** [pinHashEnc] is [None] for setPIN. *)
Definition update_pin_if_verified (newPinEnc : list Z) (newPinEncLen : nat)
    (platform_pubkey pinUvAuthParam : list Z) (pinHashEnc : option (list Z)) (pinProtocol : Z) : X dev unit :=
  if (newPinEncLen <? 64)%nat then throw CTAP1_ERR_INVALID_PARAMETER
  else
    let* (enc_key, mac_key) := ctap_client_pin_decapsulate platform_pubkey pinProtocol in
    let hash_enc_size := if pinProtocol =? 2 then 32%nat else 16%nat in
    let* new := lift (mem_read newPinEnc 0 newPinEncLen) in
    let* old := match pinHashEnc with
                | Some h => lift (mem_read h 0 hash_enc_size)
                | None => ret []
                end in
    let* r := ctap_client_pin_verify mac_key (new ++ old) pinUvAuthParam pinProtocol in
    if r <? 0 then throw CTAP2_ERR_PIN_AUTH_INVALID
    else
      let dec_len := (16 * ((newPinEncLen + 15) / 16))%nat in
      let* newPin := decrypt newPinEnc dec_len enc_key pinProtocol in
      let newPinLen := (NEW_PIN_ENC_MIN_SIZE - trailing_zeros newPin (NEW_PIN_ENC_MIN_SIZE - 1))%nat in
      if (newPinLen <? NEW_PIN_MIN_SIZE)%nat || (NEW_PIN_MAX_SIZE <=? newPinLen)%nat
      then throw CTAP2_ERR_PIN_POLICY_VIOLATION
      else
        let* is_set := ctap_client_pin_is_set in
        let^ _ :=
          match pinHashEnc with
          | Some h =>
              if is_set : bool then
                let* pin_hash := decrypt h hash_enc_size enc_key pinProtocol in
                let* eq := verify_against_stored_pin pin_hash in
                if eq =? 0 then wrong_pin pinProtocol
                else
                  reset_pin_attempts ;*
                  let* _ := reset_pinUvAuthToken 1 in
                  let* _ := reset_pinUvAuthToken 2 in
                  ok tt
              else ok tt
          | None => ok tt
          end in
        store_pin newPin newPinLen ;* ok tt.

Definition ctap_client_pin_initialize : F Z :=
  regenerate_key_agreement 1 ;*
  regenerate_key_agreement 2 ;*
  let* _ := reset_pinUvAuthToken 1 in
  let* _ := reset_pinUvAuthToken 2 in
  ret 0.

End ClientPin.

End ClientPin.
