(* ===== verification/ClientPinCmd.v ===== *)
(** * The clientPIN request and command (src/fido2/src/ctap_client_pin.c) *)

From S2P Require Import Prelude Monad Lfs Fs Board CborParser CborProps CborEncoder Sha256 Aes Crypto Rng State CtapTypes.
From S2P Require Import Dev Device CtapStatus CborApi CtapParse CtapEncode Credential ClientPin.
Import Monad Lfs Fs Board CborParser CborProps CborEncoder Sha256 Aes Crypto Rng State CtapTypes
  Dev Device CtapStatus CborApi CtapParse CtapEncode Credential ClientPin.

#[local] Open Scope Z_scope.

Module ClientPinCmd.

Record CTAP_clientPin := mkCp {
  pinProtocol : Z;
  subCommand : Z;
  keyAgreement : COSE_key;
  keyAgreementPresent : bool;
  pinUvAuthParam : list Z;
  pinUvAuthParam_len : Z;
  newPinEnc : list Z;
  newPinEncSize : Z;
  pinHashEnc : list Z;
  pinHashEncPresent : bool;
  cp_permissions : Z;
  permissionsPresent : bool;
  rpId : list Z;
  rpIdSize : Z;
}.
#[export] Instance eta_cp : Eta CTAP_clientPin := fun c =>
  mkCp (pinProtocol c) (subCommand c) (keyAgreement c) (keyAgreementPresent c) (pinUvAuthParam c)
    (pinUvAuthParam_len c) (newPinEnc c) (newPinEncSize c) (pinHashEnc c) (pinHashEncPresent c)
    (cp_permissions c) (permissionsPresent c) (rpId c) (rpIdSize c).

(** As [memset] leaves it. *)
Definition cp_zero : CTAP_clientPin :=
  mkCp 0 0 cose_zero false (zeros PIN_UV_AUTH_PARAM_MAX_SIZE) 0 (zeros NEW_PIN_ENC_MAX_SIZE) 0
    (zeros 32) false 0 false (zeros (S DOMAIN_NAME_MAX_SIZE)) 0.

(** ** The request *)

Section Request.
Context (buf : list Z).

(** The [switch] on the key. *)
Definition cp_case (key : Z) (map : CborValue) (cp : CTAP_clientPin) : P CTAP_clientPin :=
  if key =? CP_Cmd_pinUvAuthProtocol then
    let^ tmp := int_value buf map in
    guard (negb ((tmp <? 0) || (tmp >? 255))) CTAP2_ERR_INVALID_CBOR ^;
    ok (cp <| pinProtocol := tmp |>)
  else if key =? CP_Cmd_subCommand then
    let^ v := int_value buf map in ok (cp <| subCommand := v |>)
  else if key =? CP_Cmd_keyAgreement then
    let^ k := cose_key_parse buf map (keyAgreement cp) in
    ok (cp <| keyAgreement := k |> <| keyAgreementPresent := true |>)
  else if key =? CP_Cmd_pinUvAuthParam then
    let^ (empty, p, len) := ctap_parse_pinUvAuthParam buf map (pinUvAuthParam cp) in
    guard (negb empty) CTAP1_ERR_INVALID_LENGTH ^;
    ok (cp <| pinUvAuthParam := p |> <| pinUvAuthParam_len := len |>)
  else if key =? CP_Cmd_newPinEnc then
    guard (type map =? CborByteStringType) CTAP2_ERR_INVALID_CBOR ^;
    let^ sz := cbor (cbor_value_calculate_string_length buf map) in
    guard (negb ((sz >? Z.of_nat NEW_PIN_ENC_MAX_SIZE) || (sz <? Z.of_nat NEW_PIN_ENC_MIN_SIZE)))
      CTAP2_ERR_PIN_POLICY_VIOLATION ^;
    let^ (fits, _, d) := copy_string buf map NEW_PIN_ENC_MAX_SIZE in
    guard fits CTAP2_ERR_INVALID_CBOR ^;
    let* p := lift (mem_write (newPinEnc cp) 0 d) in
    ok (cp <| newPinEncSize := sz |> <| newPinEnc := p |>)
  else if key =? CP_Cmd_pinHashEnc then
    guard (type map =? CborByteStringType) CTAP2_ERR_INVALID_CBOR ^;
    let^ (fits, _, d) := copy_string buf map 32 in
    guard fits CTAP2_ERR_INVALID_CBOR ^;
    let* h := lift (mem_write (pinHashEnc cp) 0 d) in
    ok (cp <| pinHashEnc := h |> <| pinHashEncPresent := true |>)
  else if key =? CP_Cmd_permissions then
    let^ perm := int_value buf map in
    ok (cp <| cp_permissions := u8 perm |> <| permissionsPresent := true |>)
  else if key =? CP_Cmd_rpId then
    let^ (id, sz) := ctap_parse_rp_id buf (rpId cp) map in
    ok (cp <| rpId := id |> <| rpIdSize := sz |>)
  else ok cp.

Definition parse_client_pin_request : P CTAP_clientPin :=
  let^ it := cbor (cbor_parser_init buf) in
  let^ (map, map_length) := enter_map buf it in
  let^ (_, cp) := int_entries buf cp_case (Z.to_nat map_length) map cp_zero in
  ok cp.

End Request.

(** ** The command *)

Section Command.
Context {L : Lfs} {B : Board} {E : Ecc}.

Definition getPINRetries (encoder : Enc) : X dev Enc :=
  let^ (parent, map) := open_map 2 encoder in
  let^ map := emit (cbor_encode_int CP_Resp_pinRetries) map in
  let* tries := leftover_pin_attempts in
  let^ map := emit (cbor_encode_uint tries) map in
  let^ map := emit (cbor_encode_int CP_Resp_powerCycleState) map in
  let* boot_locked := ctap_client_pin_is_boot_locked in
  let* locked := ctap_client_pin_is_locked in
  let^ map := emit (cbor_encode_boolean (boot_locked && negb locked)) map in
  close parent map.

Definition getKeyAgreement (encoder : Enc) (cp : CTAP_clientPin) : X dev Enc :=
  let* pt := get_pt (pinProtocol cp) in
  let^ (parent, map) := open_map 1 encoder in
  let^ map := emit (cbor_encode_int CP_Resp_keyAgreement) map in
  (if negb (pub_key_valid (key_agreement pt)) then
     upd_ka (pinProtocol cp) (fun ka =>
       ka <| pub_key := default (pub_key ka) (uECC_compute_public_key (priv_key ka)) |> <| pub_key_valid := true |>)
   else ret tt) ;*
  let* pt := get_pt (pinProtocol cp) in
  let k := pub_key (key_agreement pt) in
  let^ map := cose_key_add map (take 32 k) (drop 32 k) COSE_ALG_ECDH_ES_HKDF_256 in
  close parent map.

Definition setPIN (encoder : Enc) (cp : CTAP_clientPin) : X dev Enc :=
  guard (negb ((newPinEncSize cp =? 0) || (pinUvAuthParam_len cp =? 0) || negb (keyAgreementPresent cp)))
    CTAP2_ERR_MISSING_PARAMETER ^;
  let* is_set := ctap_client_pin_is_set in
  guard (negb is_set) CTAP2_ERR_PIN_AUTH_INVALID ^;
  update_pin_if_verified (newPinEnc cp) (Z.to_nat (newPinEncSize cp)) (pubkey (keyAgreement cp))
    (pinUvAuthParam cp) None (pinProtocol cp) ^;
  ok encoder.

Definition changePIN (encoder : Enc) (cp : CTAP_clientPin) : X dev Enc :=
  let* is_set := ctap_client_pin_is_set in
  guard is_set CTAP2_ERR_PIN_NOT_SET ^;
  guard (negb ((newPinEncSize cp =? 0) || (pinUvAuthParam_len cp =? 0) ||
               negb (keyAgreementPresent cp) || negb (pinHashEncPresent cp))) CTAP2_ERR_MISSING_PARAMETER ^;
  update_pin_if_verified (newPinEnc cp) (Z.to_nat (newPinEncSize cp)) (pubkey (keyAgreement cp))
    (pinUvAuthParam cp) (Some (pinHashEnc cp)) (pinProtocol cp) ^;
  ok encoder.

(** The response of the two subcommands that hand out a token. *)
Definition token_response (encoder : Enc) (cp : CTAP_clientPin) (permissions_ : Z) (rp_id_size : nat) : X dev Enc :=
  let^ (parent, map) := open_map 1 encoder in
  let^ map := emit (cbor_encode_int CP_Resp_pinUvAuthToken) map in
  let^ pinTokenEnc := add_enc_pinUvAuthToken (pubkey (keyAgreement cp)) (pinHashEnc cp) (pinProtocol cp)
    permissions_ (rpId cp) rp_id_size in
  let pinTokenEncLen := if pinProtocol cp =? 2 then (CP_IV_SIZE + PINUVAUTHTOKEN_SIZE)%nat else PINUVAUTHTOKEN_SIZE in
  let* t := lift (mem_read pinTokenEnc 0 pinTokenEncLen) in
  let^ map := emit (cbor_encode_byte_string t) map in
  close parent map.

Definition getPinToken (encoder : Enc) (cp : CTAP_clientPin) : X dev Enc :=
  let* is_set := ctap_client_pin_is_set in
  guard is_set CTAP2_ERR_PIN_NOT_SET ^;
  guard (keyAgreementPresent cp && pinHashEncPresent cp) CTAP2_ERR_MISSING_PARAMETER ^;
  guard (negb (permissionsPresent cp || negb (cp_permissions cp =? 0) || (rpIdSize cp >? 0)))
    CTAP1_ERR_INVALID_PARAMETER ^;
  token_response encoder cp CP_pinUvAuthToken_permissions_default_mask 0.

Definition getPinUvAuthTokenUsingPinWithPermissions (encoder : Enc) (cp : CTAP_clientPin) : X dev Enc :=
  let* is_set := ctap_client_pin_is_set in
  guard is_set CTAP2_ERR_PIN_NOT_SET ^;
  guard (keyAgreementPresent cp && pinHashEncPresent cp) CTAP2_ERR_MISSING_PARAMETER ^;
  guard (permissionsPresent cp && negb (cp_permissions cp =? 0)) CTAP2_ERR_MISSING_PARAMETER ^;
  let perm := Z.land (cp_permissions cp) CP_pinUvAuthToken_permissions_defined_mask in
  guard (Z.land perm CP_pinUvAuthToken_permissions_unsupported_mask =? 0) CTAP2_ERR_UNAUTHORIZED_PERMISSION ^;
  let rp_id_required :=
    Z.land perm (Z.lor CP_pinUvAuthToken_permissions_mc CP_pinUvAuthToken_permissions_ga) in
  guard (negb (negb (rp_id_required =? 0) && (rpIdSize cp =? 0))) CTAP2_ERR_MISSING_PARAMETER ^;
  token_response encoder cp perm (Z.to_nat (rpIdSize cp)).

(** The subcommands behind the lock. *)
Definition unlocked_subcommand (encoder : Enc) (cp : CTAP_clientPin) : X dev Enc :=
  let* locked := ctap_client_pin_is_locked in
  guard (negb locked) CTAP2_ERR_PIN_BLOCKED ^;
  let* boot_locked := ctap_client_pin_is_boot_locked in
  guard (negb boot_locked) CTAP2_ERR_PIN_AUTH_BLOCKED ^;
  if subCommand cp =? CP_SubCmd_changePIN then changePIN encoder cp
  else if subCommand cp =? CP_SubCmd_getPinToken then getPinToken encoder cp
  else if subCommand cp =? CP_SubCmd_getPinUvAuthTokenUsingPinWithPermissions
  then getPinUvAuthTokenUsingPinWithPermissions encoder cp
  else throw CTAP2_ERR_INVALID_SUBCOMMAND.

Definition ctap_client_pin (encoder : Enc) (request : list Z) : X dev Enc :=
  let^ cp := parse (parse_client_pin_request request) in
  (if subCommand cp =? CP_SubCmd_getPINRetries then ok tt
   else
     guard (negb (pinProtocol cp =? 0)) CTAP2_ERR_MISSING_PARAMETER ^;
     guard ((pinProtocol cp =? 1) || (pinProtocol cp =? 2)) CTAP1_ERR_INVALID_PARAMETER) ^;
  if subCommand cp =? CP_SubCmd_getPINRetries then getPINRetries encoder
  else if subCommand cp =? CP_SubCmd_getKeyAgreement then getKeyAgreement encoder cp
  else if subCommand cp =? CP_SubCmd_setPIN then setPIN encoder cp
  else unlocked_subcommand encoder cp.

End Command.

End ClientPinCmd.
