(* ===== verification/Extensions.v ===== *)
(** * CTAP2 extensions: hmac-secret and credProtect (src/fido2/src/ctap_extensions.c) *)

From Stdlib Require Import Ascii.
From stdpp Require Import strings.
From S2P Require Import Prelude Monad Lfs Fs Board CborParser CborApi CborEncoder Sha256 Aes Crypto Rng State CtapTypes.
From S2P Require Import Dev Device CtapStatus CtapParse CtapEncode Credential ClientPin.
Import Monad Lfs Fs Board CborParser CborApi CborEncoder Sha256 Aes Crypto Rng State CtapTypes
  Dev Device CtapStatus CtapParse CtapEncode Credential ClientPin.

#[local] Open Scope Z_scope.

Module Extensions.

Definition EXT_HMAC_SECRET_COSE_KEY : Z := 0x01.
Definition EXT_HMAC_SECRET_SALT_ENC : Z := 0x02.
Definition EXT_HMAC_SECRET_SALT_AUTH : Z := 0x03.
Definition EXT_HMAC_SECRET_REQUESTED : Z := 0x01.
Definition EXT_HMAC_SECRET_PARSED : Z := 0x02.
Definition EXT_CRED_PROTECT_INVALID : Z := 0x00.
Definition EXT_CRED_PROTECT_OPTIONAL : Z := 0x01.

Inductive ReqType := REQ_TYPE_MC | REQ_TYPE_GA.

(** ** The input *)

Section Input.
Context (buf : list Z).

(** [cbor_value_get_int] (cbor.h): the conversion to [int] keeps the low 32
    bits. *)
Definition s32 (v : Z) : Z := u32 (v + 2147483648) - 2147483648.
Definition cbor_value_get_int (v : CborValue) : res (CborError * Z) :=
  let! _ := assertion (cbor_value_is_integer v) in
  let! n := _cbor_value_extract_int64_helper buf v in
  Done (CborNoError, if has_flag NegativeInteger v then s32 (- s32 n - 1) else s32 n).

(** A loop over integer keys read by [cbor_value_get_int]. *)
Fixpoint any_int_entries {A} (case : Z -> CborValue -> A -> P A) (n : nat) (map : CborValue) (a : A)
    : P (CborValue * A) :=
  match n with
  | O => ok (map, a)
  | S n =>
      guard (type map =? CborIntegerType) CTAP2_ERR_INVALID_CBOR ^;
      let^ key := cbor (cbor_value_get_int map) in
      let^ map := cbor (cbor_value_advance buf map) in
      let^ a := case key map a in
      let^ map := cbor (cbor_value_advance buf map) in
      any_int_entries case n map a
  end.

(** [cbor_value_copy_byte_string], which asserts the type: whether it fits,
    its length and the bytes written. *)
Definition copy_bytes (v : CborValue) (n : nat) : P (bool * Z * list Z) :=
  let* _ := lift (assertion (cbor_value_is_byte_string v)) in copy_string buf v n.

(** The structure and [parsed_count]. *)
Definition hmac_case (key : Z) (map : CborValue) (a : CTAP_hmac_secret * Z) : P (CTAP_hmac_secret * Z) :=
  let '(hs, parsed_count) := a in
  if key =? EXT_HMAC_SECRET_COSE_KEY then
    let^ k := cose_key_parse buf map (hs_keyAgreement hs) in
    ok (hs <| hs_keyAgreement := k |>, u8 (parsed_count + 1))
  else if key =? EXT_HMAC_SECRET_SALT_ENC then
    let^ (fits, salt_len, d) := copy_bytes map 64 in
    guard (negb ((negb (salt_len =? 32) && negb (salt_len =? 64)) || negb fits)) CTAP1_ERR_INVALID_LENGTH ^;
    let* s := lift (mem_write (saltEnc hs) 0 d) in
    ok (hs <| saltEnc := s |> <| saltLen := u8 salt_len |>, u8 (parsed_count + 1))
  else if key =? EXT_HMAC_SECRET_SALT_AUTH then
    let^ (fits, _, d) := copy_bytes map 32 in
    guard fits CTAP2_ERR_INVALID_CBOR ^;
    let* s := lift (mem_write (saltAuth hs) 0 d) in
    ok (hs <| saltAuth := s |>, u8 (parsed_count + 1))
  else ok (hs, parsed_count).

Definition ctap_extensions_parse_hmac_secret (val : CborValue) (hs : CTAP_hmac_secret) : P CTAP_hmac_secret :=
  let^ (map, map_length) := enter_map buf val in
  let^ (_, (hs, parsed_count)) := any_int_entries hmac_case (Z.to_nat map_length) map (hs, 0) in
  guard (parsed_count =? 3) CTAP2_ERR_MISSING_PARAMETER ^;
  ok hs.

Definition ext_case (request : ReqType) (key : list Z) (map : CborValue) (ext : CTAP_extensions) : P CTAP_extensions :=
  if bool_decide (key = text "hmac-secret") then
    match request with
    | REQ_TYPE_MC =>
        guard (type map =? CborBooleanType) CTAP2_ERR_INVALID_CBOR ^;
        let* b := lift (cbor_value_get_boolean map) in
        ok (if b then ext <| hmac_secret_present := EXT_HMAC_SECRET_REQUESTED |> else ext)
    | REQ_TYPE_GA =>
        guard (type map =? CborMapType) CTAP2_ERR_INVALID_CBOR ^;
        let^ hs := ctap_extensions_parse_hmac_secret map (hmac_secret ext) in
        ok (ext <| hmac_secret := hs |> <| hmac_secret_present := EXT_HMAC_SECRET_PARSED |>)
    end
  else if bool_decide (key = text "credProtect") then
    match request with
    | REQ_TYPE_GA => throw CTAP2_ERR_INVALID_CBOR
    | REQ_TYPE_MC =>
        guard (type map =? CborIntegerType) CTAP2_ERR_INVALID_CBOR ^;
        let^ value := cbor (cbor_value_get_int map) in
        guard ((value >=? 1) && (value <=? 3)) CTAP1_ERR_INVALID_PARAMETER ^;
        ok (ext <| cred_protect := value |>)
    end
  else ok ext.

(** [char key[16]]: a longer key is skipped with its value. *)
Fixpoint ext_entries (request : ReqType) (n : nat) (map : CborValue) (ext : CTAP_extensions) : P CTAP_extensions :=
  match n with
  | O => ok ext
  | S n =>
      guard (type map =? CborTextStringType) CTAP2_ERR_INVALID_CBOR ^;
      let^ (fits, _, d) := copy_string buf map 16 in
      let^ map := cbor (cbor_value_advance buf map) in
      let^ ext := if fits : bool then ext_case request (cstr (take 15 d)) map ext else ok ext in
      let^ map := cbor (cbor_value_advance buf map) in
      ext_entries request n map ext
  end.

Definition ctap_extensions_parse_input (val : CborValue) (ext : CTAP_extensions) (request : ReqType)
    : P CTAP_extensions :=
  let^ (map, map_length) := enter_map buf val in
  ext_entries request (Z.to_nat map_length) map ext.

End Input.

(** ** The output *)

(** The map of the extensions used: the outputs of hmac-secret and of
    credProtect, and whether hmac-secret was requested. *)
Definition encode_map (hmac_secret_output : option (list Z)) (cred_protect : option Z) (requested : bool)
    (out : list Z) : res (CborError * list Z * nat) :=
  let n := b2z (bool_decide (is_Some hmac_secret_output)) + b2z (bool_decide (is_Some cred_protect)) + b2z requested in
  let! (parent, r) := cbor_encoder_create_map n (cbor_encoder_init (length out)) out in
  let! (err, map, out) :=
    let? (map, out) := Done r in
    let? (map, out) :=
      match hmac_secret_output with
      | Some o =>
          let? (map, out) := text_stringz (text "hmac-secret") map out in cbor_encode_byte_string o map out
      | None => Done (CborNoError, map, out)
      end in
    let? (map, out) :=
      match cred_protect with
      | Some v => let? (map, out) := text_stringz (text "credProtect") map out in cbor_encode_int v map out
      | None => Done (CborNoError, map, out)
      end in
    let? (map, out) :=
      (if requested then
         let? (map, out) := text_stringz (text "hmac-secret") map out in cbor_encode_boolean true map out
       else Done (CborNoError, map, out)) in
    Done (cbor_encoder_close_container parent map out) in
  Done (err, out, cbor_encoder_get_buffer_size map).

Section Output.
Context {L : Lfs} {B : Board} {E : Ecc}.

(** HMAC under the 32 bytes of [key] over the pieces. *)
Definition hmac32 (key : list Z) (ps : list (list Z)) : F (list Z) :=
  sha_ (crypto_sha256_hmac_init key 32) ;*
  sha_pieces ps ;*
  sha (crypto_sha256_hmac_final key 32).

(** The CredentialId at [ext->hmac_secret.credential]. *)
Definition deref_credential (p : option nat) : F (list Z) :=
  let* creds := gets (fun d => gs_creds (getAssertionState d)) in
  match p ≫= (fun i => creds !! i) with
  | Some c => lift (mem_read (desc_id c) 0 CRED_SIZE)
  | None => stop FOutOfBounds
  end.

(** The branch of a request with salts: the encrypted output. *)
Definition hmac_secret_output (hs : CTAP_hmac_secret) : X dev (list Z) :=
  let n := Z.to_nat (saltLen hs) in
  let* (shared_secret, _) := ctap_client_pin_decapsulate (pubkey (hs_keyAgreement hs)) 1 in
  let* salt := lift (mem_read (saltEnc hs) 0 n) in
  let* r := ctap_client_pin_verify shared_secret salt (saltAuth hs) 1 in
  guard (negb (r <? 0)) CTAP2_ERR_PIN_AUTH_INVALID ^;
  let* hmac_key := gets (fun d => key_hmac_ext (ses_keys (d_crypto d))) in
  let* id := deref_credential (hs_credential hs) in
  let* uv := gets (fun d => gs_user_verified (getAssertionState d)) in
  let* credRandom := hmac32 hmac_key [id; [uv]] in
  aes (crypto_aes256_init shared_secret None) ;*
  let* salt := aes_buf (crypto_aes256_decrypt (saltEnc hs) (saltLen hs)) in
  let* salt1 := lift (mem_read salt 0 32) in
  let* out1 := hmac32 credRandom [salt1] in
  let* out2 :=
    (if saltLen hs =? 64 then
       let* salt2 := lift (mem_read salt 32 32) in hmac32 credRandom [salt2]
     else ret []) in
  aes (crypto_aes256_init shared_secret None) ;*
  let* out := aes_buf (crypto_aes256_encrypt (out1 ++ out2) (saltLen hs)) in
  ok out.

(** The status, the buffer and [*ext_encoder_buf_size], which keeps its value
    after an error. *)
Definition ctap_extensions_encode_output (ext : CTAP_extensions) (out : list Z) : F (Z * list Z * nat) :=
  let* r :=
    (if hmac_secret_present ext =? EXT_HMAC_SECRET_PARSED then
       let^ o := hmac_secret_output (hmac_secret ext) in ok (Some o)
     else ok None) in
  match r with
  | inl e => ret (e, out, length out)
  | inr o =>
      let requested := hmac_secret_present ext =? EXT_HMAC_SECRET_REQUESTED in
      let cp := cred_protect ext in
      let cp := if (cp =? EXT_CRED_PROTECT_OPTIONAL) || (cp =? EXT_CRED_PROTECT_OPTIONAL_WITH_CREDID) ||
                   (cp =? EXT_CRED_PROTECT_REQUIRED) then Some cp else None in
      match o, cp, requested with
      | None, None, false => ret (CTAP2_OK, out, 0%nat)
      | _, _, _ =>
          let* (err, out', n) := lift (encode_map o cp requested out) in
          ret (match err with
               | CborNoError => (CTAP2_OK, out', n)
               | _ => (CTAP2_ERR_INVALID_CBOR, out', length out)
               end)
      end
  end.

End Output.

End Extensions.
