(* ===== verification/AuthData.v ===== *)
(** * Authenticator data, start-up and reset (src/fido2/src/ctap.c, ctap_reset.c, version.c) *)

From S2P Require Import Prelude Monad Lfs Fs Board CborParser CborEncoder Sha256 Aes Crypto Rng State CtapTypes.
From S2P Require Import Dev Device CtapStatus CtapParse CtapEncode Credential Attestation Signing ClientPin.
Import Monad Lfs Fs Board CborParser CborEncoder Sha256 Aes Crypto Rng State CtapTypes
  Dev Device CtapStatus CtapParse CtapEncode Credential Attestation Signing ClientPin.

#[local] Open Scope Z_scope.

Module AuthData.

Definition AUTHENTICATOR_RESET_TIME_MS : Z := 10 * 1000.
Definition CREDID_ALG_ES256 : Z := 0x0.
(** [sizeof(CTAP_authDataHeader)] and [sizeof(CTAP_authData)] *)
Definition HEAD_SIZE : nat := 37.
Definition AUTH_DATA_SIZE : nat := HEAD_SIZE + 16 + 2 + CRED_SIZE.

(** [struct rpId], without the name that no code reads. *)
Record rpId := mkRpId {
  rp_name_id : list Z;
  rp_size : Z;
}.
#[export] Instance eta_rpId : Eta rpId := fun r => mkRpId (rp_name_id r) (rp_size r).
Definition rpId_zero : rpId := mkRpId (zeros (S DOMAIN_NAME_MAX_SIZE)) 0.

Record CTAP_credInfo := mkInfo {
  ci_user : CTAP_userEntity;
  publicKeyCredentialType : Z;
  coseAlgorithmIdentifier : Z;
  ci_rk : Z;
}.
#[export] Instance eta_info : Eta CTAP_credInfo := fun c =>
  mkInfo (ci_user c) (publicKeyCredentialType c) (coseAlgorithmIdentifier c) (ci_rk c).

Section AuthData.
Context {L : Lfs} {B : Board} {E : Ecc}.

(** The encryption in place of [rk.user] and [rk.rp], which lie together. *)
Definition xcrypt_rk (rk : CTAP_residentKey) : F CTAP_residentKey :=
  let* b := ctap_xcrypt_buf (rk_nonce rk) (user_bytes (rk_user rk) ++ rp_bytes (rk_rp rk))
              (Z.of_nat (USER_SIZE + RP_SIZE)) in
  ret (rk <| rk_user := user_of (take USER_SIZE b) |> <| rk_rp := rp_of (drop USER_SIZE b) |>).

(** [rk_tag], over what comes before it. *)
Definition tag_rk (rk : CTAP_residentKey) : F CTAP_residentKey :=
  let* tag := ctap_compute_mac (take RK_HMAC_SIZE (rk_bytes rk)) CREDENTIAL_TAG_SIZE in
  ret (rk <| rk_tag := tag |>).

(** The resident key branch. *)
Definition store_resident_key (rp : rpId) (rp_id_hash : list Z) (credInfo : CTAP_credInfo) (id : CredentialId)
    : X dev unit :=
  let* st := gets STATE in
  guard (negb (rk_stored st >=? ctap_max_number_of_rks)) CTAP2_ERR_KEY_STORE_FULL ^;
  let user := ci_user credInfo in
  let* h := lift (mem_read rp_id_hash 0 32) in
  let* lookup := derive_user_id_lookup (u_id user) (Z.to_nat (u_id_size user)) in
  let* (name, name_len) := lift (truncate_rpid (zeros CREDENTIAL_RP_ID_SIZE) (rp_name_id rp) (Z.to_nat (rp_size rp))) in
  let* nonce := fill_random (zeros CREDENTIAL_NONCE_SIZE) in
  let* rk := xcrypt_rk (mkRk 0 id user (mkRp h name name_len) lookup nonce (zeros CREDENTIAL_TAG_SIZE)) in
  let* rk := tag_rk rk in
  let* r := ctap_overwrite_rk rk in
  guard (negb (r <? 0)) CTAP1_ERR_OTHER.

(** The credential of a new key. *)
Definition make_credential_id (rp_id_lookup : list Z) (count : Z) (credInfo : CTAP_credInfo) (cred_protect : Z)
    : F CredentialId :=
  let* nonce := fill_random (zeros CREDENTIAL_NONCE_SIZE) in
  let alg := if coseAlgorithmIdentifier credInfo =? COSE_ALG_EDDSA then CREDID_ALG_EDDSA else CREDID_ALG_ES256 in
  let metadata := [Z.land (ci_rk credInfo) CREDENTIAL_META_IS_RK_BITMASK; 0; alg; cred_protect] in
  let* metadata := ctap_xcrypt_buf nonce metadata (Z.of_nat CREDENTIAL_METADATA_SIZE) in
  let* lookup := lift (mem_read rp_id_lookup 0 CREDENTIAL_TAG_SIZE) in
  let* tag := ctap_make_auth_tag 0 lookup nonce metadata count in
  ret (mkCred 0 lookup nonce metadata count tag).

(** The attested credential data: what follows the header in a buffer of
    [len] bytes. *)
Definition attested_data (rp : rpId) (rp_id_hash rp_id_lookup : list Z) (len : nat) (count : Z)
    (credInfo : CTAP_credInfo) (cred_protect : Z) : X dev (list Z) :=
  let cose_size := (len - AUTH_DATA_SIZE)%nat in
  let cose_key := (cbor_encoder_init cose_size, zeros cose_size) in
  let* id := make_credential_id rp_id_lookup count credInfo cred_protect in
  (if negb (ci_rk credInfo =? 0) then store_resident_key rp rp_id_hash credInfo id else ok tt) ^;
  let* (_, cose_key) := cose_key_generate cose_key (cred_bytes id)
    (publicKeyCredentialType credInfo) (coseAlgorithmIdentifier credInfo) in
  let* key := lift (mem_read (snd cose_key) 0 (cbor_encoder_get_buffer_size (fst cose_key))) in
  ok (attestation_read_aaguid ++
      [Z.shiftr (Z.land (Z.of_nat CRED_SIZE) 0xFF00) 8; Z.land (Z.of_nat CRED_SIZE) 0x00FF] ++
      cred_bytes id ++ key).

(** [put] writes the header where [auth_data_buf] points, [head] is what was
    there; the result is the header and what follows it. *)
Definition ctap_make_auth_data (rp : rpId) (rp_id_hash rp_id_lookup : list Z) (head : CTAP_authDataHeader)
    (put : CTAP_authDataHeader -> F unit) (len : nat) (credInfo : option CTAP_credInfo) (cred_protect : Z)
    : X dev (CTAP_authDataHeader * list Z) :=
  if (len <? HEAD_SIZE)%nat then stop FExit
  else
    let* h := lift (mem_read rp_id_hash 0 32) in
    let head := head <| ah_rpIdHash := h |> in
    put head ;*
    let* (count, bytes) := ctap_auth_data_update_count in
    let head := head <| ah_signCount := bytes |> in
    put head ;*
    let* r := ctap2_user_presence_test in
    guard ((r =? CTAP2_ERR_USER_PRESENCE_DISABLED) || (r =? CTAP2_OK)) r ^;
    let flags := if r =? CTAP2_ERR_USER_PRESENCE_DISABLED then 0 else 1 in
    let* is_set := ctap_client_pin_is_set in
    let flags := Z.lor flags (Z.shiftl (b2z is_set) 2) in
    match credInfo with
    | None => let head := head <| ah_flags := flags |> in put head ;* ok (head, [])
    | Some info =>
        let head := head <| ah_flags := Z.lor flags (Z.shiftl 1 6) |> in
        put head ;*
        let^ att := attested_data rp rp_id_hash rp_id_lookup len count info cred_protect in
        ok (head, att)
    end.

(** ** Start-up and reset *)

(** version.c: the bytes of [app_version_t], from the lowest. *)
Definition major (v : Z) : Z := u8 v.
Definition minor (v : Z) : Z := u8 (Z.shiftr v 8).
Definition patch (v : Z) : Z := u8 (Z.shiftr v 16).
Definition version_compare (a b : Z) : Z :=
  if negb (major a =? major b) then major a - major b
  else if negb (minor a =? minor b) then minor a - minor b
  else patch a - patch b.

(** The version number is set by the build. *)
Context (version_get_version : Z).

Definition ctap_state_init : F unit :=
  let* key_salt := fill_random (zeros 64) in
  upd_state (fun _ => mkState STATE_VERSION version_get_version 0 PIN_LOCKOUT_ATTEMPTS
                        (zeros 16) (zeros 16) 0 key_salt) ;*
  ctap_reset_rk.

(** [false] when the application must not start. *)
Definition ctap_init : F bool :=
  derive_device_keys ;*
  let* st := gets STATE in
  let* (is_init, st) := authenticator_read_state st in
  upd_state (fun _ => st) ;*
  (if negb (is_init =? 0) then ret tt
   else ctap_state_init ;* let* st := gets STATE in authenticator_write_state st) ;*
  let* st := gets STATE in
  let r := version_compare version_get_version (app_version st) in
  if r <? 0 then ret false
  else
    (if r >? 0 then
       upd_state (fun st => st <| app_version := version_get_version |>) ;*
       let* st := gets STATE in authenticator_write_state st
     else ret tt) ;*
    device_set_status CTAPHID_STATUS_IDLE ;*
    derive_session_keys ;*
    let* _ := ctap_client_pin_initialize in
    ret true.

Definition ctap_reset_state : F unit := upd getAssertionState (fun _ => gas_zero).

(** A release build: [DEBUG_LEVEL] is not set. *)
Definition ctap_reset : X dev unit :=
  let* now := millis in
  guard (negb (now >? AUTHENTICATOR_RESET_TIME_MS)) CTAP2_ERR_NOT_ALLOWED ^;
  let* r := ctap2_user_presence_test in
  guard (r =? CTAP2_OK) r ^;
  ctap_state_init ;*
  let* st := gets STATE in
  authenticator_write_state st ;*
  ctap_reset_state ;*
  let* _ := ctap_client_pin_initialize in
  derive_session_keys ;*
  ok tt.

End AuthData.

End AuthData.
