(* ===== verification/Qsort.v ===== *)
(** * Sorting (src/targets/tkey/libc/newlib/libc/search/qsort.c)

    The quicksort of Bentley and McIlroy in the C library of the firmware: an
    array of [n] elements at [a] in the list [l].  Pointers are indices of
    elements; [es] and the kinds of [swapfunc] are the size of an element, and
    every element is read and swapped inside of the list or the access is out of
    bounds.  Parts still to be sorted wait on a stack of eight, and function
    calls take over when it is full. *)

From stdpp Require Import sorting.
From S2P Require Import Prelude.

Module Qsort.

Section Sort.
Context {A : Type} (cmp : A -> A -> Z).

Definition PARAMETER_STACK_LEVELS : nat := 8.

Definition get (i : nat) (l : list A) : res A :=
  match l !! i with
  | Some x => Done x
  | None => Fault FOutOfBounds
  end.
Definition CMP (i j : nat) (l : list A) : res Z :=
  let! x := get i l in let! y := get j l in Done (cmp x y).
Definition swap (i j : nat) (l : list A) : res (list A) :=
  let! x := get i l in let! y := get j l in Done (<[j := x]> (<[i := y]> l)).

(** [n] elements at [i] and at [j]. *)
Fixpoint vecswap (i j n : nat) (l : list A) : res (list A) :=
  match n with
  | O => Done l
  | S n => let! l := swap i j l in vecswap (S i) (S j) n l
  end.

Definition med3 (a b c : nat) (l : list A) : res nat :=
  let! ab := CMP a b l in
  if (ab <? 0)%Z then
    let! bc := CMP b c l in
    if (bc <? 0)%Z then Done b
    else let! ac := CMP a c l in Done (if (ac <? 0)%Z then c else a)
  else
    let! bc := CMP b c l in
    if (bc >? 0)%Z then Done b
    else let! ac := CMP a c l in Done (if (ac <? 0)%Z then a else c).

(** ** Insertion sort *)

(** [pl] is [a + k]. *)
Fixpoint sink (a k : nat) (l : list A) : res (list A) :=
  match k with
  | O => Done l
  | S k' =>
      let! c := CMP (a + k') (a + k) l in
      if (c >? 0)%Z then let! l := swap (a + k) (a + k') l in sink a k' l else Done l
  end.
(** [pm] is [a + k], with [m] elements to come. *)
Fixpoint insertion_loop (a k m : nat) (l : list A) : res (list A) :=
  match m with
  | O => Done l
  | S m => let! l := sink a k l in insertion_loop a (S k) m l
  end.
Definition insertion_sort (a n : nat) (l : list A) : res (list A) := insertion_loop a 1 (n - 1) l.

(** ** Partition *)

Definition choose_pivot (a n : nat) (l : list A) : res nat :=
  let pm := (a + n / 2)%nat in
  if (7 <? n)%nat then
    let pl := a in
    let pn := (a + (n - 1))%nat in
    let! (pl, pm, pn) :=
      if (40 <? n)%nat then
        let d := (n / 8)%nat in
        let! pl := med3 pl (pl + d) (pl + 2 * d) l in
        let! pm := med3 (pm - d) pm (pm + d) l in
        let! pn := med3 (pn - 2 * d) (pn - d) pn l in
        Done (pl, pm, pn)
      else Done (pl, pm, pn) in
    med3 pl pm pn l
  else Done pm.

(** [pa], [pb], [pc], [pd], [swap_cnt] and the array. *)
Record scan := mkScan {
  pa : nat;
  pb : nat;
  pc : nat;
  pd : nat;
  swap_cnt : bool;
  arr : list A;
}.

(** The two inner loops; [k] is the number of elements from [pb] to [pc]. *)
Fixpoint scan_right (k a : nat) (s : scan) : res scan :=
  match k with
  | O => Done s
  | S k =>
      let! c := CMP (pb s) a (arr s) in
      if (c <=? 0)%Z then
        if (c =? 0)%Z then
          let! l := swap (pa s) (pb s) (arr s) in
          scan_right k a (mkScan (S (pa s)) (S (pb s)) (pc s) (pd s) true l)
        else scan_right k a (mkScan (pa s) (S (pb s)) (pc s) (pd s) (swap_cnt s) (arr s))
      else Done s
  end.
Fixpoint scan_left (k a : nat) (s : scan) : res scan :=
  match k with
  | O => Done s
  | S k =>
      let! c := CMP (pc s) a (arr s) in
      if (c >=? 0)%Z then
        if (c =? 0)%Z then
          let! l := swap (pc s) (pd s) (arr s) in
          scan_left k a (mkScan (pa s) (pb s) (pc s - 1) (pd s - 1) true l)
        else scan_left k a (mkScan (pa s) (pb s) (pc s - 1) (pd s) (swap_cnt s) (arr s))
      else Done s
  end.

(** [for (;;)]; every round that does not break takes two elements. *)
Fixpoint partition_loop (fuel a : nat) (s : scan) : res scan :=
  match fuel with
  | O => Fault FAssert
  | S fuel =>
      let! s := scan_right (S (pc s) - pb s) a s in
      let! s := scan_left (S (pc s) - pb s) a s in
      if (pc s <? pb s)%nat then Done s
      else
        let! l := swap (pb s) (pc s) (arr s) in
        partition_loop fuel a (mkScan (pa s) (S (pb s)) (pc s - 1) (pd s) true l)
  end.
Definition partition (a n : nat) (l : list A) : res scan :=
  partition_loop n a (mkScan (a + 1) (a + 1) (a + (n - 1)) (a + (n - 1)) false l).

(** The equal elements of both ends to the middle. *)
Definition gather (a n : nat) (s : scan) : res (list A) :=
  let pn := (a + n)%nat in
  let r := Nat.min (pa s - a) (pb s - pa s) in
  let! l := vecswap a (pb s - r) r (arr s) in
  let r := Nat.min (pd s - pc s) (pn - pd s - 1) in
  vecswap (pb s) (pn - r) r l.

(** ** The loop *)

(** [loop:] with the parts on the stack, the top first.  The fuel bounds the
    number of elements still to be sorted ([QsortProps.qsort_ends]). *)
Fixpoint sort (fuel : nat) (parameter_stack : list (nat * nat)) (a n : nat) (l : list A) : res (list A) :=
  match fuel with
  | O => Fault FAssert
  | S fuel =>
      let pop l :=
        match parameter_stack with
        | [] => Done l
        | (a, n) :: parameter_stack => sort fuel parameter_stack a n l
        end in
      if (n <? 7)%nat then let! l := insertion_sort a n l in pop l
      else
        let! pm := choose_pivot a n l in
        let! l := swap a pm l in
        let! s := partition a n l in
        if negb (swap_cnt s) then let! l := insertion_sort a n (arr s) in pop l
        else
          let! l := gather a n s in
          let d := (pb s - pa s)%nat in
          let r := (pd s - pc s)%nat in
          let pn := (a + n - r)%nat in
          let '(a, n, pa, r) := if (d <? r)%nat then (pn, r, a, d) else (a, d, pn, r) in
          if (1 <? r)%nat then
            if (length parameter_stack <? PARAMETER_STACK_LEVELS)%nat then sort fuel ((a, n) :: parameter_stack) pa r l
            else
              let! l := sort fuel [] pa r l in
              if (1 <? n)%nat then sort fuel parameter_stack a n l else pop l
          else if (1 <? n)%nat then sort fuel parameter_stack a n l
          else pop l
  end.

(** The first [n] elements of [l]. *)
Definition qsort (n : nat) (l : list A) : res (list A) := sort (S n) [] 0 n l.

End Sort.

Example qsort_60 : qsort Z.sub 60 (map (fun i => (Z.of_nat i * 37) mod 23) (seq 0 62))
  = Done (merge_sort Z.le (map (fun i => (Z.of_nat i * 37) mod 23) (seq 0 60)) ++ [(60 * 37) mod 23; (61 * 37) mod 23]).
Proof. vm_compute. reflexivity. Qed.

End Qsort.
