(* ===== verification/QsortProps.v ===== *)
(** * What the quicksort does

    For every comparison function: it ends, no access is out of bounds, and the
    part it is given is permuted while the rest stays.  For a comparison that is a
    total preorder the part is sorted. *)

From stdpp Require Import sorting.
From S2P Require Import Prelude Qsort.
Import Qsort.

Module QsortProps.

#[local] Open Scope nat_scope.

Section Sort.
Context {A : Type} (cmp : A -> A -> Z).

(** A total preorder. *)
Record order : Prop := {
  ord_sym x y : Z.sgn (cmp y x) = (- Z.sgn (cmp x y))%Z;
  ord_trans x y z : (cmp x y <= 0)%Z -> (cmp y z <= 0)%Z -> (cmp x z <= 0)%Z;
}.
Definition le (x y : A) : Prop := (cmp x y <= 0)%Z.

(** ** Exchanges inside a window *)

Lemma get_done i (l : list A) : i < length l -> exists x, l !! i = Some x /\ get i l = Done x.
Proof. intros H. unfold get. destruct (lookup_lt_is_Some_2 l i H) as [x E]. rewrite E. by exists x. Qed.

(** What an exchange leaves where. *)
Definition exchanged (i j : nat) (l l' : list A) : Prop :=
  length l' = length l /\ l' ≡ₚ l /\
  forall k, l' !! k = if decide (k = j) then l !! i else if decide (k = i) then l !! j else l !! k.

Lemma swap_done i j (l : list A) : i < length l -> j < length l -> exists l', swap i j l = Done l' /\ exchanged i j l l'.
Proof.
  intros Hi Hj. destruct (get_done i l Hi) as (x & Ex & Gx), (get_done j l Hj) as (y & Ey & Gy).
  unfold swap. rewrite Gx, Gy. cbn [res_bind]. eexists. split; [done|]. split; [by rewrite !length_insert|]. split.
  - by apply Permutation_insert_swap.
  - intros k. destruct (decide (k = j)) as [->|Hj'].
    + by rewrite list_lookup_insert_eq, Ex by (by rewrite length_insert).
    + rewrite list_lookup_insert_ne by done. destruct (decide (k = i)) as [->|Hi'].
      * by rewrite list_lookup_insert_eq, Ey by done.
      * by rewrite list_lookup_insert_ne.
Qed.

(** Exchanges of elements from [a] to [b] - 1. *)
Inductive moves (a b : nat) (l : list A) : list A -> Prop :=
| moves_none : moves a b l l
| moves_swap i j l1 l2 : moves a b l l1 -> a <= i < b -> a <= j < b -> exchanged i j l1 l2 -> moves a b l l2.

Lemma moves_trans a b l1 l2 l3 : moves a b l1 l2 -> moves a b l2 l3 -> moves a b l1 l3.
Proof.
  intros H1 H2. induction H2 as [|i j l3 l4 _ IH Hi Hj E]; [done|]. exact (moves_swap _ _ _ i j _ _ IH Hi Hj E).
Qed.
Lemma moves_one a b i j l l' : a <= i < b -> a <= j < b -> exchanged i j l l' -> moves a b l l'.
Proof. intros Hi Hj H. eapply moves_swap; [apply moves_none|exact Hi|exact Hj|done]. Qed.
Lemma moves_wider a b a' b' l l' : moves a b l l' -> a' <= a -> b <= b' -> moves a' b' l l'.
Proof.
  intros M Ha Hb. induction M as [|i j l1 l2 _ IH Hi Hj E]; [apply moves_none|].
  eapply moves_swap; [exact IH| | |exact E]; lia.
Qed.
Lemma moves_length a b l l' : moves a b l l' -> length l' = length l.
Proof. induction 1 as [|i j l1 l2 _ IH _ _ (E & _)]; congruence. Qed.
Lemma moves_permutation a b l l' : moves a b l l' -> l' ≡ₚ l.
Proof. induction 1 as [|i j l1 l2 _ IH _ _ (_ & E & _)]; [done|]. by rewrite E. Qed.
Lemma moves_outside a b l l' k : moves a b l l' -> k < a \/ b <= k -> l' !! k = l !! k.
Proof.
  intros H Hk. induction H as [|i j l1 l2 _ IH Hi Hj (_ & _ & E)]; [done|].
  rewrite E. destruct (decide _); [lia|]. destruct (decide _); [lia|]. done.
Qed.

(** Every element from [a] to [b] - 1 has [P]. *)
Definition all (P : A -> Prop) (a b : nat) (l : list A) : Prop := forall k x, a <= k < b -> l !! k = Some x -> P x.

Lemma all_moves P a b l l' : all P a b l -> moves a b l l' -> all P a b l'.
Proof.
  intros H M. induction M as [|i j l1 l2 _ IH Hi Hj (_ & _ & E)]; [done|]. intros k x Hk Ex. rewrite E in Ex.
  destruct (decide _); [by apply (IH i)|]. destruct (decide _); [by apply (IH j)|by apply (IH k)].
Qed.
Lemma all_outside P a b c d l l' : all P a b l -> moves c d l l' -> b <= c \/ d <= a -> all P a b l'.
Proof. intros H M Hd k x Hk Ex. rewrite (moves_outside _ _ _ _ _ M) in Ex by lia. by apply (H k). Qed.
Lemma all_part P a b c d l : all P a b l -> a <= c -> d <= b -> all P c d l.
Proof. intros H Ha Hb k x Hk. apply H. lia. Qed.
Lemma all_none P a b l : b <= a -> all P a b l.
Proof. intros H k x Hk. lia. Qed.
Lemma all_join P a b c l : all P a b l -> all P b c l -> all P a c l.
Proof. intros H1 H2 k x Hk. destruct (Nat.lt_ge_cases k b); [apply H1|apply H2]; lia. Qed.
Lemma all_one P a l : (forall x, l !! a = Some x -> P x) -> all P a (S a) l.
Proof. intros H k x Hk. replace k with a by lia. apply H. Qed.
Lemma all_weaken (P Q : A -> Prop) a b l : (forall x, P x -> Q x) -> all P a b l -> all Q a b l.
Proof. intros H Ha k x Hk Ex. by eapply H, Ha. Qed.

Lemma CMP_done i j l : i < length l -> j < length l ->
  exists x y, l !! i = Some x /\ l !! j = Some y /\ CMP cmp i j l = Done (cmp x y).
Proof.
  intros Hi Hj. destruct (get_done i l Hi) as (x & Ex & Gx), (get_done j l Hj) as (y & Ey & Gy).
  exists x, y. unfold CMP. rewrite Gx, Gy. done.
Qed.

(** ** Parts still to be sorted *)

Definition part : Type := nat * nat.
Definition inside (p : part) (i : nat) : Prop := p.1 <= i < p.1 + p.2.
Definition apart (p q : part) : Prop := p.1 + p.2 <= q.1 \/ q.1 + q.2 <= p.1.
(** One part holds both. *)
Definition together (ps : list part) (i j : nat) : Prop := Exists (fun p => inside p i /\ inside p j) ps.

(** In order from [a] to [b] - 1, but for pairs of the same part. *)
Definition rough (a b : nat) (ps : list part) (l : list A) : Prop :=
  forall i j x y, a <= i -> i < j -> j < b -> l !! i = Some x -> l !! j = Some y -> le x y \/ together ps i j.
Definition sorted (a b : nat) (l : list A) : Prop := rough a b [] l.

Lemma rough_whole a n l : rough a (a + n) [(a, n)] l.
Proof. intros i j x y Hi Hij Hj _ _. right. apply Exists_cons_hd. unfold inside. cbn. lia. Qed.

Lemma rough_small a b p ps l : p.2 <= 1 -> rough a b (p :: ps) l -> rough a b ps l.
Proof.
  intros Hp H i j x y Hi Hij Hj Ex Ey. destruct (H i j x y Hi Hij Hj Ex Ey) as [|T]; [by left|].
  apply Exists_cons in T as [[H1 H2]|T]; [|by right]. unfold inside in *. lia.
Qed.

Lemma rough_swap a b p q ps l : rough a b (p :: q :: ps) l -> rough a b (q :: p :: ps) l.
Proof.
  intros H i j x y Hi Hij Hj Ex Ey. destruct (H i j x y Hi Hij Hj Ex Ey) as [|T]; [by left|right].
  unfold together in *. rewrite !Exists_cons in *. tauto.
Qed.

(** Work inside of a part leaves the order with what is outside. *)
Lemma rough_window a b c n ps qs l l' : a <= c -> c + n <= b -> Forall (apart (c, n)) ps -> b <= length l ->
  rough a b ((c, n) :: ps) l -> moves c (c + n) l l' -> rough c (c + n) qs l' -> rough a b (qs ++ ps) l'.
Proof.
  intros Ha Hb Hd Hl H M Hq i j x y Hi Hij Hj Ex Ey.
  assert (Hlen : length l' = length l) by by eapply moves_length.
  assert (Hout : forall k z, together ((c, n) :: ps) k z -> inside (c, n) k -> ~ inside (c, n) z -> False).
  { intros k z T Hk Hz. apply Exists_cons in T as [[_ T]|T]; [done|]. apply Exists_exists in T as (p & Hp & H1 & H2).
    rewrite Forall_forall in Hd. specialize (Hd p Hp). unfold apart, inside in *. cbn in *. lia. }
  destruct (decide (c <= i < c + n)) as [Ii|Ii], (decide (c <= j < c + n)) as [Ij|Ij].
  - destruct (Hq i j x y) as [|T]; try done; [lia|lia|by left|right]. unfold together. rewrite Exists_app. by left.
  - left. rewrite (moves_outside _ _ _ _ _ M) in Ey by lia.
    assert (P : all (fun z => le z y) c (c + n) l).
    { intros k z Hk Ez. destruct (H k j z y ltac:(lia) ltac:(lia) Hj Ez Ey) as [|T]; [done|]. exfalso. by apply (Hout k j T). }
    by apply (all_moves _ _ _ _ _ P M i x).
  - left. rewrite (moves_outside _ _ _ _ _ M) in Ex by lia.
    assert (P : all (fun z => le x z) c (c + n) l).
    { intros k z Hk Ez. destruct (H i k x z Hi ltac:(lia) ltac:(lia) Ex Ez) as [|T]; [done|]. exfalso.
      assert (T' : together ((c, n) :: ps) k i) by (unfold together in *; eapply Exists_impl; [exact T|by intros p []]).
      by apply (Hout k i T'). }
    by apply (all_moves _ _ _ _ _ P M j y).
  - rewrite (moves_outside _ _ _ _ _ M) in Ex by lia. rewrite (moves_outside _ _ _ _ _ M) in Ey by lia.
    destruct (H i j x y Hi Hij Hj Ex Ey) as [|T]; [by left|right]. unfold together in *. rewrite Exists_app. right.
    apply Exists_cons in T as [[T _]|T]; [done|done].
Qed.

(** ** Insertion sort *)

Lemma sorted_nothing a b l : b <= S a -> sorted a b l.
Proof. intros H i j x y Hi Hij Hj. lia. Qed.

Lemma order_gt (O : order) x y : (cmp x y > 0)%Z -> (cmp y x < 0)%Z.
Proof. intros H. pose proof (ord_sym O x y). lia. Qed.

(** In order from [a] to [b] - 1, but for what comes before [h]. *)
Definition sinking (a b h : nat) (l : list A) : Prop :=
  forall i j x y, a <= i -> i < j -> j < b -> j <> h -> l !! i = Some x -> l !! j = Some y -> le x y.

Lemma sinking_start a k l : sorted a k l -> sinking a (S k) k l.
Proof.
  intros H i j x y Hi Hij Hj Hn Ex Ey. destruct (H i j x y Hi Hij ltac:(lia) Ex Ey) as [|T]; [done|].
  by apply Exists_nil in T.
Qed.

Lemma sinking_stop (O : order) a b h l x y : sinking a b (S h) l -> l !! h = Some x -> l !! S h = Some y -> le x y ->
  sorted a b l.
Proof.
  intros H Ex Ey Hle i j x' y' Hi Hij Hj Ei Ej. left. destruct (decide (j = S h)) as [->|Hn]; [|by apply (H i j)].
  assert (y' = y) as -> by congruence. destruct (decide (i = h)) as [->|Hn]; [assert (x' = x) as -> by congruence; done|].
  apply (ord_trans O x' x y); [|done]. apply (H i h x' x Hi); try lia; done.
Qed.
Lemma sinking_down (O : order) a b h l l' x y : a <= h -> sinking a b (S h) l -> l !! h = Some x -> l !! S h = Some y ->
  (cmp x y > 0)%Z -> exchanged (S h) h l l' -> sinking a b h l'.
Proof.
  intros Ha H Ex Ey Hgt (_ & _ & E) i j x' y' Hi Hij Hj Hn Ei Ej. rewrite E in Ei, Ej.
  destruct (decide (j = h)) as [->|_]; [done|]. destruct (decide (j = S h)) as [->|Hn'].
  - destruct (decide (i = h)) as [->|Hh].
    + simplify_eq. pose proof (order_gt O _ _ Hgt). unfold le. lia.
    + rewrite (decide_False) in Ei by lia. apply (H i h); try lia; done.
  - destruct (decide (i = h)) as [->|Hh]; [apply (H (S h) j); try lia; done|].
    destruct (decide (i = S h)) as [->|Hh']; [apply (H h j); try lia; done|]. apply (H i j); try lia; done.
Qed.

(** Done, with elements moved between [a] and [b] - 1 only, and [Q] of the result. *)
Definition arranges (a b : nat) (l : list A) (r : res (list A)) (Q : list A -> Prop) : Prop :=
  exists l', r = Done l' /\ moves a b l l' /\ (order -> Q l').

Lemma arranges_bind a b l r f (Q R : list A -> Prop) : arranges a b l r Q ->
  (forall l', length l' = length l -> moves a b l l' -> (order -> Q l') -> arranges a b l' (f l') R) ->
  arranges a b l (let! l := r in f l) R.
Proof.
  intros (l' & -> & M & H) Hf. destruct (Hf l' (moves_length _ _ _ _ M) M H) as (l2 & E & M2 & H2).
  exists l2. split; [exact E|]. split; [by eapply moves_trans|done].
Qed.
Lemma arranges_done a b l (Q : list A -> Prop) : (order -> Q l) -> arranges a b l (Done l) Q.
Proof. intros H. exists l. split; [done|]. split; [apply moves_none|done]. Qed.
Lemma arranges_wider a b a' b' l r Q : arranges a b l r Q -> a' <= a -> b <= b' -> arranges a' b' l r Q.
Proof. intros (l' & E & M & H) Ha Hb. exists l'. split; [done|]. split; [by eapply moves_wider|done]. Qed.
Lemma arranges_weaken a b l r (Q R : list A -> Prop) : arranges a b l r Q ->
  (forall l', moves a b l l' -> order -> Q l' -> R l') -> arranges a b l r R.
Proof. intros (l' & E & M & H) HR. exists l'. split; [done|]. split; [done|]. intros O. by apply HR, H. Qed.

Lemma arranges_after a b l l1 r Q : moves a b l l1 -> arranges a b l1 r Q -> arranges a b l r Q.
Proof. intros M (l' & E & M' & H). exists l'. split; [done|]. split; [by eapply moves_trans|done]. Qed.

Lemma sink_sorts a b k l : a + k < b -> b <= length l -> (order -> sinking a b (a + k) l) ->
  arranges a b l (sink cmp a k l) (sorted a b).
Proof.
  revert l. induction k as [|k IH]; intros l Hk Hl H; cbn [sink].
  - apply arranges_done. intros O i j x y Hi Hij Hj Ex Ey. left. apply (H O i j); try done; lia.
  - destruct (CMP_done (a + k) (a + S k) l) as (x & y & Ex & Ey & ->); [lia|lia|]. cbn [res_bind].
    replace (a + S k) with (S (a + k)) in * by lia.
    destruct (Z.gtb_spec (cmp x y) 0) as [Hgt|Hle].
    + destruct (swap_done (S (a + k)) (a + k) l) as (l' & E & X); [lia|lia|]. rewrite E. cbn [res_bind].
      apply (arranges_after _ _ _ l'); [eapply moves_one; [| |exact X]; lia|].
      apply IH; [lia|by rewrite (proj1 X)|]. intros O. eapply (sinking_down O); try done; [lia|by apply H|lia].
    + apply arranges_done. intros O. eapply (sinking_stop O); [by apply H|done|done|exact Hle].
Qed.

Lemma insertion_loop_sorts a k m l : 1 <= k -> a + k + m <= length l -> (order -> sorted a (a + k) l) ->
  arranges a (a + k + m) l (insertion_loop cmp a k m l) (sorted a (a + k + m)).
Proof.
  revert k l. induction m as [|m IH]; intros k l Hk Hl H; cbn [insertion_loop].
  - apply arranges_done. intros O. replace (a + k + 0) with (a + k) by lia. by apply H.
  - eapply arranges_bind.
    + apply (arranges_wider a (a + S k)); [|lia|lia]. apply sink_sorts; [lia|lia|]. intros O.
      replace (a + S k) with (S (a + k)) by lia. by apply sinking_start, H.
    + intros l' Hl' _ H'. replace (a + k + S m) with (a + S k + m) by lia. apply IH; [lia|lia|done].
Qed.

Lemma insertion_sort_sorts a n l : 1 <= n -> a + n <= length l ->
  arranges a (a + n) l (insertion_sort cmp a n l) (sorted a (a + n)).
Proof.
  intros Hn Hl. replace (a + n) with (a + 1 + (n - 1)) by lia.
  apply insertion_loop_sorts; [lia|lia|]. intros _. apply sorted_nothing. lia.
Qed.

(** ** The pivot *)

Lemma med3_done a b c l : a < length l -> b < length l -> c < length l ->
  exists m, med3 cmp a b c l = Done m /\ (m = a \/ m = b \/ m = c).
Proof.
  intros Ha Hb Hc. unfold med3.
  destruct (CMP_done a b l Ha Hb) as (? & ? & _ & _ & ->), (CMP_done b c l Hb Hc) as (? & ? & _ & _ & ->),
    (CMP_done a c l Ha Hc) as (? & ? & _ & _ & ->). cbn [res_bind].
  repeat match goal with |- context [if ?c then _ else _] => destruct c end; eauto.
Qed.

Lemma choose_pivot_done a n l : 7 <= n -> a + n <= length l ->
  exists m, choose_pivot cmp a n l = Done m /\ a <= m < a + n.
Proof.
  intros Hn Hl. unfold choose_pivot. pose proof (Nat.div_mod_eq n 2). pose proof (Nat.mod_upper_bound n 2).
  destruct (Nat.ltb_spec 7 n) as [Hn'|]; [|eexists; split; [done|lia]].
  destruct (Nat.ltb_spec 40 n) as [Hn2|]; cbn [res_bind].
  - pose proof (Nat.div_mod_eq n 8). pose proof (Nat.mod_upper_bound n 8).
    destruct (med3_done a (a + n / 8) (a + 2 * (n / 8)) l) as (m1 & -> & E1); [lia|lia|lia|].
    destruct (med3_done (a + n / 2 - n / 8) (a + n / 2) (a + n / 2 + n / 8) l) as (m2 & -> & E2); [lia|lia|lia|].
    destruct (med3_done (a + (n - 1) - 2 * (n / 8)) (a + (n - 1) - n / 8) (a + (n - 1)) l) as (m3 & -> & E3); [lia|lia|lia|].
    cbn [res_bind]. destruct (med3_done m1 m2 m3 l) as (m & -> & E4); [lia|lia|lia|]. exists m. split; [done|lia].
  - destruct (med3_done a (a + n / 2) (a + (n - 1)) l) as (m & -> & E4); [lia|lia|lia|]. exists m. split; [done|lia].
Qed.

(** ** Partition *)

(** The regions of the array around the scans, relative to the pivot [v] at [a]. *)
Record split (a b : nat) (v : A) (s : scan) : Prop := mkSplit {
  sp_pa : a < pa s;
  sp_pb : pa s <= pb s;
  sp_gap : pb s <= S (pc s);
  sp_pd : pc s <= pd s;
  sp_end : pd s < b;
  sp_len : b <= length (arr s);
  sp_pivot : arr s !! a = Some v;
  sp_left : all (fun x => cmp x v = 0%Z) (S a) (pa s) (arr s);
  sp_lt : all (fun x => (cmp x v < 0)%Z) (pa s) (pb s) (arr s);
  sp_gt : all (fun x => (cmp x v > 0)%Z) (S (pc s)) (S (pd s)) (arr s);
  sp_right : all (fun x => cmp x v = 0%Z) (S (pd s)) b (arr s);
}.

(** What the elements of a region are after an exchange. *)
Lemma all_exchanged P a b i j l l' : exchanged i j l l' ->
  (forall k x, a <= k < b -> k <> i -> k <> j -> l !! k = Some x -> P x) ->
  (a <= j < b -> forall x, l !! i = Some x -> P x) -> (a <= i < b -> forall x, l !! j = Some x -> P x) -> all P a b l'.
Proof.
  intros (_ & _ & E) H Hi Hj k x Hk Ex. rewrite E in Ex.
  destruct (decide (k = j)) as [->|]; [by apply Hi|]. destruct (decide (k = i)) as [->|]; [by apply Hj|by apply (H k)].
Qed.

(** Solves the side conditions of [all_exchanged] from what is known of a region or of an element. *)
Local Ltac regions :=
  intros; first
    [ exfalso; lia
    | match goal with H : all _ _ _ _, E : _ !! ?k = Some _ |- _ => refine (H k _ _ E); lia end
    | match goal with E : _ !! ?i = Some _, E' : _ !! ?j = Some _ |- _ =>
        replace i with j in E by lia; rewrite E in E'; injection E' as E'; subst; lia end ].

(** One step of a scan: the element belongs where it is or is exchanged with the end of a region. *)
Lemma split_pb_lt a b v s x : split a b v s -> pb s <= pc s -> arr s !! pb s = Some x -> (cmp x v < 0)%Z ->
  split a b v (mkScan (pa s) (S (pb s)) (pc s) (pd s) (swap_cnt s) (arr s)).
Proof.
  intros [] Hg Ex Hx. split; cbn; try done; try lia. apply (all_join _ _ (pb s)); [done|]. apply all_one. intros. by simplify_eq.
Qed.
Lemma split_pb_eq a b v s x l : split a b v s -> pb s <= pc s -> arr s !! pb s = Some x -> cmp x v = 0%Z ->
  exchanged (pa s) (pb s) (arr s) l -> split a b v (mkScan (S (pa s)) (S (pb s)) (pc s) (pd s) true l).
Proof.
  intros [] Hg Ex Hx X. split; cbn; try lia; try (apply (all_exchanged _ _ _ _ _ _ _ X); regions).
  - by rewrite (proj1 X).
  - destruct X as (_ & _ & ->). by rewrite !decide_False by lia.
Qed.
Lemma split_pc_gt a b v s x : split a b v s -> pb s <= pc s -> arr s !! pc s = Some x -> (cmp x v > 0)%Z ->
  split a b v (mkScan (pa s) (pb s) (pc s - 1) (pd s) (swap_cnt s) (arr s)).
Proof.
  intros [] Hg Ex Hx. split; cbn; try done; try lia. replace (S (pc s - 1)) with (pc s) by lia.
  apply (all_join _ _ (S (pc s))); [|done]. apply all_one. intros. by simplify_eq.
Qed.
Lemma split_pc_eq a b v s x l : split a b v s -> pb s <= pc s -> arr s !! pc s = Some x -> cmp x v = 0%Z ->
  exchanged (pc s) (pd s) (arr s) l -> split a b v (mkScan (pa s) (pb s) (pc s - 1) (pd s - 1) true l).
Proof.
  intros [] Hg Ex Hx X. split; cbn; try lia; try (apply (all_exchanged _ _ _ _ _ _ _ X); regions).
  - by rewrite (proj1 X).
  - destruct X as (_ & _ & ->). by rewrite !decide_False by lia.
Qed.
Lemma split_both a b v s x y l : split a b v s -> pb s < pc s -> arr s !! pb s = Some x -> (cmp x v > 0)%Z ->
  arr s !! pc s = Some y -> (cmp y v < 0)%Z -> exchanged (pb s) (pc s) (arr s) l ->
  split a b v (mkScan (pa s) (S (pb s)) (pc s - 1) (pd s) true l).
Proof.
  intros [] Hg Ex Hx Ey Hy X. split; cbn; try lia; try (apply (all_exchanged _ _ _ _ _ _ _ X); regions).
  - by rewrite (proj1 X).
  - destruct X as (_ & _ & ->). by rewrite !decide_False by lia.
Qed.

Lemma split_bounds a b v s : split a b v s ->
  a < pa s <= pb s /\ pb s <= S (pc s) /\ pc s <= pd s < b /\ b <= length (arr s).
Proof. intros []. lia. Qed.

(** The comparison of an element with the pivot. *)
Lemma CMP_pivot a b v s i : split a b v s -> a < i < b ->
  exists x, arr s !! i = Some x /\ CMP cmp i a (arr s) = Done (cmp x v).
Proof.
  intros W Hi. pose proof (split_bounds _ _ _ _ W). destruct (CMP_done i a (arr s)) as (x & v' & Ex & Ev & E); [lia|lia|].
  rewrite (sp_pivot _ _ _ _ W) in Ev. simplify_eq. by exists x.
Qed.

(** Where a scan leaves off: everything was compared, or there is an element for the other side. *)
Definition stops (P : A -> Prop) (i : nat) (s : scan) : Prop :=
  pb s = S (pc s) \/ pb s <= pc s /\ exists x, arr s !! i = Some x /\ P x.

Lemma scan_right_done a b v k s : split a b v s -> k = S (pc s) - pb s ->
  exists s', scan_right cmp k a s = Done s' /\ split a b v s' /\ moves a b (arr s) (arr s') /\
    pc s' = pc s /\ pb s <= pb s' /\ stops (fun x => (cmp x v > 0)%Z) (pb s') s'.
Proof.
  revert s. induction k as [|k IH]; intros s W Hk; cbn [scan_right]; pose proof (split_bounds _ _ _ _ W) as Hb.
  - exists s. split_and!; try done; [apply moves_none|]. left. lia.
  - destruct (CMP_pivot a b v s (pb s) W) as (x & Ex & ->); [lia|]. cbn [res_bind].
    destruct (Z.leb_spec (cmp x v) 0) as [Hle|Hgt]; [destruct (Z.eqb_spec (cmp x v) 0) as [He|Hn]|].
    + destruct (swap_done (pa s) (pb s) (arr s)) as (l & -> & X); [lia|lia|]. cbn [res_bind].
      edestruct IH as (s' & E & W' & M & Hc & Hp & Hs); [eapply (split_pb_eq _ _ _ _ _ _ W); [lia|done|done|exact X]|cbn; lia|].
      exists s'. split_and!; try done; [|cbn in Hp; lia].
      eapply moves_trans; [eapply moves_one; [| |exact X]; lia|exact M].
    + edestruct IH as (s' & E & W' & M & Hc & Hp & Hs); [eapply (split_pb_lt _ _ _ _ _ W); [lia|done|lia]|cbn; lia|].
      exists s'. split_and!; try done. cbn in Hp; lia.
    + exists s. split_and!; try done; [apply moves_none|]. right. split; [lia|]. exists x. split; [done|lia].
Qed.

Lemma scan_left_done a b v k s : split a b v s -> k = S (pc s) - pb s ->
  exists s', scan_left cmp k a s = Done s' /\ split a b v s' /\ moves a b (arr s) (arr s') /\
    pb s' = pb s /\ pc s' <= pc s /\ stops (fun x => (cmp x v < 0)%Z) (pc s') s' /\
    (forall i, i <= pc s' -> arr s' !! i = arr s !! i).
Proof.
  revert s. induction k as [|k IH]; intros s W Hk; cbn [scan_left]; pose proof (split_bounds _ _ _ _ W) as Hb.
  - exists s. split_and!; try done; [apply moves_none|]. left. lia.
  - destruct (CMP_pivot a b v s (pc s) W) as (x & Ex & ->); [lia|]. cbn [res_bind].
    destruct (Z.geb_spec (cmp x v) 0) as [Hle|Hgt]; [destruct (Z.eqb_spec (cmp x v) 0) as [He|Hn]|].
    + destruct (swap_done (pc s) (pd s) (arr s)) as (l & -> & X); [lia|lia|]. cbn [res_bind].
      edestruct IH as (s' & E & W' & M & Hc & Hp & Hs & Hi); [eapply (split_pc_eq _ _ _ _ _ _ W); [lia|done|done|exact X]|cbn; lia|].
      cbn [pc] in Hp. exists s'. split_and!; try done; [|lia|].
      * eapply moves_trans; [eapply moves_one; [| |exact X]; lia|exact M].
      * intros i Hi'. rewrite Hi by done. destruct X as (_ & _ & ->). by rewrite !decide_False by lia.
    + edestruct IH as (s' & E & W' & M & Hc & Hp & Hs & Hi); [eapply (split_pc_gt _ _ _ _ _ W); [lia|done|lia]|cbn; lia|].
      cbn [pc] in Hp. exists s'. split_and!; try done. lia.
    + exists s. split_and!; try done; [apply moves_none|]. right. split; [lia|]. exists x. split; [done|lia].
Qed.

Lemma partition_loop_done a b v fuel s : split a b v s -> S (pc s) - pb s < fuel ->
  exists s', partition_loop cmp fuel a s = Done s' /\ split a b v s' /\ moves a b (arr s) (arr s') /\ pb s' = S (pc s').
Proof.
  revert s. induction fuel as [|fuel IH]; intros s W Hf; [lia|]. cbn [partition_loop].
  destruct (scan_right_done a b v _ s W eq_refl) as (s1 & -> & W1 & M1 & Hc1 & Hp1 & Hs1). cbn [res_bind].
  destruct (scan_left_done a b v _ s1 W1 eq_refl) as (s2 & -> & W2 & M2 & Hc2 & Hp2 & Hs2 & Hi2). cbn [res_bind].
  pose proof (split_bounds _ _ _ _ W2) as Hb2.
  assert (M : moves a b (arr s) (arr s2)) by (eapply moves_trans; [exact M1|exact M2]).
  destruct (Nat.ltb_spec (pc s2) (pb s2)) as [Hlt|Hge]; [exists s2; split_and!; try done; lia|].
  destruct Hs2 as [|(_ & y & Ey & Hy)]; [lia|]. destruct Hs1 as [|(_ & x & Ex & Hx)]; [lia|].
  rewrite <- Hc2 in Ex. rewrite <- Hi2 in Ex by lia.
  destruct (swap_done (pb s2) (pc s2) (arr s2)) as (l & -> & X); [lia|lia|]. cbn [res_bind].
  assert (pb s2 <> pc s2) by (intros E; rewrite E in Ex; simplify_eq; lia).
  edestruct IH as (s' & E & W' & M' & Hs'); [eapply (split_both _ _ _ _ _ _ _ W2); [lia|done|done|done|done|exact X]|cbn; lia|].
  exists s'. split_and!; try done. eapply moves_trans; [|exact M'].
  eapply moves_trans; [exact M|]. eapply moves_one; [| |exact X]; lia.
Qed.

Lemma partition_done a n l : 2 <= n -> a + n <= length l ->
  exists v s, partition cmp a n l = Done s /\ split a (a + n) v s /\ moves a (a + n) l (arr s) /\ pb s = S (pc s).
Proof.
  intros Hn Hl. destruct (lookup_lt_is_Some_2 l a) as [v Ev]; [lia|]. exists v. unfold partition.
  apply (partition_loop_done a (a + n) v n (mkScan (a + 1) (a + 1) (a + (n - 1)) (a + (n - 1)) false l)); [|cbn; lia].
  split; cbn; try lia; try done; apply all_none; lia.
Qed.

(** ** The equal elements to the middle *)

Lemma vecswap_done lo hi i j n l : i + n <= j -> j + n <= length l -> lo <= i -> j + n <= hi ->
  exists l', vecswap i j n l = Done l' /\ moves lo hi l l' /\
    forall k, l' !! k = if decide (i <= k < i + n) then l !! (k - i + j)
                        else if decide (j <= k < j + n) then l !! (k - j + i) else l !! k.
Proof.
  revert i j l. induction n as [|n IH]; intros i j l Hij Hl Hlo Hhi; cbn [vecswap].
  - exists l. split_and!; [done|apply moves_none|]. intros k. by rewrite !decide_False by lia.
  - destruct (swap_done i j l) as (l1 & -> & X); [lia|lia|]. cbn [res_bind].
    destruct (IH (S i) (S j) l1) as (l' & -> & M & E); [lia|rewrite (proj1 X); lia|lia|lia|].
    exists l'. split_and!; [done| |].
    + eapply moves_trans; [eapply moves_one; [| |exact X]; lia|exact M].
    + intros k. rewrite E. destruct X as (_ & _ & X).
      repeat (case_decide || (rewrite X; clear X)); try lia; repeat case_decide; try lia; f_equal; lia.
Qed.

(** Two neighbouring regions change places by exchanging the ends of as many elements as the smaller one has. *)
Lemma vecswap_regions (P Q : A -> Prop) a m b l : a <= m -> m <= b -> b <= length l -> all P a m l -> all Q m b l ->
  exists l', vecswap a (b - Nat.min (m - a) (b - m)) (Nat.min (m - a) (b - m)) l = Done l' /\ moves a b l l' /\
    all Q a (a + (b - m)) l' /\ all P (a + (b - m)) b l'.
Proof.
  intros Ha Hb Hl HP HQ. pose proof (Nat.min_spec (m - a) (b - m)) as Hr. set (r := Nat.min (m - a) (b - m)) in *. clearbody r.
  destruct (vecswap_done a b a (b - r) r l) as (l' & E & M & El); [lia|lia|lia|lia|]. exists l'. split_and!; [done|done| |].
  - intros k x Hk Ek. rewrite El in Ek. repeat case_decide; [refine (HQ _ x _ Ek); lia|lia|refine (HQ _ x _ Ek); lia].
  - intros k x Hk Ek. rewrite El in Ek. repeat case_decide; [lia|refine (HP _ x _ Ek); lia|refine (HP _ x _ Ek); lia].
Qed.

(** The part before the pivots, the pivots, and the part after them. *)
Definition divided (a b d r : nat) (v : A) (l : list A) : Prop :=
  all (fun x => (cmp x v <= 0)%Z) a (b - r) l /\ all (fun x => (cmp x v >= 0)%Z) (a + d) b l.

Lemma ord_refl (O : order) x : cmp x x = 0%Z.
Proof. pose proof (ord_sym O x x). lia. Qed.

Lemma gather_done a n v s : split a (a + n) v s -> pb s = S (pc s) ->
  arranges a (a + n) (arr s) (gather a n s) (divided a (a + n) (pb s - pa s) (pd s - pc s) v).
Proof.
  intros W Hpb. pose proof (split_bounds _ _ _ _ W). unfold gather. pose proof (sp_pivot _ _ _ _ W) as Hv.
  destruct (vecswap_regions (fun x => cmp x v = 0%Z \/ x = v) (fun x => (cmp x v < 0)%Z) a (pa s) (pb s) (arr s))
    as (l1 & E1 & M1 & Hlt & Heq); [lia|lia|lia| |apply W|].
  { eapply (all_join _ _ (S a)); [apply all_one; intros x Ex; right; congruence|].
    eapply all_weaken; [|apply W]. intros x Hx. by left. }
  rewrite E1. cbn [res_bind]. pose proof (moves_length _ _ _ _ M1).
  replace (pd s - pc s) with (S (pd s) - pb s) by lia. replace (a + n - pd s - 1) with (a + n - S (pd s)) by lia.
  destruct (vecswap_regions (fun x => (cmp x v > 0)%Z) (fun x => cmp x v = 0%Z) (pb s) (S (pd s)) (a + n) l1)
    as (l2 & E2 & M2 & Heq' & Hgt); [lia|lia|lia| | |].
  { eapply all_outside; [|exact M1|lia]. rewrite Hpb. apply W. }
  { eapply all_outside; [apply W|exact M1|lia]. }
  exists l2. split; [exact E2|].
  split; [eapply moves_trans; eapply moves_wider; [exact M1| | |exact M2| |]; lia|]. intros O.
  pose proof (ord_refl O v). assert (Hd : a + (pb s - pa s) <= pb s \/ a + n <= a) by lia.
  pose proof (all_outside _ _ _ _ _ _ _ Hlt M2 Hd) as Hlt2. clear Hd.
  assert (Hd : pb s <= pb s \/ a + n <= a + (pb s - pa s)) by lia.
  pose proof (all_outside _ _ _ _ _ _ _ Heq M2 Hd) as Heq2. split.
  - eapply (all_join _ _ (a + (pb s - pa s))); [eapply all_weaken; [|exact Hlt2]; intros x; cbn; lia|].
    eapply (all_join _ _ (pb s)); [eapply all_weaken; [|exact Heq2]; intros x [?| ->]; lia|].
    eapply all_weaken; [|eapply all_part; [exact Heq'|lia|lia]]. intros x; cbn; lia.
  - eapply (all_join _ _ (pb s)); [eapply all_weaken; [|exact Heq2]; intros x [?| ->]; lia|].
    eapply (all_join _ _ (pb s + (a + n - S (pd s)))); [eapply all_weaken; [|exact Heq']; intros x; cbn; lia|].
    eapply all_weaken; [|exact Hgt]. intros x; cbn; lia.
Qed.

Lemma rough_divided (O : order) a b d r v l : a + d <= b - r -> r <= b - a -> divided a b d r v l ->
  rough a b [(a, d); (b - r, r)] l.
Proof.
  intros Hd Hr [H1 H2] i j x y Hi Hij Hj Ex Ey. unfold together. rewrite !Exists_cons, Exists_nil. unfold inside. cbn [fst snd].
  destruct (Nat.lt_ge_cases j (a + d)); [right; lia|]. destruct (Nat.lt_ge_cases i (b - r)); [|right; lia]. left.
  apply (ord_trans O x v y); [apply (H1 i); [lia|done]|].
  pose proof (ord_sym O v y). specialize (H2 j y). cbn in H2. specialize (H2 ltac:(lia) Ey). lia.
Qed.

(** ** The stack of parts *)

(** Parts of [a] to [b] - 1 without an element in common. *)
Inductive pending (a b : nat) : list part -> Prop :=
| pending_nil : pending a b []
| pending_cons p ps : 1 <= p.2 -> a <= p.1 -> p.1 + p.2 <= b -> Forall (apart p) ps -> pending a b ps -> pending a b (p :: ps).

Definition total (ps : list part) : nat := sum_list (map snd ps).

Lemma total_cons p ps : total (p :: ps) = p.2 + total ps.
Proof. done. Qed.

Definition run (fuel : nat) (ps : list part) (l : list A) : res (list A) :=
  match ps with
  | [] => Done l
  | (a, n) :: ps => sort cmp fuel ps a n l
  end.

(** The goal of the induction: all parts are put in order. *)
Definition clears (fuel : nat) : Prop := forall a b ps l, total ps < fuel -> pending a b ps -> b <= length l ->
  arranges a b l (run fuel ps l) (fun l' => rough a b ps l -> sorted a b l').

Lemma apart_inside p q r : apart p q -> p.1 <= r.1 -> r.1 + r.2 <= p.1 + p.2 -> apart r q.
Proof. unfold apart. lia. Qed.
Lemma apart_sym p q : apart p q -> apart q p.
Proof. unfold apart. lia. Qed.

(** A part that was put in order leaves the stack; one that was divided is replaced by what is left of it. *)
Lemma arranges_part a b c n ps qs l r f : a <= c -> c + n <= b -> Forall (apart (c, n)) ps -> b <= length l ->
  arranges c (c + n) l r (rough c (c + n) qs) ->
  (forall l', length l' = length l ->
    arranges a b l' (f l') (fun l2 => rough a b (qs ++ ps) l' -> sorted a b l2)) ->
  arranges a b l (let! l' := r in f l') (fun l2 => rough a b ((c, n) :: ps) l -> sorted a b l2).
Proof.
  intros Ha Hb Hd Hl (l1 & -> & M & H) Hf. cbn [res_bind].
  eapply arranges_after; [eapply moves_wider; [exact M|lia|lia]|].
  eapply arranges_weaken; [apply Hf, (moves_length _ _ _ _ M)|]. intros l2 _ O H2 HR. apply H2.
  eapply rough_window; try done. by apply H.
Qed.

(** The end of the loop, with the larger and the smaller part. *)
Definition next_part (fuel : nat) (ps : list part) (p : part) (l : list A) : res (list A) :=
  if 1 <? p.2 then run fuel (p :: ps) l else run fuel ps l.
Definition next_parts (fuel : nat) (ps : list part) (large small : part) (l : list A) : res (list A) :=
  if 1 <? small.2 then
    if length ps <? PARAMETER_STACK_LEVELS then run fuel (small :: large :: ps) l
    else let! l := run fuel [small] l in next_part fuel ps large l
  else next_part fuel ps large l.

Lemma sort_next fuel ps a n l : sort cmp (S fuel) ps a n l =
  if n <? 7 then let! l := insertion_sort cmp a n l in run fuel ps l
  else
    let! pm := choose_pivot cmp a n l in
    let! l := swap a pm l in
    let! s := partition cmp a n l in
    if negb (swap_cnt s) then let! l := insertion_sort cmp a n (arr s) in run fuel ps l
    else
      let! l := gather a n s in
      let left := (a, pb s - pa s) in
      let right := (a + n - (pd s - pc s), pd s - pc s) in
      if pb s - pa s <? pd s - pc s then next_parts fuel ps right left l else next_parts fuel ps left right l.
Proof.
  cbn [sort]. destruct (n <? 7); [done|]. destruct (choose_pivot _ _ _ _); [|done]. cbn [res_bind].
  destruct (swap _ _ _); [|done]. cbn [res_bind]. destruct (partition _ _ _ _) as [s|]; [|done]. cbn [res_bind].
  destruct (negb _); [done|]. destruct (gather _ _ _); [|done]. cbn [res_bind]. by destruct (_ <? _).
Qed.

Lemma next_part_clears fuel a b ps p l : clears fuel -> total (p :: ps) < fuel -> a <= p.1 -> p.1 + p.2 <= b ->
  Forall (apart p) ps -> pending a b ps -> b <= length l ->
  arranges a b l (next_part fuel ps p l) (fun l' => rough a b (p :: ps) l -> sorted a b l').
Proof.
  intros IH Ht Ha Hb Hd Hp Hl. unfold next_part. destruct (Nat.ltb_spec 1 p.2).
  - apply IH; [done|by constructor; auto with lia|done].
  - eapply arranges_weaken; [apply IH; [unfold total in *; cbn in Ht; lia|done|done]|].
    intros l' _ _ H' HR. apply H'. by eapply rough_small.
Qed.

Lemma next_parts_clears fuel a b ps p q l : clears fuel -> total (p :: q :: ps) < fuel ->
  a <= p.1 -> p.1 + p.2 <= b -> a <= q.1 -> q.1 + q.2 <= b -> q.2 <= p.2 -> apart q p ->
  Forall (apart p) ps -> Forall (apart q) ps -> pending a b ps -> b <= length l ->
  arranges a b l (next_parts fuel ps p q l) (fun l' => rough a b (q :: p :: ps) l -> sorted a b l').
Proof.
  intros IH Ht Ha Hb Ha' Hb' Hpq Hd Hp Hq Hps Hl. unfold next_parts. unfold total in Ht. cbn in Ht.
  destruct (Nat.ltb_spec 1 q.2); [destruct (_ <? _)|].
  - apply IH; [unfold total; cbn; lia| |done]. constructor; [lia|done|done|by constructor|]. by constructor; auto with lia.
  - destruct q as [c m]. cbn [fst snd] in *. apply (arranges_part a b c m (p :: ps) []); [done|done|by constructor|done| |].
    + eapply arranges_weaken; [apply (IH c (c + m) [(c, m)])|].
      * unfold total. cbn. lia.
      * constructor; cbn; auto with lia. constructor.
      * lia.
      * intros l' _ _ H'. apply H', rough_whole.
    + intros l' Hl'. apply next_part_clears; try done; [unfold total; cbn; lia|lia].
  - eapply arranges_weaken; [apply next_part_clears; try done; unfold total; cbn; lia|].
    intros l' _ _ H' HR. apply H'. by eapply rough_small.
Qed.

(** Elements may change places inside of a part that is still to be sorted. *)
Lemma arranges_moved a b c n ps l l1 r : a <= c -> c + n <= b -> Forall (apart (c, n)) ps -> b <= length l ->
  moves c (c + n) l l1 -> arranges a b l1 r (fun l' => rough a b ((c, n) :: ps) l1 -> sorted a b l') ->
  arranges a b l r (fun l' => rough a b ((c, n) :: ps) l -> sorted a b l').
Proof.
  intros Ha Hb Hd Hl M H. eapply arranges_after; [eapply moves_wider; [exact M|lia|lia]|].
  eapply arranges_weaken; [exact H|]. intros l' _ _ H' HR. apply H'.
  apply (rough_window a b c n ps [(c, n)] l l1); try done. apply rough_whole.
Qed.

Lemma sort_clears fuel : clears fuel.
Proof.
  induction fuel as [|fuel IH]; intros a b ps l Ht Hp Hl; [lia|].
  destruct Hp as [|[c n] ps Hn Ha Hb Hd Hp]; [by apply arranges_done|]. cbn [run fst snd] in *. rewrite sort_next.
  assert (Ht' : n + total ps < S fuel) by done.
  assert (Hins : forall l', b <= length l' -> arranges a b l' (let! l := insertion_sort cmp c n l' in run fuel ps l)
    (fun l2 => rough a b ((c, n) :: ps) l' -> sorted a b l2)).
  { intros l' Hl'. apply (arranges_part a b c n ps []); try done; [apply insertion_sort_sorts; lia|].
    intros l2 Hl2. cbn [app]. apply IH; [lia|done|lia]. }
  destruct (Nat.ltb_spec n 7) as [|Hn7]; [by apply Hins|].
  destruct (choose_pivot_done c n l) as (pm & -> & Hpm); [lia|lia|]. cbn [res_bind].
  destruct (swap_done c pm l) as (l1 & -> & X); [lia|lia|]. cbn [res_bind].
  apply (arranges_moved a b c n ps l l1); try done; [eapply moves_one; [| |exact X]; lia|].
  assert (Hl1 : b <= length l1) by by rewrite (proj1 X).
  destruct (partition_done c n l1) as (v & s & -> & W & M & Hpb); [lia|lia|]. cbn [res_bind].
  apply (arranges_moved a b c n ps l1 (arr s)); try done. pose proof (moves_length _ _ _ _ M) as Hl2.
  destruct (negb _); [apply Hins; rewrite Hl2; exact Hl1|]. pose proof (split_bounds _ _ _ _ W).
  apply (arranges_part a b c n ps [(c, pb s - pa s); (c + n - (pd s - pc s), pd s - pc s)]); try done; [lia| |].
  - eapply arranges_weaken; [by apply gather_done|]. intros l2 _ O. apply (rough_divided O); lia.
  - intros l2 Hl3. assert (forall p, c <= p.1 -> p.1 + p.2 <= c + n -> Forall (apart p) ps).
    { intros p H1 H2. eapply Forall_impl; [exact Hd|]. intros q. cbn. intros Hq. by apply (apart_inside (c, n)). }
    destruct (Nat.ltb_spec (pb s - pa s) (pd s - pc s)); cbn [app].
    + apply next_parts_clears; try (apply H0); try done; try (apply apart_sym);
        rewrite ?total_cons; unfold apart; cbn [fst snd]; lia.
    + eapply arranges_weaken; [apply next_parts_clears; try (apply H0); try done; try (apply apart_sym);
        rewrite ?total_cons; unfold apart; cbn [fst snd]; lia|].
      intros l' _ _ H' HR. by apply H', rough_swap.
Qed.

(** ** The whole array *)

Lemma qsort_arranges n l : n <= length l -> arranges 0 n l (qsort cmp n l) (sorted 0 n).
Proof.
  intros Hn. unfold qsort. destruct n as [|n]; [apply arranges_done; intros _; apply sorted_nothing; lia|].
  eapply arranges_weaken; [apply (sort_clears (S (S n)) 0 (S n) [(0, S n)] l)|].
  - unfold total. cbn. lia.
  - constructor; cbn; auto with lia. constructor.
  - done.
  - intros l' _ _ H'. apply H', (rough_whole 0 (S n)).
Qed.

Lemma moves_drop n l l' : moves 0 n l l' -> drop n l' = drop n l.
Proof. intros M. apply list_eq. intros i. rewrite !lookup_drop. by apply (moves_outside _ _ _ _ _ M); lia. Qed.
Lemma moves_take n l l' : moves 0 n l l' -> take n l' ≡ₚ take n l.
Proof.
  intros M. apply (Permutation_app_inv_r (drop n l)). rewrite <- (moves_drop n l l' M) at 1. rewrite !take_drop.
  by eapply moves_permutation.
Qed.

(** Whatever the comparison says, the call returns with the elements permuted and the rest of the array as it was. *)
Lemma qsort_permutes n l : n <= length l ->
  exists l', qsort cmp n l = Done l' /\ take n l' ≡ₚ take n l /\ drop n l' = drop n l.
Proof.
  intros Hn. destruct (qsort_arranges n l Hn) as (l' & E & M & _). exists l'. split; [done|].
  split; [by apply moves_take|by apply moves_drop].
Qed.

Lemma strongly_sorted_lookup (R : A -> A -> Prop) (l : list A) :
  (forall i j x y, i < j -> l !! i = Some x -> l !! j = Some y -> R x y) -> StronglySorted R l.
Proof.
  induction l as [|z l IH]; intros H; constructor.
  - apply IH. intros i j x y Hij Ex Ey. apply (H (S i) (S j)); [lia|done|done].
  - apply Forall_lookup. intros i x Ex. apply (H 0 (S i)); [lia|done|done].
Qed.

Lemma sorted_take n l : sorted 0 n l -> StronglySorted le (take n l).
Proof.
  intros H. apply strongly_sorted_lookup. intros i j x y Hij Ex Ey. apply lookup_take_Some in Ex as [Ex Hi], Ey as [Ey Hj].
  destruct (H i j x y ltac:(lia) Hij Hj Ex Ey) as [|T]; [done|by apply Exists_nil in T].
Qed.

(** C10: [qsort] of the C library, on the first [n] elements of any array, for any comparison function: it
    returns, no access is out of bounds, the elements are permuted and what
    follows them is as it was.  If the comparison is a total preorder, they are in
    order; of one that is not, nothing worse can come than another order. *)
Theorem qsort_sorts n l : n <= length l ->
  exists l', qsort cmp n l = Done l' /\ take n l' ≡ₚ take n l /\ drop n l' = drop n l /\
    (order -> StronglySorted le (take n l')).
Proof.
  intros Hn. destruct (qsort_arranges n l Hn) as (l' & E & M & H). exists l'.
  split_and!; [done|by apply moves_take|by apply moves_drop|]. intros O. by apply sorted_take, H.
Qed.

End Sort.

Lemma order_Z : order Z.sub.
Proof. split; intros; lia. Qed.

Lemma qsort_sorts_witness : 9 <= length [5; 3; 8; 1; 9; 2; 7; 3; 6; 0]%Z /\
  exists l', qsort Z.sub 9 [5; 3; 8; 1; 9; 2; 7; 3; 6; 0]%Z = Done l' /\
    take 9 l' ≡ₚ take 9 [5; 3; 8; 1; 9; 2; 7; 3; 6; 0]%Z /\ drop 9 l' = drop 9 [5; 3; 8; 1; 9; 2; 7; 3; 6; 0]%Z /\
    (order Z.sub -> StronglySorted (le Z.sub) (take 9 l')).
Proof. split; [cbn; lia|]. apply (qsort_sorts Z.sub 9). cbn. lia. Defined.

End QsortProps.
