(* ===== verification/GetAssertion.v ===== *)
(** * authenticatorGetAssertion and GetNextAssertion (src/fido2/src/ctap_get_assertion.c, ctap_get_next_assertion.c)

    The credentials of a request are kept in [getAssertionState.creds], where
    the parser already writes them, so that the rest of them can be asserted
    by the following commands. *)

From Stdlib Require Import Ascii.
From stdpp Require Import strings.
From S2P Require Import Prelude Monad Lfs Fs Board CborParser CborApi CborEncoder Sha256 Aes Crypto Rng State CtapTypes.
From S2P Require Import Dev Device CtapStatus CtapParse CtapEncode Credential Attestation Signing ClientPin.
From S2P Require Import Extensions AuthData Qsort.
Import Monad Lfs Fs Board CborParser CborApi CborEncoder Sha256 Aes Crypto Rng State CtapTypes
  Dev Device CtapStatus CtapParse CtapEncode Credential Attestation Signing ClientPin Extensions AuthData.

#[local] Open Scope Z_scope.

Module GetAssertion.

Definition GA_Cmd_rpId : Z := 0x01.
Definition GA_Cmd_clientDataHash : Z := 0x02.
Definition GA_Cmd_allowList : Z := 0x03.
Definition GA_Cmd_extensions : Z := 0x04.
Definition GA_Cmd_options : Z := 0x05.
Definition GA_Cmd_pinUvAuthParam : Z := 0x06.
Definition GA_Cmd_pinUvAuthProtocol : Z := 0x07.
Definition GA_Resp_credential : Z := 0x01.
Definition MC_Resp_authData : Z := 0x02.
Definition GA_Resp_signature : Z := 0x03.
Definition GA_Resp_user : Z := 0x04.
Definition GA_Resp_numberOfCredentials : Z := 0x05.

(** What the code reads without having written it: the status of the last
    parser when no key has set it yet, and the local [rk] and [excl_cred]. *)
Class Uninit := {
  junk_status : Z;
  junk_rk : CTAP_residentKey;
  junk_desc : CTAP_credentialDescriptor;
}.

Record CTAP_getAssertion := mkGa {
  ga_clientDataHash : list Z;
  ga_clientDataHashPresent : bool;
  ga_rp : rpId;
  ga_credLen : nat;
  ga_options : Z * Z * Z;
  ga_pinUvAuthParam : list Z;
  ga_pinUvAuthParam_len : Z;
  ga_pinUvAuthParam_empty : bool;
  ga_pinProtocol : Z;
  ga_allowListPresent : bool;
  ga_extensions : CTAP_extensions;
}.
#[export] Instance eta_ga : Eta CTAP_getAssertion := fun g =>
  mkGa (ga_clientDataHash g) (ga_clientDataHashPresent g) (ga_rp g) (ga_credLen g) (ga_options g)
    (ga_pinUvAuthParam g) (ga_pinUvAuthParam_len g) (ga_pinUvAuthParam_empty g) (ga_pinProtocol g)
    (ga_allowListPresent g) (ga_extensions g).
Definition ga_up (g : CTAP_getAssertion) : Z := (ga_options g).2.
(** [memset], then [up = 0xff]. *)
Definition ga_zero : CTAP_getAssertion :=
  mkGa (zeros CLIENT_DATA_HASH_SIZE) false rpId_zero 0 (0, 0, 0xff) (zeros PIN_UV_AUTH_PARAM_MAX_SIZE) 0 false 0
    false ext_zero.

Section GetAssertion.
Context {L : Lfs} {B : Board} {E : Ecc}.

Definition get_gas : F getAssertionState_t := gets getAssertionState.
Definition upd_gas (f : getAssertionState_t -> getAssertionState_t) : F unit := upd getAssertionState f.
(** [GA->creds[i] = c] *)
Definition set_cred (i : nat) (c : CTAP_credentialDescriptor) : F unit :=
  let* g := get_gas in
  if (i <? length (gs_creds g))%nat then upd_gas (fun g => g <| gs_creds := <[i := c]> (gs_creds g) |>)
  else stop FOutOfBounds.
Definition get_cred (i : nat) : F CTAP_credentialDescriptor :=
  let* g := get_gas in
  match gs_creds g !! i with
  | Some c => ret c
  | None => stop FOutOfBounds
  end.

(** A parser that writes to [GA->creds[i]]. *)
Definition on_cred {A} (i : nat) (m : X CTAP_credentialDescriptor A) : X dev A :=
  let* c := get_cred i in
  let* (r, c) := lift (m c) in
  set_cred i c ;* ret r.

(** ** The request *)

Section Request.
Context {U : Uninit} (buf : list Z).

(** The [for] loop over the array: [n] elements left, [i] the index. *)
Fixpoint allow_list_loop (n i : nat) (arr : CborValue) : X dev nat :=
  match n with
  | O => ok i
  | S n =>
      guard (negb (ALLOW_LIST_MAX_SIZE <=? i)%nat) CTAP2_ERR_LIMIT_EXCEEDED ^;
      set_cred i desc_zero ;*
      on_cred i (ctap_parse_pubkey_credential_descriptor buf arr) ^;
      let^ arr := cbor (cbor_value_advance buf arr) in
      allow_list_loop n (S i) arr
  end.

(** [GA->credLen] *)
Definition parse_allow_list_credentials (it : CborValue) : X dev nat :=
  guard (type it =? CborArrayType) CTAP2_ERR_INVALID_CBOR ^;
  let^ arr := cbor (cbor_value_enter_container buf it) in
  let^ len := cbor (cbor_value_get_array_length buf it) in
  allow_list_loop (Z.to_nat len) 0 arr.

(** The [switch]; the second component is [ctap_ret]. *)
Definition ga_case (key : Z) (map : CborValue) (a : CTAP_getAssertion * Z) : X dev (CTAP_getAssertion * Z) :=
  let '(ga, ctap_ret) := a in
  let^ (ga, ctap_ret) :=
    (if key =? GA_Cmd_clientDataHash then
       let^ h := parse (ctap_parse_fixed_length_byte_string buf map CLIENT_DATA_HASH_SIZE) in
       ok (ga <| ga_clientDataHash := h |> <| ga_clientDataHashPresent := true |>, CTAP2_OK)
     else if key =? GA_Cmd_rpId then
       let^ (id, sz) := parse (ctap_parse_rp_id buf (rp_name_id (ga_rp ga)) map) in
       ok (ga <| ga_rp := mkRpId id sz |>, CTAP2_OK)
     else if key =? GA_Cmd_allowList then
       let^ n := parse_allow_list_credentials map in
       ok (ga <| ga_credLen := n |> <| ga_allowListPresent := true |>, CTAP2_OK)
     else if key =? GA_Cmd_extensions then
       let^ e := parse (ctap_extensions_parse_input buf map (ga_extensions ga) REQ_TYPE_GA) in
       ok (ga <| ga_extensions := e |>, CTAP2_OK)
     else if key =? GA_Cmd_options then
       let^ o := parse (ctap_parse_options buf map (ga_options ga)) in
       ok (ga <| ga_options := o |>, CTAP2_OK)
     else if key =? GA_Cmd_pinUvAuthParam then
       let^ (empty, p, len) := parse (ctap_parse_pinUvAuthParam buf map (ga_pinUvAuthParam ga)) in
       ok (ga <| ga_pinUvAuthParam_empty := empty |> <| ga_pinUvAuthParam := p |>
              <| ga_pinUvAuthParam_len := len |>, CTAP2_OK)
     else if key =? GA_Cmd_pinUvAuthProtocol then
       let^ tmp := parse (int_value buf map) in
       guard (negb ((tmp <? 0) || (tmp >? 255))) CTAP2_ERR_INVALID_CBOR ^;
       ok (ga <| ga_pinProtocol := tmp |>, ctap_ret)
     else ok (ga, ctap_ret)) in
  guard (ctap_ret =? CTAP2_OK) ctap_ret ^;
  ok (ga, ctap_ret).

Definition parse_get_assertion_request : X dev CTAP_getAssertion :=
  let^ it := cbor (cbor_parser_init buf) in
  let^ (map, map_length) := parse (enter_map buf it) in
  let^ (_, (ga, _)) := int_entries buf ga_case (Z.to_nat map_length) map (ga_zero, junk_status) in
  ok ga.

End Request.

(** ** The credentials to assert *)

(** Most recent first. *)
Definition cred_cmp_func (a b : CTAP_credentialDescriptor) : Z :=
  let count c := cr_count (cred_of (desc_id c)) in
  if count b >? count a then 1 else if count b <? count a then -1 else 0.

(** [count = 0] *)
Definition invalidate (c : CTAP_credentialDescriptor) : CTAP_credentialDescriptor :=
  c <| desc_id := take 37 (desc_id c) ++ le32 0 ++ drop 41 (desc_id c) |>.

(** One element of the allow list: whether it can be used. *)
Definition allow_list_check (rp_id_hash rp_id_lookup : list Z) (cred : CTAP_credentialDescriptor) : F bool :=
  let* mine := ctap_credential_belongs_to_rp rp_id_lookup rp_id_hash cred in
  if mine =? 0 then ret false
  else
    let* g := get_gas in
    let* (protection_status, is_rk) :=
      ctap_check_credential_metadata (cred_of (desc_id cred)) (negb (gs_user_verified g =? 0)) true in
    if negb (protection_status =? 0) then ret false
    else if negb (is_rk =? 0) then
      let* exists_ := ctap_verify_rk_exists (cred_of (desc_id cred)) in ret (negb (exists_ =? 0))
    else ret true.

(** [for (i = 0; i < GA->credLen; i++)]: a usable credential sets [credLen] to
    [i + 1], which ends the loop.  [count] and [credLen]. *)
Fixpoint allow_list_filter (rp_id_hash rp_id_lookup : list Z) (n i credLen : nat) : F (nat * nat) :=
  match n with
  | O => ret (0%nat, credLen)
  | S n =>
      let* cred := get_cred i in
      let* usable := allow_list_check rp_id_hash rp_id_lookup cred in
      if usable : bool then ret (1%nat, S i)
      else
        set_cred i (invalidate cred) ;*
        allow_list_filter rp_id_hash rp_id_lookup n (S i) credLen
  end.

(** A resident key that can be used without an allow list, decrypted. *)
Definition resident_check (rp_id_lookup : list Z) (count : nat) (rk : CTAP_residentKey)
    : F (option (option CTAP_residentKey)) :=
  if negb (memcmp rp_id_lookup (CtapTypes.rp_id_lookup (rk_id rk)) =? 0) then ret (Some None)
  else
    let id := rk_id rk in
    let* local_tag := ctap_make_auth_tag (cr_version id) rp_id_lookup (cr_nonce id) (protected_metadata id) (cr_count id) in
    if negb (memcmp (cr_tag id) local_tag =? 0) then ret (Some None)
    else
      let* g := get_gas in
      let* (protection_status, _) :=
        ctap_check_credential_metadata id (negb (gs_user_verified g =? 0)) false in
      if negb (protection_status =? 0) then ret (Some None)
      else if (ALLOW_LIST_MAX_SIZE <=? count)%nat then ret None
      else
        let* ok := ctap_verify_mac (rk_tag rk) (take RK_HMAC_SIZE (rk_bytes rk)) in
        if ok =? 0 then ret (Some None)
        else let* rk := xcrypt_rk rk in ret (Some (Some rk)).

(** The [for] loop over the [n] keys of the open file.  [rk] keeps the last
    key, decrypted when it was used. *)
Fixpoint resident_loop (rp_id_lookup : list Z) (n count : nat) (rk : CTAP_residentKey) : F nat :=
  match n with
  | O => ret count
  | S n =>
      let* rk := ctap_load_next_rk rk in
      let* o := resident_check rp_id_lookup count rk in
      match o with
      | None => ret count
      | Some None => resident_loop rp_id_lookup n count rk
      | Some (Some rk) =>
          set_cred count (mkDesc PUB_KEY_CRED_PUB_KEY (cred_bytes (rk_id rk)) (rk_user rk)) ;*
          resident_loop rp_id_lookup n (S count) rk
      end
  end.

Section Filter.
Context {U : Uninit}.

(** The number of valid credentials and [GA->credLen]. *)
Definition build_filtered_credential_list (credLen : nat) (rp_id_hash rp_id_lookup : list Z) : F (nat * nat) :=
  let* (count, credLen) := allow_list_filter rp_id_hash rp_id_lookup credLen 0 credLen in
  let* (count, credLen) :=
    (if (credLen =? 0)%nat then
       let* nr_rk := ctap_open_rk_file rp_id_lookup in
       let nr_rk := if nr_rk <? 0 then 0 else nr_rk in
       let* count := resident_loop rp_id_lookup (Z.to_nat nr_rk) count junk_rk in
       let* _ := ctap_close_rk_file in
       ret (count, count)
     else ret (count, credLen)) in
  let* g := get_gas in
  let* creds := lift (Qsort.qsort cred_cmp_func credLen (gs_creds g)) in
  upd_gas (fun g => g <| gs_creds := creds |>) ;*
  ret (count, credLen).

(** ** The response *)

(** Adds 3 or 4 elements to the map. *)
Definition ctap_get_assertion_cbor_encode_assertion_response (map : Enc) (cred : CTAP_credentialDescriptor)
    (auth_data clientDataHash : list Z) : X dev Enc :=
  let^ map := emit (cbor_encode_int GA_Resp_credential) map in
  let^ map := ctap_cbor_encode_credential_descriptor map (desc_id cred) (desc_type cred) in
  let^ map := emit (cbor_encode_int MC_Resp_authData) map in
  let^ map := emit (cbor_encode_byte_string auth_data) map in
  let cred_size := ctap_get_credential_id_size (desc_type cred) in
  let* key_id := lift (mem_read (desc_id cred) 0 cred_size) in
  let* cose_alg := ctap_restore_metadata_cose_alg (cred_of (desc_id cred)) in
  (if cose_alg =? COSE_ALG_EDDSA then fido2_crypto_ed25519_load_key key_id else crypto_ecc256_load_key key_id) ;*
  let* sigder := ctap_sign_data auth_data clientDataHash cose_alg in
  let^ map := emit (cbor_encode_int GA_Resp_signature) map in
  let^ map := emit (cbor_encode_byte_string sigder) map in
  if negb (u_id_size (desc_user cred) =? 0) then
    let^ map := emit (cbor_encode_int GA_Resp_user) map in
    let* g := get_gas in
    ctap_cbor_encode_user_entity map (desc_user cred) (gs_user_verified g)
  else ok map.

Definition save_credential_list (clientDataHash : list Z) (count : nat) (extensions : CTAP_extensions) : X dev unit :=
  (if negb (count =? 0)%nat then
     guard (negb (ALLOW_LIST_MAX_SIZE - 1 <? count)%nat) CTAP2_ERR_LIMIT_EXCEEDED ^;
     let* h := lift (mem_read clientDataHash 0 CLIENT_DATA_HASH_SIZE) in
     let* g := get_gas in
     let creds := gs_creds g in
     upd_gas (fun g => g <| gs_clientDataHash := h |>
       <| gs_creds := take count (drop 1 creds) ++ drop count creds |> <| gs_extensions := extensions |>) ;*
     ok tt
   else ok tt) ^;
  upd_gas (fun g => g <| gs_count := Z.of_nat count |> <| gs_index := 0 |>) ;*
  ok tt.

(** The bytes of [getAssertionState.buf] given by a length. *)
Definition buf_bytes (g : getAssertionState_t) (len : nat) : res (list Z) :=
  mem_read (head_bytes (gs_authData g) ++ gs_extbuf g) 0 len.

(** ** The commands *)

(** The PIN authorisation, when one is given; [user_verified]. *)
Definition ga_authorize (ga : CTAP_getAssertion) (rp_id_hash : list Z) : X dev unit :=
  if ga_pinUvAuthParam_len ga >? 0 then
    guard (negb (ga_pinProtocol ga =? 0)) CTAP2_ERR_MISSING_PARAMETER ^;
    ctap_client_pin_verify_auth (ga_pinUvAuthParam ga) (ga_clientDataHash ga) (ga_pinProtocol ga) ^;
    let* uv := ctap_client_pin_get_user_verified (ga_pinProtocol ga) in
    guard uv CTAP2_ERR_PIN_AUTH_INVALID ^;
    let* p := ctap_client_pin_verify_permissions (ga_pinProtocol ga) CP_pinUvAuthToken_permissions_ga in
    guard p CTAP2_ERR_PIN_AUTH_INVALID ^;
    let* r := ctap_client_pin_verify_permissions_rp_id (ga_pinProtocol ga) rp_id_hash in
    guard r CTAP2_ERR_PIN_AUTH_INVALID ^;
    upd_gas (fun g => g <| gs_user_verified := 1 |>) ;* ok tt
  else upd_gas (fun g => g <| gs_user_verified := 0 |>) ;* ok tt.

(** The special case of an empty [pinUvAuthParam]. *)
Definition empty_auth_param {A} : X dev A :=
  let* r := ctap2_user_presence_test in
  guard (r =? CTAP2_OK) r ^;
  let* is_set := ctap_client_pin_is_set in
  throw (if is_set then CTAP2_ERR_PIN_AUTH_INVALID else CTAP2_ERR_PIN_NOT_SET).

(** The size of the authenticator data with its extensions. *)
Definition ga_auth_data (ga : CTAP_getAssertion) (rp_id_hash rp_id_lookup : list Z) : X dev nat :=
  device_disable_up (ga_up ga =? 0) ;*
  let* g := get_gas in
  let* r := ctap_make_auth_data (ga_rp ga) rp_id_hash rp_id_lookup (gs_authData g)
    (fun h => upd_gas (fun g => g <| gs_authData := h |>)) HEAD_SIZE None (cred_protect (ga_extensions ga)) in
  device_disable_up false ;*
  match r with
  | inl e => throw e
  | inr _ =>
      (if (ga_up ga =? 1) || (ga_up ga =? 0xff) then
         ctap_client_pin_clear_user_present (ga_pinProtocol ga) ;*
         ctap_client_pin_clear_user_verified (ga_pinProtocol ga) ;*
         ctap_client_pin_clear_PinUvAuthToken_permissions_except_Lbw (ga_pinProtocol ga)
       else ret tt) ;*
      upd_gas (fun g => g <| gs_authData := (gs_authData g) <| ah_flags :=
        Z.lor (Z.land (ah_flags (gs_authData g)) (255 - 4)) (Z.shiftl (gs_user_verified g) 2) |> |>) ;*
      let* g := get_gas in
      let* (r, out, n) := ctap_extensions_encode_output (ga_extensions ga) (gs_extbuf g) in
      upd_gas (fun g => g <| gs_extbuf := out |>) ;*
      guard (r =? CTAP2_OK) r ^;
      (if negb (n =? 0)%nat then
         upd_gas (fun g => g <| gs_authData := (gs_authData g) <| ah_flags := Z.lor (ah_flags (gs_authData g)) 128 |> |>)
       else ret tt) ;*
      ok (HEAD_SIZE + n)%nat
  end.

Definition ctap_get_assertion (encoder : Enc) (request : list Z) : X dev Enc :=
  let^ ga := parse_get_assertion_request request in
  if ga_pinUvAuthParam_empty ga then empty_auth_param
  else
    guard (negb ((rp_size (ga_rp ga) =? 0) || negb (ga_clientDataHashPresent ga))) CTAP2_ERR_MISSING_PARAMETER ^;
    let* (rp_id_hash, rp_id_lookup) := ctap_derive_rp_id_info (rp_name_id (ga_rp ga)) (Z.to_nat (rp_size (ga_rp ga))) in
    ga_authorize ga rp_id_hash ^;
    let* (validCredCount, credLen) := build_filtered_credential_list (ga_credLen ga) rp_id_hash rp_id_lookup in
    guard (negb (validCredCount =? 0)%nat) CTAP2_ERR_NO_CREDENTIALS ^;
    let* last := get_cred (validCredCount - 1) in
    let map_size := 3 + (if (1 <? validCredCount)%nat then 1 else 0) +
                    (if negb (u_id_size (desc_user last) =? 0) then 1 else 0) in
    let^ (parent, map) := open_map map_size encoder in
    let* g := get_gas in
    (if (validCredCount <? 2)%nat || (gs_user_verified g =? 0) then
       let* c := get_cred 0 in
       set_cred 0 (c <| desc_user := (desc_user c) <| u_name := zeros USER_NAME_LIMIT |> |>)
     else ret tt) ;*
    let ga := ga <| ga_extensions := (ga_extensions ga) <| hmac_secret :=
      (hmac_secret (ga_extensions ga)) <| hs_credential := Some 0%nat |> |> |> in
    let^ auth_data_buf_sz := ga_auth_data ga rp_id_hash rp_id_lookup in
    let* g := get_gas in
    let* auth_data := lift (buf_bytes g auth_data_buf_sz) in
    let* cred := get_cred 0 in
    let^ map := ctap_get_assertion_cbor_encode_assertion_response map cred auth_data (ga_clientDataHash ga) in
    let^ map :=
      (if (1 <? validCredCount)%nat then
         let^ map := emit (cbor_encode_int GA_Resp_numberOfCredentials) map in
         emit (cbor_encode_int (Z.of_nat validCredCount)) map
       else ok map) in
    let^ encoder := close parent map in
    save_credential_list (ga_clientDataHash ga) (validCredCount - 1) (ga_extensions ga) ^;
    ok encoder.

(** The index of the next credential. *)
Definition get_next_credential : F (option nat) :=
  let* g := get_gas in
  if (gs_count g >? 0) && (gs_index g <? gs_count g) then
    upd_gas (fun g => g <| gs_index := u32 (gs_index g + 1) |>) ;* ret (Some (Z.to_nat (gs_index g)))
  else ret None.

Definition ctap_get_next_assertion (encoder : Enc) : X dev Enc :=
  let* next := get_next_credential in
  match next with
  | None => throw CTAP2_ERR_NOT_ALLOWED
  | Some i =>
      let* (_, bytes) := ctap_auth_data_update_count in
      upd_gas (fun g => g <| gs_authData := (gs_authData g) <| ah_signCount := bytes |> |>) ;*
      let* cred := get_cred i in
      let^ (parent, map) := open_map (if negb (u_id_size (desc_user cred) =? 0) then 4 else 3) encoder in
      let* g := get_gas in
      (if gs_user_verified g =? 0 then
         set_cred i (cred <| desc_user := (desc_user cred) <| u_name := zeros USER_NAME_LIMIT |> |>)
       else ret tt) ;*
      let* (r, out, n) := ctap_extensions_encode_output (gs_extensions g) (gs_extbuf g) in
      upd_gas (fun g => g <| gs_extbuf := out |>) ;*
      (if r =? CTAP2_OK then
         upd_gas (fun g => g <| gs_authData := (gs_authData g) <| ah_flags :=
           (if negb (n =? 0)%nat then Z.lor (ah_flags (gs_authData g)) 128
            else Z.land (ah_flags (gs_authData g)) (255 - 128)) |> |>)
       else ret tt) ;*
      let* g := get_gas in
      let* auth_data := lift (buf_bytes g (HEAD_SIZE + n)) in
      let* cred := get_cred i in
      let^ map := ctap_get_assertion_cbor_encode_assertion_response map cred auth_data (gs_clientDataHash g) in
      close parent map
  end.

End Filter.

End GetAssertion.

End GetAssertion.

(** The concrete device, continued: locals that start as zeros. *)
Module DemoCtap.
Import GetAssertion.

#[export] Instance Zeros : Uninit := {
  junk_status := 0;
  junk_rk := rk_of (zeros RK_SIZE);
  junk_desc := desc_zero;
}.

End DemoCtap.
