(* ===== verification/MakeCredential.v ===== *)
(** * authenticatorMakeCredential (src/fido2/src/ctap_make_credential.c) *)

From Stdlib Require Import Ascii.
From stdpp Require Import strings.
From S2P Require Import Prelude Monad Lfs Fs Board CborParser CborApi CborEncoder Sha256 Aes Crypto Rng State CtapTypes.
From S2P Require Import Dev Device CtapStatus CtapParse CtapEncode Credential Attestation Signing ClientPin.
From S2P Require Import Extensions AuthData GetAssertion.
Import Monad Lfs Fs Board CborParser CborApi CborEncoder Sha256 Aes Crypto Rng State CtapTypes
  Dev Device CtapStatus CtapParse CtapEncode Credential Attestation Signing ClientPin Extensions AuthData
  GetAssertion.

#[local] Open Scope Z_scope.

Module MakeCredential.

Definition MC_Cmd_clientDataHash : Z := 0x01.
Definition MC_Cmd_rp : Z := 0x02.
Definition MC_Cmd_user : Z := 0x03.
Definition MC_Cmd_pubKeyCredParams : Z := 0x04.
Definition MC_Cmd_excludeList : Z := 0x05.
Definition MC_Cmd_extensions : Z := 0x06.
Definition MC_Cmd_options : Z := 0x07.
Definition MC_Cmd_pinUvAuthParam : Z := 0x08.
Definition MC_Cmd_pinUvAuthProtocol : Z := 0x09.
Definition MC_Resp_fmt : Z := 0x01.
Definition MC_Resp_attStmt : Z := 0x03.
Definition CTAP2_ERR_CBOR_UNEXPECTED_TYPE : Z := 0x11.
Definition PARAM_clientDataHash : Z := 1.
Definition PARAM_rp : Z := 2.
Definition PARAM_user : Z := 4.
Definition PARAM_pubKeyCredParams : Z := 8.
Definition MC_requiredMask : Z := 0x0f.
Definition RP_NAME_LIMIT : nat := 32.
(** [sizeof(auth_data_buf)] *)
Definition AUTH_DATA_BUF_SIZE : nat := 310.

(** The exclude list is the iterator into the request. *)
Record CTAP_makeCredential := mkMc {
  paramsParsed : Z;
  mc_clientDataHash : list Z;
  mc_rp : rpId;
  credInfo : CTAP_credInfo;
  excludeList : CborValue;
  excludeListSize : Z;
  mc_uv : Z;
  mc_up : Z;
  mc_pinUvAuthParam : list Z;
  mc_pinUvAuthParam_len : Z;
  mc_pinUvAuthParam_empty : bool;
  mc_pinProtocol : Z;
  mc_extensions : CTAP_extensions;
}.
#[export] Instance eta_mc : Eta CTAP_makeCredential := fun m =>
  mkMc (paramsParsed m) (mc_clientDataHash m) (mc_rp m) (credInfo m) (excludeList m) (excludeListSize m) (mc_uv m)
    (mc_up m) (mc_pinUvAuthParam m) (mc_pinUvAuthParam_len m) (mc_pinUvAuthParam_empty m) (mc_pinProtocol m)
    (mc_extensions m).
(** [memset], then [up = 1]. *)
Definition mc_zero : CTAP_makeCredential :=
  mkMc 0 (zeros CLIENT_DATA_HASH_SIZE) rpId_zero (mkInfo user_zero 0 0 0) (mkCv 0 0 0 0 0) 0 0 1
    (zeros PIN_UV_AUTH_PARAM_MAX_SIZE) 0 false 0 ext_zero.

(** ** The request *)

Section Request.
Context (buf : list Z).

(** [*credtype] and [*algtype]. *)
Definition parse_pubkey_credential_params (val : CborValue) : P (Z * Z) :=
  guard (type val =? CborMapType) CTAP2_ERR_INVALID_CBOR ^;
  let^ cred := cbor (cbor_value_map_find_value buf val (text "type")) in
  let^ alg := cbor (cbor_value_map_find_value buf val (text "alg")) in
  guard (type cred =? CborTextStringType) CTAP2_ERR_MISSING_PARAMETER ^;
  guard (type alg =? CborIntegerType) CTAP2_ERR_MISSING_PARAMETER ^;
  let^ (fits, _, d) := copy_string buf cred 16 in
  guard fits CTAP2_ERR_INVALID_CBOR ^;
  let credtype := if bool_decide (cstr (take 15 d) = text "public-key") then PUB_KEY_CRED_PUB_KEY
                  else PUB_KEY_CRED_UNKNOWN in
  let^ algtype := cbor (cbor_value_get_int_checked buf alg) in
  ok (credtype, algtype).

Definition is_pubkey_credential_param_supported (credtype algtype : Z) : bool :=
  (credtype =? PUB_KEY_CRED_PUB_KEY) && ((algtype =? COSE_ALG_ES256) || (algtype =? COSE_ALG_EDDSA)).

(** The first loop: every element can be parsed. *)
Fixpoint check_params (n : nat) (arr : CborValue) : P unit :=
  match n with
  | O => ok tt
  | S n =>
      let^ _ := parse_pubkey_credential_params arr in
      let^ arr := cbor (cbor_value_advance buf arr) in
      check_params n arr
  end.

(** The second loop: the first supported element, a status being skipped. *)
Fixpoint pick_params (n : nat) (arr : CborValue) (mc : CTAP_makeCredential) : P CTAP_makeCredential :=
  match n with
  | O => throw CTAP2_ERR_UNSUPPORTED_ALGORITHM
  | S n =>
      let next :=
        let^ arr := cbor (cbor_value_advance buf arr) in
        pick_params n arr mc in
      let* r := parse_pubkey_credential_params arr in
      match r with
      | inr (credtype, algtype) =>
          if is_pubkey_credential_param_supported credtype algtype
          then ok (mc <| credInfo := (credInfo mc) <| publicKeyCredentialType := credtype |>
                                                   <| coseAlgorithmIdentifier := algtype |> |>
                      <| paramsParsed := Z.lor (paramsParsed mc) PARAM_pubKeyCredParams |>)
          else next
      | inl _ => next
      end
  end.

Definition find_supported_pubkey_credential_param (mc : CTAP_makeCredential) (val : CborValue) : P CTAP_makeCredential :=
  guard (type val =? CborArrayType) CTAP2_ERR_INVALID_CBOR ^;
  let^ arr := cbor (cbor_value_enter_container buf val) in
  let^ arr_length := cbor (cbor_value_get_array_length buf val) in
  check_params (Z.to_nat arr_length) arr ^;
  let^ arr := cbor (cbor_value_enter_container buf val) in
  pick_params (Z.to_nat arr_length) arr mc.

(** A descriptor parsed into a value that is given back. *)
Definition parse_descriptor (arr : CborValue) (cred : CTAP_credentialDescriptor) : P CTAP_credentialDescriptor :=
  let* (r, cred) := lift (ctap_parse_pubkey_credential_descriptor buf arr cred) in
  match r with
  | inl e => throw e
  | inr _ => ok cred
  end.

Section Exclude.
Context {U : Uninit}.

Fixpoint check_descriptors (n : nat) (arr : CborValue) (cred : CTAP_credentialDescriptor) : P unit :=
  match n with
  | O => ok tt
  | S n =>
      let^ cred := parse_descriptor arr cred in
      let^ arr := cbor (cbor_value_advance buf arr) in
      check_descriptors n arr cred
  end.

Definition parse_exclude_list (val : CborValue) : P unit :=
  guard (type val =? CborArrayType) CTAP2_ERR_INVALID_CBOR ^;
  let^ size := cbor (cbor_value_get_array_length buf val) in
  let^ arr := cbor (cbor_value_enter_container buf val) in
  check_descriptors (Z.to_nat size) arr junk_desc.

End Exclude.

(** The relying party; its name is copied to a buffer nobody reads. *)
Definition rp_case (key : list Z) (map : CborValue) (rp : rpId) : P rpId :=
  guard (type map =? CborTextStringType) CTAP2_ERR_INVALID_CBOR ^;
  if bool_decide (key = text "id") then
    let^ (id, sz) := ctap_parse_rp_id buf (rp_name_id rp) map in ok (mkRpId id sz)
  else if bool_decide (key = text "name") then
    let^ _ := copy_string buf map RP_NAME_LIMIT in ok rp
  else ok rp.
Definition parse_relying_party_entity (rp : rpId) (val : CborValue) : P rpId :=
  let^ (map, map_length) := enter_map buf val in
  let^ (_, rp) := text_entries buf 8 rp_case (Z.to_nat map_length) map (rp <| rp_size := 0 |>) in
  guard (negb (rp_size rp =? 0)) CTAP2_ERR_MISSING_PARAMETER ^;
  ok rp.

Section Cases.
Context {U : Uninit}.

(** The [switch] on the key. *)
Definition mc_case (key : Z) (map : CborValue) (mc : CTAP_makeCredential) : P CTAP_makeCredential :=
  let parsed p mc := mc <| paramsParsed := Z.lor (paramsParsed mc) p |> in
  if key =? MC_Cmd_clientDataHash then
    let^ h := ctap_parse_fixed_length_byte_string buf map CLIENT_DATA_HASH_SIZE in
    ok (parsed PARAM_clientDataHash (mc <| mc_clientDataHash := h |>))
  else if key =? MC_Cmd_rp then
    let^ rp := parse_relying_party_entity (mc_rp mc) map in
    ok (parsed PARAM_rp (mc <| mc_rp := rp |>))
  else if key =? MC_Cmd_user then
    let^ u := ctap_parse_user_entity buf (ci_user (credInfo mc)) map in
    ok (parsed PARAM_user (mc <| credInfo := (credInfo mc) <| ci_user := u |> |>))
  else if key =? MC_Cmd_pubKeyCredParams then
    find_supported_pubkey_credential_param mc map
  else if key =? MC_Cmd_excludeList then
    parse_exclude_list map ^;
    let^ arr := cbor (cbor_value_enter_container buf map) in
    let^ size := cbor (cbor_value_get_array_length buf map) in
    ok (mc <| excludeList := arr |> <| excludeListSize := size |>)
  else if key =? MC_Cmd_extensions then
    guard (type map =? CborMapType) CTAP2_ERR_INVALID_CBOR ^;
    let^ e := ctap_extensions_parse_input buf map (mc_extensions mc) REQ_TYPE_MC in
    ok (mc <| mc_extensions := e |>)
  else if key =? MC_Cmd_options then
    let^ (rk, uv, up) := ctap_parse_options buf map (ci_rk (credInfo mc), mc_uv mc, mc_up mc) in
    ok (mc <| credInfo := (credInfo mc) <| ci_rk := rk |> |> <| mc_uv := uv |> <| mc_up := up |>)
  else if key =? MC_Cmd_pinUvAuthParam then
    let^ (empty, p, len) := ctap_parse_pinUvAuthParam buf map (mc_pinUvAuthParam mc) in
    ok (mc <| mc_pinUvAuthParam_empty := empty |> <| mc_pinUvAuthParam := p |> <| mc_pinUvAuthParam_len := len |>)
  else if key =? MC_Cmd_pinUvAuthProtocol then
    let^ tmp := int_value buf map in
    guard (negb ((tmp <? 0) || (tmp >? 255))) CTAP2_ERR_INVALID_CBOR ^;
    ok (mc <| mc_pinProtocol := tmp |>)
  else ok mc.

Definition parse_make_credential : P CTAP_makeCredential :=
  let^ it := cbor (cbor_parser_init buf) in
  guard (type it =? CborMapType) CTAP2_ERR_CBOR_UNEXPECTED_TYPE ^;
  let^ (map, map_length) := enter_map buf it in
  let^ (_, mc) := int_entries buf mc_case (Z.to_nat map_length) map mc_zero in
  ok mc.

End Cases.

End Request.

(** ** The command *)

Section Command.
Context {L : Lfs} {B : Board} {E : Ecc} {U : Uninit}.

(** What a PIN-protected device asks for before it looks at the relying party. *)
Definition mc_authorize (mc : CTAP_makeCredential) : X dev unit :=
  let* is_set := ctap_client_pin_is_set in
  if is_set : bool then
    guard (negb (mc_pinUvAuthParam_len mc =? 0)) CTAP2_ERR_PUAT_REQUIRED ^;
    ctap_client_pin_verify_auth (mc_pinUvAuthParam mc) (mc_clientDataHash mc) (mc_pinProtocol mc) ^;
    let* uv := ctap_client_pin_get_user_verified (mc_pinProtocol mc) in
    guard uv CTAP2_ERR_PIN_AUTH_INVALID ^;
    let* p := ctap_client_pin_verify_permissions (mc_pinProtocol mc) CP_pinUvAuthToken_permissions_mc in
    guard p CTAP2_ERR_PIN_AUTH_INVALID
  else ok tt.

Definition mc_authorize_rp (mc : CTAP_makeCredential) (rp_id_hash : list Z) : X dev unit :=
  let* is_set := ctap_client_pin_is_set in
  if is_set : bool then
    let* r := ctap_client_pin_verify_permissions_rp_id (mc_pinProtocol mc) rp_id_hash in
    guard r CTAP2_ERR_PIN_AUTH_INVALID
  else ok tt.

(** The [for] loop over the exclude list, [n] rounds left.  A credential of
    another device, or one that was deleted, makes it [continue] without
    advancing in the list. *)
Fixpoint exclude_loop (buf : list Z) (mc : CTAP_makeCredential) (rp_id_hash rp_id_lookup : list Z) (n : nat)
    (arr : CborValue) (excl_cred : CTAP_credentialDescriptor) : X dev unit :=
  match n with
  | O => ok tt
  | S n =>
      let again := exclude_loop buf mc rp_id_hash rp_id_lookup n arr in
      let* (r, excl_cred) := lift (ctap_parse_pubkey_credential_descriptor buf arr excl_cred) in
      match r with
      | inl e => if e =? CTAP2_ERR_CBOR_UNEXPECTED_TYPE then again excl_cred else throw e
      | inr _ =>
          let* mine := ctap_credential_belongs_to_rp rp_id_lookup rp_id_hash excl_cred in
          if mine =? 0 then again excl_cred
          else
            let* user_verified := ctap_client_pin_get_user_verified (mc_pinProtocol mc) in
            let* (status, is_rk) := ctap_check_credential_metadata (cred_of (desc_id excl_cred)) user_verified true in
            if status =? 0 then
              let* gone :=
                (if negb (is_rk =? 0) then
                   let* e := ctap_verify_rk_exists (cred_of (desc_id excl_cred)) in ret (e =? 0)
                 else ret false) in
              if gone : bool then again excl_cred
              else
                let* r := ctap2_user_presence_test in
                guard (r =? CTAP2_OK) r ^;
                throw CTAP2_ERR_CREDENTIAL_EXCLUDED
            else
              let^ arr := cbor (cbor_value_advance buf arr) in
              exclude_loop buf mc rp_id_hash rp_id_lookup n arr excl_cred
      end
  end.

Definition crypto_attestation_available : F bool := gets (fun d => attestation_available (d_crypto d)).

Definition cbor_encode_attestation_statement (map : Enc) (sigder : list Z) : X dev Enc :=
  let^ map := emit (cbor_encode_int MC_Resp_attStmt) map in
  let* available := crypto_attestation_available in
  if available : bool then
    let* (r, cert, cert_size) := attestation_read_cert ATTESTATION_MAX_CERT_SIZE in
    guard (negb (r <? 0)) CTAP1_ERR_OTHER ^;
    let* cert := match cert_size with
                 | Some n => lift (mem_read cert 0 (Z.to_nat n))
                 | None => stop FOutOfBounds
                 end in
    let^ (parent, stmtmap) := open_map 3 map in
    let^ stmtmap := emit (text_stringz (text "alg")) stmtmap in
    let^ stmtmap := emit (cbor_encode_int COSE_ALG_ES256) stmtmap in
    let^ stmtmap := emit (text_stringz (text "sig")) stmtmap in
    let^ stmtmap := emit (cbor_encode_byte_string sigder) stmtmap in
    let^ stmtmap := emit (text_stringz (text "x5c")) stmtmap in
    let^ (parent2, x5carr) := open_array 1 stmtmap in
    let^ x5carr := emit (cbor_encode_byte_string cert) x5carr in
    let^ stmtmap := close parent2 x5carr in
    close parent stmtmap
  else
    let^ (parent, stmtmap) := open_map 0 map in
    close parent stmtmap.

(** The authenticator data of a new credential: header, attested data and
    extensions. *)
Definition mc_auth_data (mc : CTAP_makeCredential) (rp_id_hash rp_id_lookup : list Z) : X dev (list Z) :=
  let^ (head, att) := ctap_make_auth_data (mc_rp mc) rp_id_hash rp_id_lookup head_zero (fun _ => ret tt)
    AUTH_DATA_BUF_SIZE (Some (credInfo mc)) (cred_protect (mc_extensions mc)) in
  ctap_client_pin_clear_user_present (mc_pinProtocol mc) ;*
  ctap_client_pin_clear_user_verified (mc_pinProtocol mc) ;*
  ctap_client_pin_clear_PinUvAuthToken_permissions_except_Lbw (mc_pinProtocol mc) ;*
  let auth_data := head_bytes head ++ att in
  let* (r, out, n) :=
    ctap_extensions_encode_output (mc_extensions mc) (zeros (AUTH_DATA_BUF_SIZE - length auth_data)) in
  guard (r =? CTAP2_OK) r ^;
  let head := if negb (n =? 0)%nat then head <| ah_flags := Z.lor (ah_flags head) 128 |> else head in
  let* ext := lift (mem_read out 0 n) in
  ok (head_bytes head ++ att ++ ext).

Definition ctap_make_credential (encoder : Enc) (request : list Z) : X dev Enc :=
  let^ mc := parse (parse_make_credential request) in
  if mc_pinUvAuthParam_empty mc then empty_auth_param
  else
    guard (Z.land (paramsParsed mc) MC_requiredMask =? MC_requiredMask) CTAP2_ERR_MISSING_PARAMETER ^;
    mc_authorize mc ^;
    guard (negb (mc_up mc =? 0)) CTAP2_ERR_INVALID_OPTION ^;
    let* (rp_id_hash, rp_id_lookup) := ctap_derive_rp_id_info (rp_name_id (mc_rp mc)) (Z.to_nat (rp_size (mc_rp mc))) in
    mc_authorize_rp mc rp_id_hash ^;
    exclude_loop request mc rp_id_hash rp_id_lookup (Z.to_nat (excludeListSize mc)) (excludeList mc) junk_desc ^;
    let^ (parent, map) := open_map 3 encoder in
    let^ map := emit (cbor_encode_int MC_Resp_fmt) map in
    let* available := crypto_attestation_available in
    let^ map := emit (text_stringz (if available then text "packed" else text "none")) map in
    let^ auth_data := mc_auth_data mc rp_id_hash rp_id_lookup in
    let^ map := emit (cbor_encode_int MC_Resp_authData) map in
    let^ map := emit (cbor_encode_byte_string auth_data) map in
    let* sigder :=
      (if available : bool then
         crypto_ecc256_load_attestation_key ;*
         ctap_sign_data auth_data (mc_clientDataHash mc) COSE_ALG_ES256
       else ret []) in
    let^ map := cbor_encode_attestation_statement map sigder in
    close parent map.

End Command.

End MakeCredential.
