(* ===== verification/CredMgmt.v ===== *)
(** * authenticatorCredentialManagement (src/fido2/src/ctap_credential_management.c) *)

From Stdlib Require Import Ascii.
From stdpp Require Import strings.
From S2P Require Import Prelude Monad Lfs Fs Board CborParser CborApi CborEncoder Sha256 Aes Crypto Rng State CtapTypes.
From S2P Require Import Dev Device CtapStatus CtapParse CtapEncode Credential Attestation Signing ClientPin.
From S2P Require Import Extensions AuthData GetAssertion MakeCredential.
Import Monad Lfs Fs Board CborParser CborApi CborEncoder Sha256 Aes Crypto Rng State CtapTypes
  Dev Device CtapStatus CtapParse CtapEncode Credential Attestation Signing ClientPin Extensions AuthData
  GetAssertion MakeCredential.

#[local] Open Scope Z_scope.

Module CredMgmt.

Definition CM_Cmd_subCommand : Z := 0x01.
Definition CM_Cmd_subCommandParams : Z := 0x02.
Definition CM_Cmd_pinUvAuthProtocol : Z := 0x03.
Definition CM_Cmd_pinUvAuthParam : Z := 0x04.
Definition CM_SubCmd_getCredsMetadata : Z := 0x01.
Definition CM_SubCmd_enumerateRPsBegin : Z := 0x02.
Definition CM_SubCmd_enumerateRPsGetNextRP : Z := 0x03.
Definition CM_SubCmd_enumerateCredentialsBegin : Z := 0x04.
Definition CM_SubCmd_enumerateCredentialsGetNextCredential : Z := 0x05.
Definition CM_SubCmd_deleteCredential : Z := 0x06.
Definition CM_SubCmd_updateUserInformation : Z := 0x07.
Definition CM_SubCmdParam_rpIDHash : Z := 0x01.
Definition CM_SubCmdParam_credentialID : Z := 0x02.
Definition CM_SubCmdParam_user : Z := 0x03.
Definition CP_pinUvAuthToken_permissions_cm : Z := 0x04.
Definition CTAP_STATEFUL_TIMEOUT_MS : Z := 30000.
Definition COMPARE_LEN : nat := 8.
Definition MAX_RK_FILES : Z := 16.
(** [sizeof(CTAP_credentialDescriptor) + 16], the enumeration being an [int]. *)
Definition PARAMS_COPY_SIZE : nat := 240.

Inductive rk_mode_t := RK_MODE_COUNT | RK_MODE_GET_NEXT.

Record CTAP_credMgmt := mkCm {
  cm_subCommand : Z;
  cm_rpIdHash : list Z;
  rpIdHash_present : bool;
  cm_credentialDescriptor : CTAP_credentialDescriptor;
  credentialId_present : bool;
  credentialUser_present : bool;
  hashed_subCommand : Z;
  subCommandParamsCborCopy : list Z;
  subCommandParamsCborSize : Z;
  cm_pinUvAuthParam : list Z;
  cm_pinUvAuthParam_len : Z;
  cm_pinProtocol : Z;
}.
#[export] Instance eta_cm : Eta CTAP_credMgmt := fun c =>
  mkCm (cm_subCommand c) (cm_rpIdHash c) (rpIdHash_present c) (cm_credentialDescriptor c) (credentialId_present c)
    (credentialUser_present c) (hashed_subCommand c) (subCommandParamsCborCopy c) (subCommandParamsCborSize c)
    (cm_pinUvAuthParam c) (cm_pinUvAuthParam_len c) (cm_pinProtocol c).
Definition cm_zero : CTAP_credMgmt :=
  mkCm 0 (zeros 32) false desc_zero false false 0 (zeros PARAMS_COPY_SIZE) 0 (zeros PIN_UV_AUTH_PARAM_MAX_SIZE) 0 0.

(** The bytes at [&CM->hashed]. *)
Definition hashed (cm : CTAP_credMgmt) : list Z := hashed_subCommand cm :: subCommandParamsCborCopy cm.

(** ** The request *)

Section Request.
Context (buf : list Z).

(** The [switch] on a parameter's key; the size given to the copy of the hash
    is the one the previous copy returned. *)
Definition cm_param_case (key : Z) (map : CborValue) (a : CTAP_credMgmt * Z) : P (CTAP_credMgmt * Z) :=
  let '(cm, sz) := a in
  let desc := cm_credentialDescriptor cm in
  if key =? CM_SubCmdParam_rpIDHash then
    let^ (fits, sz, d) := copy_bytes buf map (Z.to_nat sz) in
    guard fits CTAP2_ERR_LIMIT_EXCEEDED ^;
    let* h := lift (mem_write (cm_rpIdHash cm) 0 d) in
    ok (cm <| cm_rpIdHash := h |> <| rpIdHash_present := true |>, sz)
  else if key =? CM_SubCmdParam_credentialID then
    let^ desc := parse_descriptor buf map desc in
    ok (cm <| cm_credentialDescriptor := desc |> <| credentialId_present := true |>, sz)
  else if key =? CM_SubCmdParam_user then
    let^ u := ctap_parse_user_entity buf (desc_user desc) map in
    ok (cm <| cm_credentialDescriptor := desc <| desc_user := u |> |> <| credentialUser_present := true |>, sz)
  else ok (cm, sz).

(** The bytes of the map are kept, with the one before its first element. *)
Definition parse_credential_management_subcommandparams (val : CborValue) (cm : CTAP_credMgmt) : P CTAP_credMgmt :=
  let^ (map, map_length) := enter_map buf val in
  let start_byte := (ptr map - 1)%nat in
  let^ (map, (cm, _)) := any_int_entries buf cm_param_case (Z.to_nat map_length) map (cm, 32) in
  let length := u32 (Z.of_nat (ptr map) - Z.of_nat start_byte) in
  guard (negb (length >? Z.of_nat PARAMS_COPY_SIZE)) CTAP2_ERR_LIMIT_EXCEEDED ^;
  let* d := lift (mem_read buf start_byte (Z.to_nat length)) in
  let* copy := lift (mem_write (subCommandParamsCborCopy cm) 0 d) in
  ok (cm <| subCommandParamsCborCopy := copy |> <| subCommandParamsCborSize := length |>).

Definition cm_byte (map : CborValue) : P Z :=
  let^ tmp := int_value buf map in
  guard (negb ((tmp <? 0) || (tmp >? 255))) CTAP2_ERR_INVALID_CBOR ^;
  ok tmp.

Definition cm_case (key : Z) (map : CborValue) (cm : CTAP_credMgmt) : P CTAP_credMgmt :=
  if key =? CM_Cmd_subCommand then
    let^ tmp := cm_byte map in
    ok (cm <| cm_subCommand := tmp |> <| hashed_subCommand := tmp |>)
  else if key =? CM_Cmd_subCommandParams then
    parse_credential_management_subcommandparams map cm
  else if key =? CM_Cmd_pinUvAuthProtocol then
    let^ tmp := cm_byte map in ok (cm <| cm_pinProtocol := tmp |>)
  else if key =? CM_Cmd_pinUvAuthParam then
    let^ (empty, p, len) := ctap_parse_pinUvAuthParam buf map (cm_pinUvAuthParam cm) in
    guard (negb empty) CTAP1_ERR_INVALID_LENGTH ^;
    ok (cm <| cm_pinUvAuthParam := p |> <| cm_pinUvAuthParam_len := len |>)
  else ok cm.

Definition parse_credential_management_request : P CTAP_credMgmt :=
  let^ it := cbor (cbor_parser_init buf) in
  let^ (map, map_length) := enter_map buf it in
  let^ (_, cm) := int_entries buf cm_case (Z.to_nat map_length) map cm_zero in
  ok cm.

End Request.

(** ** The resident keys *)

Section Keys.
Context {L : Lfs} {B : Board} {U : Uninit}.

Definition get_cm : F credential_management_state_t := gets d_cm.
Definition upd_cm (f : credential_management_state_t -> credential_management_state_t) : F unit := upd d_cm f.

Definition clear_state : F unit := upd_cm (fun _ => cms_zero).
Definition init_state (cmd : Z) : F unit :=
  clear_state ;*
  upd_cm (fun c => c <| cms_valid := true |>) ;*
  let* now := millis in
  upd_cm (fun c => c <| timestamp := now |> <| init_cmd := cmd |>).

(** The commands that go on with an enumeration, after the one that began it. *)
Definition continues (subCmd init_cmd : Z) : bool :=
  if subCmd =? CM_SubCmd_enumerateRPsGetNextRP then init_cmd =? CM_SubCmd_enumerateRPsBegin
  else if subCmd =? CM_SubCmd_enumerateCredentialsGetNextCredential
  then init_cmd =? CM_SubCmd_enumerateCredentialsBegin
  else false.

Definition check_state (subCmd : Z) : F Z :=
  let* st := get_cm in
  let reject := upd_cm (fun c => c <| cms_valid := false |>) ;* clear_state ;* ret (-1) in
  if cms_valid st then
    if continues subCmd (init_cmd st) then
      let* current_time := millis in
      if u32 (current_time - timestamp st) >? CTAP_STATEFUL_TIMEOUT_MS then reject
      else upd_cm (fun c => c <| timestamp := current_time |>) ;* ret 0
    else reject
  else ret (-1).

Definition resident_key_is_valid (rk : CTAP_residentKey) : bool :=
  (cr_count (rk_id rk) >? 0) && negb (cr_count (rk_id rk) =? 0xffffffff).

(** The [while (state.rk_idx < nbr_rk)] loop.  The index has 8 bits: every
    file of at most 255 keys ends it within 256 rounds. *)
Fixpoint scan_rk_loop (fuel : nat) (rp_id_lookup : list Z) (mode : rk_mode_t) (nbr_rk count : Z)
    (out_rk : CTAP_residentKey) : F (Z * CTAP_residentKey) :=
  let* st := get_cm in
  if rk_idx st <? nbr_rk then
    match fuel with
    | O => stop FExit
    | S fuel =>
        upd_cm (fun c => c <| rk_idx := u8 (rk_idx c + 1) |>) ;*
        let* out_rk := ctap_load_rk (rk_idx st) out_rk in
        if negb (resident_key_is_valid out_rk) then scan_rk_loop fuel rp_id_lookup mode nbr_rk count out_rk
        else if negb (memcmp rp_id_lookup (CtapTypes.rp_id_lookup (rk_id out_rk)) =? 0)
        then scan_rk_loop fuel rp_id_lookup mode nbr_rk count out_rk
        else
          match mode with
          | RK_MODE_GET_NEXT =>
              let* _ := ctap_close_rk_file in
              let* out_rk := xcrypt_rk out_rk in
              ret (0, out_rk)
          | RK_MODE_COUNT => scan_rk_loop fuel rp_id_lookup mode nbr_rk (count + 1) out_rk
          end
    end
  else
    let* _ := ctap_close_rk_file in
    upd_cm (fun c => c <| rk_idx := 0 |>) ;*
    ret (match mode with RK_MODE_COUNT => count | RK_MODE_GET_NEXT => -1 end, out_rk).

Definition SCAN_FUEL : nat := 257.

(** The result and [*out_rk]. *)
Definition scan_rk (rp_id_lookup : list Z) (mode : rk_mode_t) (out_rk : CTAP_residentKey) : F (Z * CTAP_residentKey) :=
  let* nbr_rk := ctap_open_rk_file rp_id_lookup in
  if nbr_rk <? 0 then
    let* _ := ctap_close_rk_file in ret (-1, out_rk)
  else scan_rk_loop SCAN_FUEL rp_id_lookup mode nbr_rk 0 out_rk.

Definition count_rk (rp_id_hash : list Z) (out_rk : CTAP_residentKey) : F (Z * CTAP_residentKey) :=
  upd_cm (fun c => c <| rk_idx := 0 |>) ;*
  let* lookup := ctap_compute_mac rp_id_hash CREDENTIAL_TAG_SIZE in
  scan_rk lookup RK_MODE_COUNT out_rk.

Definition get_next_rk (rp_id_hash : list Z) (out_rk : CTAP_residentKey) : F (Z * CTAP_residentKey) :=
  let* lookup := ctap_compute_mac rp_id_hash CREDENTIAL_TAG_SIZE in
  scan_rk lookup RK_MODE_GET_NEXT out_rk.

(** ** Unique relying parties *)

(** The [while (index < nbr_rk)] loop, [n] keys to go: [seen] in the order of
    the list, [out] the list of indices. *)
Fixpoint unique_loop (n : nat) (index : Z) (seen : list (list Z)) (out : list Z) (tmp_rk : CTAP_residentKey)
    : F (list (list Z) * list Z) :=
  match n with
  | O => ret (seen, out)
  | S n =>
      let* tmp_rk := ctap_load_rk index tmp_rk in
      let hash := take COMPARE_LEN (CtapTypes.rp_id_lookup (rk_id tmp_rk)) in
      if negb (resident_key_is_valid tmp_rk) then unique_loop n (index + 1) seen out tmp_rk
      else if existsb (fun s => memcmp s hash =? 0) seen then unique_loop n (index + 1) seen out tmp_rk
      else if (length seen <? MAX_UNIQUE_RP)%nat then
        let* out := lift (mem_write out (length seen) [index]) in
        unique_loop n (index + 1) (seen ++ [hash]) out tmp_rk
      else ret (seen, out)
  end.

(** The file that holds the relying parties of index [file_idx]. *)
Definition file_name (file_idx : Z) : list Z := [u8 (Z.shiftl file_idx 4)].

(** The result, [*out_list_len] and the list. *)
Definition scan_file_unique_rp (file_idx : Z) (out : list Z) : F (Z * Z * list Z) :=
  let* r := ctap_open_rk_file (file_name file_idx) in
  if (r <? 0) || (r >? ctap_max_number_of_rks) then
    let* _ := ctap_close_rk_file in ret (-1, 0, out)
  else
    let* (seen, out) := unique_loop (Z.to_nat (u8 r)) 0 [] out junk_rk in
    let* _ := ctap_close_rk_file in
    ret (0, Z.of_nat (length seen), out).

(** The loop over the files, [n] to go; the first list found goes to the
    state. *)
Fixpoint scan_files_loop (n : nat) (file_idx rp_count : Z) (first_rp_list_stored : bool) : F Z :=
  match n with
  | O => ret rp_count
  | S n =>
      let* (r, file_count, tmp_list) := scan_file_unique_rp file_idx (zeros MAX_UNIQUE_RP) in
      if (r <? 0) || (file_count =? 0) then scan_files_loop n (file_idx + 1) rp_count first_rp_list_stored
      else
        (if first_rp_list_stored then ret tt
         else
           let* st := get_cm in
           let* d := lift (mem_read tmp_list 0 (Z.to_nat file_count)) in
           let* l := lift (mem_write (list_unique_rps st) 0 d) in
           upd_cm (fun c => c <| list_unique_rps := l |> <| Dev.file_idx := file_idx |>
                              <| len_list_unique_rps := file_count |>)) ;*
        scan_files_loop n (file_idx + 1) (u16 (rp_count + file_count)) true
  end.

Definition scan_files_unique_rp : F Z := scan_files_loop (Z.to_nat MAX_RK_FILES) 0 0 false.

Definition get_count_unique_relying_parties : F Z :=
  upd_cm (fun c => c <| rk_idx := 0 |> <| Dev.file_idx := 0 |> <| len_list_unique_rps := 0 |>) ;*
  scan_files_unique_rp.

(** The [while (state.file_idx < MAX_RK_FILES)] loop: the next file that holds
    a relying party. *)
Fixpoint next_file_loop (fuel : nat) : F unit :=
  let* st := get_cm in
  if Dev.file_idx st <? MAX_RK_FILES then
    match fuel with
    | O => stop FExit
    | S fuel =>
        let* (r, len, l) := scan_file_unique_rp (Dev.file_idx st) (list_unique_rps st) in
        upd_cm (fun c => c <| len_list_unique_rps := len |> <| list_unique_rps := l |>) ;*
        if (r <? 0) || (len =? 0) then
          upd_cm (fun c => c <| Dev.file_idx := u8 (Dev.file_idx c + 1) |>) ;* next_file_loop fuel
        else ret tt
    end
  else ret tt.

Definition get_next_unique_rp (out_rk : CTAP_residentKey) : F (Z * CTAP_residentKey) :=
  let* st := get_cm in
  (if rk_idx st >=? len_list_unique_rps st then
     upd_cm (fun c => c <| Dev.file_idx := u8 (Dev.file_idx c + 1) |> <| rk_idx := 0 |> <| len_list_unique_rps := 0 |>) ;*
     next_file_loop (Z.to_nat MAX_RK_FILES)
   else ret tt) ;*
  let* st := get_cm in
  if len_list_unique_rps st =? 0 then ret (-1, out_rk)
  else
    let* nbr_rk := ctap_open_rk_file (file_name (Dev.file_idx st)) in
    if nbr_rk <=? 0 then
      let* _ := ctap_close_rk_file in ret (-1, out_rk)
    else
      let* i := lift (mem_read (list_unique_rps st) (Z.to_nat (rk_idx st)) 1) in
      let* out_rk := ctap_load_rk (nth 0 i 0) out_rk in
      let* out_rk := xcrypt_rk out_rk in
      upd_cm (fun c => c <| rk_idx := u8 (rk_idx c + 1) |>) ;*
      let* _ := ctap_close_rk_file in
      ret (0, out_rk).

(** The [while (1)] loop: every round moves [state.rk_idx] on, so that there
    are no more rounds than keys in a file. *)
Fixpoint find_loop (fuel : nat) (id : CredentialId) (rk_buf : CTAP_residentKey) : X dev CTAP_residentKey :=
  match fuel with
  | O => stop FExit
  | S fuel =>
      let* (r, rk_buf) := scan_rk (CtapTypes.rp_id_lookup id) RK_MODE_GET_NEXT rk_buf in
      if r <? 0 then throw CTAP2_ERR_NO_CREDENTIALS
      else if memcmp (cr_tag id) (cr_tag (rk_id rk_buf)) =? 0 then ok rk_buf
      else find_loop fuel id rk_buf
  end.

Definition update_credential_user_info (id : CredentialId) (user : CTAP_userEntity) (rk_buf : CTAP_residentKey)
    : X dev unit :=
  clear_state ;*
  let^ rk := find_loop SCAN_FUEL id rk_buf in
  let n := Z.to_nat (u_id_size (rk_user rk)) in
  let* a := lift (mem_read (u_id (rk_user rk)) 0 n) in
  let* b := lift (mem_read (u_id user) 0 n) in
  guard (memcmp a b =? 0) CTAP1_ERR_INVALID_PARAMETER ^;
  let rk := rk <| rk_user := (rk_user rk) <| u_name := u_name user |> <| u_displayName := u_displayName user |> |> in
  let* nonce := fill_random (rk_nonce rk) in
  let* rk := xcrypt_rk (rk <| rk_nonce := nonce |>) in
  let* rk := tag_rk rk in
  let* r := ctap_overwrite_rk rk in
  clear_state ;*
  guard (negb (r <? 0)) CTAP1_ERR_OTHER.

End Keys.

(** ** The responses *)

Section Response.
Context {L : Lfs} {B : Board} {E : Ecc}.

(** The subtraction is of [uint32_t]. *)
Definition cbor_encode_credential_metadata (encoder : Enc) : X dev Enc :=
  let* st := gets STATE in
  let^ (parent, map) := open_map 2 encoder in
  let^ map := emit (cbor_encode_int 1) map in
  let^ map := emit (cbor_encode_int (rk_stored st)) map in
  let^ map := emit (cbor_encode_int 2) map in
  let^ map := emit (cbor_encode_int (u32 (ctap_max_number_of_rks - rk_stored st))) map in
  close parent map.

Definition extract_cred_protect_from_metadata (credential : CredentialId) : F Z :=
  let* metadata := credential_metadata credential in
  ret (nth CREDENTIAL_META_CRED_PROTECT_BYTE metadata 0).

(** The status of [cose_key_generate] is not looked at. *)
Definition cbor_encode_enumerate_credential (encoder : Enc) (rk : CTAP_residentKey) (rk_count : Z) : X dev Enc :=
  let* cred_protect := extract_cred_protect_from_metadata (rk_id rk) in
  let cred_protect := if (cred_protect =? 0) || (cred_protect >? 3) then EXT_CRED_PROTECT_OPTIONAL else cred_protect in
  let* cose_alg := ctap_restore_metadata_cose_alg (rk_id rk) in
  let^ (parent, map) := open_map (if rk_count >? 0 then 5 else 4) encoder in
  let^ map := emit (cbor_encode_int 6) map in
  let^ map := ctap_cbor_encode_user_entity map (rk_user rk) 1 in
  let^ map := emit (cbor_encode_int 7) map in
  let^ map := ctap_cbor_encode_credential_descriptor map (cred_bytes (rk_id rk)) PUB_KEY_CRED_PUB_KEY in
  let^ map := emit (cbor_encode_int 8) map in
  let* (_, map) := cose_key_generate map (cred_bytes (rk_id rk)) PUB_KEY_CRED_PUB_KEY cose_alg in
  let^ map :=
    (if rk_count >? 0 then
       let^ map := emit (cbor_encode_int 9) map in
       emit (cbor_encode_int rk_count) map
     else ok map) in
  let^ map := emit (cbor_encode_int 0x0A) map in
  let^ map := emit (cbor_encode_int cred_protect) map in
  close parent map.

(** An encoding step whose result is not looked at. *)
Definition emit_any (op : CborEncoder -> list Z -> res encres) (e : Enc) : F Enc :=
  let* (_, c, out) := lift (op (fst e) (snd e)) in ret (c, out).

Definition cbor_encode_enumerate_rp (encoder : Enc) (rk : CTAP_residentKey) (rp_count : Z) : X dev Enc :=
  let^ (parent, map) := open_map (if rp_count >? 0 then 3 else 2) encoder in
  let^ map := emit (cbor_encode_int 3) map in
  let^ (parent2, rp) := open_map 2 map in
  let^ rp := emit (text_stringz (text "id")) rp in
  let^ rp :=
    (if rp_id_size (rk_rp rk) <=? Z.of_nat CREDENTIAL_RP_ID_SIZE then
       let* name := lift (mem_read (rp_id (rk_rp rk)) 0 (Z.to_nat (rp_id_size (rk_rp rk)))) in
       emit (cbor_encode_text_string name) rp
     else emit (cbor_encode_text_string []) rp) in
  let^ rp := emit (text_stringz (text "name")) rp in
  let^ rp := emit (text_stringz (u_name (rk_user rk))) rp in
  let^ map := close parent2 rp in
  let^ map := emit (cbor_encode_int 4) map in
  let* h := lift (mem_read (rp_id_hash (rk_rp rk)) 0 32) in
  let* map := emit_any (cbor_encode_byte_string h) map in
  let^ map :=
    (if rp_count >? 0 then
       let^ map := emit (cbor_encode_int 5) map in
       emit (cbor_encode_int rp_count) map
     else ok map) in
  close parent map.

End Response.

(** ** The command *)

Section Command.
Context {L : Lfs} {B : Board} {E : Ecc} {U : Uninit}.

(** The relying party a token may be bound to is compared with the one in the
    request, zeros when it has none. *)
Definition verify_pin_auth_for_credential_management (cm : CTAP_credMgmt) : X dev unit :=
  if (cm_subCommand cm =? CM_SubCmd_enumerateRPsGetNextRP)
     || (cm_subCommand cm =? CM_SubCmd_enumerateCredentialsGetNextCredential) then ok tt
  else
    let proto := cm_pinProtocol cm in
    guard (negb (cm_pinUvAuthParam_len cm =? 0)) CTAP2_ERR_PUAT_REQUIRED ^;
    guard ((proto =? 1) || (proto =? 2)) CTAP1_ERR_INVALID_PARAMETER ^;
    let* msg := lift (mem_read (hashed cm) 0 (Z.to_nat (u32 (subCommandParamsCborSize cm + 1)))) in
    ctap_client_pin_verify_auth_ex (cm_pinUvAuthParam cm) msg proto ^;
    let* p := ctap_client_pin_verify_permissions proto CP_pinUvAuthToken_permissions_cm in
    guard p CTAP2_ERR_PIN_AUTH_INVALID ^;
    if cm_subCommand cm =? CM_SubCmd_enumerateRPsBegin then
      let* present := ctap_client_pin_permissions_rp_id_present proto in
      guard (negb present) CTAP2_ERR_PIN_AUTH_INVALID
    else
      let* r := ctap_client_pin_verify_permissions_rp_id proto (cm_rpIdHash cm) in
      guard r CTAP2_ERR_PIN_AUTH_INVALID.

Definition cm_enumerate_rps_begin (encoder : Enc) : X dev Enc :=
  init_state CM_SubCmd_enumerateRPsBegin ;*
  let* count := get_count_unique_relying_parties in
  if count <=? 0 then clear_state ;* throw CTAP2_ERR_NO_CREDENTIALS
  else
    let* (r, rk) := get_next_unique_rp rk_zero in
    if r <? 0 then clear_state ;* throw CTAP2_ERR_NOT_ALLOWED
    else cbor_encode_enumerate_rp encoder rk count.

Definition cm_enumerate_rps_next (encoder : Enc) : X dev Enc :=
  let* r := check_state CM_SubCmd_enumerateRPsGetNextRP in
  guard (negb (r <? 0)) CTAP2_ERR_NOT_ALLOWED ^;
  let* (r, rk) := get_next_unique_rp rk_zero in
  if r <? 0 then clear_state ;* throw CTAP2_ERR_NOT_ALLOWED
  else cbor_encode_enumerate_rp encoder rk 0.

Definition cm_enumerate_credentials_begin (cm : CTAP_credMgmt) (encoder : Enc) : X dev Enc :=
  init_state CM_SubCmd_enumerateCredentialsBegin ;*
  guard (rpIdHash_present cm) CTAP2_ERR_MISSING_PARAMETER ^;
  upd_cm (fun c => c <| cms_rp_id_hash := cm_rpIdHash cm |>) ;*
  let* (count, rk) := count_rk (cm_rpIdHash cm) rk_zero in
  if count <=? 0 then clear_state ;* throw CTAP2_ERR_NO_CREDENTIALS
  else
    let* (r, rk) := get_next_rk (cm_rpIdHash cm) rk in
    if r <? 0 then clear_state ;* throw CTAP2_ERR_NO_CREDENTIALS
    else cbor_encode_enumerate_credential encoder rk count.

Definition cm_enumerate_credentials_next (encoder : Enc) : X dev Enc :=
  let* r := check_state CM_SubCmd_enumerateCredentialsGetNextCredential in
  guard (negb (r <? 0)) CTAP2_ERR_NOT_ALLOWED ^;
  let* st := get_cm in
  let* (r, rk) := get_next_rk (cms_rp_id_hash st) rk_zero in
  if r <? 0 then clear_state ;* throw CTAP1_ERR_OTHER
  else cbor_encode_enumerate_credential encoder rk 0.

Definition cm_delete_credential (cm : CTAP_credMgmt) (encoder : Enc) : X dev Enc :=
  guard (credentialId_present cm) CTAP2_ERR_MISSING_PARAMETER ^;
  let* r := ctap_delete_rk (cred_of (desc_id (cm_credentialDescriptor cm))) in
  guard (negb (r <? 0)) CTAP2_ERR_NO_CREDENTIALS ^;
  ok encoder.

Definition cm_update_user (cm : CTAP_credMgmt) (encoder : Enc) : X dev Enc :=
  guard (credentialId_present cm && credentialUser_present cm) CTAP2_ERR_MISSING_PARAMETER ^;
  let desc := cm_credentialDescriptor cm in
  update_credential_user_info (cred_of (desc_id desc)) (desc_user desc) rk_zero ^;
  ok encoder.

Definition ctap_credential_management (encoder : Enc) (request : list Z) : X dev Enc :=
  let^ cm := parse (parse_credential_management_request request) in
  verify_pin_auth_for_credential_management cm ^;
  let sub := cm_subCommand cm in
  if sub =? CM_SubCmd_getCredsMetadata then cbor_encode_credential_metadata encoder
  else if sub =? CM_SubCmd_enumerateRPsBegin then cm_enumerate_rps_begin encoder
  else if sub =? CM_SubCmd_enumerateRPsGetNextRP then cm_enumerate_rps_next encoder
  else if sub =? CM_SubCmd_enumerateCredentialsBegin then cm_enumerate_credentials_begin cm encoder
  else if sub =? CM_SubCmd_enumerateCredentialsGetNextCredential then cm_enumerate_credentials_next encoder
  else if sub =? CM_SubCmd_deleteCredential then cm_delete_credential cm encoder
  else if sub =? CM_SubCmd_updateUserInformation then cm_update_user cm encoder
  else throw CTAP1_ERR_INVALID_COMMAND.

End Command.

End CredMgmt.
