(* ===== verification/GetInfo.v ===== *)
(** * authenticatorGetInfo (src/fido2/src/ctap_get_info.c) *)

From Stdlib Require Import Ascii.
From stdpp Require Import strings.
From S2P Require Import Prelude Monad Lfs Fs Board CborParser CborEncoder State Dev CtapStatus CtapParse CtapEncode.
From S2P Require Import Attestation ClientPin.
Import Monad Lfs Fs Board CborParser CborEncoder State Dev CtapStatus CtapParse CtapEncode Attestation ClientPin.

#[local] Open Scope Z_scope.

Module GetInfo.

Definition GI_Resp_versions : Z := 0x01.
Definition GI_Resp_extensions : Z := 0x02.
Definition GI_Resp_aaguid : Z := 0x03.
Definition GI_Resp_options : Z := 0x04.
Definition GI_Resp_maxMsgSize : Z := 0x05.
Definition GI_Resp_pinUvAuthProtocols : Z := 0x06.
Definition GI_Resp_maxCredentialCountInList : Z := 0x07.
Definition GI_Resp_maxCredentialIdLength : Z := 0x08.
Definition GI_Resp_transports : Z := 0x09.
Definition GI_Resp_algorithms : Z := 0x0A.
Definition CTAP_MAX_MESSAGE_SIZE : Z := 1200.

Section GetInfo.
Context {L : Lfs} {B : Board}.

(** A sequence of encoding steps. *)
Definition emits (ops : list (CborEncoder -> list Z -> res encres)) (e : Enc) : X dev Enc :=
  foldl (fun m op => let^ e := m in emit op e) (ok e) ops.

Definition str (s : string) : CborEncoder -> list Z -> res encres := cbor_encode_text_string (text s).
Definition algorithm (abs : Z) (array : Enc) : X dev Enc :=
  let^ (parent, alg_map) := open_map 2 array in
  let^ alg_map := emits [str "alg"; cbor_encode_negative_int abs; str "type"; str "public-key"] alg_map in
  close parent alg_map.

Definition ctap_get_info (encoder : Enc) : X dev Enc :=
  let^ (top, map) := open_map 10 encoder in
  let^ map := emit (cbor_encode_uint GI_Resp_versions) map in
  let^ (parent, array) := open_array 2 map in
  let^ array := emits [str "FIDO_2_0"; str "FIDO_2_1"] array in
  let^ map := close parent array in
  let^ map := emit (cbor_encode_uint GI_Resp_extensions) map in
  let^ (parent, array) := open_array 2 map in
  let^ array := emits [str "credProtect"; str "hmac-secret"] array in
  let^ map := close parent array in
  let^ map := emit (cbor_encode_uint GI_Resp_aaguid) map in
  let^ map := emit (cbor_encode_byte_string attestation_read_aaguid) map in
  let^ map := emit (cbor_encode_uint GI_Resp_options) map in
  let^ (parent, options) := open_map 6 map in
  let^ options := emits [str "rk"; cbor_encode_boolean true; str "up"; cbor_encode_boolean true;
                         str "plat"; cbor_encode_boolean false; str "credMgmt"; cbor_encode_boolean true;
                         str "clientPin"] options in
  let* is_set := ctap_client_pin_is_set in
  let^ options := emits [cbor_encode_boolean is_set; str "pinUvAuthToken"; cbor_encode_boolean true] options in
  let^ map := close parent options in
  let^ map := emits [cbor_encode_uint GI_Resp_maxMsgSize; cbor_encode_int CTAP_MAX_MESSAGE_SIZE;
                     cbor_encode_uint GI_Resp_pinUvAuthProtocols] map in
  let^ (parent, pins) := open_array 2 map in
  let^ pins := emits [cbor_encode_int 1; cbor_encode_int 2] pins in
  let^ map := close parent pins in
  let^ map := emits [cbor_encode_uint GI_Resp_maxCredentialCountInList; cbor_encode_uint (Z.of_nat ALLOW_LIST_MAX_SIZE);
                     cbor_encode_uint GI_Resp_maxCredentialIdLength; cbor_encode_uint 128;
                     cbor_encode_uint GI_Resp_transports] map in
  let^ (parent, array) := open_array 1 map in
  let^ array := emit (str "usb") array in
  let^ map := close parent array in
  let^ map := emit (cbor_encode_uint GI_Resp_algorithms) map in
  let^ (parent, array) := open_array 2 map in
  let^ array := algorithm 8 array in
  let^ array := algorithm 7 array in
  let^ map := close parent array in
  close top map.

End GetInfo.

End GetInfo.
