(* ===== verification/Request.v ===== *)
(** * The dispatch of CTAP2 commands ([ctap_request], src/fido2/src/ctap.c) *)

From S2P Require Import Prelude Monad Lfs Fs Board CborParser CborEncoder State CtapTypes Dev Device CtapStatus CtapParse.
From S2P Require Import CtapEncode Credential ClientPin ClientPinCmd AuthData GetAssertion MakeCredential CredMgmt GetInfo.
Import Monad Lfs Fs Board CborParser CborEncoder State CtapTypes Dev Device CtapStatus CtapParse CtapEncode
  Credential ClientPin ClientPinCmd AuthData GetAssertion MakeCredential CredMgmt GetInfo.

Module Request.

Definition CTAP_MAKE_CREDENTIAL : Z := 0x01.
Definition CTAP_GET_ASSERTION : Z := 0x02.
Definition CTAP_GET_INFO : Z := 0x04.
Definition CTAP_CLIENT_PIN : Z := 0x06.
Definition CTAP_RESET : Z := 0x07.
Definition CTAP_GET_NEXT_ASSERTION : Z := 0x08.
Definition CTAP_CREDENTIAL_MANAGEMENT : Z := 0x0A.
Definition CTAP_SELECTION : Z := 0x0B.
Definition CTAP_CREDENTIAL_MANAGEMENT_PRE : Z := 0x41.
Definition CTAP_RESPONSE_BUFFER_SIZE : nat := 1200.

(** [CTAP_RESPONSE]; its [data_size] is the length of [resp_data]. *)
Record CTAP_RESPONSE := mkResp {
  resp_data : list Z;
  resp_length : Z;
}.
#[export] Instance eta_resp : Eta CTAP_RESPONSE := fun r => mkResp (resp_data r) (resp_length r).
Definition ctap_response_init : CTAP_RESPONSE := mkResp (zeros CTAP_RESPONSE_BUFFER_SIZE) 0.

Section Request.
Context {L : Lfs} {B : Board} {E : Ecc} {U : Uninit} (version_get_version : Z).

(** The commands refused while the PIN is blocked. *)
Definition needs_pin_attempts (cmd : Z) : bool :=
  (cmd =? CTAP_MAKE_CREDENTIAL) || (cmd =? CTAP_GET_ASSERTION) || (cmd =? CTAP_CREDENTIAL_MANAGEMENT)
  || (cmd =? CTAP_CREDENTIAL_MANAGEMENT_PRE).

(** The outcome of a handler: its status and the response; what a handler
    that fails has written to the buffer is given up, with the length at 0. *)
Definition respond (resp : CTAP_RESPONSE) (m : X dev Enc) : F (Z * CTAP_RESPONSE) :=
  let* r := m in
  ret (match r with
       | inl e => (e, resp <| resp_length := 0 |>)
       | inr (c, out) => (CTAP2_OK, mkResp out (Z.of_nat (cbor_encoder_get_buffer_size c)))
       end).

(** The second [switch]: the status, the response and [cmd] as it is stored
    afterwards. *)
Definition dispatch (cmd : Z) (request : list Z) (resp : CTAP_RESPONSE) : F (Z * CTAP_RESPONSE * Z) :=
  let encoder : Enc := (cbor_encoder_init (length (resp_data resp)), resp_data resp) in
  let keep (m : F (Z * CTAP_RESPONSE)) := let* (st, resp) := m in ret (st, resp, cmd) in
  if cmd =? CTAP_MAKE_CREDENTIAL then keep (respond resp (ctap_make_credential encoder request))
  else if cmd =? CTAP_GET_ASSERTION then keep (respond resp (ctap_get_assertion encoder request))
  else if cmd =? CTAP_GET_INFO then keep (respond resp (ctap_get_info encoder))
  else if cmd =? CTAP_CLIENT_PIN then keep (respond resp (ctap_client_pin encoder request))
  else if cmd =? CTAP_RESET then
    let* r := ctap_reset version_get_version in ret (status_of r, resp, cmd)
  else if cmd =? CTAP_GET_NEXT_ASSERTION then
    let* lastcmd := gets (fun d => gs_lastcmd (getAssertionState d)) in
    if lastcmd =? CTAP_GET_ASSERTION then
      let* (st, resp) := respond resp (ctap_get_next_assertion encoder) in
      ret (st, resp, if st =? CTAP2_OK then CTAP_GET_ASSERTION else cmd)
    else ret (CTAP2_ERR_NOT_ALLOWED, resp, cmd)
  else if (cmd =? CTAP_CREDENTIAL_MANAGEMENT) || (cmd =? CTAP_CREDENTIAL_MANAGEMENT_PRE) then
    keep (respond resp (ctap_credential_management encoder request))
  else if cmd =? CTAP_SELECTION then
    let* st := ctap2_user_presence_test in
    ret (if negb (st =? CTAP2_OK) then CTAP2_ERR_USER_ACTION_TIMEOUT else st, resp, cmd)
  else ret (CTAP1_ERR_INVALID_COMMAND, resp, cmd).

(** [pkt_raw] is the memory of the request, [length] counts the command
    byte. *)
Definition ctap_request (pkt_raw : list Z) (length : Z) (resp : CTAP_RESPONSE) : F (Z * CTAP_RESPONSE) :=
  let* c := lift (mem_read pkt_raw 0 1) in
  let cmd := nth 0 c 0 in
  let* request := lift (mem_read pkt_raw 1 (Z.to_nat (u32 (length - 1)))) in
  device_set_status CTAPHID_STATUS_PROCESSING ;*
  let* locked := ctap_client_pin_is_locked in
  let* boot_locked := ctap_client_pin_is_boot_locked in
  let* (st, resp, cmd) :=
    (if needs_pin_attempts cmd && locked then ret (CTAP2_ERR_PIN_BLOCKED, resp, cmd)
     else if needs_pin_attempts cmd && boot_locked then ret (CTAP2_ERR_PIN_AUTH_BLOCKED, resp, cmd)
     else dispatch cmd request resp) in
  device_set_status CTAPHID_STATUS_IDLE ;*
  upd getAssertionState (fun g => g <| gs_lastcmd := cmd |>) ;*
  ret (st, if negb (st =? CTAP2_OK) then resp <| resp_length := 0 |> else resp).

End Request.

End Request.
