(* ===== verification/U2f.v ===== *)
(** * CTAP1/U2F (src/fido2/src/u2f.c), with the user presence of CTAP1,
    and the command headers of apdu.c

    Requests are read from the memory [ctap_buffer], where the signatures are
    also put before they are encoded; the response is passed along. *)

From Stdlib Require Import Ascii.
From stdpp Require Import strings.
From S2P Require Import Prelude Monad Lfs Fs Board Sha256 Crypto State CtapTypes Dev Device CtapParse Credential.
From S2P Require Import Attestation Signing Request.
Import Monad Lfs Fs Board Sha256 Crypto State CtapTypes Dev Device CtapParse Credential Attestation Signing Request.

#[local] Open Scope Z_scope.

Module U2f.

Definition U2F_EC_FMT_UNCOMPRESSED : Z := 0x04.
Definition U2F_REGISTER : Z := 0x01.
Definition U2F_AUTHENTICATE : Z := 0x02.
Definition U2F_VERSION : Z := 0x03.
Definition U2F_VENDOR_FIRST : Z := 0xc0.
Definition U2F_VENDOR_LAST : Z := 0xff.
Definition U2F_AUTHENTICATE_CHECK : Z := 0x7.
Definition U2F_AUTHENTICATE_SIGN : Z := 0x3.
Definition U2F_AUTHENTICATE_SIGN_NO_USER : Z := 0x8.
Definition U2F_SW_NO_ERROR : Z := 0x9000.
Definition U2F_SW_CONDITIONS_NOT_SATISFIED : Z := 0x6985.
Definition U2F_SW_INS_NOT_SUPPORTED : Z := 0x6d00.
Definition U2F_SW_WRONG_LENGTH : Z := 0x6700.
Definition U2F_SW_CLASS_NOT_SUPPORTED : Z := 0x6E00.
Definition U2F_SW_WRONG_DATA : Z := 0x6a80.
Definition U2F_SW_INSUFFICIENT_MEMORY : Z := 0x9210.
(** The up delay of both commands, and [sizeof(cert)] *)
Definition U2F_UP_DELAY : Z := 750.
Definition U2F_CERT_SIZE : Z := 1024.
(** [offsetof(struct u2f_request_apdu, payload)] *)
Definition PAYLOAD : nat := 7.

Section U2f.
Context {L : Lfs} {B : Board} {E : Ecc}.

Definition u2f_response_writeback (buf : list Z) (resp : CTAP_RESPONSE) : F CTAP_RESPONSE :=
  if resp_length resp + Z.of_nat (length buf) >? Z.of_nat (length (resp_data resp)) then stop FExit
  else
    let* d := lift (mem_write (resp_data resp) (Z.to_nat (resp_length resp)) buf) in
    ret (mkResp d (resp_length resp + Z.of_nat (length buf))).

(** The encoder's size_t result counts the bytes of [sigder] written back. *)
Definition dump_signature_der (sig : list Z) (resp : CTAP_RESPONSE) : F CTAP_RESPONSE :=
  let* (sigder, len) := lift (ctap_encode_der_sig sig) in
  let* d := lift (mem_read sigder 0 (Z.to_nat len)) in
  u2f_response_writeback d resp.

Definition u2f_load_key (kh : list Z) (khl : Z) : F unit :=
  let* k := lift (mem_read kh 0 (Z.to_nat khl)) in crypto_ecc256_load_key k.

(** The bytes of the key handle, tag first, and of the public key. *)
Definition u2f_new_keypair (appid : list Z) : F (list Z * list Z) :=
  let* key := fill_random (zeros U2F_KEY_HANDLE_KEY_SIZE) in
  let* tag := u2f_make_auth_tag key appid in
  let kh := tag ++ key in
  let* (x, y) := crypto_ecc256_derive_public_key kh in
  ret (kh, x ++ y).

(** [mem] is [ctap_buffer], the request starts at [PAYLOAD]; a command ends
    with the status word, the memory and the response. *)
Definition req_field (mem : list Z) (off n : nat) : F (list Z) := lift (mem_read mem (PAYLOAD + off) n).
Definition chal (mem : list Z) : F (list Z) := req_field mem 0 32.
Definition app (mem : list Z) : F (list Z) := req_field mem 32 32.

Definition u2f_register (mem : list Z) (resp : CTAP_RESPONSE) : F (Z * list Z * CTAP_RESPONSE) :=
  let* up := ctap_user_presence_test U2F_UP_DELAY in
  if up =? 0 then ret (U2F_SW_CONDITIONS_NOT_SATISFIED, mem, resp)
  else
    let* req_app := app mem in
    let* req_chal := chal mem in
    let* (key_handle, pubkey) := u2f_new_keypair req_app in
    sha_ (fun c => Done (crypto_sha256_init c)) ;*
    sha_pieces [[0x0]; req_app; req_chal; key_handle; [U2F_EC_FMT_UNCOMPRESSED]; pubkey] ;*
    let* hash := sha crypto_sha256_final in
    crypto_ecc256_load_attestation_key ;*
    let* sig := crypto_ecc256_sign hash in
    let* mem := lift (mem_write mem PAYLOAD sig) in
    let* resp := u2f_response_writeback [0x5; U2F_EC_FMT_UNCOMPRESSED] resp in
    let* resp := u2f_response_writeback pubkey resp in
    let* resp := u2f_response_writeback [U2F_KEY_HANDLE_SIZE] resp in
    let* resp := u2f_response_writeback key_handle resp in
    let* (r, cert, attest_size) := attestation_read_cert U2F_CERT_SIZE in
    if r <? 0 then ret (U2F_SW_INSUFFICIENT_MEMORY, mem, resp)
    else
      let* cert := match attest_size with
                   | Some n => lift (mem_read cert 0 (Z.to_nat n))
                   | None => stop FOutOfBounds
                   end in
      let* resp := u2f_response_writeback cert resp in
      let* resp := dump_signature_der sig resp in
      ret (U2F_SW_NO_ERROR, mem, resp).

(** The hash a signature is made over, and the response. *)
Definition u2f_sign_response (up : Z) (mem : list Z) (resp : CTAP_RESPONSE) : F (Z * list Z * CTAP_RESPONSE) :=
  let* count := ctap_atomic_count 0 in
  let* req_app := app mem in
  let* req_chal := chal mem in
  sha_ (fun c => Done (crypto_sha256_init c)) ;*
  sha_pieces [req_app; [up]; be32 count; req_chal] ;*
  let* hash := sha crypto_sha256_final in
  let* sig := crypto_ecc256_sign hash in
  let* mem := lift (mem_write mem PAYLOAD sig) in
  let* resp := u2f_response_writeback [up] resp in
  let* resp := u2f_response_writeback (be32 count) resp in
  let* resp := dump_signature_der sig resp in
  ret (U2F_SW_NO_ERROR, mem, resp).

Definition u2f_authenticate (mem : list Z) (control : Z) (resp : CTAP_RESPONSE) : F (Z * list Z * CTAP_RESPONSE) :=
  let* req_app := app mem in
  let* khl := req_field mem 64 1 in
  let khl := nth 0 khl 0 in
  let kh := drop (PAYLOAD + 65) mem in
  if control =? U2F_AUTHENTICATE_CHECK then
    let* mine := u2f_authenticate_credential kh khl req_app in
    ret (if negb (mine =? 0) then U2F_SW_CONDITIONS_NOT_SATISFIED else U2F_SW_WRONG_DATA, mem, resp)
  else if negb (control =? U2F_AUTHENTICATE_SIGN) && negb (control =? U2F_AUTHENTICATE_SIGN_NO_USER)
  then ret (U2F_SW_WRONG_DATA, mem, resp)
  else
    let* mine := u2f_authenticate_credential kh khl req_app in
    if mine =? 0 then ret (U2F_SW_WRONG_DATA, mem, resp)
    else
      u2f_load_key kh khl ;*
      let up := if control =? U2F_AUTHENTICATE_SIGN_NO_USER then 0 else 1 in
      let* present := (if negb (up =? 0) then ctap_user_presence_test U2F_UP_DELAY else ret 1) in
      if present =? 0 then ret (U2F_SW_CONDITIONS_NOT_SATISFIED, mem, resp)
      else u2f_sign_response up mem resp.

Definition u2f_version (mem : list Z) (resp : CTAP_RESPONSE) : F (Z * list Z * CTAP_RESPONSE) :=
  let* resp := u2f_response_writeback (text "U2F_V2") resp in ret (U2F_SW_NO_ERROR, mem, resp).

(** The [switch] on the instruction. *)
Definition u2f_command (ins p1 len : Z) (mem : list Z) (resp : CTAP_RESPONSE) : F (Z * list Z * CTAP_RESPONSE) :=
  if ins =? U2F_REGISTER then
    if negb (len =? 64) then ret (U2F_SW_WRONG_LENGTH, mem, resp) else u2f_register mem resp
  else if ins =? U2F_AUTHENTICATE then u2f_authenticate mem p1 resp
  else if ins =? U2F_VERSION then
    if negb (len =? 0) then ret (U2F_SW_WRONG_LENGTH, mem, resp) else u2f_version mem resp
  else if (ins =? U2F_VENDOR_FIRST) || (ins =? U2F_VENDOR_LAST) then ret (U2F_SW_NO_ERROR, mem, resp)
  else ret (U2F_SW_INS_NOT_SUPPORTED, mem, resp).

Definition u2f_request_ex (cla ins p1 len : Z) (mem : list Z) : F (list Z * CTAP_RESPONSE) :=
  let resp := ctap_response_init in
  let* (rcode, mem, resp) :=
    (if negb (cla =? 0) then ret (U2F_SW_CLASS_NOT_SUPPORTED, mem, resp)
     else
       device_set_status CTAPHID_STATUS_PROCESSING ;*
       let* r := u2f_command ins p1 len mem resp in
       device_set_status CTAPHID_STATUS_IDLE ;*
       ret r) in
  let resp := if negb (rcode =? U2F_SW_NO_ERROR) then ctap_response_init else resp in
  let* resp := u2f_response_writeback [Z.shiftr (Z.land rcode 0xff00) 8] resp in
  let* resp := u2f_response_writeback [Z.land rcode 0xff] resp in
  ret (mem, resp).

Definition u2f_request (mem : list Z) : F (list Z * CTAP_RESPONSE) :=
  let* h := lift (mem_read mem 0 PAYLOAD) in
  let at_ i := nth i h 0 in
  let len := Z.lor (Z.lor (at_ 6%nat) (Z.shiftl (at_ 5%nat) 8)) (Z.shiftl (at_ 4%nat) 16) in
  u2f_request_ex (at_ 0%nat) (at_ 1%nat) (at_ 2%nat) len mem.

End U2f.

End U2f.

(** ** ISO 7816-4 command headers (src/fido2/src/apdu.c) *)

Module Apdu.

Definition SW_WRONG_LENGTH : Z := 0x6700.
Definition SW_COND_USE_NOT_SATISFIED : Z := 0x6985.

(** [data] as an offset into the command, [None] for NULL. *)
Record APDU_STRUCT := mkApdu {
  a_cla : Z;
  a_ins : Z;
  a_p1 : Z;
  a_p2 : Z;
  a_lc : Z;
  a_data : option nat;
  a_le : Z;
  extended_apdu : bool;
  case_type : Z;
}.
#[export] Instance eta_apdu : Eta APDU_STRUCT := fun a =>
  mkApdu (a_cla a) (a_ins a) (a_p1 a) (a_p2 a) (a_lc a) (a_data a) (a_le a) (extended_apdu a) (case_type a).

(** The byte at [i] of the memory the command is in. *)
Definition byte (mem : list Z) (i : nat) : res Z := let! b := mem_read mem i 1 in Done (nth 0 b 0).

(** A length of 0 stands for the maximum. *)
Definition le_or (v max : Z) : Z := if v =? 0 then max else v.

(** Cases 1, 2S, 3S and 4S. *)
Definition short_cases (mem : list Z) (len b0 : Z) (a : APDU_STRUCT) : res APDU_STRUCT :=
  let a := if len =? 4 then a <| case_type := 0x01 |> else a in
  let a := if len =? 5 then a <| case_type := 0x02 |> <| a_le := le_or b0 0x100 |> else a in
  let a := if (len =? 5 + b0) && negb (b0 =? 0) then a <| case_type := 0x03 |> <| a_lc := b0 |> else a in
  if (len =? 5 + b0 + 1) && negb (b0 =? 0) then
    let! e := byte mem (Z.to_nat (len - 1)) in
    Done (a <| case_type := 0x04 |> <| a_lc := b0 |> <| a_le := le_or e 0x100 |>)
  else Done a.

(** Cases 2E, 3E and 4E. *)
Definition extended_cases (mem : list Z) (len extlen : Z) (a : APDU_STRUCT) : res APDU_STRUCT :=
  let le2 :=
    let! h := byte mem (Z.to_nat (len - 2)) in
    let! l := byte mem (Z.to_nat (len - 1)) in
    Done (le_or (Z.shiftl h 8 + l) 0x10000) in
  let a := if len =? 7 then a <| case_type := 0x12 |> <| extended_apdu := true |> <| a_le := le_or extlen 0x10000 |> else a in
  let a := if len =? 7 + extlen then a <| case_type := 0x13 |> <| extended_apdu := true |> <| a_lc := extlen |> else a in
  let! a :=
    if len =? 7 + extlen + 2 then
      let! le := le2 in
      Done (a <| case_type := 0x14 |> <| extended_apdu := true |> <| a_lc := extlen |> <| a_le := le |>)
    else Done a in
  let! three :=
    if len =? 7 + extlen + 3 then let! b := byte mem (Z.to_nat (len - 3)) in Done (b =? 0) else Done false in
  if three : bool then
    let! le := le2 in
    Done (a <| case_type := 0x24 |> <| extended_apdu := true |> <| a_lc := extlen |> <| a_le := le |>)
  else Done a.

(** The status, 0 on success, and [*apdu]. *)
Definition apdu_decode (mem : list Z) (len : Z) : res (Z * APDU_STRUCT) :=
  let! cla := byte mem 0 in
  let! ins := byte mem 1 in
  let! p1 := byte mem 2 in
  let! p2 := byte mem 3 in
  let! b0 := byte mem 4 in
  let a := mkApdu (Z.land cla 0xef) ins p1 p2 0 None 0 false 0 in
  let! a := short_cases mem len b0 a in
  let! (failed, a) :=
    if (len >=? 7) && (b0 =? 0) then
      let! b1 := byte mem 5 in
      let! b2 := byte mem 6 in
      let extlen := u16 (Z.shiftl b1 8 + b2) in
      if len - 7 <? extlen then Done (true, a)
      else let! a := extended_cases mem len extlen a in Done (false, a)
    else Done ((len >? 5) && (len - 5 <? b0), a) in
  if failed : bool then Done (SW_WRONG_LENGTH, a)
  else if case_type a =? 0 then Done (SW_COND_USE_NOT_SATISFIED, a)
  else
    Done (0, if negb (a_lc a =? 0) then a <| a_data := Some (if extended_apdu a then 7%nat else 5%nat) |> else a).

End Apdu.
