(* ===== verification/Firmware.v ===== *)
(** * The whole firmware (src/targets/tkey/src/main.c, device.c)

    The transport of [CtapHid] on top of the commands of [Request] and [U2f]:
    the functions [ctaphid.c] calls as a [client] whose state is [dev], the
    start-up and one round of the main loop. *)

From S2P Require Import Prelude Fifo HidWrite CtapHid Monad Lfs Fs Board Rng CtapTypes Dev Device CtapStatus.
From S2P Require Import Credential Attestation Signing AuthData GetAssertion Request U2f.
Import CtapHid Monad Lfs Fs Board Rng CtapTypes Dev Device CtapStatus Credential Attestation Signing AuthData
  GetAssertion Request U2f.

#[local] Open Scope Z_scope.

Module Firmware.

Section Firmware.
Context {L : Lfs} {B : Board} {E : Ecc} {U : Uninit} (version_get_version : Z).

(** The status values a request reports are sent by the transport: they are
    counted from the start of the request. *)
Definition watched {A} (m : F A) : F (A * list Z) :=
  upd d_vars (fun v => v <| status_updates := [] |>) ;*
  let* a := m in
  let* l := gets (fun d => status_updates (d_vars d)) in
  ret (a, l).

Definition client_ctap_request (buf : list Z) (len : Z) : F reply :=
  let* (st, resp, l) := watched (ctap_request version_get_version buf len ctap_response_init) in
  ret (mkReply st (resp_data resp) (resp_length resp) buf l).
Definition client_u2f_request (buf : list Z) : F reply :=
  let* (buf, resp, l) := watched (u2f_request buf) in
  ret (mkReply 0 (resp_data resp) (resp_length resp) buf l).

Definition firmware : client dev := {|
  cl_millis := millis;
  cl_ctap_request := client_ctap_request;
  cl_u2f_request := client_u2f_request;
  cl_write_key buf len := attestation_write_key buf len;
  cl_write_cert buf len := attestation_write_cert buf (Z.to_nat len);
  cl_generate_rng n := let* (_, o) := ctap_generate_rng n in ret o;
  cl_wink := device_wink;
|}.

(** ** Start-up *)

(** The timer is started by the caller: the clock of the board counts from
    there. *)
Definition hw_init : F unit := rng rng_init.

(** The error number; [ctap_init] tells [false] for a negative result. *)
Definition device_init : F Z :=
  hw_init ;*
  let* r := fs fs_init in
  if negb (r =? 0) then ret 2
  else
    let* started := ctap_init version_get_version in
    if negb (started : bool) then ret 3
    else
      let* r := fs (fs_create_dir "rk") in
      ret (if negb (r =? 0) then 2 else 0).

(** ** The main loop *)

Record world := mkWorld {
  w_fifo : Fifo.t;
  w_hid : hid;
  w_dev : dev;
}.
#[export] Instance eta_world : Eta world := fun w => mkWorld (w_fifo w) (w_hid w) (w_dev w).

(** What a round begins with: a packet of the FIDO endpoint, or a frame of
    another size, which is discarded. *)
Inductive input := HidPacket (data : list Z) | Discarded.

Definition handle_queued (w : world) : res world :=
  let! (n, msg, f) := Fifo.usbhid_recv (w_fifo w) in
  if n >? 0 then
    let! (_, h, d) := ctaphid_handle_packet firmware msg (w_hid w) (w_dev w) in
    Done (mkWorld f h d)
  else Done (w <| w_fifo := f |>).

Definition main_round (i : input) (w : world) : res world :=
  match i with
  | Discarded => Done w
  | HidPacket data =>
      let! (r, f) := Fifo.hidmsg_add data (w_fifo w) in
      if negb (r =? 0) then Fault FAssert
      else
      let! w := handle_queued (w <| w_fifo := f |>) in
      let! (h, d) := ctaphid_check_timeouts firmware (w_hid w) (w_dev w) in
      Done (w <| w_hid := h |> <| w_dev := d |>)
  end.

Fixpoint main_loop (l : list input) (w : world) : res world :=
  match l with
  | [] => Done w
  | i :: l => let! w := main_round i w in main_loop l w
  end.

End Firmware.

End Firmware.
