(* ===== verification/PinBase.v ===== *)
(** * Cryptographic steps of the firmware, with what they leave alone

    [calm s s']: only hash and cipher contexts, the generator and the
    registers differ.  Every step of the PIN protocols that is not a change of
    state is shown to be calm, with the value it computes. *)

From S2P Require Import Prelude Monad Lfs Fs Board Sha256 Aes Crypto AesBlocks Rng State CtapTypes Dev Device DeviceProps.
From S2P Require Import RkStore CtapStatus Credential ClientPin.
Import Monad Lfs Fs Board Sha256 Aes Crypto AesBlocks Rng State CtapTypes Dev Device DeviceProps
  RkStore CtapStatus Credential ClientPin.

#[local] Open Scope Z_scope.

Module PinBase.

#[local] Opaque hmac sha256 KeyExpansion Cipher InvCipher.

(** ** Random bytes are bytes *)

Lemma next_bytes_bytes {B : Board} n : forall s l s', next_bytes n s = Done (l, s') -> bytes l.
Proof.
  induction n as [|n IH]; intros s l s'; cbn [next_bytes]; [intros [= <- _]; constructor|].
  unfold bind, ret. destruct (next_byte s) as [[x s1]|] eqn:E1; [|done].
  destruct (next_bytes n s1) as [[l1 s2]|] eqn:E2; [|done]. intros [= <- _]. constructor; [|by eapply IH].
  unfold next_byte, bind, rget, gets, rset, modify, ret in E1.
  destruct (refill s) as [[? [r b]]|]; [|done]. injection E1 as [= <- _].
  apply nth_byte, words_bytes_bytes.
Qed.

Section Base.
Context {L : Lfs} {LL : LfsLaws L} {B : Board} {E : Ecc} {EL : EccLaws E}.

Definition sha_of (s : dev) : SHA256_CTX := sha256_ctx (d_crypto s).
Definition rng_good (s : dev) : Prop := rng_ok (h_rng (d_hw s)) /\ rng_initialized (h_rng (d_hw s)) = true.

Record calm (s s' : dev) : Prop := {
  c_lfs : lfs_of s' = lfs_of s;
  c_state : STATE s' = STATE s;
  c_pin : d_pin s' = d_pin s;
  c_dev_keys : dev_keys (d_crypto s') = dev_keys (d_crypto s);
  c_ses_keys : ses_keys (d_crypto s') = ses_keys (d_crypto s);
  c_rk : f_rk (d_vars s') = f_rk (d_vars s);
  c_gas : getAssertionState s' = getAssertionState s;
  c_sha : ctx_ok (sha_of s) -> ctx_ok (sha_of s');
  c_rng : rng_good s -> rng_good s';
  c_cm : d_cm s' = d_cm s;
}.

#[export] Instance calm_preorder : PreOrder calm.
Proof.
  split; [by split|]. intros s1 s2 s3 [] []. split; try congruence; auto.
Qed.

Lemma calm_sha s c : ctx_ok c -> calm s (set_sha c s).
Proof. intros Hc. by split. Qed.

Definition set_aes (c : AES_ctx) (s : dev) : dev := s <| d_crypto := (d_crypto s) <| aes_ctx := c |> |>.
Lemma calm_aes s c : calm s (set_aes c s).
Proof. by split. Qed.

Lemma storage_calm m s s' : calm s s' -> storage m s -> storage m s'.
Proof.
  intros [El Es _ Ed _ Er _ Hs _] (Hl & [Hc Hk] & Hst & Ho). unfold storage, mac_ok, mac_key.
  rewrite El, Es, Ed, Er. by auto.
Qed.

(** ** Hashes *)

(** Three steps taken together. *)
Lemma bind_three {A C} (a b : F unit) (c : F A) (k : A -> F C) s :
  (a ;* b ;* let* x := c in k x) s = (let* x := (a ;* b ;* c) in k x) s.
Proof. unfold bind. destruct (a s) as [[? s1]|]; [|done]. by destruct (b s1) as [[? s2]|]. Qed.

Lemma sha__done (op : SHA256_CTX -> res SHA256_CTX) s c : op (sha_of s) = Done c -> sha_ op s = Done (tt, set_sha c s).
Proof. unfold sha_, sha, on, sha_of. by intros ->. Qed.

Lemma hash_done s l : ctx_ok (sha_of s) -> exists s',
  (sha_ (fun c => Done (crypto_sha256_init c)) ;* sha_ (crypto_sha256_update l) ;* sha crypto_sha256_final) s
    = Done (sha256 l, s') /\ calm s s'.
Proof.
  intros Hc. set (s1 := set_sha (crypto_sha256_init (sha_of s)) s).
  run (sha__done (fun c => Done (crypto_sha256_init c)) s _ eq_refl). fold s1.
  destruct (update_rep l _ [] (rep_init _ Hc)) as (c2 & E2 & R2).
  assert (E2' : crypto_sha256_update l (sha_of s1) = Done c2) by exact E2.
  run (sha__done _ _ _ E2'). destruct (final_rep _ _ R2) as (c3 & E3 & H3).
  eexists. split.
  { apply (sha_done _ _ _ _ (E3 : crypto_sha256_final (sha_of (set_sha c2 s1)) = _)). }
  by split.
Qed.

Lemma sha_pieces_done ps : forall s msg, rep (sha_of s) msg ->
  exists s', sha_pieces ps s = Done (tt, s') /\ rep (sha_of s') (msg ++ concat ps) /\
    (ctx_ok (sha_of s) -> calm s s').
Proof.
  induction ps as [|p ps IH]; intros s msg R; cbn [sha_pieces concat].
  { exists s. rewrite app_nil_r. split; [done|]. split; [done|]. by intros. }
  destruct (update_rep p _ _ R) as (c & E1 & R1).
  run (sha__done (crypto_sha256_update p) s c E1).
  destruct (IH (set_sha c s) (msg ++ p) R1) as (s' & E2 & R2 & C2).
  exists s'. split; [done|]. split; [by rewrite app_assoc|]. intros _.
  transitivity (set_sha c s); [apply calm_sha; by eapply rep_ok|apply C2; by eapply rep_ok].
Qed.

(** HMAC over pieces on the shared context. *)
Lemma hmac_done key ps s : ctx_ok (sha_of s) -> length key = 32%nat -> exists s',
  (sha_ (crypto_sha256_hmac_init key 32) ;* sha_pieces ps ;* sha (crypto_sha256_hmac_final key 32)) s
    = Done (hmac key (concat ps), s') /\ calm s s'.
Proof.
  intros Hc Hk. change 32 with (Z.of_nat 32). rewrite <- Hk.
  destruct (hmac_init_rep key _ Hc ltac:(lia)) as (c1 & E1 & R1).
  run (sha__done _ s c1 E1).
  destruct (sha_pieces_done ps (set_sha c1 s) _ R1) as (s2 & E2 & R2 & C2). run E2.
  destruct (hmac_final_rep key _ _ R2 ltac:(lia)) as (c3 & E3 & H3).
  eexists. split; [exact (sha_done _ _ _ _ E3)|].
  transitivity s2; [|by apply calm_sha].
  transitivity (set_sha c1 s); [apply calm_sha; by eapply rep_ok|apply C2; by eapply rep_ok].
Qed.

Lemma hmac1_done key l s : ctx_ok (sha_of s) -> length key = 32%nat -> exists s',
  (sha_ (crypto_sha256_hmac_init key 32) ;* sha_ (crypto_sha256_update l) ;* sha (crypto_sha256_hmac_final key 32)) s
    = Done (hmac key l, s') /\ calm s s'.
Proof.
  intros Hc Hk. destruct (hmac_done key [l] s Hc Hk) as (s' & E1 & C). exists s'. split; [|done].
  rewrite <- (app_nil_r l). change (l ++ []) with (concat [l]). rewrite <- E1. cbn [sha_pieces concat].
  rewrite app_nil_r. unfold bind. destruct (sha_ _ s) as [[? s1]|]; [|done].
  by destruct (sha_ _ s1) as [[? s2]|].
Qed.

(** ** Keys of a session *)

(** The keys both sides derive from the shared point. *)
Definition shared_keys (pin_protocol : Z) (point : list Z) : list Z * list Z :=
  if pin_protocol =? 1 then (sha256 point, sha256 point)
  else
    let prk := hmac (zeros 32) point in
    (hkdf_expand prk HKDF_INFO_AES 32, hkdf_expand prk HKDF_INFO_HMAC 32).

Lemma kdf_done p point s : ctx_ok (sha_of s) -> exists s', kdf point p s = Done (shared_keys p point, s') /\ calm s s'.
Proof.
  intros Hc. unfold kdf, shared_keys. destruct (p =? 1).
  - destruct (hash_done s point Hc) as (s' & E1 & C). exists s'. split; [|done].
    rewrite bind_three. by run E1.
  - destruct (hkdf_extract_correct (zeros 32) point _ Hc ltac:(cbn; lia)) as (c1 & E1 & H1).
    change (crypto_hkdf_extract_sha256 (Some (zeros 32)) point) with (crypto_hkdf_extract_sha256 None point) in E1.
    run (sha_done _ s _ _ E1).
    destruct (hkdf_expand32 (hmac (zeros 32) point) HKDF_INFO_AES c1 H1 (hmac_length _ _)) as (c2 & E2 & H2).
    run (sha_done _ (set_sha c1 s) _ c2 E2).
    destruct (hkdf_expand32 (hmac (zeros 32) point) HKDF_INFO_HMAC c2 H2 (hmac_length _ _)) as (c3 & E3 & H3).
    run (sha_done _ (set_sha c2 (set_sha c1 s)) _ c3 E3).
    eexists. split; [reflexivity|]. by split.
Qed.

Lemma hkdf_expand_key prk info : aes_key (hkdf_expand prk info 32).
Proof.
  unfold hkdf_expand. split.
  - apply Forall_take. cbn [hkdf_T]. repeat (apply Forall_app_2; [apply hmac_bytes|]). constructor.
  - rewrite length_take, hkdf_T_length. done.
Qed.
Lemma shared_keys_ok p point : aes_key (shared_keys p point).1 /\ aes_key (shared_keys p point).2.
Proof.
  unfold shared_keys. destruct (p =? 1); cbn [fst snd]; [|split; apply hkdf_expand_key].
  split; split; apply sha256_bytes || apply sha256_length.
Qed.

(** ** Authentication *)

(** What the device compares a [pinUvAuthParam] with. *)
Definition auth_tag (p : Z) (key message : list Z) : list Z := take (auth_param_size p) (hmac key message).

Lemma verify_done p key message signature s : ctx_ok (sha_of s) -> length key = 32%nat ->
  bytes signature -> (auth_param_size p <= length signature)%nat -> exists s',
  ctap_client_pin_verify key message signature p s
    = Done (if bool_decide (take (auth_param_size p) signature = auth_tag p key message) then 0 else -1, s') /\ calm s s'.
Proof.
  intros Hc Hk Bs Ls. destruct (hmac1_done key message s Hc Hk) as (s' & E1 & C). exists s'. split; [|done].
  unfold ctap_client_pin_verify. rewrite bind_three. run E1.
  assert (Hap : (auth_param_size p <= 32)%nat) by (unfold auth_param_size; destruct (p =? 2); lia).
  rewrite secure_memeq_correct; [|done|apply hmac_bytes|done|by rewrite hmac_length].
  mstep. unfold auth_tag. case_bool_decide; reflexivity.
Qed.

(** ** Decryption *)

Lemma aes_done op s : aes op s = Done (tt, set_aes (op (aes_ctx (d_crypto s))) s).
Proof. reflexivity. Qed.
Lemma aes_buf_done op s c l : op (aes_ctx (d_crypto s)) = Done (c, l) -> aes_buf op s = Done (l, set_aes c s).
Proof. unfold aes_buf, on. by intros ->. Qed.

(** CBC decryption of the first bytes of a buffer on the static context. *)
Lemma cbc_done key iv c q n s : aes_key key -> block iv -> bytes c -> length c = (16 * n)%nat ->
  aes_ctx (d_crypto s) = AES_init_ctx_iv key iv ->
  exists s', aes_buf (crypto_aes256_decrypt (c ++ q) (Z.of_nat (length c))) s
    = Done (cbc_plain key iv c ++ q, s') /\ calm s s'.
Proof.
  intros Hk Hi Bc Lc Hx. destruct (aes_decrypt_done key iv c q n Hk Hi Bc Lc) as (ctx & E1 & _).
  exists (set_aes ctx s). split; [|apply calm_aes]. apply aes_buf_done. rewrite Hx. exact E1.
Qed.

(** What [decrypt] makes of the first [len] bytes of a buffer. *)
Definition unwrap (p : Z) (key buf : list Z) (len : nat) : list Z :=
  if p =? 1 then cbc_plain key (zeros 16) (take len buf)
  else cbc_plain key (take 16 buf) (slice 16 (len - 16) buf).

(** CBC keeps bytes and length. *)
Lemma cbc_plain_ok key iv c n : aes_key key -> block iv -> bytes c -> length c = (16 * n)%nat ->
  bytes (cbc_plain key iv c) /\ length (cbc_plain key iv c) = length c.
Proof. intros Hk Hi Hc Hl. by destruct (aes_decrypt_done key iv c [] n Hk Hi Hc Hl) as (? & _ & ? & ?). Qed.

(** Protocol one: the whole of [len] bytes, with a zero vector. *)
Lemma decrypt1_done key buf n s : aes_key key -> bytes buf -> (16 * n <= length buf)%nat ->
  exists s', decrypt buf (16 * n) key 1 s = Done (unwrap 1 key buf (16 * n) ++ drop (16 * n) buf, s') /\ calm s s' /\
    bytes (unwrap 1 key buf (16 * n) ++ drop (16 * n) buf) /\ length (unwrap 1 key buf (16 * n)) = (16 * n)%nat.
Proof.
  intros Hk Bb Lb. unfold decrypt, unwrap. cbn [Z.eqb Pos.eqb].
  rewrite (bind_done _ _ _ _ _ (aes_done _ s)). set (s1 := set_aes _ s).
  assert (Lt : length (take (16 * n) buf) = (16 * n)%nat) by (rewrite length_take; lia).
  destruct (cbc_done key (zeros 16) (take (16 * n) buf) (drop (16 * n) buf) n s1)
    as (s2 & E2 & C2); [done|apply zeros_block|by apply Forall_take|done|done|].
  rewrite take_drop, Lt in E2. exists s2.
  destruct (cbc_plain_ok key (zeros 16) (take (16 * n) buf) n Hk zeros_block (Forall_take _ _ _ Bb) Lt) as [Bp Lp].
  split; [exact E2|]. split; [transitivity s1; [apply calm_aes|done]|].
  split; [apply Forall_app; split; [done|by apply Forall_drop]|lia].
Qed.

Lemma decrypt_done p key buf n s : aes_key key -> bytes buf -> (16 * S (S n) <= length buf)%nat ->
  exists out s', decrypt buf (16 * S (S n)) key p s = Done (out, s') /\ calm s s' /\
    bytes out /\ length out = length buf /\
    out = unwrap p key buf (16 * S (S n)) ++ (if p =? 1 then [] else zeros 16) ++ drop (16 * S (S n)) buf /\
    length (unwrap p key buf (16 * S (S n))) = (16 * (if (p =? 1)%Z then S (S n) else S n))%nat.
Proof.
  set (len := (16 * S (S n))%nat). intros Hk Bb Lb.
  destruct (p =? 1) eqn:Ep.
  - apply Z.eqb_eq in Ep as ->. destruct (decrypt1_done key buf (S (S n)) s Hk Bb Lb) as (s1 & E1 & C1 & Bo & Lo).
    fold len in E1, Bo, Lo. exists (unwrap 1 key buf len ++ drop len buf), s1. do 3 (split; [done|]).
    split; [rewrite length_app, length_drop; lia|]. split; [done|lia].
  - unfold decrypt, unwrap. rewrite Ep. clear Ep.
    unfold CP_IV_SIZE. destruct (16 <? len)%nat eqn:El; [|apply Nat.ltb_ge in El; lia]. cbn [negb].
    rewrite mem_read_fits by lia. mstep. unfold slice at 1. rewrite drop_0. set (iv := take 16 buf).
    assert (Hiv : block iv) by (split; [unfold iv; rewrite length_take; lia|by apply Forall_take]).
    rewrite (bind_done _ _ _ _ _ (aes_done _ s)). set (s1 := set_aes _ s). set (m := (len - 16)%nat).
    assert (Lc : length (slice 16 m buf) = (16 * S n)%nat) by (rewrite slice_length; unfold m; lia).
    destruct (cbc_done key iv (slice 16 m buf) (drop len buf) (S n) s1) as (s2 & E2 & C2);
      [done|done|by apply slice_bytes|done|exact (init_iv key iv _ Hiv)|].
    assert (Hd : drop 16 buf = slice 16 m buf ++ drop len buf).
    { unfold slice. rewrite <- (take_drop m (drop 16 buf)) at 1. rewrite drop_drop. do 2 f_equal. unfold m. lia. }
    rewrite <- Hd in E2. rewrite Lc in E2. replace (Z.of_nat (16 * S n)) with (Z.of_nat m) in E2 by (unfold m, len; lia).
    run E2. destruct (cbc_plain_ok key iv (slice 16 m buf) (S n) Hk Hiv (slice_bytes _ _ _ Bb) Lc) as [Bp Lp].
    set (pl := cbc_plain key iv (slice 16 m buf)) in *. set (rest := drop len buf) in *.
    assert (Liv : length iv = 16%nat) by apply Hiv.
    assert (Lr : length rest = (length buf - len)%nat) by (unfold rest; by rewrite length_drop).
    assert (Lm : length pl = m) by (unfold m, len; lia).
    assert (Hml : (m + 16 = len)%nat) by (unfold m, len; lia).
    rewrite mem_read_fits by (rewrite !length_app; lia). mstep.
    assert (Hs : slice 16 m (iv ++ pl ++ rest) = pl).
    { rewrite slice_app_skip by lia. apply slice_app_here; lia. }
    rewrite Hs. rewrite mem_write_fits by (rewrite !length_app; lia). mstep.
    cbn [take app Nat.add]. set (x := pl ++ drop (length pl) (iv ++ pl ++ rest)).
    assert (Hx : x = pl ++ drop m (iv ++ pl ++ rest)) by (unfold x; by rewrite Lm).
    assert (Lx : length x = length buf) by (rewrite Hx, !length_app, length_drop, !length_app; lia).
    change (take 0 (iv ++ pl ++ rest) ++ x) with x.
    rewrite mem_write_fits by (rewrite zeros_length; lia).
    exists (pl ++ zeros 16 ++ rest), s2. split.
    { replace (pl ++ zeros 16 ++ rest) with (take m x ++ zeros 16 ++ drop (m + length (zeros 16)) x); [done|].
      rewrite zeros_length, Hx, take_app_length' by done. f_equal. f_equal.
      rewrite drop_app_ge by lia. rewrite Lm, drop_drop. rewrite drop_app_ge by lia. rewrite drop_app_ge by lia.
      replace (m + (m + 16 - m) - length iv - length pl)%nat with 0%nat by lia. by rewrite drop_0. }
    split; [transitivity s1; [apply calm_aes|done]|].
    split; [apply Forall_app; split; [done|]; apply Forall_app; split; [apply zeros_bytes|by apply Forall_drop]|].
    split; [rewrite !length_app, zeros_length; lia|]. split; [done|lia].
Qed.

(** ** The device between two requests *)

Record pt_ok (p : pinUvAuthToken_t) : Prop := {
  po_priv : length (priv_key (key_agreement p)) = 32%nat;
  po_token : length (token p) = 32%nat;
  po_token_bytes : bytes (token p);
  po_pub : length (pub_key (key_agreement p)) = 64%nat;
}.

(** The volume holds [m]; keys, counters and buffers have their sizes, and the
    generator is seeded. *)
Record ready (m : gmap string (list Z)) (s : dev) : Prop := {
  r_storage : storage m s;
  r_pin_key : aes_key (key_pin_enc (dev_keys (d_crypto s)));
  r_mac_key : length (key_cred_mac (ses_keys (d_crypto s))) = 32%nat;
  r_rng : rng_good s;
  r_iv : bytes (pin_hash_iv (STATE s));
  r_hash : bytes (pin_hash_enc (STATE s));
  r_p1 : pt_ok (token_p1 (d_pin s));
  r_p2 : pt_ok (token_p2 (d_pin s));
}.

Lemma ready_calm m s s' : calm s s' -> ready m s -> ready m s'.
Proof.
  intros C [Hs Hk Hm Hr Hi Hh H1 H2]. pose proof (storage_calm m s s' C Hs).
  destruct C as [_ Es Ep Ed Ek _ _ _ Hr']. split; rewrite ?Es, ?Ep, ?Ed, ?Ek; auto.
Qed.

Lemma ready_ctx m s : ready m s -> ctx_ok (sha_of s).
Proof. intros R. apply (r_storage _ _ R). Qed.
Lemma ready_state m s : ready m s -> state_ok (STATE s).
Proof. intros R. apply (r_storage _ _ R). Qed.
Lemma ready_pt m s p : ready m s -> pt_ok (get_pin_protocol_state p (d_pin s)).
Proof. intros R. unfold get_pin_protocol_state. destruct (p =? 1); apply R. Qed.

(** ** The stored PIN *)

(** The PIN hash as the device keeps it, decrypted. *)
Definition stored_hash (s : dev) : list Z :=
  cbc_plain (key_pin_enc (dev_keys (d_crypto s))) (pin_hash_iv (STATE s)) (pin_hash_enc (STATE s)).

Lemma stored_hash_calm s s' : calm s s' -> stored_hash s' = stored_hash s.
Proof. intros [_ Es _ Ed _ _ _ _]. unfold stored_hash. by rewrite Es, Ed. Qed.

Lemma ready_iv m s : ready m s -> block (pin_hash_iv (STATE s)).
Proof. intros R. split; [apply (ready_state _ _ R)|apply R]. Qed.

Lemma stored_hash_ok m s : ready m s -> bytes (stored_hash s) /\ length (stored_hash s) = 16%nat.
Proof.
  intros R. destruct (ready_state _ _ R) as [_ _ _ _ Lh _ _ _].
  destruct (aes_decrypt_done _ _ _ [] 1 (r_pin_key _ _ R) (ready_iv _ _ R) (r_hash _ _ R) Lh) as (_ & _ & ? & L1).
  split; [done|]. unfold stored_hash. lia.
Qed.

Lemma verify_stored_done m h s : ready m s -> bytes h -> (16 <= length h)%nat -> exists s',
  verify_against_stored_pin h s = Done (b2z (bool_decide (take 16 h = stored_hash s)), s') /\ calm s s'.
Proof.
  intros R Bh Lh. destruct (ready_state _ _ R) as [_ _ _ _ Le _ _ _].
  unfold verify_against_stored_pin. mstep. change (Z.to_nat STATE_PIN_HASH_SIZE) with 16%nat.
  rewrite mem_read_fits by lia. mstep. rewrite slice_all by (done || lia). unfold pin_enc_key. mstep.
  rewrite (bind_done _ _ _ _ _ (aes_done _ s)). set (s1 := set_aes _ s).
  destruct (cbc_done _ (pin_hash_iv (STATE s)) (pin_hash_enc (STATE s)) [] 1 s1 (r_pin_key _ _ R) (ready_iv _ _ R)
    (r_hash _ _ R) Le (init_iv _ _ _ (ready_iv _ _ R))) as (s2 & E2 & C2).
  rewrite Le, !app_nil_r in E2. change (Z.of_nat 16) with STATE_PIN_HASH_SIZE in E2. run E2.
  fold (stored_hash s). destruct (stored_hash_ok m s R) as [Bs Ls].
  rewrite secure_memeq_correct by (done || lia). rewrite (take_ge (stored_hash s)) by lia.
  exists s2. split; [done|]. transitivity s1; [apply calm_aes|done].
Qed.

(** ** Random bytes *)

Lemma random_bytes_done s n : rng_good s -> 0 <= n < 2 ^ 32 -> exists l s',
  ctap_generate_rng n s = Done ((1, Some l), s') /\ calm s s' /\ bytes l /\ length l = Z.to_nat n.
Proof.
  intros [H I] Hn.
  destruct (rng_get_bytes_stream n _ (h_board (d_hw s)) H I Hn) as (l & r & b & E1 & E2 & Hl & H' & I').
  exists l, (s <| d_hw := (d_hw s) <| h_rng := r |> <| h_board := b |> |>).
  split; [unfold ctap_generate_rng, bind, rng, on; by rewrite E1|].
  split; [by split|]. split; [by eapply next_bytes_bytes|done].
Qed.

(** What draws random bytes gets them, and is calm. *)
Lemma run_draws_done {A} (t : draws A) : forall s, rng_good s -> small t ->
  exists a s', run_draws t s = Done (a, s') /\ calm s s'.
Proof.
  induction t as [a|n k IH]; intros s R Hs; cbn [run_draws small] in *; [by exists a, s|].
  destruct Hs as [Hn Hk]. destruct (random_bytes_done s (Z.of_nat n) R ltac:(lia)) as (l & s1 & E1 & C1 & _).
  run E1. destruct (IH (Some l) s1 (c_rng _ _ C1 R) (Hk _)) as (a & s2 & E2 & C2).
  exists a, s2. split; [done|by transitivity s1].
Qed.

Lemma fill_random_done s buf : rng_good s -> Z.of_nat (length buf) < 2 ^ 32 -> exists l s',
  fill_random buf s = Done (l, s') /\ calm s s' /\ bytes l /\ length l = length buf.
Proof.
  intros R Hn. destruct (random_bytes_done s (Z.of_nat (length buf)) R ltac:(lia)) as (l & s' & E1 & C & Bl & Ll).
  exists l, s'. unfold fill_random. run E1. split; [done|]. split; [done|]. split; [done|lia].
Qed.

(** ** The key exchange *)

(** The point the device computes from the key of the platform. *)
Definition shared_point (p : Z) (platform_pubkey : list Z) (s : dev) : option (list Z) :=
  match run_draws (uECC_shared_secret platform_pubkey (priv_key (key_agreement (get_pin_protocol_state p (d_pin s))))) s with
  | Done (o, _) => o
  | Fault _ => None
  end.

Lemma decapsulate_done p pk point s : ctx_ok (sha_of s) -> rng_good s -> shared_point p pk s = Some point ->
  exists s', ctap_client_pin_decapsulate pk p s = Done (shared_keys p point, s') /\ calm s s'.
Proof.
  intros Hc R Hp. unfold ctap_client_pin_decapsulate, ecdh, get_pt. mstep. unfold crypto_ecc256_shared_secret.
  unfold shared_point in Hp. set (k := priv_key _) in *.
  destruct (run_draws_done _ s R (shared_small pk k)) as (o & s1 & E1 & C1). rewrite E1 in Hp. subst o.
  unfold bind at 1. run E1. mstep. destruct (kdf_done p point s1 (c_sha _ _ C1 Hc)) as (s2 & E2 & C2).
  exists s2. split; [done|by transitivity s1].
Qed.

Lemma decapsulate_stops p pk s : rng_good s -> shared_point p pk s = None ->
  ctap_client_pin_decapsulate pk p s = Fault FExit.
Proof.
  intros R Hp. unfold ctap_client_pin_decapsulate, ecdh, get_pt. mstep. unfold crypto_ecc256_shared_secret.
  unfold shared_point in Hp. set (k := priv_key _) in *.
  destruct (run_draws_done _ s R (shared_small pk k)) as (o & s1 & E1 & C1). rewrite E1 in Hp. subst o.
  unfold bind at 1. by run E1.
Qed.

End Base.

End PinBase.
