(* ===== verification/KeyExchange.v ===== *)
(** * The key exchange of the firmware with micro-ecc

    The implementation [MicroEcc.micro_ecc] has the laws the firmware's theorems
    rely on.  A platform key whose first coordinate is zero has no shared secret,
    although there is such a point on the curve: the ladder divides by it. *)

From S2P Require Import Prelude Monad Lfs Board Vli VliProps P256 P256Props EcLadder Dev Device MicroEcc MicroEccProps.
From S2P Require Import ClientPin PinBase Demo.
Import Monad Lfs Board VliProps P256 P256Props EcLadder Dev Device MicroEcc MicroEccProps ClientPin PinBase Demo.

#[local] Open Scope Z_scope.

Module KeyExchange.

(** ** The laws *)

Lemma small_bind {A B} (t : draws A) (f : A -> draws B) : small t -> (forall a, small (f a)) -> small (draws_bind t f).
Proof. intros H Hf. induction t as [a|n k IH]; cbn in *; [done|]. destruct H as [Hn H]. split; [done|]. intros o. by apply IH. Qed.

Lemma small_random top tries : Z.of_nat (length top) < 2 ^ 30 -> small (random_loop tries top).
Proof.
  intros H. induction tries as [|tries IH]; cbn [random_loop small]; [done|]. split; [lia|].
  intros [bs|]; [|done]. by destruct (_ && _).
Qed.

Lemma always_bind {A B} (P : B -> Prop) (t : draws A) (f : A -> draws B) : (forall a, always P (f a)) -> always P (draws_bind t f).
Proof. intros Hf. induction t as [a|n k IH]; cbn; [done|]. intros o. apply IH. Qed.

Lemma native_bytes_length l n : length (native_bytes l n) = n.
Proof. induction n; cbn; auto. Qed.

Lemma sign_hidden_length d e k P tmp : signature64 (sign_hidden d e k P tmp).
Proof.
  unfold sign_hidden. destruct (_ >? _); [done|]. unfold uECC_vli_nativeToBytes, signature64.
  by rewrite length_app, !native_bytes_length.
Qed.

Lemma sign_loop_length d e tries : always signature64 (sign_loop tries d e).
Proof.
  induction tries as [|tries IH]; cbn [sign_loop]; [done|]. apply always_bind. intros [k|]; [|done].
  unfold uECC_sign_with_k.
  assert (H : forall r, signature64 r ->
    always signature64 (match r with Some s => Drawn (Some s) | None => sign_loop tries d e end)) by (by intros [?|]).
  destruct (_ || _); [done|]. destruct (uECC_vli_isZero _); [done|].
  induction (uECC_generate_random_int curve_n) as [o|n t IHt]; cbn [draws_bind always] in *.
  - apply H. destruct o; [apply sign_hidden_length|done].
  - intros o. apply IHt.
Qed.

#[export] Instance micro_ecc_laws key_pair sign
  (secret64 : forall seed, length (key_pair seed).1 = 64%nat) (public32 : forall seed, length (key_pair seed).2 = 32%nat)
  (sign64 : forall sk m, length (sign sk m) = 64%nat) : EccLaws (micro_ecc key_pair sign).
Proof.
  split; cbn [Dev.uECC_compute_public_key Dev.uECC_shared_secret Dev.uECC_sign crypto_ed25519_key_pair crypto_ed25519_sign micro_ecc];
    [| |intros; apply sign_loop_length|done..].
  - intros k. unfold MicroEcc.uECC_compute_public_key. destruct (uECC_vli_isZero _); [done|]. destruct (negb _); [done|].
    destruct (EccPoint_compute_public_key _); [|done]. apply point_bytes_length.
  - intros pk k. unfold MicroEcc.uECC_shared_secret. apply small_bind; [by apply small_random|].
    by intros [z|].
Qed.

(** ** A point with first coordinate zero *)

Lemma rep_zero l : rep l 0 <-> stands l 8 0.
Proof. unfold rep. by rewrite Z.mod_0_l by (pose proof p_pos; lia). Qed.

Lemma times_zero a c : eight a -> eight c -> vli_value c mod p = 0 ->
  rep (uECC_vli_modMult_fast a c) 0 /\ rep (uECC_vli_modMult_fast c a) 0.
Proof.
  intros Ha Hc E. pose proof p_pos.
  split; [eapply rep_mod; [|exact (rep_product _ _ Ha Hc)]|eapply rep_mod; [|exact (rep_product _ _ Hc Ha)]].
  - by rewrite <- Z.mul_mod_idemp_r, E, Z.mul_0_r by lia.
  - by rewrite <- Z.mul_mod_idemp_l, E by lia.
Qed.

Lemma zero_times c l : eight c -> rep l 0 -> rep (uECC_vli_modMult_fast l c) 0 /\ rep (uECC_vli_modMult_fast c l) 0.
Proof.
  intros Hc H%rep_zero. destruct (times_zero c l Hc) as [H1 H2]; [split; apply H| |done].
  destruct H as (_ & _ & ->). apply Z.mod_0_l. pose proof p_pos. lia.
Qed.

#[local] Opaque p uECC_vli_modMult_fast uECC_vli_modSub uECC_vli_modInv XYcZ_add XYcZ_addC.

Lemma apply_z_zero P z : eight_point P -> rep z 0 -> rep (apply_z P z).1 0 /\ rep (apply_z P z).2 0.
Proof.
  destruct P as [X Y]. intros [HX HY] Hz. cbn [fst snd] in *. unfold apply_z, uECC_vli_modSquare_fast. cbn [fst snd].
  assert (H8 : forall l, rep l 0 -> eight l) by (intros l (? & ? & _); by split).
  pose proof (proj1 (zero_times _ _ (H8 _ Hz) Hz)) as H2. pose proof (proj1 (zero_times _ _ (H8 _ Hz) H2)) as H3.
  split; by apply zero_times.
Qed.

(** The ladder ends in the point at infinity: the number it inverts is a multiple
    of the first coordinate, and the inverse of 0 is 0. *)
Lemma mult_zero P scalar iz num_bits : eight_point P -> vli_value P.1 mod p = 0 ->
  fe (default (1 :: zeros (num_words - 1)) iz) -> EccPoint_isZero (EccPoint_mult P scalar iz num_bits) = true.
Proof.
  intros HP Hx Hz. unfold EccPoint_mult.
  assert (Hs : fe_ladder (ladder_start P iz)).
  { unfold ladder_start, XYcZ_initial_double. set (z0 := default _ iz) in *.
    pose proof (fe_apply_z_eight P z0 HP Hz) as H1. destruct (apply_z P z0) as [X Y].
    pose proof (fe_double (X, Y) z0 H1 Hz) as D. cbn [fst snd] in D.
    destruct (double_jacobian_default (X, Y, z0)) as [[X1 Y1] z]. destruct D as [D Dz].
    split; [by apply fe_apply_z_eight|done]. }
  unfold ladder_start in Hs. destruct (XYcZ_initial_double P iz) as [R1 R0].
  pose proof (fe_ladder_loop scalar (Z.to_nat (num_bits - 2)) _ Hs) as H2. set (nb := negb _).
  pose proof (fe_ladder_addC _ nb H2) as H3. set (R := ladder_addC _ nb) in *.
  destruct (fe_ladder_add R nb H3) as [H4 _]. destruct (fe_pick R (negb nb) H3) as [H5 H6].
  destruct H3 as [[H7 _] [H8 _]]. destruct HP as [HX HY].
  assert (Hi : rep (uECC_vli_modMult_fast (uECC_vli_modMult_fast (uECC_vli_modSub R.2.1 R.1.1 curve_p) (pick R (negb nb)).2) P.1) 0).
  { refine (proj1 (times_zero _ P.1 _ HX Hx)). apply fe_eight, fe_mul; [by apply fe_sub|done]. }
  apply rep_zero, (modInv_zero _ curve_p) in Hi. rewrite Hi.
  assert (Z0 : rep (zeros (length curve_p)) 0) by (apply rep_zero; split_and!; [apply zeros_words|done|done]).
  pose proof (proj1 (zero_times _ _ HY Z0)) as Z1. pose proof (proj1 (zero_times _ _ (fe_eight _ H5) Z1)) as Z2.
  destruct (apply_z_zero (ladder_add R nb).1 _ (conj (fe_eight _ (proj1 H4)) (fe_eight _ (proj2 H4))) Z2) as [E1%rep_zero E2%rep_zero].
  by rewrite (isZero_point _ _ _ E1 E2).
Qed.

Lemma no_secret pk d : bytes pk -> length pk = 64%nat -> be_value (take 32 pk) mod p = 0 ->
  drawn (fun o => o = None) (MicroEcc.uECC_shared_secret pk d).
Proof.
  intros Bp Lp Hx. destruct (bytes_point_ok pk Bp Lp) as [Sx Sy]. unfold MicroEcc.uECC_shared_secret.
  apply (drawn_bind (random_below 8 p)); [apply generate_random_int_ok, curve_p_ok|].
  intros [lz|]; [|done]. intros (z & Sz & Hz). cbn [drawn]. rewrite mult_zero; [done| | |].
  - split; split; (apply Sx || apply Sy).
  - destruct Sx as (_ & _ & ->). done.
  - exists z. apply rep_below; [done|lia].
Qed.

(** ** The device *)

Section Device.
Context {L : Lfs} {LL : LfsLaws L} {B : Board}.
Variables (key_pair : list Z -> list Z * list Z) (sign : list Z -> list Z -> list Z).
#[local] Instance E : Ecc := micro_ecc key_pair sign.

Lemma run_drawn {A} (P : A -> Prop) (t : draws A) : forall s, rng_good s -> small t -> drawn P t ->
  exists a s', run_draws t s = Done (a, s') /\ P a.
Proof.
  induction t as [a|n k IH]; intros s R Hs Hd; cbn [run_draws small drawn] in *; [by exists a, s|].
  destruct Hs as [Hn Hk]. destruct (random_bytes_done s (Z.of_nat n) R ltac:(lia)) as (l & s1 & E1 & C1 & Bl & _).
  unfold bind. rewrite E1. apply IH; [by apply (c_rng _ _ C1)|done|by apply Hd].
Qed.

(** C13: a platform key whose first coordinate is zero stops the device, for any
    key of the device and whatever is drawn - although the curve has such a point,
    which [uECC_valid_public_key] accepts. *)
Theorem zero_coordinate_stops pk d s : rng_good s -> bytes pk -> length pk = 64%nat ->
  be_value (take 32 pk) mod p = 0 -> crypto_ecc256_shared_secret pk d s = Fault FExit.
Proof.
  intros R Bp Lp Hx. unfold crypto_ecc256_shared_secret.
  assert (Hs : small (Dev.uECC_shared_secret pk d)) by (apply small_bind; [by apply small_random|by intros [?|]]).
  destruct (run_drawn _ _ s R Hs (no_secret pk d Bp Lp Hx)) as (o & s1 & E1 & ->).
  unfold bind. by rewrite E1.
Qed.

End Device.

(** The point of the curve with first coordinate zero. *)
Definition zero_point : list Z := zeros 32 ++
  [0x66; 0x48; 0x5c; 0x78; 0x0e; 0x2f; 0x83; 0xd7; 0x24; 0x33; 0xbd; 0x5d; 0x84; 0xa0; 0x6b; 0xb6;
   0x54; 0x1c; 0x2a; 0xf3; 0x1d; 0xae; 0x87; 0x17; 0x28; 0xbf; 0x85; 0x6a; 0x17; 0x4f; 0x93; 0xf4].

Import Lfs.Ram Board.Sim Demo.Toy.

Lemma zero_coordinate_stops_witness :
  uECC_valid_public_key zero_point = true /\
  crypto_ecc256_shared_secret (E := micro_ecc (crypto_ed25519_key_pair (Ecc := ToyEcc)) (crypto_ed25519_sign (Ecc := ToyEcc)))
    zero_point (zeros 32) demo = Fault FExit.
Proof.
  split; [vm_compute; reflexivity|].
  apply (zero_coordinate_stops (L := Ram) (B := Sim)); [split; [apply demo_rng_ok|done]| |done|vm_compute; reflexivity].
  apply bytes_all. vm_compute. reflexivity.
Defined.

End KeyExchange.
