(* ===== verification/Halting.v ===== *)
(** * Code that may halt the device but is otherwise defined

    [wps m Q s]: from [s] the computation [m] returns with [Q], or stops the
    device at an assertion or by [exit]; it never reads or writes outside of an
    object.  Encoders keep to their buffer in this sense. *)

From S2P Require Import Prelude Monad CborParser CborEncoder CtapStatus CtapParse CtapEncode.
Import Monad CborParser CborEncoder CtapStatus CtapParse CtapEncode.

#[local] Open Scope Z_scope.

Module Halting.

Section Halting.
Context {S : Type}.

Definition wps {A} (m : M S A) (Q : A -> S -> Prop) (s : S) : Prop :=
  match m s with
  | Done (a, s') => Q a s'
  | Fault f => f = FAssert \/ f = FExit
  end.

Lemma wps_mono {A} (m : M S A) (P Q : A -> S -> Prop) s :
  wps m P s -> (forall a s', P a s' -> Q a s') -> wps m Q s.
Proof. unfold wps. destruct (m s) as [[]|]; auto. Qed.
Lemma wps_bind {A B} (m : M S A) (k : A -> M S B) Q s :
  wps m (fun a => wps (k a) Q) s -> wps (bind m k) Q s.
Proof. unfold wps, bind. by destruct (m s) as [[]|]. Qed.
Lemma wps_step {A B} (m : M S A) (k : A -> M S B) P Q s :
  wps m P s -> (forall a s', P a s' -> wps (k a) Q s') -> wps (bind m k) Q s.
Proof. intros H HP. apply wps_bind. by eapply wps_mono. Qed.
(** Two steps taken together. *)
Lemma wps_two {A B} (a : M S unit) (b : M S A) (k : A -> M S B) P Q s :
  wps (a ;* b) P s -> (forall x s', P x s' -> wps (k x) Q s') -> wps (a ;* let* x := b in k x) Q s.
Proof.
  intros H HP. pose proof (wps_step _ k P Q s H HP) as H'. unfold wps in *. by rewrite bind_assoc in H'.
Qed.
Lemma wps_ret {A} (a : A) (Q : A -> S -> Prop) s : Q a s -> wps (ret a) Q s.
Proof. done. Qed.
Lemma wps_done {A} (m : M S A) (Q : A -> S -> Prop) s a s' : m s = Done (a, s') -> Q a s' -> wps m Q s.
Proof. unfold wps. by intros ->. Qed.
Lemma wpa_wps {A} (m : M S A) Q s : wpa m Q s -> wps m Q s.
Proof. unfold wpa, wps. destruct (m s) as [[]|]; auto. Qed.
Lemma wps_exit {A} (Q : A -> S -> Prop) s : wps (stop FExit) Q s.
Proof. by right. Qed.
Lemma wps_assert {A} (Q : A -> S -> Prop) s : wps (stop FAssert) Q s.
Proof. by left. Qed.
Lemma wps_gets {A} (f : S -> A) (Q : A -> S -> Prop) s : Q (f s) s -> wps (gets f) Q s.
Proof. done. Qed.
Lemma wps_modify f (Q : unit -> S -> Prop) s : Q tt (f s) -> wps (modify f) Q s.
Proof. done. Qed.

(** With status codes: [Q] holds of the result, [T] of a status. *)
Definition wpx {A} (m : X S A) (T : Z -> S -> Prop) (Q : A -> S -> Prop) (s : S) : Prop :=
  wps m (fun r => match r with inl e => T e | inr a => Q a end) s.

Lemma wpx_bind {A B} (m : X S A) (k : A -> X S B) T P Q s :
  wpx m T P s -> (forall a s', P a s' -> wpx (k a) T Q s') -> wpx (xbind m k) T Q s.
Proof. intros H HP. eapply wps_step; [exact H|]. intros [e|a] s' Hp; [exact Hp|by apply HP]. Qed.
Lemma wpx_step {A B} (m : M S A) (k : A -> X S B) T P Q s :
  wps m P s -> (forall a s', P a s' -> wpx (k a) T Q s') -> wpx (bind m k) T Q s.
Proof. apply wps_step. Qed.
Lemma wpx_ok {A} (a : A) T (Q : A -> S -> Prop) s : Q a s -> wpx (ok a) T Q s.
Proof. done. Qed.
Lemma wpx_throw {A} e T (Q : A -> S -> Prop) s : T e s -> wpx (throw e) T Q s.
Proof. done. Qed.
Lemma wpx_guard {A} b e (k : X S A) T Q s :
  (b = false -> T e s) -> (b = true -> wpx k T Q s) -> wpx (guard b e ^; k) T Q s.
Proof.
  intros He Hk. eapply (wpx_bind _ _ _ (fun _ s' => s' = s /\ b = true)).
  - unfold guard. destruct b; [by apply wpx_ok|by apply wpx_throw, He].
  - intros _ s' [-> Hb]. by apply Hk.
Qed.
Lemma wpx_mono {A} (m : X S A) (T T' : Z -> S -> Prop) (P Q : A -> S -> Prop) s :
  wpx m T P s -> (forall e s', T e s' -> T' e s') -> (forall a s', P a s' -> Q a s') -> wpx m T' Q s.
Proof. intros H HT HQ. eapply wps_mono; [exact H|]. intros [e|a] s'; auto. Qed.
Lemma wpx_done {A} (m : X S A) T (Q : A -> S -> Prop) s r s' : m s = Done (r, s') ->
  match r with inl e => T e s' | inr a => Q a s' end -> wpx m T Q s.
Proof. unfold wpx, wps. intros ->. by destruct r. Qed.
Lemma wpx_parse {A} (m : P A) I T (Q : A -> S -> Prop) s :
  safe m I -> (forall e, T e s) -> (forall a, I a -> Q a s) -> wpx (parse m) T Q s.
Proof.
  intros Hm He Ha. destruct (parse_safe m I s Hm) as (r & E & H). eapply wpx_done; [exact E|].
  destruct r; auto.
Qed.

End Halting.

(** ** Encoders stay inside their buffer *)

Definition enc_ok (e : Enc) : Prop :=
  match enc_end (fst e) with
  | Some n => (n <= length (snd e))%nat
  | None => True
  end.

Definition op_ok (op : CborEncoder -> list Z -> res encres) : Prop :=
  forall e out, enc_ok (e, out) -> exists err e' out', op e out = Done (err, e', out') /\ enc_ok (e', out').

Lemma append_ok l : op_ok (append_to_buffer l).
Proof.
  intros e out H. unfold enc_ok in H. cbn in H. unfold append_to_buffer. destruct (enc_end e) as [n|] eqn:En.
  - destruct (_ <? 0) eqn:E; zbool.
    + eexists _, _, _. split; [done|]. unfold enc_ok. done.
    + rewrite mem_write_fits by lia. eexists _, _, _. split; [done|]. unfold enc_ok. cbn [fst snd enc_end set_field].
      cbn. rewrite En. by rewrite overwrite_length by lia.
  - destruct (_ <? 0); eexists _, _, _; (split; [done|]); unfold enc_ok; cbn; by rewrite En.
Qed.

Lemma saturated_ok (op : CborEncoder -> list Z -> res encres) : op_ok op -> op_ok (fun e => op (saturated_decrement e)).
Proof.
  intros H e out He. apply H. unfold saturated_decrement. by destruct (negb _).
Qed.
Lemma number_op_ok v mt : op_ok (encode_number v mt).
Proof. apply (saturated_ok (encode_number_no_update v mt)), append_ok. Qed.
Lemma encode_int_ok v : op_ok (cbor_encode_int v).
Proof. apply number_op_ok. Qed.
Lemma encode_uint_ok v : op_ok (cbor_encode_uint v).
Proof. apply number_op_ok. Qed.
Lemma encode_boolean_ok b : op_ok (cbor_encode_boolean b).
Proof.
  intros e out He. unfold cbor_encode_boolean, cbor_encode_simple_value. destruct (_ && _); [by eexists _, _, _|].
  by apply number_op_ok.
Qed.
Lemma string_op_ok s mt : op_ok (encode_string s mt).
Proof.
  intros e out He. unfold encode_string.
  destruct (number_op_ok (Z.of_nat (length s)) mt e out He) as (? & e1 & out1 & -> & He1). cbn [res_bind].
  by apply append_ok.
Qed.
Lemma encode_byte_string_ok s : op_ok (cbor_encode_byte_string s).
Proof. apply string_op_ok. Qed.
Lemma encode_text_string_ok s : op_ok (cbor_encode_text_string s).
Proof. apply string_op_ok. Qed.

#[export] Hint Resolve encode_int_ok encode_uint_ok encode_boolean_ok encode_byte_string_ok
  encode_text_string_ok : tkey.

Section Encoders.
Context {S : Type}.

(** The state is left alone, whether the encoding succeeds or not. *)
Lemma wpx_emit op e (T : Z -> S -> Prop) (Q : Enc -> S -> Prop) s : op_ok op -> enc_ok e ->
  T CTAP2_ERR_INVALID_CBOR s -> (forall e', enc_ok e' -> Q e' s) -> wpx (emit op e) T Q s.
Proof.
  destruct e as [e out]. intros Ho He HT HQ. destruct (Ho e out He) as (err & e' & out' & E & He').
  unfold wpx, wps, emit, bind, lift. cbn [fst snd]. rewrite E.
  destruct err; cbn; auto.
Qed.

Lemma wpx_open_map n e (T : Z -> S -> Prop) (Q : CborEncoder * Enc -> S -> Prop) s : enc_ok e ->
  T CTAP2_ERR_INVALID_CBOR s -> (forall p e', enc_ok e' -> Q (p, e') s) -> wpx (open_map n e) T Q s.
Proof.
  destruct e as [e out]. intros He HT HQ.
  unfold wpx, wps, open_map, open_container, bind, lift, cbor_encoder_create_map, create_container. cbn [fst snd].
  match goal with |- context [encode_number_no_update n ?mt ?c out] =>
    destruct (append_ok (number_bytes n mt) c out He) as (err & e' & out' & E & He') end.
  unfold encode_number_no_update. rewrite E. cbn [res_bind]. destruct err; cbn; auto.
Qed.

Lemma wpx_close p e (T : Z -> S -> Prop) (Q : Enc -> S -> Prop) s : enc_ok e ->
  T CTAP2_ERR_INVALID_CBOR s -> (forall e', enc_ok e' -> Q e' s) -> wpx (close p e) T Q s.
Proof.
  destruct e as [e out]. intros He HT HQ. unfold close, wpx, wps, emit, bind, lift, cbor_encoder_close_container.
  cbn [fst snd]. destruct (negb (enc_remaining e =? 1)); [by destruct (enc_remaining e =? 0)|].
  destruct (enc_end e) as [n|] eqn:En; [|done]. apply HQ. unfold enc_ok in *. cbn [fst snd enc_end set_field] in *.
  cbn. rewrite En in *. done.
Qed.

Lemma wpx_cose_key_add e x y alg (T : Z -> S -> Prop) (Q : Enc -> S -> Prop) s : enc_ok e ->
  (32 <= length x)%nat -> (32 <= length y)%nat ->
  T CTAP2_ERR_INVALID_CBOR s -> (forall e', enc_ok e' -> Q e' s) -> wpx (cose_key_add e x y alg) T Q s.
Proof.
  intros He Lx Ly HT HQ. unfold cose_key_add.
  eapply (wpx_bind _ _ _ (fun pe s' => s' = s /\ enc_ok pe.2)); [by apply wpx_open_map|].
  intros [p e1] s1 [-> H1]. cbn in H1.
  do 7 (eapply (wpx_bind _ _ _ (fun e s' => s' = s /\ enc_ok e)); [by apply wpx_emit; auto with tkey|];
    clear H1 e1; intros e1 ? [-> H1]).
  eapply (wpx_step _ _ _ (fun _ s' => s' = s)).
  { unfold wps, lift. by rewrite mem_read_fits by lia. }
  intros ? ? ->.
  eapply (wpx_bind _ _ _ (fun e s' => s' = s /\ enc_ok e)); [by apply wpx_emit; auto with tkey|].
  clear H1 e1; intros e1 ? [-> H1].
  eapply (wpx_bind _ _ _ (fun e s' => s' = s /\ enc_ok e)).
  - destruct (negb _); [|by apply wpx_ok].
    eapply (wpx_bind _ _ _ (fun e s' => s' = s /\ enc_ok e)); [by apply wpx_emit; auto with tkey|].
    clear H1 e1; intros e1 ? [-> H1]. eapply (wpx_step _ _ _ (fun _ s' => s' = s)).
    { unfold wps, lift. by rewrite mem_read_fits by lia. }
    intros ? ? ->. by apply wpx_emit; auto with tkey.
  - clear H1 e1. intros e1 ? [-> H1]. by apply wpx_close.
Qed.

End Encoders.

End Halting.
