(* ===== verification/PinRequest.v ===== *)
(** * Any bytes are a clientPIN request, or refused

    The parser of clientPIN requests returns on every input, with a status or
    with fields of the sizes of the request structure. *)

From S2P Require Import Prelude Monad CborParser CborProps CborApi CborSteps CtapStatus CtapTypes CtapParse ParseProps.
From S2P Require Import Sha256 Crypto State Dev Credential ClientPin ClientPinCmd.
Import Monad CborParser CborProps CborApi CborSteps CtapStatus CtapTypes CtapParse ParseProps
  Sha256 Crypto State Dev Credential ClientPin ClientPinCmd.
Import CborSteps.

#[local] Open Scope Z_scope.

Module PinRequest.

(** The request is an element whose number is known. *)
Lemma parser_init_safe buf : bytes buf -> safe (cbor (cbor_parser_init buf)) (good buf).
Proof.
  intros Hb. apply safe_cbor. unfold cbor_parser_init.
  destruct (preparse_value_ok buf Hb (mkCv 0 1 0 CborInvalidType 0)) as (e & it & E & _ & _ & H);
    [cbn; lia|cbn; unfold UINT32_MAX; lia|].
  exists e, it. split; [done|]. intros ->. split; [by apply H|].
  refine (preparse_value_exact buf Hb (mkCv 0 1 0 CborInvalidType 0) it _ _ E); cbn; [lia|unfold UINT32_MAX; lia].
Qed.

(** Fields within the arrays of [CTAP_clientPin]. *)
Record cp_ok (c : CTAP_clientPin) : Prop := {
  cpo_protocol : is_byte (pinProtocol c);
  cpo_key : cose_ok (keyAgreement c);
  cpo_param : length (pinUvAuthParam c) = 32%nat /\ bytes (pinUvAuthParam c);
  cpo_new : length (newPinEnc c) = 80%nat /\ bytes (newPinEnc c);
  cpo_new_size : newPinEncSize c = 0 \/ 64 <= newPinEncSize c <= 80;
  cpo_hash : length (pinHashEnc c) = 32%nat /\ bytes (pinHashEnc c);
  cpo_rp : length (rpId c) = 254%nat /\ bytes (rpId c);
  cpo_rp_size : 0 <= rpIdSize c <= 253;
}.

Lemma cp_zero_ok : cp_ok cp_zero.
Proof.
  assert (Z : forall n, length (zeros n) = n /\ bytes (zeros n)) by (split; [apply zeros_length|apply zeros_bytes]).
  split; first [exact (Z 32%nat)|exact (Z 64%nat)|exact (Z 80%nat)|exact (Z 254%nat)|cbn; unfold is_byte; lia].
Qed.

Section Request.
Context (buf : list Z) (Hbuf : bytes buf).

Lemma calculate_safe it : good buf it -> type it = CborByteStringType ->
  safe (cbor (cbor_value_calculate_string_length buf it)) (fun _ => True).
Proof.
  intros [V _] Ht. apply safe_cbor. unfold cbor_value_calculate_string_length.
  destruct (copy_ok buf Hbuf it SIZE_MAX V (byte_string_is it Ht)) as (e & it' & n & c & -> & _). cbn [res_bind].
  by exists e, n.
Qed.

Lemma cp_case_safe key it c : good buf it -> cp_ok c -> safe (cp_case buf key it c) cp_ok.
Proof.
  intros G C. destruct C as [Cp Ck [Lp Bp] [Ln Bn] Cs [Lh Bh] [Lr Br] Cr]. unfold cp_case.
  assert (HI : safe (int_value buf it) (fun _ => True)) by by apply int_value_safe.
  repeat case_match; zbool; try (by apply safe_ok; split).
  - eapply safe_bind; [exact HI|]. intros v _. apply guard_bind. intros Hv. apply safe_ok.
    apply negb_true_iff, orb_false_iff in Hv as [G1 G2]. zbool. split; cbn; unfold is_byte; try done; lia.
  - eapply safe_bind; [exact HI|]. intros v _. by apply safe_ok; split.
  - eapply safe_bind; [by apply cose_key_parse_safe|]. intros k Hk. by apply safe_ok; split.
  - eapply safe_bind; [by apply pinUvAuthParam_safe|]. intros [[em p] n] [Lq Bq]. apply guard_bind. intros _.
    by apply safe_ok; split.
  - apply guard_bind. intros Ht. zbool. eapply safe_bind; [by apply calculate_safe|]. intros sz _.
    apply guard_bind. intros Hs. apply negb_true_iff, orb_false_iff in Hs as [G1 G2]. zbool.
    eapply safe_bind; [by apply copy_string_safe; [| |apply byte_string_is]|]. intros [[fits n] d] (Bd & Ld & _).
    apply guard_bind. intros _. unfold NEW_PIN_ENC_MAX_SIZE in Ld.
    apply write_safe; [lia|done|done|]. intros p Lq Bq. apply safe_ok.
    split; cbn; try done; [split; [congruence|done]|right; unfold NEW_PIN_ENC_MIN_SIZE, NEW_PIN_ENC_MAX_SIZE in *; lia].
  - apply guard_bind. intros Ht. zbool.
    eapply safe_bind; [by apply copy_string_safe; [| |apply byte_string_is]|]. intros [[fits n] d] (Bd & Ld & _).
    apply guard_bind. intros _. apply write_safe; [lia|done|done|]. intros p Lq Bq. apply safe_ok.
    split; cbn; try done. split; [congruence|done].
  - eapply safe_bind; [exact HI|]. intros v _. by apply safe_ok; split.
  - eapply safe_bind; [by apply ctap_parse_rp_id_safe|]. intros [id sz] (Li & Bi & Hs). apply safe_ok.
    split; cbn; try done.
Qed.

End Request.

(** Whatever bytes a clientPIN request holds, its parser comes to an end
    without leaving the request or the request structure: it gives a status
    code, or fields that fit their arrays, with a new PIN of 64 to 80 encrypted
    bytes when there is one. *)
Lemma parse_client_pin_ok buf : bytes buf -> safe (parse_client_pin_request buf) cp_ok.
Proof.
  intros Hb. unfold parse_client_pin_request. eapply safe_bind; [by apply parser_init_safe|]. intros it G.
  eapply safe_bind; [by apply enter_map_safe|]. intros [map n] [Hn C].
  apply (safe_bind _ _ (fun '(_, cp) => cp_ok cp)).
  - apply int_entries_safe; [done| | |apply cp_zero_ok].
    + intros key m c Gm Hc. by apply cp_case_safe.
    + by rewrite Z2Nat.id.
  - intros [m c] Hc. by apply safe_ok.
Qed.

End PinRequest.
