(* ===== verification/PinSteps.v ===== *)
(** * The operations on PIN state

    Each operation of the client PIN component with the state it leaves: the
    persistent state and the PIN variables as functions of what they were. *)

From S2P Require Import Prelude Monad Lfs Fs Board Sha256 Aes Crypto AesBlocks Rng State CtapTypes Dev Device DeviceProps.
From S2P Require Import RkStore CtapStatus Credential ClientPin PinBase Halting.
Import Monad Lfs Fs Board Sha256 Aes Crypto AesBlocks Rng State CtapTypes Dev Device DeviceProps
  RkStore CtapStatus Credential ClientPin PinBase Halting.

#[local] Open Scope Z_scope.

Module PinSteps.

(** The files of a volume. *)
Abbreviation volume := (gmap string (list Z)).

#[local] Opaque hmac sha256 KeyExpansion Cipher InvCipher state_bytes.

Section Steps.
Context {L : Lfs} {LL : LfsLaws L} {B : Board} {E : Ecc} {EL : EccLaws E}.

(** The volume once the state of [s] was stored on [m]. *)
Definition persist (s : dev) (m : volume) : volume :=
  <["state"%string := sealed (DeviceProps.mac_key s) (STATE s)]> m.

(** From [s] the device came to [s'], with [st] and [v] in the state and the
    PIN variables, and [m'] on the volume; its keys are the same, and so are the
    enumerations of the other commands. *)
Record moved (s : dev) (st : AuthenticatorState) (v : pin_vars) (m' : volume) (s' : dev) : Prop := {
  m_state : STATE s' = st;
  m_pin : d_pin s' = v;
  m_dev_keys : dev_keys (d_crypto s') = dev_keys (d_crypto s);
  m_ses_keys : ses_keys (d_crypto s') = ses_keys (d_crypto s);
  m_ready : ready m' s';
  m_cm : d_cm s' = d_cm s;
  m_gas : getAssertionState s' = getAssertionState s;
}.

Lemma calm_moved m s s' : ready m s -> calm s s' -> moved s (STATE s) (d_pin s) m s'.
Proof. intros R C. pose proof (ready_calm m s s' C R). by destruct C. Qed.

Lemma moved_trans s s1 st1 v1 m1 st v m s' : moved s st1 v1 m1 s1 -> moved s1 st v m s' -> moved s st v m s'.
Proof. intros [] []. split; congruence || done. Qed.

Lemma moved_stored_hash s st v m s' : moved s st v m s' ->
  stored_hash s' = cbc_plain (key_pin_enc (dev_keys (d_crypto s))) (pin_hash_iv st) (pin_hash_enc st).
Proof. intros [Es _ Ek _ _]. unfold stored_hash. by rewrite Es, Ek. Qed.

(** ** Assignments *)

Lemma set_state_ok m s f : ready m s -> state_ok (f (STATE s)) ->
  bytes (pin_hash_iv (f (STATE s))) -> bytes (pin_hash_enc (f (STATE s))) ->
  wps (upd_state f) (fun _ => moved s (f (STATE s)) (d_pin s) m) s.
Proof.
  intros [(Hl & Hm & Hs & Ho) ? ? ? ? ? ? ?] H1 H2 H3. unfold upd_state, upd. apply wps_modify.
  by split.
Qed.

Lemma set_pin_ok m s f : ready m s -> pt_ok (token_p1 (f (d_pin s))) -> pt_ok (token_p2 (f (d_pin s))) ->
  wps (upd d_pin f) (fun _ => moved s (STATE s) (f (d_pin s)) m) s.
Proof.
  intros [(Hl & Hm & Hs & Ho) ? ? ? ? ? ? ?] H1 H2. unfold upd. apply wps_modify. by split.
Qed.

Lemma set_pt_tokens p f v : pt_ok (token_p1 v) -> pt_ok (token_p2 v) ->
  (forall t, pt_ok t -> t = get_pin_protocol_state p v -> pt_ok (f t)) ->
  pt_ok (token_p1 (set_pin_protocol_state p f v)) /\ pt_ok (token_p2 (set_pin_protocol_state p f v)).
Proof.
  intros H1 H2 Hf. unfold set_pin_protocol_state, get_pin_protocol_state in *. destruct (p =? 1); cbn; auto.
Qed.

Lemma set_pt_ok m s p f : ready m s ->
  (forall t, pt_ok t -> t = get_pin_protocol_state p (d_pin s) -> pt_ok (f t)) ->
  wps (upd_pt p f) (fun _ => moved s (STATE s) (set_pin_protocol_state p f (d_pin s)) m) s.
Proof.
  intros R Hf. unfold upd_pt.
  destruct (set_pt_tokens p f (d_pin s) (r_p1 _ _ R) (r_p2 _ _ R) Hf). by apply set_pin_ok.
Qed.

Lemma set_ts_ok m s p f : ready m s ->
  wps (upd_ts p f) (fun _ => moved s (STATE s)
    (set_pin_protocol_state p (fun t => t <| token_state := f (token_state t) |>) (d_pin s)) m) s.
Proof. intros R. unfold upd_ts. apply set_pt_ok; [done|]. by intros t [] _. Qed.

(** ** Storing the state *)

Lemma flush_ok m s : ready m s -> wps ctap_flush_state (fun _ => moved s (STATE s) (d_pin s) (persist s m)) s.
Proof.
  intros [(Hl & Hm & Hs & Ho) ? ? ? ? ? ? ?]. unfold wps, ctap_flush_state. mstep.
  destruct (write_state_done m rk_dir s (STATE s) Hl (state_creatable m) Hm Hs) as [(l & c & -> & Hl' & Hc)| -> ]; [|by left].
  split; try done. split; try done. split; [exact Hl'|]. split; [|done]. split; [exact Hc|apply Hm].
Qed.

Lemma persist_twice s s' m : persist s' (persist s m) = persist s' m.
Proof. apply insert_insert_eq. Qed.

Lemma persist_state s s' m : DeviceProps.mac_key s' = DeviceProps.mac_key s -> STATE s' = STATE s -> persist s' m = persist s m.
Proof. unfold persist. by intros -> ->. Qed.

Lemma moved_mac_key s st v m s' : moved s st v m s' -> DeviceProps.mac_key s' = DeviceProps.mac_key s.
Proof. intros []. unfold DeviceProps.mac_key. congruence. Qed.

(** A change of the state, stored. *)
Lemma update_flush_ok m s f : ready m s -> state_ok (f (STATE s)) ->
  bytes (pin_hash_iv (f (STATE s))) -> bytes (pin_hash_enc (f (STATE s))) ->
  wps (upd_state f ;* ctap_flush_state) (fun _ s' => moved s (f (STATE s)) (d_pin s) (persist s' m) s') s.
Proof.
  intros R H1 H2 H3. eapply wps_step; [by apply (set_state_ok m)|]. cbn beta; intros _ s1 M1.
  eapply wps_mono; [apply (flush_ok m), M1|]. cbn beta; intros _ s2 M2.
  replace (persist s2 m) with (persist s1 m).
  - rewrite (m_state _ _ _ _ _ M1), (m_pin _ _ _ _ _ M1) in M2. by eapply moved_trans.
  - symmetry. apply persist_state; [by eapply moved_mac_key|apply M2].
Qed.

(** ** Wrong and right PINs *)

(** Both tokens and the stored hash are wiped when the last try is gone. *)
Definition miss_state (st : AuthenticatorState) : AuthenticatorState :=
  let st' := st <| remaining_tries := remaining_tries st - 1 |> in
  if remaining_tries st - 1 <=? 0
  then st' <| pin_hash_enc := zeros 16 |> <| pin_hash_iv := zeros 16 |> else st'.
Definition wipe_token (p : pinUvAuthToken_t) : pinUvAuthToken_t := p <| token := zeros 32 |>.
Definition miss_pin (last : bool) (v : pin_vars) : pin_vars :=
  let v := if PIN_BOOT_ATTEMPTS_LEFT v >? 0
           then v <| PIN_BOOT_ATTEMPTS_LEFT := PIN_BOOT_ATTEMPTS_LEFT v - 1 |> else v in
  if last then v <| token_p1 := wipe_token (token_p1 v) |> <| token_p2 := wipe_token (token_p2 v) |> else v.

Lemma wipe_token_ok p : pt_ok p -> pt_ok (wipe_token p).
Proof. intros []. split; [done|done|apply (zeros_bytes 32)|done]. Qed.

Lemma lock_ok m s : ready m s ->
  wps lock_device_permanently (fun _ s' =>
    moved s ((STATE s) <| pin_hash_enc := zeros 16 |> <| pin_hash_iv := zeros 16 |>)
      ((d_pin s) <| token_p1 := wipe_token (token_p1 (d_pin s)) |> <| token_p2 := wipe_token (token_p2 (d_pin s)) |>)
      (persist s' m) s') s.
Proof.
  intros R. unfold lock_device_permanently.
  eapply wps_step; [apply (set_pt_ok m s 1 wipe_token R); intros; by apply wipe_token_ok|]. cbn beta; intros _ s1 M1.
  eapply wps_step; [apply (set_pt_ok m s1 2 wipe_token (m_ready _ _ _ _ _ M1)); intros; by apply wipe_token_ok|].
  cbn beta; intros _ s2 M2. eapply wps_mono.
  - apply (update_flush_ok m s2); [apply M2| |apply zeros_bytes|apply zeros_bytes].
    destruct (ready_state _ _ (m_ready _ _ _ _ _ M2)). by split.
  - cbn beta; intros _ s3 M3. pose proof (moved_trans _ _ _ _ _ _ _ _ _ M1 (moved_trans _ _ _ _ _ _ _ _ _ M2 M3)) as M.
    rewrite (m_state _ _ _ _ _ M2), (m_pin _ _ _ _ _ M2), (m_state _ _ _ _ _ M1), (m_pin _ _ _ _ _ M1) in M. exact M.
Qed.

Lemma decrement_pin_ok m s : ready m s -> 0 < remaining_tries (STATE s) ->
  wps decrement_pin_attempts (fun _ s' =>
    moved s (miss_state (STATE s)) (miss_pin (remaining_tries (STATE s) - 1 <=? 0) (d_pin s)) (persist s' m) s') s.
Proof.
  intros R Ht. unfold decrement_pin_attempts.
  eapply wps_step; [apply (set_pin_ok m); [done|destruct (_ >? 0); apply R..]|]. cbn beta; intros _ s1 M1.
  apply wps_bind, wps_gets. pose proof (m_state _ _ _ _ _ M1) as Es1. rewrite Es1.
  destruct (_ <=? 0) eqn:E1; zbool; [lia|]. cbn [negb].
  pose proof (m_ready _ _ _ _ _ M1) as R1.
  eapply wps_two.
  { apply (update_flush_ok m s1); [done| |apply R1|apply R1].
    rewrite Es1. destruct (ready_state _ _ R). split; cbn; try done; lia. }
  cbn beta; intros _ s2 M2. pose proof (moved_trans _ _ _ _ _ _ _ _ _ M1 M2) as M.
  rewrite Es1, (m_pin _ _ _ _ _ M1) in M. apply wps_bind, wps_gets. rewrite (m_state _ _ _ _ _ M). cbn [remaining_tries set_field eta].
  unfold miss_state, miss_pin. cbn. destruct (remaining_tries (STATE s) - 1 <=? 0).
  - eapply wps_step; [apply (lock_ok _ s2 (m_ready _ _ _ _ _ M))|]. cbn beta; intros _ s3 M3. apply wps_ret.
    pose proof (moved_trans _ _ _ _ _ _ _ _ _ M M3) as M4. rewrite persist_twice in M4.
    rewrite (m_state _ _ _ _ _ M), (m_pin _ _ _ _ _ M) in M4. exact M4.
  - eapply (wps_step _ _ (fun _ s3 => s3 = s2)); [by apply wps_ret|]. cbn beta; intros _ s3 ->. by apply wps_ret.
Qed.

(** The counters after a right PIN; nothing is written when no try was lost. *)
Definition hit_state (st : AuthenticatorState) : AuthenticatorState := st <| remaining_tries := PIN_LOCKOUT_ATTEMPTS |>.
Definition hit_pin (tries : Z) (v : pin_vars) : pin_vars :=
  if tries =? PIN_LOCKOUT_ATTEMPTS then v else v <| PIN_BOOT_ATTEMPTS_LEFT := PIN_BOOT_ATTEMPTS |>.
Definition hit_files (s s' : dev) (m : volume) : volume :=
  if remaining_tries (STATE s) =? PIN_LOCKOUT_ATTEMPTS then m else persist s' m.

Lemma reset_attempts_ok m s : ready m s ->
  wps reset_pin_attempts (fun _ s' =>
    moved s (hit_state (STATE s)) (hit_pin (remaining_tries (STATE s)) (d_pin s)) (hit_files s s' m) s') s.
Proof.
  intros R. unfold reset_pin_attempts, hit_pin, hit_files. apply wps_bind, wps_gets.
  destruct (_ =? _) eqn:E1; zbool.
  - apply wps_ret. replace (hit_state (STATE s)) with (STATE s); [by split|].
    unfold hit_state. rewrite <- E1. by destruct (STATE s).
  - eapply wps_step; [apply (set_pin_ok m); [done|apply R..]|]. cbn beta; intros _ s1 M1.
    pose proof (m_ready _ _ _ _ _ M1) as R1. eapply wps_mono.
    + apply (update_flush_ok m s1); [done| |apply R1|apply R1].
      destruct (ready_state _ _ R1). by split.
    + cbn beta; intros _ s2 M2. pose proof (moved_trans _ _ _ _ _ _ _ _ _ M1 M2) as M.
      by rewrite (m_state _ _ _ _ _ M1), (m_pin _ _ _ _ _ M1) in M.
Qed.

(** ** Key agreement and tokens *)

(** A calm step in between. *)
Lemma wps_calm {A C} (a : M dev A) (k : A -> M dev C) m s v s1 P : ready m s -> a s = Done (v, s1) -> calm s s1 ->
  (ready m s1 -> wps (k v) P s1) -> wps (bind a k) P s.
Proof.
  intros R Ea Hc Hk. eapply wps_step; [by eapply (wps_done _ (fun v' s' => v' = v /\ s' = s1))|].
  intros ? ? [-> ->]. apply Hk. by eapply ready_calm.
Qed.

(** A hash in between. *)
Lemma wps_hash {A C} (a b : F unit) (c : F A) (k : A -> F C) m s v s1 P : ready m s ->
  (a ;* b ;* c) s = Done (v, s1) -> calm s s1 -> (ready m s1 -> wps (k v) P s1) ->
  wps (a ;* b ;* let* x := c in k x) P s.
Proof. intros R Ea Hc Hk. unfold wps. rewrite bind_three. by apply (wps_calm _ k m _ _ _ _ R Ea Hc Hk). Qed.

Definition new_scalar (k : list Z) (t : pinUvAuthToken_t) : pinUvAuthToken_t :=
  t <| key_agreement := (key_agreement t) <| priv_key := k |> <| pub_key_valid := false |> |>.
Definition with_scalar (k : list Z) (t : pinUvAuthToken_t) : pinUvAuthToken_t :=
  t <| key_agreement := (key_agreement t) <| priv_key := k |> |>.

Lemma set_pin_compose p f g v :
  set_pin_protocol_state p f (set_pin_protocol_state p g v) = set_pin_protocol_state p (fun t => f (g t)) v.
Proof. unfold set_pin_protocol_state. by destruct (p =? 1). Qed.

Lemma set_pin_ext p f g v : (forall t, f t = g t) -> set_pin_protocol_state p f v = set_pin_protocol_state p g v.
Proof. intros H. unfold set_pin_protocol_state. by rewrite !H. Qed.

Lemma regenerate_loop_ok m p fuel : forall s, ready m s ->
  wps (regenerate_loop fuel p) (fun _ s' => exists k, length k = 32%nat /\
    moved s (STATE s) (set_pin_protocol_state p (with_scalar k) (d_pin s)) m s') s.
Proof.
  induction fuel as [|fuel IH]; intros s R; cbn [regenerate_loop]; [apply wps_exit|].
  pose proof (ready_pt _ _ p R) as [Lk _ _].
  unfold get_pt. apply wps_bind, wps_gets.
  destruct (fill_random_done s (priv_key (key_agreement (get_pin_protocol_state p (d_pin s)))) (r_rng _ _ R))
    as (k & s1 & E1 & C1 & Bk & Lk'); [rewrite Lk; lia|]. rewrite Lk in Lk'.
  eapply wps_calm; [exact R|exact E1|exact C1|]. intros R1.
  eapply wps_step; [apply (set_pt_ok m s1 p (with_scalar k) R1); intros t [] _; by split|]. cbn beta; intros _ s2 M2.
  rewrite (c_state _ _ C1), (c_pin _ _ C1) in M2. pose proof (m_ready _ _ _ _ _ M2) as R2.
  assert (M : moved s (STATE s) (set_pin_protocol_state p (with_scalar k) (d_pin s)) m s2).
  { destruct (calm_moved m s s1 R C1) as [_ _ Kd Ks _]. destruct M2. split; congruence || done. }
  unfold crypto_ecc256_is_valid_scalar. rewrite mem_read_fits by lia. cbn [res_bind].
  apply wps_bind. unfold wps at 1, lift. destruct (negb _); [apply wps_ret; by exists k|].
  eapply wps_mono; [by apply (IH s2)|]. cbn beta. intros _ s3 (k' & Lk3 & M3). exists k'. split; [done|].
  rewrite (m_state _ _ _ _ _ M), (m_pin _ _ _ _ _ M), set_pin_compose in M3. exact (moved_trans _ _ _ _ _ _ _ _ _ M M3).
Qed.

Lemma regenerate_ok m p s : ready m s ->
  wps (regenerate_key_agreement p) (fun _ s' => exists k, length k = 32%nat /\
    moved s (STATE s) (set_pin_protocol_state p (new_scalar k) (d_pin s)) m s') s.
Proof.
  intros R. unfold regenerate_key_agreement.
  eapply wps_step; [by apply (regenerate_loop_ok m)|]. cbn beta; intros _ s1 (k & Lk & M1).
  eapply wps_mono.
  - apply (set_pt_ok m s1 p (fun t => t <| key_agreement := (key_agreement t) <| pub_key_valid := false |> |>)); [apply M1|].
    intros t [] _. by split.
  - cbn beta; intros _ s2 M2. exists k. split; [done|].
    rewrite (m_state _ _ _ _ _ M1), (m_pin _ _ _ _ _ M1), set_pin_compose in M2. exact (moved_trans _ _ _ _ _ _ _ _ _ M1 M2).
Qed.

(** A fresh token, not in use. *)
Definition fresh_token (t : list Z) (p : pinUvAuthToken_t) : pinUvAuthToken_t :=
  p <| token_state := token_state_zero |> <| token := t |>.

Lemma reset_token_ok m p s : ready m s ->
  wps (reset_pinUvAuthToken p) (fun r s' => r = 0 /\ exists t, length t = 32%nat /\ bytes t /\
    moved s (STATE s) (set_pin_protocol_state p (fresh_token t) (d_pin s)) m s') s.
Proof.
  intros R. unfold reset_pinUvAuthToken.
  eapply wps_step; [apply (set_ts_ok m s p (fun _ => token_state_zero) R)|]. cbn beta; intros _ s1 M1.
  pose proof (m_ready _ _ _ _ _ M1) as R1.
  destruct (random_bytes_done s1 (Z.of_nat PINUVAUTHTOKEN_SIZE) (r_rng _ _ R1)) as (t & s2 & E2 & C2 & Bt & Lt);
    [unfold PINUVAUTHTOKEN_SIZE; lia|]. change (Z.to_nat _) with 32%nat in Lt.
  eapply wps_calm; [exact R1|exact E2|exact C2|]. cbn beta iota. intros R2.
  eapply wps_step; [apply (set_pt_ok m s2 p (fun p => p <| token := t |>) R2); intros ? [] _; by split|].
  cbn beta; intros _ s3 M3. apply wps_ret. split; [done|]. exists t. split; [done|]. split; [done|].
  rewrite (c_state _ _ C2), (c_pin _ _ C2), (m_state _ _ _ _ _ M1), (m_pin _ _ _ _ _ M1), set_pin_compose in M3.
  eapply moved_trans; [exact M1|]. eapply moved_trans; [by apply (calm_moved m)|]. exact M3.
Qed.

(** ** The clock *)

Lemma millis_ok s : wps millis (fun now s' => is_u32 now /\ calm s s') s.
Proof.
  unfold wps, millis, bind, board, on. destruct (timer_value _) as [v b]. destruct (v <=? 1); [by left|].
  split; [apply u32_range|]. by split.
Qed.

(** The state of the token that is handed out. *)
Definition token_begun (perm now : Z) : pinUvAuthToken_state_t :=
  mkTs (zeros 32) false perm now now true true false.

Lemma begin_using_ok m p perm s : ready m s ->
  token_state (get_pin_protocol_state p (d_pin s)) = token_state_zero ->
  wps (begin_using_pinUvAuthToken false p perm) (fun _ s' => exists now, is_u32 now /\
    moved s (STATE s) (set_pin_protocol_state p (fun t => t <| token_state := token_begun perm now |>) (d_pin s)) m s') s.
Proof.
  intros R Hz. unfold begin_using_pinUvAuthToken.
  eapply wps_step; [by apply (set_ts_ok m)|]. cbn beta; intros _ s1 M1. pose proof (m_ready _ _ _ _ _ M1) as R1.
  eapply wps_step; [apply millis_ok|]. cbn beta; intros now s2 [Hn C2]. pose proof (ready_calm _ _ _ C2 R1) as R2.
  eapply wps_mono; [apply (set_ts_ok m s2 p _ R2)|]. cbn beta; intros _ s3 M3. exists now. split; [done|].
  rewrite (c_state _ _ C2), (c_pin _ _ C2), (m_state _ _ _ _ _ M1), (m_pin _ _ _ _ _ M1), set_pin_compose in M3.
  replace (set_pin_protocol_state p (fun t => t <| token_state := token_begun perm now |>) (d_pin s)) with (d_pin s3).
  - destruct (calm_moved m s1 s2 R1 C2) as [_ _ Kd Ks _]. destruct M1, M3. split; congruence || done.
  - rewrite (m_pin _ _ _ _ _ M3). unfold set_pin_protocol_state, get_pin_protocol_state in *.
    destruct (p =? 1); cbn; by rewrite Hz.
Qed.

(** ** Encryption of the token *)

Lemma encrypt_token_ok m p key s : ready m s -> aes_key key ->
  wps (encrypt_pinUvAuthToken key p) (fun ro s' => calm s s' /\ ro.1 = 0 /\
    length ro.2 = (if (p =? 1)%Z then 32 else 48)%nat /\
    unwrap p key ro.2 (length ro.2) = token (get_pin_protocol_state p (d_pin s))) s.
Proof.
  intros R Hk. pose proof (ready_pt _ _ p R) as [_ Lt Bt]. unfold encrypt_pinUvAuthToken, get_pt.
  apply wps_bind, wps_gets. unfold PINUVAUTHTOKEN_SIZE. set (t := token (get_pin_protocol_state p (d_pin s))) in *.
  eapply (wps_step _ _ (fun x s' => x = t /\ s' = s)).
  { unfold wps, lift. rewrite mem_read_fits by lia. split; [|done]. by apply slice_all. }
  cbn beta; intros _ _ [-> ->]. unfold unwrap. replace (Z.of_nat 32) with (Z.of_nat (length t)) by (by rewrite Lt).
  assert (HE : forall iv s1, block iv -> calm s s1 -> aes_ctx (d_crypto s1) = AES_init_ctx_iv key iv ->
    exists s2, aes_buf (crypto_aes256_encrypt t (Z.of_nat (length t))) s1 = Done (cbc_cipher key iv t, s2) /\
      calm s s2 /\ length (cbc_cipher key iv t) = 32%nat /\ cbc_plain key iv (cbc_cipher key iv t) = t).
  { intros iv s1 Hi C1 Hx. destruct (aes_encrypt_done key iv t [] 2 Hk Hi Bt Lt) as (c & E1 & _ & Lc & Dc).
    rewrite !app_nil_r in E1. exists (set_aes c s1). split; [apply aes_buf_done; rewrite Hx; exact E1|].
    split; [transitivity s1; [done|apply calm_aes]|]. split; [lia|done]. }
  destruct (p =? 1).
  - eapply (wps_step _ _ (fun _ s1 => s1 = set_aes (crypto_aes256_init key None (aes_ctx (d_crypto s))) s)); [by apply wps_modify|].
    cbn beta; intros _ s1 ->. destruct (HE (zeros 16) _ zeros_block (calm_aes s _) eq_refl) as (s2 & E2 & C2 & L2 & D2).
    eapply (wps_step _ _ (fun o s' => o = cbc_cipher key (zeros 16) t /\ s' = s2)); [by eapply wps_done|].
    cbn beta; intros _ _ [-> ->]. apply wps_ret. cbn [fst snd]. split; [done|]. split; [done|]. split; [done|].
    by rewrite firstn_all.
  - destruct (random_bytes_done s (Z.of_nat CP_IV_SIZE) (r_rng _ _ R)) as (iv & s1 & E1 & C1 & Bi & Li);
      [unfold CP_IV_SIZE; lia|]. change (Z.to_nat _) with 16%nat in Li.
    eapply wps_calm; [exact R|exact E1|exact C1|]. intros _. cbn beta iota. assert (Hi : block iv) by by split.
    eapply (wps_step _ _ (fun _ s' => s' = set_aes (crypto_aes256_init key (Some iv) (aes_ctx (d_crypto s1))) s1)); [by apply wps_modify|].
    cbn beta; intros _ s2 ->.
    destruct (HE iv (set_aes (crypto_aes256_init key (Some iv) (aes_ctx (d_crypto s1))) s1) Hi) as (s3 & E3 & C3 & L3 & D3);
      [transitivity s1; [done|apply calm_aes]|exact (init_iv key iv _ Hi)|].
    eapply (wps_step _ _ (fun o s' => o = cbc_cipher key iv t /\ s' = s3)); [by eapply wps_done|].
    cbn beta; intros _ _ [-> ->]. apply wps_ret. cbn [fst snd]. split; [done|]. split; [done|].
    rewrite length_app, L3, Li. split; [done|]. rewrite take_app_length' by done.
    rewrite slice_app_skip by lia. rewrite slice_all by (rewrite ?L3; lia). done.
Qed.

(** ** The stored PIN *)

(** The first 16 bytes of the SHA-256 of a PIN. *)
Definition pin_digest (pin : list Z) : list Z := take 16 (sha256 pin).

Definition pin_set (iv h : list Z) (st : AuthenticatorState) : AuthenticatorState :=
  st <| pin_hash_iv := iv |> <| pin_hash_enc := h |> <| is_pin_set := 1 |>.

Lemma store_pin_ok m pin n s : ready m s -> (n <= length pin)%nat ->
  wps (store_pin pin n) (fun _ s' => exists iv h, block iv /\ length h = 16%nat /\ bytes h /\
    cbc_plain (key_pin_enc (dev_keys (d_crypto s))) iv h = pin_digest (take n pin) /\
    moved s (pin_set iv h (STATE s)) (d_pin s) (persist s' m) s') s.
Proof.
  intros R Hn. unfold store_pin. eapply (wps_step _ _ (fun x s' => x = take n pin /\ s' = s)).
  { unfold wps, lift. rewrite mem_read_fits by lia. unfold slice. by rewrite drop_0. }
  cbn beta; intros _ _ [-> ->].
  destruct (hash_done s (take n pin) (ready_ctx _ _ R)) as (s1 & E1 & C1).
  eapply wps_hash; [exact R|exact E1|exact C1|]. intros R1. apply wps_bind, wps_gets.
  destruct (ready_state _ _ R1) as [_ _ _ _ _ Li1 _ _].
  destruct (fill_random_done s1 (pin_hash_iv (STATE s1)) (r_rng _ _ R1)) as (iv & s2 & E2 & C2 & Bi & Li); [lia|].
  eapply wps_calm; [exact R1|exact E2|exact C2|]. intros R2. rewrite Li1 in Li.
  assert (Hi : block iv) by by split. pose proof (ready_state _ _ R2) as Hs2.
  eapply wps_step; [apply (set_state_ok m s2 (fun s => s <| pin_hash_iv := iv |>) R2); [by destruct Hs2; split|done|apply R2]|].
  cbn beta; intros _ s3 M3. pose proof (m_ready _ _ _ _ _ M3) as R3. apply wps_bind, wps_gets.
  rewrite (m_dev_keys _ _ _ _ _ M3), (c_dev_keys _ _ C2), (c_dev_keys _ _ C1).
  set (key := key_pin_enc (dev_keys (d_crypto s))). assert (Hk : aes_key key) by apply (r_pin_key _ _ R).
  set (s4 := set_aes (crypto_aes256_init key (Some iv) (aes_ctx (d_crypto s3))) s3).
  eapply (wps_step _ _ (fun _ s' => s' = s4)); [by apply wps_modify|]. cbn beta; intros _ _ ->.
  assert (Bd : bytes (pin_digest (take n pin))) by apply Forall_take, sha256_bytes.
  assert (Ld : length (pin_digest (take n pin)) = 16%nat).
  { unfold pin_digest. rewrite length_take, sha256_length. done. }
  destruct (aes_encrypt_done key iv _ (drop 16 (sha256 (take n pin))) 1 Hk Hi Bd Ld) as (c & E4 & Bh & Lh & Dh).
  unfold pin_digest at 1 in E4. rewrite take_drop, Ld in E4. set (h := cbc_cipher key iv (pin_digest (take n pin))) in *.
  eapply (wps_step _ _ (fun o s' => o = h ++ drop 16 (sha256 (take n pin)) /\ s' = set_aes c s4)).
  { eapply wps_done; [|done]. apply aes_buf_done. exact E4. }
  cbn beta; intros _ _ [-> ->]. change (Z.to_nat STATE_PIN_HASH_SIZE) with 16%nat.
  eapply (wps_step _ _ (fun x s' => x = h /\ s' = set_aes c s4)).
  { unfold wps, lift. rewrite mem_read_fits by (rewrite length_app; lia). by rewrite slice_app_here by lia. }
  cbn beta; intros _ _ [-> ->].
  assert (C5 : calm s3 (set_aes c s4)) by (transitivity s4; apply calm_aes).
  pose proof (ready_calm _ _ _ C5 R3) as R5. pose proof (ready_state _ _ R5) as Hs5.
  eapply wps_mono.
  - apply (update_flush_ok m _ (fun s => s <| pin_hash_enc := h |> <| is_pin_set := 1 |>) R5);
      [destruct Hs5; split; cbn; try done; lia|apply R5|done].
  - cbn beta; intros _ s6 M6. exists iv, h. do 2 (split; [done|]). split; [done|]. split; [done|].
    pose proof (moved_trans _ _ _ _ _ _ _ _ _ M3 (moved_trans _ _ _ _ _ _ _ _ _ (calm_moved m _ _ R3 C5) M6)) as M.
    rewrite (c_state _ _ C5), (c_pin _ _ C5), (m_state _ _ _ _ _ M3), (m_pin _ _ _ _ _ M3),
      (c_state _ _ C2), (c_pin _ _ C2), (c_state _ _ C1), (c_pin _ _ C1) in M.
    eapply moved_trans; [by apply (calm_moved m s s1)|]. eapply moved_trans; [by apply (calm_moved m s1 s2)|]. exact M.
Qed.

Definition token_for (h : list Z) (t : pinUvAuthToken_state_t) : pinUvAuthToken_state_t :=
  t <| permissions_rp_id_hash := h |> <| permissions_rp_id_present := true |>.

(** The rest of the MAC steps of the credential component, as calm steps. *)
Lemma cred_mac_done m data n s : ready m s -> (n <= 32)%nat -> exists s',
  ctap_compute_mac data n s = Done (take n (hmac (key_cred_mac (ses_keys (d_crypto s))) data), s') /\ calm s s'.
Proof.
  intros R Hn. unfold ctap_compute_mac, cred_mac_key. mstep.
  destruct (hmac1_done _ data s (ready_ctx _ _ R) (r_mac_key _ _ R)) as (s1 & E1 & C1).
  rewrite bind_three. run E1. unfold lift. rewrite mem_read_fits by (by rewrite hmac_length).
  exists s1. split; [|done]. unfold slice. by rewrite drop_0.
Qed.

Lemma derive_rp_done m rp n s : ready m s -> (n <= length rp)%nat -> exists l s',
  ctap_derive_rp_id_info rp n s = Done ((sha256 (take n rp), l), s') /\ calm s s'.
Proof.
  intros R Hn. unfold ctap_derive_rp_id_info. rewrite mem_read_fits by lia. mstep. unfold slice. rewrite drop_0.
  destruct (hash_done s (take n rp) (ready_ctx _ _ R)) as (s1 & E1 & C1). rewrite bind_three. run E1.
  destruct (cred_mac_done m (sha256 (take n rp)) CREDENTIAL_TAG_SIZE s1 (ready_calm _ _ _ C1 R)) as (s2 & E2 & C2);
    [unfold CREDENTIAL_TAG_SIZE; lia|]. run E2. eexists _, s2. split; [reflexivity|]. by transitivity s1.
Qed.

Lemma associate_ok m p rp n s : ready m s -> (n <= length rp)%nat ->
  wps (associate_permissions_rp_id rp n p) (fun _ s' => moved s (STATE s)
    (if (0 <? n)%nat
     then set_pin_protocol_state p (fun t => t <| token_state := token_for (sha256 (take n rp)) (token_state t) |>) (d_pin s)
     else d_pin s) m s') s.
Proof.
  intros R Hn. unfold associate_permissions_rp_id. destruct (0 <? n)%nat.
  - destruct (derive_rp_done m rp n s R Hn) as (l & s1 & E1 & C1).
    eapply wps_calm; [exact R|exact E1|exact C1|]. intros R1. cbn beta iota.
    eapply wps_mono; [apply (set_ts_ok m s1 p _ R1)|]. cbn beta; intros _ s2 M2.
    rewrite (c_state _ _ C1), (c_pin _ _ C1) in M2. eapply moved_trans; [by apply (calm_moved m)|]. exact M2.
  - apply wps_ret. by split.
Qed.

(** ** A wrong PIN *)

Definition miss_status (s : dev) : Z :=
  if remaining_tries (STATE s) <=? 1 then CTAP2_ERR_PIN_BLOCKED
  else if PIN_BOOT_ATTEMPTS_LEFT (d_pin s) <=? 1 then CTAP2_ERR_PIN_AUTH_BLOCKED
  else CTAP2_ERR_PIN_INVALID.

(** Where a wrong PIN leaves the device. *)
Definition missed (p : Z) (m : volume) (s s' : dev) : Prop := exists k, length k = 32%nat /\
  moved s (miss_state (STATE s))
    (miss_pin (remaining_tries (STATE s) - 1 <=? 0) (set_pin_protocol_state p (new_scalar k) (d_pin s)))
    (persist s' m) s'.

Lemma miss_tries st : remaining_tries (miss_state st) = remaining_tries st - 1.
Proof. unfold miss_state. by destruct (_ <=? 0). Qed.
Lemma miss_boot last v : PIN_BOOT_ATTEMPTS_LEFT (miss_pin last v)
  = if PIN_BOOT_ATTEMPTS_LEFT v >? 0 then PIN_BOOT_ATTEMPTS_LEFT v - 1 else PIN_BOOT_ATTEMPTS_LEFT v.
Proof. unfold miss_pin. by destruct last, (_ >? 0). Qed.
Lemma set_pin_boot p f v : PIN_BOOT_ATTEMPTS_LEFT (set_pin_protocol_state p f v) = PIN_BOOT_ATTEMPTS_LEFT v.
Proof. unfold set_pin_protocol_state. by destruct (p =? 1). Qed.

Lemma wrong_pin_ok {A} m p s Q : ready m s -> 0 < remaining_tries (STATE s) ->
  wpx (A := A) (wrong_pin p) (fun e s' => e = miss_status s /\ missed p m s s') Q s.
Proof.
  intros R Ht. unfold wrong_pin. eapply wpx_step; [by apply (regenerate_ok m)|].
  cbn beta; intros _ s1 (k & Lk & M1). eapply wpx_step; [apply (decrement_pin_ok m s1); [apply M1|by rewrite (m_state _ _ _ _ _ M1)]|].
  cbn beta; intros _ s2 M2. rewrite (m_state _ _ _ _ _ M1), (m_pin _ _ _ _ _ M1) in M2.
  pose proof (moved_trans _ _ _ _ _ _ _ _ _ M1 M2) as M. assert (HM : missed p m s s2) by (by exists k).
  apply (wpx_step _ _ _ (fun b s' => b = (remaining_tries (STATE s) <=? 1) /\ s' = s2)).
  { apply wps_gets. rewrite (m_state _ _ _ _ _ M), miss_tries. split; [|done]. apply eq_true_iff_eq. rewrite !Z.leb_le. lia. }
  cbn beta; intros _ _ [-> ->]. unfold miss_status. destruct (_ <=? 1); [by apply wpx_throw|].
  apply (wpx_step _ _ _ (fun b s' => b = (PIN_BOOT_ATTEMPTS_LEFT (d_pin s) <=? 1) /\ s' = s2)).
  { apply wps_gets. rewrite (m_pin _ _ _ _ _ M), miss_boot, set_pin_boot. split; [|done]. apply eq_true_iff_eq.
    rewrite !Z.leb_le. destruct (_ >? 0) eqn:E0; zbool; lia. }
  cbn beta; intros _ _ [-> ->]. destruct (_ <=? 1); by apply wpx_throw.
Qed.

End Steps.

End PinSteps.
