(* ===== verification/PinAuth.v ===== *)
(** * Guessing the PIN

    The two operations that take a PIN hash from the platform: one hands out a
    token, the other stores a new PIN.  Both are given with the exact state they leave,
    for a right and for a wrong hash. *)

From S2P Require Import Prelude Monad Lfs Fs Board Sha256 Aes Crypto AesBlocks Rng State CtapTypes Dev Device DeviceProps.
From S2P Require Import RkStore CtapStatus Credential ClientPin PinBase Halting PinSteps.
Import Monad Lfs Fs Board Sha256 Aes Crypto AesBlocks Rng State CtapTypes Dev Device DeviceProps
  RkStore CtapStatus Credential ClientPin PinBase Halting PinSteps.

#[local] Open Scope Z_scope.

Module PinAuth.

#[local] Opaque hmac sha256 KeyExpansion Cipher InvCipher state_bytes.

Section Auth.
Context {L : Lfs} {LL : LfsLaws L} {B : Board} {E : Ecc} {EL : EccLaws E}.

Definition hash_enc_size (p : Z) : nat := if p =? 2 then 32%nat else 16%nat.

(** The PIN hash in an encrypted one, under the key shared with the platform. *)
Definition presented (p : Z) (pk pinHashEnc : list Z) (s : dev) : list Z :=
  match shared_point p pk s with
  | Some point => take 16 (unwrap p (shared_keys p point).1 pinHashEnc (hash_enc_size p))
  | None => []
  end.

Lemma hash_size p : p = 1 \/ p = 2 -> (16 <= hash_enc_size p)%nat.
Proof. unfold hash_enc_size. intros [-> | ->]; cbn; lia. Qed.

Lemma decrypt_hash_done p key buf s : p = 1 \/ p = 2 -> aes_key key -> bytes buf -> (hash_enc_size p <= length buf)%nat ->
  exists out s', decrypt buf (hash_enc_size p) key p s = Done (out, s') /\ calm s s' /\
    bytes out /\ (16 <= length out)%nat /\ take 16 out = take 16 (unwrap p key buf (hash_enc_size p)).
Proof.
  intros [-> | ->] Hk Bb Lb.
  - destruct (decrypt1_done key buf 1 s Hk Bb Lb) as (s1 & E1 & C1 & Bo & Lo). eexists _, s1.
    split; [exact E1|]. do 2 (split; [done|]). change (hash_enc_size 1) with (16 * 1)%nat.
    split; [rewrite length_app; lia|]. by rewrite take_app_le by lia.
  - destruct (decrypt_done 2 key buf 0 s Hk Bb Lb) as (out & s1 & E1 & C1 & Bo & Lo & Eo & Lu). exists out, s1.
    split; [exact E1|]. do 2 (split; [done|]). change (hash_enc_size 2) with (16 * 2)%nat in *.
    split; [lia|]. rewrite Eo. apply take_app_le. rewrite Lu. cbn. lia.
Qed.

(** A hash from the platform against the stored one, with the key agreement done. *)
Lemma check_hash_done m p key buf s : ready m s -> p = 1 \/ p = 2 -> aes_key key -> bytes buf ->
  (hash_enc_size p <= length buf)%nat -> exists s',
  (let* h := decrypt buf (hash_enc_size p) key p in verify_against_stored_pin h) s
    = Done (b2z (bool_decide (take 16 (unwrap p key buf (hash_enc_size p)) = stored_hash s)), s') /\ calm s s'.
Proof.
  intros R Hp Hk Bb Lb. destruct (decrypt_hash_done p key buf s Hp Hk Bb Lb) as (out & s1 & E1 & C1 & Bo & Lo & Eo).
  run E1. destruct (verify_stored_done m out s1 (ready_calm _ _ _ C1 R) Bo Lo) as (s2 & E2 & C2).
  exists s2. rewrite E2, Eo, (stored_hash_calm _ _ C1). split; [done|]. by transitivity s1.
Qed.

Lemma keys_step {A} p pk s (k : list Z * list Z -> F A) Q : ctx_ok (sha_of s) -> rng_good s ->
  (forall point s', shared_point p pk s = Some point -> calm s s' -> wps (k (shared_keys p point)) Q s') ->
  wps (bind (ctap_client_pin_decapsulate pk p) k) Q s.
Proof.
  intros Hc R Hk. destruct (shared_point p pk s) as [point|] eqn:Ep.
  - destruct (decapsulate_done p pk point s Hc R Ep) as (s1 & E1 & C1). unfold wps. rewrite (bind_done _ _ _ _ _ E1).
    by apply Hk.
  - unfold wps, bind. rewrite (decapsulate_stops p pk s R Ep). by right.
Qed.

(** The same, in front of the rest. *)
Lemma check_hash_step {C} m p key buf s (k : Z -> F C) Q : ready m s -> p = 1 \/ p = 2 -> aes_key key -> bytes buf ->
  (hash_enc_size p <= length buf)%nat ->
  (forall s', calm s s' ->
    wps (k (b2z (bool_decide (take 16 (unwrap p key buf (hash_enc_size p)) = stored_hash s)))) Q s') ->
  wps (let* h := decrypt buf (hash_enc_size p) key p in let* eq := verify_against_stored_pin h in k eq) Q s.
Proof.
  intros R Hp Hk Bb Lb HQ. destruct (check_hash_done m p key buf s R Hp Hk Bb Lb) as (s1 & E1 & C1).
  unfold wps. rewrite <- bind_assoc. rewrite (bind_done _ _ _ _ _ E1). by apply HQ.
Qed.

(** A calm step before a wrong or a right PIN. *)
Lemma missed_calm p m s s1 s' : ready m s -> calm s s1 -> missed p m s1 s' -> missed p m s s'.
Proof.
  intros R C (k & Lk & M). exists k. split; [done|]. rewrite (c_state _ _ C), (c_pin _ _ C) in M.
  eapply moved_trans; [by apply (calm_moved m)|]. exact M.
Qed.

(** ** A right PIN *)

(** Both tokens are new and unused. *)
Definition renewed (tries : Z) (t1 t2 : list Z) (v : pin_vars) : pin_vars :=
  set_pin_protocol_state 2 (fresh_token t2) (set_pin_protocol_state 1 (fresh_token t1) (hit_pin tries v)).

(** The counters are back, and the tokens are new. *)
Definition hit (m : volume) (s s' : dev) (f : pin_vars -> pin_vars) : Prop := exists t1 t2,
  length t1 = 32%nat /\ bytes t1 /\ length t2 = 32%nat /\ bytes t2 /\
  moved s (hit_state (STATE s)) (f (renewed (remaining_tries (STATE s)) t1 t2 (d_pin s))) (hit_files s s' m) s'.

Lemma moved_files s st v m m' s' : moved s st v m s' -> m = m' -> moved s st v m' s'.
Proof. by intros ? <-. Qed.

Lemma hit_files_moved m m0 s s1 s2 st v v' :
  moved s st v m0 s1 -> moved s1 st v' (hit_files s s1 m) s2 -> hit_files s s1 m = hit_files s s2 m.
Proof.
  intros M1 M2. unfold hit_files. destruct (_ =? _); [done|]. symmetry. apply persist_state.
  - by eapply moved_mac_key.
  - by rewrite (m_state _ _ _ _ _ M2), (m_state _ _ _ _ _ M1).
Qed.

(** A step that keeps the state. *)
Lemma hit_step m s s1 s2 f g : hit m s s1 f ->
  moved s1 (STATE s1) (g (d_pin s1)) (hit_files s s1 m) s2 -> hit m s s2 (fun v => g (f v)).
Proof.
  intros (t1 & t2 & L1 & B1 & L2 & B2 & M1) M2. exists t1, t2. do 4 (split; [done|]).
  rewrite (m_state _ _ _ _ _ M1), (m_pin _ _ _ _ _ M1) in M2. rewrite <- (hit_files_moved _ _ _ _ _ _ _ _ M1 M2).
  by eapply moved_trans.
Qed.

Lemma hit_calm m s s1 s' f : ready m s -> calm s s1 -> hit m s1 s' f -> hit m s s' f.
Proof.
  intros R C (t1 & t2 & L1 & B1 & L2 & B2 & M). exists t1, t2. do 4 (split; [done|]).
  unfold hit_files in *. rewrite (c_state _ _ C), (c_pin _ _ C) in M.
  eapply moved_trans; [by apply (calm_moved m)|]. exact M.
Qed.

Lemma hit_ready m s s' f : hit m s s' f -> ready (hit_files s s' m) s'.
Proof. intros (? & ? & _ & _ & _ & _ & M). apply M. Qed.
Lemma hit_vars m s s' f : hit m s s' f -> exists t1 t2, d_pin s' = f (renewed (remaining_tries (STATE s)) t1 t2 (d_pin s)).
Proof. intros (t1 & t2 & _ & _ & _ & _ & M). exists t1, t2. apply M. Qed.

Lemma renew_step {C} m s (k : F C) Q : ready m s -> (forall s', hit m s s' (fun v => v) -> wps k Q s') ->
  wps (reset_pin_attempts ;* let* _ := reset_pinUvAuthToken 1 in let* _ := reset_pinUvAuthToken 2 in k) Q s.
Proof.
  intros R Hk. eapply wps_step; [by apply (reset_attempts_ok m)|]. cbn beta; intros _ s1 M1.
  eapply wps_step; [apply (reset_token_ok (hit_files s s1 m) 1), M1|]. cbn beta; intros ? s2 (-> & t1 & L1 & B1 & M2).
  eapply wps_step; [apply (reset_token_ok (hit_files s s1 m) 2), M2|]. cbn beta; intros ? s3 (-> & t2 & L2 & B2 & M3).
  apply Hk. exists t1, t2. do 4 (split; [done|]).
  pose proof (moved_trans _ _ _ _ _ _ _ _ _ M2 M3) as M.
  rewrite (m_state _ _ _ _ _ M2), (m_pin _ _ _ _ _ M2), (m_state _ _ _ _ _ M1), (m_pin _ _ _ _ _ M1) in M.
  rewrite <- (hit_files_moved _ _ _ _ _ _ _ _ M1 M). by eapply moved_trans.
Qed.

(** What handing out a token does to the PIN variables. *)
Definition granted (p perm now : Z) (rp : list Z) (n : nat) (v : pin_vars) : pin_vars :=
  let v := set_pin_protocol_state p (fun t => t <| token_state := token_begun perm now |>) v in
  if (0 <? n)%nat
  then set_pin_protocol_state p (fun t => t <| token_state := token_for (sha256 (take n rp)) (token_state t) |>) v
  else v.

Lemma hit_unused m s s' p : hit m s s' (fun v => v) ->
  token_state (get_pin_protocol_state p (d_pin s')) = token_state_zero.
Proof.
  intros (t1 & t2 & _ & _ & _ & _ & M). rewrite (m_pin _ _ _ _ _ M). unfold renewed, set_pin_protocol_state,
    get_pin_protocol_state. cbn. by destruct (p =? 1).
Qed.

(** A token is handed out. *)
Lemma grant_ok m s p perm rp n key : ready m s -> (p = 1 \/ p = 2) -> (n <= length rp)%nat -> aes_key key ->
  forall s1, hit m s s1 (fun v => v) ->
  wpx (begin_using_pinUvAuthToken false p perm ;*
       associate_permissions_rp_id rp n p ;*
       let* (r, out) := encrypt_pinUvAuthToken key p in
       if negb (r =? 0) then throw CTAP1_ERR_OTHER else ok out)
    (fun _ _ => False)
    (fun out s' => (exists now, is_u32 now /\ hit m s s' (granted p perm now rp n)) /\
      length out = (if (p =? 1)%Z then 32 else 48)%nat /\
      unwrap p key out (length out) = token (get_pin_protocol_state p (d_pin s'))) s1.
Proof.
  intros R Hp Hn Hk s1 H1. pose proof (hit_ready _ _ _ _ H1) as R1.
  eapply wpx_step; [by apply begin_using_ok; [|eapply hit_unused]|]. cbn beta; intros _ s2 (now & Hnow & M2).
  pose proof (hit_step m s s1 s2 _ _ H1 M2) as H2. pose proof (hit_ready _ _ _ _ H2) as R2.
  eapply wpx_step; [by apply (associate_ok _ p rp n s2 R2)|]. cbn beta; intros _ s3 M3.
  assert (H3 : hit m s s3 (granted p perm now rp n)).
  { exact (hit_step m s s2 s3 _ (fun v => if (0 <? n)%nat then _ v else v) H2 M3). }
  eapply wpx_step; [apply (encrypt_token_ok _ p key s3 (hit_ready _ _ _ _ H3) Hk)|].
  intros [r out] s4. cbn [fst snd]. intros (C4 & -> & Lo & Ho). apply wpx_ok.
  split; [exists now; split; [done|]|].
  - refine (hit_step m s s3 s4 _ (fun v => v) H3 _). apply (calm_moved _ _ _ (hit_ready _ _ _ _ H3) C4).
  - split; [done|]. by rewrite (c_pin _ _ C4).
Qed.

(** Handing out a token: after a wrong hash the counters, after a right one
    the tokens, and the platform gets the new token. *)
Lemma add_enc_ok m p pk pinHashEnc perm rp n s :
  ready m s -> 0 < remaining_tries (STATE s) -> p = 1 \/ p = 2 ->
  bytes pinHashEnc -> (hash_enc_size p <= length pinHashEnc)%nat -> (n <= length rp)%nat ->
  wpx (add_enc_pinUvAuthToken pk pinHashEnc p perm rp n)
    (fun e s' => presented p pk pinHashEnc s <> stored_hash s /\ e = miss_status s /\ missed p m s s')
    (fun out s' => presented p pk pinHashEnc s = stored_hash s /\
      (exists now, is_u32 now /\ hit m s s' (granted p perm now rp n)) /\
      length out = (if (p =? 1)%Z then 32 else 48)%nat /\
      exists point, shared_point p pk s = Some point /\
        unwrap p (shared_keys p point).1 out (length out) = token (get_pin_protocol_state p (d_pin s'))) s.
Proof.
  intros R Ht Hp Bh Lh Hn. unfold add_enc_pinUvAuthToken, wpx.
  apply keys_step; [by eapply ready_ctx|apply (r_rng _ _ R)|]. intros point s1 Ep C1. cbn beta iota.
  destruct (shared_keys_ok p point) as [Hk _]. destruct (shared_keys p point) as [ek mk] eqn:Ek. cbn [fst] in Hk.
  unfold presented. rewrite Ep, Ek. cbn [fst snd].
  apply (check_hash_step m); [by eapply ready_calm|done..|].
  intros s2 C2. rewrite (stored_hash_calm _ _ C1). assert (C : calm s s2) by (by transitivity s1).
  pose proof (ready_calm _ _ _ C R) as R2. case_bool_decide as Hq; cbn [b2z Z.eqb].
  - apply (renew_step m); [done|]. intros s3 H3. apply (hit_calm m s s2) in H3; [|done..].
    eapply wpx_mono; [by apply (grant_ok m s p perm rp n ek)| |]; cbn beta; [done|].
    intros out s4 (Hg & Lo & Ho). do 3 (split; [done|]). exists point. by rewrite Ek.
  - eapply wpx_mono; [apply (wrong_pin_ok m p s2); [done|by rewrite (c_state _ _ C)]| |].
    + cbn beta. intros e s3 [-> M3]. split; [done|]. split; [|by eapply missed_calm].
      unfold miss_status. by rewrite (c_state _ _ C), (c_pin _ _ C).
    + by instantiate (1 := fun _ _ => False).
Qed.

(** ** A new PIN *)

(** What the MAC of an update covers. *)
Definition update_message (p : Z) (new : list Z) (n : nat) (old : option (list Z)) : list Z :=
  take n new ++ match old with Some h => take (hash_enc_size p) h | None => [] end.

(** The PIN in the decrypted buffer: the first 64 bytes, less the zeros at the
    end, though never less than one byte. *)
Definition padded_pin (buf : list Z) : list Z := take (64 - trailing_zeros buf 63) buf.

(** The buffer [update_pin_if_verified] decrypts in place. *)
Definition decrypted_pin (p : Z) (key new : list Z) (n : nat) : list Z :=
  let len := (16 * ((n + 15) / 16))%nat in
  unwrap p key new len ++ (if p =? 1 then [] else zeros 16) ++ drop len new.

Definition new_pin (p : Z) (pk new : list Z) (n : nat) (s : dev) : list Z :=
  match shared_point p pk s with
  | Some point => padded_pin (decrypted_pin p (shared_keys p point).1 new n)
  | None => []
  end.

(** The platform proved that it holds the shared key. *)
Definition mac_right (p : Z) (pk param msg : list Z) (s : dev) : Prop := exists point,
  shared_point p pk s = Some point /\
  take (auth_param_size p) param = auth_tag p (shared_keys p point).2 msg.

(** Whether the old PIN is asked for. *)
Definition asks_old (old : option (list Z)) (s : dev) : bool :=
  bool_decide (is_Some old) && (is_pin_set (STATE s) =? 1).

(** The device once the PIN is stored, after a right old one if [asked]. *)
Definition pin_stored (asked : bool) (pin : list Z) (m : volume) (s s' : dev) : Prop := exists iv h t1 t2,
  cbc_plain (key_pin_enc (dev_keys (d_crypto s))) iv h = pin_digest pin /\
  moved s (pin_set iv h (if asked then hit_state (STATE s) else STATE s))
    (if asked then renewed (remaining_tries (STATE s)) t1 t2 (d_pin s) else d_pin s) (persist s' m) s'.

Lemma padded_length buf : length buf = 80%nat -> length (padded_pin buf) = (64 - trailing_zeros buf 63)%nat.
Proof. intros Lb. unfold padded_pin. rewrite length_take. lia. Qed.

Lemma hit_files_twice m s s1 s' : persist s' (hit_files s s1 m) = persist s' m.
Proof. unfold hit_files. destruct (_ =? _); [done|]. apply persist_twice. Qed.

Lemma store_after_hit m s s1 s' pin st' : hit m s s1 (fun v => v) ->
  (exists iv h, cbc_plain (key_pin_enc (dev_keys (d_crypto s1))) iv h = pin_digest pin /\
    st' = pin_set iv h (STATE s1) /\ moved s1 st' (d_pin s1) (persist s' (hit_files s s1 m)) s') ->
  pin_stored true pin m s s'.
Proof.
  intros (t1 & t2 & _ & _ & _ & _ & M1) (iv & h & Hd & -> & M2). exists iv, h, t1, t2.
  rewrite (m_dev_keys _ _ _ _ _ M1) in Hd. split; [done|].
  rewrite hit_files_twice, (m_state _ _ _ _ _ M1), (m_pin _ _ _ _ _ M1) in M2. by eapply moved_trans.
Qed.

Lemma store_hit m s s1 buf k : hit m s s1 (fun v => v) -> (k <= length buf)%nat ->
  wps (store_pin buf k) (fun _ => pin_stored true (take k buf) m s) s1.
Proof.
  intros H1 Hk. eapply wps_mono; [apply (store_pin_ok _ buf k s1 (hit_ready _ _ _ _ H1) Hk)|].
  cbn beta. intros _ s2 (iv & h & _ & _ & _ & Hd & M). eapply store_after_hit; [exact H1|]. by exists iv, h.
Qed.

Lemma store_fresh m s s1 buf k : ready m s -> calm s s1 -> (k <= length buf)%nat ->
  wps (store_pin buf k) (fun _ => pin_stored false (take k buf) m s) s1.
Proof.
  intros R C Hk. eapply wps_mono; [apply (store_pin_ok m buf k s1 (ready_calm _ _ _ C R) Hk)|].
  cbn beta. intros _ s2 (iv & h & _ & _ & _ & Hd & M). exists iv, h, [], [].
  rewrite (c_dev_keys _ _ C) in Hd. split; [done|]. rewrite (c_state _ _ C), (c_pin _ _ C) in M.
  eapply moved_trans; [by apply (calm_moved m)|]. exact M.
Qed.

(** The old PIN, when one is set and given. *)
Definition old_wrong (p : Z) (key : list Z) (old : option (list Z)) (s : dev) : Prop := exists h,
  old = Some h /\ is_pin_set (STATE s) = 1 /\ take 16 (unwrap p key h (hash_enc_size p)) <> stored_hash s.
Definition old_right (p : Z) (key : list Z) (old : option (list Z)) (m : volume) (s s' : dev) : Prop :=
  if asks_old old s
  then hit m s s' (fun v => v) /\ exists h, old = Some h /\ take 16 (unwrap p key h (hash_enc_size p)) = stored_hash s
  else s' = s.

Lemma old_pin_ok m s p key old : ready m s -> p = 1 \/ p = 2 -> aes_key key -> (is_Some old -> 0 < remaining_tries (STATE s)) ->
  (forall h, old = Some h -> bytes h /\ (hash_enc_size p <= length h)%nat) ->
  wpx (let* is_set := ctap_client_pin_is_set in
       match old with
       | Some h =>
           if is_set : bool then
             let* pin_hash := decrypt h (hash_enc_size p) key p in
             let* eq := verify_against_stored_pin pin_hash in
             if eq =? 0 then wrong_pin p
             else
               reset_pin_attempts ;*
               let* _ := reset_pinUvAuthToken 1 in
               let* _ := reset_pinUvAuthToken 2 in
               ok tt
           else ok tt
       | None => ok tt
       end)
    (fun e s' => old_wrong p key old s /\ e = miss_status s /\ missed p m s s')
    (fun _ => old_right p key old m s) s.
Proof.
  intros R Hp Hk Ht Ho.
  eapply (wpx_step _ _ _ (fun b s' => b = (is_pin_set (STATE s) =? 1) /\ s' = s)); [by apply wps_gets|].
  intros ? ? [-> ->]. unfold old_right, asks_old. destruct old as [h|]; [|by apply wpx_ok].
  rewrite bool_decide_true by done. cbn [andb]. destruct (_ =? 1) eqn:Es; [|by apply wpx_ok].
  specialize (Ht (mk_is_Some _ _ eq_refl)). apply Z.eqb_eq in Es. destruct (Ho h eq_refl) as [Bh Lh]. unfold wpx.
  apply (check_hash_step m); [done..|]. intros s2 C. pose proof (ready_calm _ _ _ C R) as R2.
  case_bool_decide as Hq; cbn [b2z Z.eqb].
  - apply (renew_step m); [done|]. intros s3 H3. apply (hit_calm m s s2) in H3; [|done..].
    split; [done|]. by exists h.
  - eapply wpx_mono; [apply (wrong_pin_ok m p s2 (fun _ _ => False)); [done|by rewrite (c_state _ _ C)]| |done].
    cbn beta. intros e s3 [-> M3]. split; [by exists h|]. split; [|by eapply missed_calm].
    unfold miss_status. by rewrite (c_state _ _ C), (c_pin _ _ C).
Qed.

(** Two steps in front of a third, with status codes. *)
Lemma wpx_xtwo {A C D} (a : F A) (b : A -> X dev C) (k : C -> X dev D) T P Q s :
  wpx (let* x := a in b x) T P s -> (forall c s', P c s' -> wpx (k c) T Q s') ->
  wpx (let* x := a in let^ y := b x in k y) T Q s.
Proof.
  intros H HP. pose proof (wpx_bind _ k T P Q s H HP) as H'. unfold wpx, wps, xbind in *.
  by rewrite bind_assoc in H'.
Qed.

Lemma decrypted_done p key new n s : p = 1 \/ p = 2 -> aes_key key -> bytes new -> length new = 80%nat ->
  (64 <= n <= 80)%nat -> exists s',
  decrypt new (16 * ((n + 15) / 16)) key p s = Done (decrypted_pin p key new n, s') /\ calm s s' /\
    bytes (decrypted_pin p key new n) /\ length (decrypted_pin p key new n) = 80%nat.
Proof.
  intros Hp Hk Bn Ln Hn. assert (Hd : exists k, ((n + 15) / 16 = S (S k) /\ 16 * S (S k) <= 80)%nat).
  { exists ((n + 15) / 16 - 2)%nat. pose proof (Nat.div_mod_eq (n + 15) 16).
    pose proof (Nat.mod_upper_bound (n + 15) 16). lia. }
  destruct Hd as (k & Ek & Hk80). unfold decrypted_pin. rewrite Ek.
  destruct (decrypt_done p key new k s Hk Bn ltac:(lia)) as (out & s' & E1 & C & Bo & Lo & Eo & _).
  exists s'. rewrite <- Eo. split; [done|]. split; [done|]. split; [done|lia].
Qed.

Lemma hash_of_old p old s : (forall h, old = Some h -> bytes h /\ (hash_enc_size p <= length h)%nat) ->
  wps (match old with Some h => lift (mem_read h 0 (hash_enc_size p)) | None => ret [] end : F (list Z))
    (fun x s' => x = match old with Some h => take (hash_enc_size p) h | None => [] end /\ s' = s) s.
Proof.
  intros Ho. destruct old as [h|]; [|done]. destruct (Ho h eq_refl) as [_ Lh].
  unfold wps, lift. rewrite mem_read_fits by lia. unfold slice. by rewrite drop_0.
Qed.

Lemma replace_pin_ok m s p key old buf k : ready m s -> p = 1 \/ p = 2 -> aes_key key ->
  (is_Some old -> 0 < remaining_tries (STATE s)) -> (forall h, old = Some h -> bytes h /\ (hash_enc_size p <= length h)%nat) ->
  (k <= length buf)%nat ->
  wpx (let* is_set := ctap_client_pin_is_set in
       let^ _ :=
         match old with
         | Some h =>
             if is_set : bool then
               let* pin_hash := decrypt h (hash_enc_size p) key p in
               let* eq := verify_against_stored_pin pin_hash in
               if eq =? 0 then wrong_pin p
               else
                 reset_pin_attempts ;*
                 let* _ := reset_pinUvAuthToken 1 in
                 let* _ := reset_pinUvAuthToken 2 in
                 ok tt
             else ok tt
         | None => ok tt
         end in
       store_pin buf k ;* ok tt)
    (fun e s' => old_wrong p key old s /\ e = miss_status s /\ missed p m s s')
    (fun _ s' => (asks_old old s = true -> exists h, old = Some h /\ take 16 (unwrap p key h (hash_enc_size p)) = stored_hash s)
      /\ pin_stored (asks_old old s) (take k buf) m s s') s.
Proof.
  intros R Hp Hk Ht Ho Hb. eapply wpx_xtwo; [by apply (old_pin_ok m s p key old)|]. cbn beta. intros _ s1.
  unfold old_right. destruct (asks_old old s).
  - intros [H1 Hh]. eapply wpx_step; [by apply (store_hit m s s1)|]. cbn beta. intros _ s2 H2. by apply wpx_ok.
  - intros ->. eapply wpx_step; [by apply (store_fresh m s s)|]. cbn beta. intros _ s2 H2. by apply wpx_ok.
Qed.

Lemma pin_stored_calm asked pin m s s1 s' : ready m s -> calm s s1 -> pin_stored asked pin m s1 s' -> pin_stored asked pin m s s'.
Proof.
  intros R C (iv & h & t1 & t2 & Hd & M). exists iv, h, t1, t2. rewrite (c_dev_keys _ _ C) in Hd. split; [done|].
  rewrite (c_state _ _ C), (c_pin _ _ C) in M. eapply moved_trans; [by apply (calm_moved m)|]. exact M.
Qed.

(** Why an update is refused, with the counters as they were. *)
Definition update_refused (p : Z) (pk param msg pin : list Z) (e : Z) (s : dev) : Prop :=
  (e = CTAP2_ERR_PIN_AUTH_INVALID /\ ~ mac_right p pk param msg s) \/
  (e = CTAP2_ERR_PIN_POLICY_VIOLATION /\ mac_right p pk param msg s /\ ~ (4 <= length pin < 64)%nat).

(** Setting or changing the PIN. *)
Lemma update_pin_ok m p pk new n param old s :
  ready m s -> (is_Some old -> 0 < remaining_tries (STATE s)) -> p = 1 \/ p = 2 ->
  bytes new -> length new = 80%nat -> (64 <= n <= 80)%nat ->
  bytes param -> (auth_param_size p <= length param)%nat ->
  (forall h, old = Some h -> bytes h /\ (hash_enc_size p <= length h)%nat) ->
  let msg := update_message p new n old in
  let pin := new_pin p pk new n s in
  wpx (update_pin_if_verified new n pk param old p)
    (fun e s' =>
      (calm s s' /\ update_refused p pk param msg pin e s) \/
      (mac_right p pk param msg s /\ (4 <= length pin < 64)%nat /\ (exists h, old = Some h /\ is_pin_set (STATE s) = 1 /\
         presented p pk h s <> stored_hash s) /\ e = miss_status s /\ missed p m s s'))
    (fun _ s' =>
      mac_right p pk param msg s /\ (4 <= length pin < 64)%nat /\
      (asks_old old s = true -> exists h, old = Some h /\ presented p pk h s = stored_hash s) /\
      pin_stored (asks_old old s) pin m s s') s.
Proof.
  intros R Ht Hp Bn Ln Hn Bp Lp Ho msg pin. unfold update_pin_if_verified.
  destruct (n <? 64)%nat eqn:E64; [apply Nat.ltb_lt in E64; lia|]. clear E64.
  unfold wpx. apply keys_step; [by eapply ready_ctx|apply (r_rng _ _ R)|]. intros point s1 Ep C1. cbn beta iota.
  destruct (shared_keys_ok p point) as [Hke Hkm].
  assert (Hpin : pin = padded_pin (decrypted_pin p (shared_keys p point).1 new n)) by (unfold pin, new_pin; by rewrite Ep).
  assert (Hmac : mac_right p pk param msg s <-> take (auth_param_size p) param = auth_tag p (shared_keys p point).2 msg).
  { unfold mac_right. rewrite Ep. split; [by intros (? & [= <-] & ?)|by exists point]. }
  assert (Hpres : forall h, presented p pk h s = take 16 (unwrap p (shared_keys p point).1 h (hash_enc_size p)))
    by (intros h; unfold presented; by rewrite Ep).
  destruct (shared_keys p point) as [ek mk]. cbn [fst snd] in *.
  eapply (wps_step _ _ (fun x s' => x = take n new /\ s' = s1)).
  { unfold wps, lift. rewrite mem_read_fits by lia. unfold slice. by rewrite drop_0. }
  cbn beta. intros _ _ [-> ->]. eapply wps_step; [by apply hash_of_old|]. cbn beta. intros _ _ [-> ->].
  fold (update_message p new n old). fold msg.
  destruct (verify_done p mk msg param s1) as (s2 & E2 & C2); [by eapply ready_ctx, ready_calm|apply Hkm|done|done|].
  assert (C : calm s s2) by (by transitivity s1). eapply wps_step; [by eapply (wps_done _ (fun r s' => r = _ /\ s' = s2))|].
  cbn beta. intros _ _ [-> ->]. case_bool_decide as Hm; cbn [Z.ltb Z.compare];
    [|left; split; [done|]; left; split; [done|]; by rewrite Hmac].
  destruct (decrypted_done p ek new n s2) as (s3 & E3 & C3 & Bd & Ld); [done..|].
  eapply wps_step; [by eapply (wps_done _ (fun x s' => x = decrypted_pin p ek new n /\ s' = s3))|].
  cbn beta. intros _ _ [-> ->]. assert (C' : calm s s3) by (by transitivity s2).
  pose proof (padded_length _ Ld) as Lpin. rewrite <- Hpin in Lpin.
  change NEW_PIN_ENC_MIN_SIZE with 64%nat. change (64 - 1)%nat with 63%nat. rewrite <- Lpin.
  change NEW_PIN_MIN_SIZE with 4%nat. change NEW_PIN_MAX_SIZE with 64%nat.
  destruct (_ || _) eqn:Ebad; [|apply orb_false_iff in Ebad as [G4 G64]; apply Nat.ltb_ge in G4; apply Nat.leb_gt in G64].
  { left. split; [done|]. right. split; [done|]. split; [by apply Hmac|].
    apply orb_true_iff in Ebad as [Hb|Hb]; [apply Nat.ltb_lt in Hb|apply Nat.leb_le in Hb]; lia. }
  pose proof (ready_calm _ _ _ C' R) as R3.
  eapply wpx_mono; [apply (replace_pin_ok m s3 p ek old); try done|cbn beta..].
  - by rewrite (c_state _ _ C').
  - lia.
  - intros e s4 ((h & Eo & Es & Hne) & -> & M). right. split; [by apply Hmac|]. split; [lia|]. split.
    { exists h. split; [done|]. rewrite Hpres, <- (stored_hash_calm _ _ C'). by rewrite (c_state _ _ C') in Es. }
    split; [|by eapply missed_calm]. unfold miss_status. by rewrite (c_state _ _ C'), (c_pin _ _ C').
  - assert (Ea : asks_old old s3 = asks_old old s) by (unfold asks_old; by rewrite (c_state _ _ C')).
    assert (Et : take (length pin) (decrypted_pin p ek new n) = pin) by (rewrite Lpin; by symmetry).
    rewrite Ea, Et. intros _ s4 [Hh Hs]. split; [by apply Hmac|]. split; [lia|]. split; [|by eapply pin_stored_calm].
    intros Hask. destruct (Hh Hask) as (h & Eo & Eh). exists h. split; [done|].
    by rewrite Hpres, Eh, (stored_hash_calm _ _ C').
Qed.

End Auth.

End PinAuth.
