(* ===== verification/PinLock.v ===== *)
(** * clientPIN as a state machine

    [demand_of] reads off a request, in a state of the device, what it asks of
    the PIN: nothing, a token or a change for a PIN hash that is presented, or a
    first PIN.  [pin_step] is what the device then has to do; every clientPIN
    command, on any bytes, is that step. *)

From S2P Require Import Prelude Monad Lfs Fs Board CborParser CborEncoder CborItems Sha256 Aes Crypto AesBlocks Rng State CtapTypes Dev Device.
From S2P Require Import DeviceProps RkStore CtapStatus CtapParse ParseProps CtapEncode Demo Credential ClientPin ClientPinCmd PinBase Halting PinRequest PinSteps PinAuth.
Import Monad Lfs Fs Board CborParser CborEncoder CborItems Sha256 Aes Crypto AesBlocks Rng State CtapTypes Dev Device
  DeviceProps RkStore CtapStatus CtapParse ParseProps CtapEncode Demo Credential ClientPin ClientPinCmd PinBase Halting PinRequest PinSteps PinAuth.

#[local] Open Scope Z_scope.

Module PinLock.

#[local] Opaque hmac sha256 KeyExpansion Cipher InvCipher state_bytes.

(** What a request asks of the PIN: nothing, a token for the hash [h] under
    the key [pk], a change of the PIN for the hash, or a first PIN. *)
Inductive demand :=
| Look
| Ask (p : Z) (pk h : list Z) (perm : Z) (rp : list Z) (n : nat)
| Swap (p : Z) (pk h new : list Z) (n : nat)
| Put (p : Z) (pk new : list Z) (n : nat).

(** How a command ends for somebody who guesses. *)
Inductive label := Quiet | Miss | Hit | Store.
#[export] Instance label_dec : EqDecision label.
Proof. solve_decision. Defined.

(** The fields of a request. *)
Definition request_of (request : list Z) : option CTAP_clientPin :=
  match parse_client_pin_request request tt with
  | Done (inr cp, _) => Some cp
  | _ => None
  end.

(** All that is needed to store a new PIN is there. *)
Definition has_new_pin (cp : CTAP_clientPin) : bool :=
  negb ((newPinEncSize cp =? 0) || (pinUvAuthParam_len cp =? 0) || negb (keyAgreementPresent cp)).

(** The permissions and the length of the relying party of a proper token
    request: the defaults, or those of the request, none of them unsupported and
    with the relying party makeCredential and getAssertion need. *)
Definition token_asked (cp : CTAP_clientPin) : option (Z * nat) :=
  if negb (keyAgreementPresent cp && pinHashEncPresent cp) then None
  else if subCommand cp =? CP_SubCmd_getPinToken then
    if permissionsPresent cp || negb (cp_permissions cp =? 0) || (rpIdSize cp >? 0) then None
    else Some (CP_pinUvAuthToken_permissions_default_mask, 0%nat)
  else if subCommand cp =? CP_SubCmd_getPinUvAuthTokenUsingPinWithPermissions then
    let perm := Z.land (cp_permissions cp) CP_pinUvAuthToken_permissions_defined_mask in
    let needs_rp := negb (Z.land perm (Z.lor CP_pinUvAuthToken_permissions_mc CP_pinUvAuthToken_permissions_ga) =? 0) in
    if permissionsPresent cp && negb (cp_permissions cp =? 0)
       && (Z.land perm CP_pinUvAuthToken_permissions_unsupported_mask =? 0) && negb (needs_rp && (rpIdSize cp =? 0))
    then Some (perm, Z.to_nat (rpIdSize cp)) else None
  else None.

Section Lock.
Context {L : Lfs} {LL : LfsLaws L} {B : Board} {E : Ecc} {EL : EccLaws E}.

Definition tries (s : dev) : Z := remaining_tries (STATE s).
Definition boot_tries (s : dev) : Z := PIN_BOOT_ATTEMPTS_LEFT (d_pin s).

#[export] Instance mac_right_dec p pk param msg s : Decision (mac_right p pk param msg s).
Proof.
  unfold mac_right. destruct (shared_point p pk s) as [point|].
  - destruct (decide (take (auth_param_size p) param = auth_tag p (shared_keys p point).2 msg)) as [H|H].
    + left. by exists point.
    + right. by intros (? & [= <-] & ?).
  - right. by intros (? & [=] & _).
Defined.

(** The new PIN came with the MAC of the session, and has a length that is
    allowed. *)
Definition acceptable (cp : CTAP_clientPin) (old : option (list Z)) (s : dev) : bool :=
  let p := pinProtocol cp in
  let pk := pubkey (keyAgreement cp) in
  let n := Z.to_nat (newPinEncSize cp) in
  bool_decide (mac_right p pk (pinUvAuthParam cp) (update_message p (newPinEnc cp) n old) s /\
    (4 <= length (new_pin p pk (newPinEnc cp) n s) < 64)%nat).

Definition cp_demand (s : dev) (cp : CTAP_clientPin) : demand :=
  let p := pinProtocol cp in
  let pk := pubkey (keyAgreement cp) in
  let n := Z.to_nat (newPinEncSize cp) in
  let is_set := is_pin_set (STATE s) =? 1 in
  if negb ((p =? 1) || (p =? 2)) then Look
  else if subCommand cp =? CP_SubCmd_setPIN then
    if has_new_pin cp && negb is_set && acceptable cp None s then Put p pk (newPinEnc cp) n else Look
  else if (tries s <=? 0) || (boot_tries s <=? 0) || negb is_set then Look
  else if subCommand cp =? CP_SubCmd_changePIN then
    if has_new_pin cp && pinHashEncPresent cp && acceptable cp (Some (pinHashEnc cp)) s
    then Swap p pk (pinHashEnc cp) (newPinEnc cp) n else Look
  else match token_asked cp with
       | Some (perm, k) => Ask p pk (pinHashEnc cp) perm (rpId cp) k
       | None => Look
       end.

Definition demand_of (s : dev) (request : list Z) : demand :=
  match request_of request with Some cp => cp_demand s cp | None => Look end.

(** The PIN hash a request presents, and the protocol it does so in. *)
Definition presents (s : dev) (d : demand) : option (Z * list Z) :=
  match d with
  | Ask p pk h _ _ _ | Swap p pk h _ _ => Some (p, presented p pk h s)
  | Look | Put _ _ _ _ => None
  end.

(** A wrong guess is a request that presents another hash than the stored
    one, whatever the device makes of it. *)
Definition label_of (s : dev) (d : demand) : label :=
  match presents s d with
  | Some (_, h) => if bool_decide (h = stored_hash s) then Hit else Miss
  | None => match d with Put _ _ _ _ => Store | _ => Quiet end
  end.

(** The tokens and counters; the key agreement may differ. *)
Definition same_tokens (v v' : pin_vars) : Prop :=
  PIN_BOOT_ATTEMPTS_LEFT v' = PIN_BOOT_ATTEMPTS_LEFT v /\
  forall p, token (get_pin_protocol_state p v') = token (get_pin_protocol_state p v) /\
    token_state (get_pin_protocol_state p v') = token_state (get_pin_protocol_state p v).

(** The response with the token encrypted under the key of the session. *)
Definition token_answer (p : Z) (pk : list Z) (s s' : dev) (e : Enc) (r : Z + Enc) : Prop := exists point out,
  shared_point p pk s = Some point /\
  unwrap p (shared_keys p point).1 out (length out) = token (get_pin_protocol_state p (d_pin s')) /\
  let bs := items_bytes [IMap 1; IUint CP_Resp_pinUvAuthToken; IBytes out] in
  r = inr (mkEnc (length bs) (Some (length e.2)) 1 0, overwrite e.2 0 bs).

(** What the device has to do for a demand, with the answer [r]: after a wrong
    hash a try is lost and nothing handed out. *)
Inductive pin_step (m : volume) (s : dev) (e : Enc) : demand -> Z + Enc -> volume -> dev -> Prop :=
| step_look r v s' : same_tokens (d_pin s) v -> moved s (STATE s) v m s' -> pin_step m s e Look r m s'
| step_miss d p h s' :
    presents s d = Some (p, h) -> h <> stored_hash s -> missed p m s s' ->
    pin_step m s e d (inl (miss_status s)) (persist s' m) s'
| step_token p pk h perm now rp n r s' :
    presented p pk h s = stored_hash s -> is_u32 now -> hit m s s' (granted p perm now rp n) ->
    token_answer p pk s s' e r -> pin_step m s e (Ask p pk h perm rp n) r (hit_files s s' m) s'
| step_change p pk h new n s' :
    presented p pk h s = stored_hash s -> pin_stored true (new_pin p pk new n s) m s s' ->
    pin_step m s e (Swap p pk h new n) (inr e) (persist s' m) s'
| step_set p pk new n s' :
    pin_stored false (new_pin p pk new n s) m s s' ->
    pin_step m s e (Put p pk new n) (inr e) (persist s' m) s'.

Definition stepped (m : volume) (s : dev) (e : Enc) (d : demand) (r : Z + Enc) (s' : dev) : Prop :=
  exists m', pin_step m s e d r m' s'.
Abbreviation steps m s e d c :=
  (wpx c (fun x s' => stepped m s e d (inl x) s') (fun a s' => stepped m s e d (inr a) s') s).

Lemma same_tokens_refl v : same_tokens v v.
Proof. by split. Qed.

Lemma stepped_calm m s e r s' : ready m s -> calm s s' -> stepped m s e Look r s'.
Proof. intros R C. exists m. eapply step_look; [apply same_tokens_refl|]. by apply calm_moved. Qed.
Lemma stepped_here m s e r : ready m s -> stepped m s e Look r s.
Proof. intros R. by apply stepped_calm. Qed.

Lemma steps_throw {C} m s e x (Q : C -> dev -> Prop) : ready m s ->
  wpx (throw x) (fun x s' => stepped m s e Look (inl x) s') Q s.
Proof. intros R. apply wpx_throw. by apply stepped_here. Qed.

(** A test, and the failure of one. *)
Lemma steps_pass m s e d x (k : X dev Enc) : steps m s e d k -> steps m s e d (guard true x ^; k).
Proof. done. Qed.
Lemma steps_fail m s e x (k : X dev Enc) : ready m s -> steps m s e Look (guard false x ^; k).
Proof. intros R. by apply stepped_here. Qed.

(** Reading a variable. *)
Lemma steps_gets {C} m s e d (f : dev -> C) (k : C -> X dev Enc) : steps m s e d (k (f s)) -> steps m s e d (let* x := gets f in k x).
Proof. done. Qed.

(** Encoding, before and after the step. *)
Lemma steps_emit m s e0 op e (k : Enc -> X dev Enc) : ready m s -> op_ok op -> enc_ok e ->
  (forall e', enc_ok e' -> steps m s e0 Look (k e')) -> steps m s e0 Look (let^ e' := emit op e in k e').
Proof.
  intros R Ho He Hk. eapply (wpx_bind _ _ _ (fun e' s' => enc_ok e' /\ s' = s)); [|by intros e' ? [? ->]; apply Hk].
  apply wpx_emit; auto. by apply stepped_here.
Qed.
Lemma steps_open m s e0 n e (k : CborEncoder * Enc -> X dev Enc) : ready m s -> enc_ok e ->
  (forall p e', enc_ok e' -> steps m s e0 Look (k (p, e'))) -> steps m s e0 Look (let^ e' := open_map n e in k e').
Proof.
  intros R He Hk. eapply (wpx_bind _ _ _ (fun e' s' => enc_ok e'.2 /\ s' = s)).
  - apply wpx_open_map; auto. by apply stepped_here.
  - intros [p e'] ? [? ->]. by apply Hk.
Qed.
Lemma steps_close m s e0 p e : ready m s -> enc_ok e -> steps m s e0 Look (close p e).
Proof. intros R He. apply wpx_close; [done|by apply stepped_here|]. intros e' _. by apply stepped_here. Qed.

(** ** Subcommands that only look *)

Lemma getPINRetries_ok m s e : ready m s -> enc_ok e -> steps m s e Look (getPINRetries e).
Proof.
  intros R He. unfold getPINRetries. apply steps_open; [done..|]. intros p e1 H1.
  apply steps_emit; auto with tkey. intros e2 H2. apply steps_gets.
  apply steps_emit; auto with tkey. intros e3 H3. apply steps_emit; auto with tkey. intros e4 H4.
  apply steps_gets, steps_gets. apply steps_emit; auto with tkey. intros e5 H5. by apply steps_close.
Qed.

Lemma same_tokens_ka p f v : same_tokens v (set_pin_protocol_state p (fun t => t <| key_agreement := f (key_agreement t) |>) v).
Proof.
  unfold same_tokens, set_pin_protocol_state, get_pin_protocol_state. split; [by destruct (p =? 1)|].
  intros q. by destruct (p =? 1), (q =? 1).
Qed.

Lemma new_pub_length ka : length (pub_key ka) = 64%nat ->
  length (default (pub_key ka) (uECC_compute_public_key (priv_key ka))) = 64%nat.
Proof. pose proof (public_key_length (priv_key ka)) as H. by destruct (uECC_compute_public_key (priv_key ka)). Qed.

Lemma getKeyAgreement_ok m s e cp : ready m s -> enc_ok e -> steps m s e Look (getKeyAgreement e cp).
Proof.
  intros R He. unfold getKeyAgreement. apply steps_gets. apply steps_open; [done..|]. intros p e1 H1.
  apply steps_emit; auto with tkey. intros e2 H2.
  set (ka := key_agreement (get_pin_protocol_state (pinProtocol cp) (d_pin s))).
  set (pk := if negb (pub_key_valid ka) then default (pub_key ka) (uECC_compute_public_key (priv_key ka)) else pub_key ka).
  eapply (wpx_step _ _ _ (fun _ s' => (forall r, stepped m s e Look r s') /\ length (pub_key (key_agreement (get_pin_protocol_state (pinProtocol cp) (d_pin s')))) = 64%nat)).
  - destruct (negb _) eqn:Ev.
    + eapply wps_mono; [apply (set_pt_ok m s (pinProtocol cp) _ R)|].
      * intros t Ht _. split; try apply Ht. apply new_pub_length, Ht.
      * cbn beta. intros _ s1 M1. split; [intros r; exists m; eapply step_look; [|exact M1]; apply (same_tokens_ka _ (fun ka => ka <| pub_key := default (pub_key ka) (uECC_compute_public_key (priv_key ka)) |> <| pub_key_valid := true |>))|].
        pose proof (po_pub _ (ready_pt _ _ (pinProtocol cp) R)) as Ok.
        rewrite (m_pin _ _ _ _ _ M1). revert Ok. unfold set_pin_protocol_state, get_pin_protocol_state.
        destruct (_ =? 1); apply new_pub_length.
    + apply wps_ret. split; [intros r; by apply stepped_here|].
      by apply (po_pub _ (ready_pt _ _ (pinProtocol cp) R)).
  - cbn beta. intros _ s1 [Hs Lk]. eapply (wpx_step _ _ _ (fun t s' => t = get_pin_protocol_state (pinProtocol cp) (d_pin s1) /\ s' = s1)); [done|].
    intros _ _ [-> ->]. eapply (wpx_bind _ _ _ (fun e s' => enc_ok e /\ s' = s1)).
    + apply wpx_cose_key_add; auto; rewrite ?length_take, ?length_drop; lia.
    + intros e3 ? [H3 ->]. by apply wpx_close.
Qed.

(** ** Subcommands that store a PIN *)

(** The reason of a refusal is that the new PIN is not acceptable. *)
Lemma refused_unacceptable cp old e s : update_refused (pinProtocol cp) (pubkey (keyAgreement cp)) (pinUvAuthParam cp)
    (update_message (pinProtocol cp) (newPinEnc cp) (Z.to_nat (newPinEncSize cp)) old)
    (new_pin (pinProtocol cp) (pubkey (keyAgreement cp)) (newPinEnc cp) (Z.to_nat (newPinEncSize cp)) s) e s ->
  acceptable cp old s = false.
Proof. intros [[_ Hm]|(_ & _ & Hl)]; apply bool_decide_false; tauto. Qed.

Lemma setPIN_ok m s e cp : ready m s -> cp_ok cp -> pinProtocol cp = 1 \/ pinProtocol cp = 2 ->
  subCommand cp = CP_SubCmd_setPIN -> steps m s e (cp_demand s cp) (setPIN e cp).
Proof.
  intros R C Hp Es. unfold cp_demand. rewrite (proj2 (Z.eqb_eq _ _) Es).
  replace (_ || _) with true by (by destruct Hp as [-> | ->]). cbn [negb].
  unfold setPIN. rewrite <- andb_assoc. fold (has_new_pin cp). destruct (has_new_pin cp) eqn:Hg; [apply steps_pass|by apply steps_fail].
  apply steps_gets. destruct (is_pin_set (STATE s) =? 1) eqn:Hset; [by apply steps_fail|]. apply steps_pass. cbn [negb andb].
  apply negb_true_iff, orb_false_iff in Hg as [Hg _]. apply orb_false_iff in Hg as [Hg _]. zbool.
  destruct (cpo_new _ C) as [Ln Bn], (cpo_param _ C) as [Lp Bp]. destruct (cpo_new_size _ C) as [|Hs]; [done|].
  eapply wpx_bind with (P := fun _ s' => stepped m s e _ (inr e) s'); [|intros ? s' Hs'; by apply wpx_ok].
  eapply wpx_mono; [apply (update_pin_ok m); try done; try lia; try (by intros [? [=]])| |].
  - unfold auth_param_size. destruct (_ =? 2); lia.
  - cbn beta. intros e' s' [[Hc Hr]|(_ & _ & (h & [=] & _) & _)]. rewrite (refused_unacceptable _ _ _ _ Hr).
    by apply stepped_calm.
  - cbn beta. intros _ s' (Hm & Hl & _ & Hst). unfold acceptable. rewrite bool_decide_true by done. cbn [andb].
    eexists. eapply step_set. unfold asks_old in Hst. rewrite bool_decide_false in Hst by (by intros [? [=]]).
    exact Hst.
Qed.

Lemma changePIN_ok m s e cp : ready m s -> cp_ok cp -> pinProtocol cp = 1 \/ pinProtocol cp = 2 ->
  subCommand cp = CP_SubCmd_changePIN -> 0 < tries s -> 0 < boot_tries s ->
  steps m s e (cp_demand s cp) (changePIN e cp).
Proof.
  intros R C Hp Es Ht Hb. unfold cp_demand. rewrite Es, (proj2 (Z.leb_gt _ _) Ht), (proj2 (Z.leb_gt _ _) Hb).
  replace (_ || _) with true by (by destruct Hp as [-> | ->]). cbn [negb orb Z.eqb Pos.eqb CP_SubCmd_changePIN CP_SubCmd_setPIN].
  unfold changePIN. apply steps_gets. destruct (is_pin_set (STATE s) =? 1) eqn:Hset; [apply steps_pass|by apply steps_fail]. cbn [negb].
  rewrite negb_orb, negb_involutive. fold (has_new_pin cp).
  destruct (has_new_pin cp && pinHashEncPresent cp) eqn:Hg; [apply steps_pass|by apply steps_fail]. cbn [andb].
  apply andb_true_iff in Hg as [Hg _]. apply negb_true_iff, orb_false_iff in Hg as [Hg _]. apply orb_false_iff in Hg as [Hg _]. zbool.
  destruct (cpo_new _ C) as [Ln Bn], (cpo_param _ C) as [Lp Bp], (cpo_hash _ C) as [Lh Bh].
  destruct (cpo_new_size _ C) as [|Hs]; [done|].
  eapply wpx_bind with (P := fun _ s' => stepped m s e _ (inr e) s'); [|intros ? s' Hs'; by apply wpx_ok].
  eapply wpx_mono; [apply (update_pin_ok m); try done; try lia| |].
  - unfold auth_param_size. destruct (_ =? 2); lia.
  - intros h [= <-]. split; [done|]. unfold hash_enc_size. destruct (_ =? 2); lia.
  - cbn beta. intros e' s' [[Hc Hr]|(Hm & Hl & (h & [= <-] & _ & Hne) & -> & M)].
    + rewrite (refused_unacceptable _ _ _ _ Hr). by apply stepped_calm.
    + unfold acceptable. rewrite bool_decide_true by done. eexists. by eapply step_miss.
  - cbn beta. intros _ s' (Hm & Hl & Hold & Hst). unfold acceptable. rewrite bool_decide_true by done.
    unfold asks_old in *. rewrite bool_decide_true, Hset in * by done. cbn [andb] in *.
    destruct (Hold eq_refl) as (h & [= <-] & Eh). eexists. by eapply step_change.
Qed.

(** ** Subcommands that hand out a token *)

Lemma wpx_gives {A C} (c : X dev A) a (k : A -> X dev C) T Q s : gives c a -> wpx (k a) T Q s -> wpx (let^ x := c in k x) T Q s.
Proof. intros H Hk. unfold wpx, wps in *. rewrite (xbind_done _ _ _ _ _ (H s)). exact Hk. Qed.

(** The encoder of a request, on a buffer with room for any answer. *)
Definition enc_fresh (e : Enc) : Prop := (256 <= length e.2)%nat /\ e.1 = cbor_encoder_init (length e.2).
Lemma fresh_ok e : enc_fresh e -> enc_ok e.
Proof. intros [_ He]. unfold enc_ok. rewrite He. cbn. lia. Qed.
Lemma fresh_at e : enc_fresh e -> e = enc_at e.2 [] 2 0.
Proof. destruct e as [c out]. intros [_ He]. cbn in *. subst c. unfold enc_at, overwrite. by rewrite drop_0. Qed.

Lemma open_fresh e : enc_fresh e ->
  gives (S := dev) (open_map 1 e) (mkEnc 0 (Some (length e.2)) 1 0, enc_at e.2 (item_bytes (IMap 1)) 3 32).
Proof. intros He. rewrite (fresh_at e He) at 1. apply open_map_at; [lia|destruct He; cbn; lia|done]. Qed.

(** The token in its map. *)
Lemma token_map_ok e t (s : dev) : enc_fresh e -> (length t = 48 \/ length t = 32)%nat ->
  forall (T : Z -> dev -> Prop) (Q : Enc -> dev -> Prop),
  let bs := items_bytes [IMap 1; IUint CP_Resp_pinUvAuthToken; IBytes t] in
  Q (mkEnc (length bs) (Some (length e.2)) 1 0, overwrite e.2 0 bs) s ->
  wpx (let^ map := emit (cbor_encode_byte_string t) (enc_at e.2 (item_bytes (IMap 1) ++ item_bytes (IUint 2)) 2 32) in
       close (mkEnc 0 (Some (length e.2)) 1 0) map) T Q s.
Proof.
  intros [Hl _] Ht T Q bs HQ.
  assert (Hb : bs = (item_bytes (IMap 1) ++ item_bytes (IUint 2)) ++ item_bytes (IBytes t)).
  { unfold bs, items_bytes. cbn [fmap list_fmap concat]. by rewrite app_nil_r, app_assoc. }
  assert (Ln : (length bs <= 53)%nat).
  { rewrite Hb, !length_app. unfold item_bytes. cbn [item_num item_mt item_str]. rewrite !length_app.
    destruct Ht as [Ht|Ht]; rewrite Ht; vm_compute length; lia. }
  eapply (wpx_gives _ _ _ _ _ _ (emit_item (IBytes t) e.2 _ 2 32 ltac:(apply small_bytes; lia) ltac:(rewrite <- Hb; lia) ltac:(lia))).
  rewrite <- Hb. unfold wpx, wps. by rewrite (close_at _ _ _ _ s).
Qed.

Lemma token_response_ok m s e cp perm n : ready m s -> cp_ok cp -> enc_fresh e ->
  pinProtocol cp = 1 \/ pinProtocol cp = 2 -> 0 < tries s -> (n <= 253)%nat ->
  steps m s e (Ask (pinProtocol cp) (pubkey (keyAgreement cp)) (pinHashEnc cp) perm (rpId cp) n) (token_response e cp perm n).
Proof.
  intros R C He Hp Ht Hn. unfold token_response. destruct (cpo_hash _ C) as [Lh Bh], (cpo_rp _ C) as [Lr Br].
  pose proof (proj1 He) as Hl. eapply wpx_gives; [by apply open_fresh|]. cbn beta iota.
  eapply wpx_gives; [apply (emit_int 2); [lia|cbn; lia|done]|]. cbn [length app].
  eapply (wpx_bind _ _ _ (fun out s' => (if (pinProtocol cp =? 1)%Z then 32 else 48)%nat = length out /\
    presented (pinProtocol cp) (pubkey (keyAgreement cp)) (pinHashEnc cp) s = stored_hash s /\
    (exists now, is_u32 now /\ hit m s s' (granted (pinProtocol cp) perm now (rpId cp) n)) /\
    exists point, shared_point (pinProtocol cp) (pubkey (keyAgreement cp)) s = Some point /\
      unwrap (pinProtocol cp) (shared_keys (pinProtocol cp) point).1 out (length out)
      = token (get_pin_protocol_state (pinProtocol cp) (d_pin s')))).
  - eapply wpx_mono; [apply (add_enc_ok m); try done| |].
    + unfold hash_enc_size. destruct (_ =? 2); lia.
    + lia.
    + cbn beta. intros x s' (Hne & -> & M). eexists. by eapply step_miss.
    + cbn beta. intros out s' (Heq & Hg & Lo & Hpt). by split.
  - intros out s1 (Lo & Heq & (now & Hnow & H) & point & Ep & Eu). eapply (wpx_step _ _ _ (fun t s' => t = out /\ s' = s1)).
    { assert (Hlen : (if pinProtocol cp =? 2 then (CP_IV_SIZE + PINUVAUTHTOKEN_SIZE)%nat else PINUVAUTHTOKEN_SIZE) = length out)
        by (rewrite <- Lo; by destruct Hp as [-> | ->]).
      rewrite Hlen. unfold wps, lift. rewrite mem_read_fits by lia. split; [by apply slice_all|done]. }
    cbn beta. intros _ _ [-> ->]. apply token_map_ok; [done|destruct Hp as [Hp|Hp]; rewrite Hp in Lo; cbn in Lo; lia|].
    eexists. eapply step_token; [done..|]. by exists point, out.
Qed.

Lemma getPinToken_ok m s e cp : ready m s -> cp_ok cp -> enc_fresh e ->
  pinProtocol cp = 1 \/ pinProtocol cp = 2 -> subCommand cp = CP_SubCmd_getPinToken -> 0 < tries s -> 0 < boot_tries s ->
  steps m s e (cp_demand s cp) (getPinToken e cp).
Proof.
  intros R C He Hp Es Ht Hb. unfold cp_demand, token_asked. rewrite Es, (proj2 (Z.leb_gt _ _) Ht), (proj2 (Z.leb_gt _ _) Hb).
  replace (_ || _) with true by (by destruct Hp as [-> | ->]). cbn [negb orb Z.eqb Pos.eqb CP_SubCmd_getPinToken CP_SubCmd_setPIN CP_SubCmd_changePIN].
  unfold getPinToken. apply steps_gets. destruct (is_pin_set (STATE s) =? 1); [apply steps_pass|by apply steps_fail]. cbn [negb].
  destruct (keyAgreementPresent cp && pinHashEncPresent cp); [apply steps_pass|by apply steps_fail]. cbn [negb].
  destruct (_ || (rpIdSize cp >? 0)); [by apply steps_fail|]. apply steps_pass. apply token_response_ok; try done. lia.
Qed.

Lemma getPinUvAuthToken_ok m s e cp : ready m s -> cp_ok cp -> enc_fresh e ->
  pinProtocol cp = 1 \/ pinProtocol cp = 2 -> subCommand cp = CP_SubCmd_getPinUvAuthTokenUsingPinWithPermissions ->
  0 < tries s -> 0 < boot_tries s ->
  steps m s e (cp_demand s cp) (getPinUvAuthTokenUsingPinWithPermissions e cp).
Proof.
  intros R C He Hp Es Ht Hb. unfold cp_demand, token_asked. rewrite Es, (proj2 (Z.leb_gt _ _) Ht), (proj2 (Z.leb_gt _ _) Hb).
  replace (_ || _) with true by (by destruct Hp as [-> | ->]).
  cbn [negb orb Z.eqb Pos.eqb CP_SubCmd_getPinUvAuthTokenUsingPinWithPermissions CP_SubCmd_setPIN CP_SubCmd_changePIN CP_SubCmd_getPinToken].
  unfold getPinUvAuthTokenUsingPinWithPermissions. apply steps_gets.
  destruct (is_pin_set (STATE s) =? 1); [apply steps_pass|by apply steps_fail]. cbn [negb].
  destruct (keyAgreementPresent cp && pinHashEncPresent cp); [apply steps_pass|by apply steps_fail]. cbn [negb].
  set (perm := Z.land (cp_permissions cp) _).
  destruct (permissionsPresent cp && negb (cp_permissions cp =? 0)); [apply steps_pass|by apply steps_fail].
  destruct (Z.land perm _ =? 0); [apply steps_pass|by apply steps_fail].
  destruct (negb (_ && (rpIdSize cp =? 0))); [apply steps_pass|by apply steps_fail]. cbn [andb].
  pose proof (cpo_rp_size _ C). apply token_response_ok; try done. lia.
Qed.

(** ** The command *)

Lemma retries_look s cp c : subCommand cp = c -> c <> CP_SubCmd_setPIN -> c <> CP_SubCmd_changePIN ->
  c <> CP_SubCmd_getPinToken -> c <> CP_SubCmd_getPinUvAuthTokenUsingPinWithPermissions -> cp_demand s cp = Look.
Proof.
  intros Hc H3 H4 H5 H9. unfold cp_demand, token_asked. rewrite Hc.
  rewrite (proj2 (Z.eqb_neq _ _) H3), (proj2 (Z.eqb_neq _ _) H4), (proj2 (Z.eqb_neq _ _) H5), (proj2 (Z.eqb_neq _ _) H9).
  by repeat case_match.
Qed.
Lemma locked_look s cp : subCommand cp <> CP_SubCmd_setPIN -> tries s <= 0 \/ boot_tries s <= 0 -> cp_demand s cp = Look.
Proof.
  intros H3 Hl. unfold cp_demand. rewrite (proj2 (Z.eqb_neq _ _) H3).
  destruct Hl as [Hl|Hl]; rewrite (proj2 (Z.leb_le _ _) Hl); rewrite ?orb_true_r; by destruct (negb _).
Qed.

Lemma ctap_client_pin_ok m s e request : ready m s -> enc_ok e -> (0 < tries s -> enc_fresh e) -> bytes request ->
  steps m s e (demand_of s request) (ctap_client_pin e request).
Proof.
  intros R Ho He Br. unfold ctap_client_pin, demand_of, request_of.
  destruct (parse_client_pin_ok request Br) as (r & Er & C). unfold wpx at 1.
  assert (Ep : parse (parse_client_pin_request request) s = Done (r, s)) by (unfold parse, lift; by rewrite Er).
  unfold wps. rewrite (xbind_done _ _ _ _ _ Ep), Er. clear Ep Er.
  destruct r as [x|cp]; [by apply stepped_here|]. 
  match goal with |- match xbind ?a ?k s with _ => _ end => change (steps m s e (cp_demand s cp) (xbind a k)) end.
  destruct (subCommand cp =? CP_SubCmd_getPINRetries) eqn:E1; zbool.
  { apply (wpx_gives (ok tt) tt); [done|]. rewrite (retries_look s cp _ E1) by done. by apply getPINRetries_ok. }
  destruct ((pinProtocol cp =? 1) || (pinProtocol cp =? 2)) eqn:Ep.
  2: { unfold cp_demand. rewrite Ep. cbn [negb]. apply (wpx_bind _ _ _ (fun _ _ => False)); [|done].
    destruct (negb _); [apply (wpx_gives (ok tt) tt); [done|]|]; by apply stepped_here. }
  apply orb_true_iff in Ep. assert (Hp : pinProtocol cp = 1 \/ pinProtocol cp = 2) by (destruct Ep; zbool; auto). clear Ep.
  rewrite (proj2 (Z.eqb_neq (pinProtocol cp) 0)) by lia. apply (wpx_gives (ok tt) tt); [done|].
  destruct (subCommand cp =? CP_SubCmd_getKeyAgreement) eqn:E2; zbool.
  { rewrite (retries_look s cp _ E2) by done. by apply getKeyAgreement_ok. }
  destruct (subCommand cp =? CP_SubCmd_setPIN) eqn:E3; zbool; [by apply setPIN_ok|].
  unfold unlocked_subcommand. apply steps_gets. fold (tries s). destruct (tries s <=? 0) eqn:Ht; zbool.
  { rewrite locked_look by auto. by apply steps_fail. }
  specialize (He Ht). apply steps_pass, steps_gets. fold (boot_tries s). destruct (boot_tries s <=? 0) eqn:Hb; zbool.
  { rewrite locked_look by auto. by apply steps_fail. }
  apply steps_pass. destruct (subCommand cp =? CP_SubCmd_changePIN) eqn:E4; zbool; [by apply changePIN_ok|].
  destruct (subCommand cp =? CP_SubCmd_getPinToken) eqn:E5; zbool; [by apply getPinToken_ok|].
  destruct (subCommand cp =? CP_SubCmd_getPinUvAuthTokenUsingPinWithPermissions) eqn:E9; zbool; [by apply getPinUvAuthToken_ok|].
  rewrite (retries_look s cp _ eq_refl) by done. by apply steps_throw.
Qed.

(** ** Runs *)

(** A sequence of commands, each on an encoder of its own, with the answers. *)
Fixpoint run_commands (cs : list (Enc * list Z)) : F (list (Z + Enc)) :=
  match cs with
  | [] => ret []
  | (e, request) :: cs =>
      let* r := ctap_client_pin e request in
      let* rs := run_commands cs in
      ret (r :: rs)
  end.
Definition command_ok (c : Enc * list Z) : Prop := enc_ok (fst c) /\ bytes (snd c).
Definition command_fresh (c : Enc * list Z) : Prop := enc_fresh (fst c) /\ bytes (snd c).

(** The steps the commands [cs] ask for, with the answers [rs]. *)
Inductive pin_trace : volume -> dev -> list (Enc * list Z) -> list (Z + Enc) -> volume -> dev -> Prop :=
| trace_nil m s : pin_trace m s [] [] m s
| trace_cons m s e request r m1 s1 cs rs m' s' :
    pin_step m s e (demand_of s request) r m1 s1 -> pin_trace m1 s1 cs rs m' s' ->
    pin_trace m s ((e, request) :: cs) (r :: rs) m' s'.

Lemma step_ready m s e d r m' s' : pin_step m s e d r m' s' -> ready m' s'.
Proof.
  intros [? v s1 _ M|? ? ? s1 _ _ (k & _ & M)|? ? ? ? ? ? ? ? s1 _ _ H _|? ? ? ? ? s1 _ (iv & c & t1 & t2 & _ & M)
    |? ? ? ? s1 (iv & c & t1 & t2 & _ & M)]; [apply M..|by eapply hit_ready|apply M|apply M].
Qed.

Lemma fresh_command m s e request : ready m s -> command_fresh (e, request) ->
  wps (ctap_client_pin e request) (stepped m s e (demand_of s request)) s.
Proof.
  intros R [He Br]. eapply wps_mono; [by apply (ctap_client_pin_ok m s e request R (fresh_ok e He) (fun _ => He))|].
  by intros [].
Qed.

Lemma run_trace cs : forall m s, ready m s -> Forall command_fresh cs ->
  wps (run_commands cs) (fun rs s' => exists m', pin_trace m s cs rs m' s' /\ ready m' s') s.
Proof.
  induction cs as [|[e request] cs IH]; intros m s R Hcs; cbn [run_commands].
  { apply wps_ret. exists m. split; [constructor|done]. }
  apply Forall_cons in Hcs as [Hc Hcs]. eapply wps_step; [by apply fresh_command|].
  intros r s1 (m1 & St). eapply wps_step; [by apply (IH m1 s1); [eapply step_ready|]|].
  intros rs s2 (m2 & T & R2). apply wps_ret. exists m2. split; [by eapply trace_cons|done].
Qed.

(** ** Counting wrong guesses *)

(** The label of each command, in the state the device is in when it comes. *)
Fixpoint labels (cs : list (Enc * list Z)) (s : dev) : list label :=
  match cs with
  | [] => []
  | (e, request) :: cs =>
      label_of s (demand_of s request) ::
      match ctap_client_pin e request s with
      | Done (_, s1) => labels cs s1
      | Fault _ => []
      end
  end.
Definition misses (ls : list label) : Z := Z.of_nat (length (filter (eq Miss) ls)).

(** No token was begun, and the volume holds the counters. *)
Definition no_token (s s' : dev) : Prop := forall p,
  token_state (get_pin_protocol_state p (d_pin s')) = token_state (get_pin_protocol_state p (d_pin s)).
Definition counted (n : Z) (m : volume) (s s' : dev) : Prop :=
  tries s' = tries s - n /\ boot_tries s' = boot_tries s - n /\ no_token s s' /\
  ready (if n =? 0 then m else persist s' m) s' /\ (n = 0 -> STATE s' = STATE s) /\
  DeviceProps.mac_key s' = DeviceProps.mac_key s.

Lemma miss_token_state last p q k v :
  token_state (get_pin_protocol_state p (miss_pin last (set_pin_protocol_state q (new_scalar k) v)))
  = token_state (get_pin_protocol_state p v).
Proof.
  unfold miss_pin, get_pin_protocol_state, set_pin_protocol_state. by destruct last, (q =? 1), (p =? 1), (_ >? 0).
Qed.

Lemma miss_counted p m s s' : 0 < boot_tries s -> missed p m s s' -> counted 1 m s s'.
Proof.
  intros Hb (k & _ & M). unfold counted, no_token, tries, boot_tries in *. pose proof (moved_mac_key _ _ _ _ _ M) as Em.
  rewrite (m_state _ _ _ _ _ M), (m_pin _ _ _ _ _ M), miss_tries, miss_boot, set_pin_boot.
  split; [done|]. split; [destruct (_ >? 0) eqn:Eb; zbool; lia|]. split; [intros q; apply miss_token_state|].
  split; [apply M|]. done.
Qed.

Lemma look_counted m s v s' : same_tokens (d_pin s) v -> moved s (STATE s) v m s' -> counted 0 m s s'.
Proof.
  intros [Hb Hv] M. pose proof (moved_mac_key _ _ _ _ _ M) as Em. unfold counted, no_token, tries, boot_tries.
  rewrite (m_state _ _ _ _ _ M), (m_pin _ _ _ _ _ M). split; [lia|]. split; [lia|]. split; [intros q; apply Hv|].
  split; [apply M|]. done.
Qed.

Lemma asked_unlocked s request p h : presents s (demand_of s request) = Some (p, h) -> 0 < tries s /\ 0 < boot_tries s.
Proof.
  unfold demand_of. destruct (request_of request) as [cp|]; [|done]. unfold cp_demand.
  destruct (negb _); [done|]. destruct (_ =? CP_SubCmd_setPIN); [by destruct (_ && _)|].
  destruct (tries s <=? 0) eqn:E1; [done|]. destruct (boot_tries s <=? 0) eqn:E2; [done|]. zbool. by intros _.
Qed.

(** A command that neither presents the right PIN nor stores a first one. *)
Lemma guess_counted m s e request r s' : stepped m s e (demand_of s request) r s' ->
  label_of s (demand_of s request) <> Hit -> label_of s (demand_of s request) <> Store ->
  counted (misses [label_of s (demand_of s request)]) m s s' /\
  (label_of s (demand_of s request) = Miss -> 0 < tries s /\ 0 < boot_tries s).
Proof.
  pose proof (asked_unlocked s request) as Hu. set (d := demand_of s request) in *. clearbody d.
  intros (m' & St) Hh Hs. unfold label_of in *.
  destruct St as [? v s1 Hv M|d p h s1 Hd Hne M|? ? ? ? ? ? ? ? s1 Heq|? ? ? ? ? s1 Heq|? ? ? ? s1]; cbn [presents] in *.
  - split; [by eapply look_counted|done].
  - rewrite Hd in *. destruct (Hu _ _ eq_refl). rewrite bool_decide_false in * by done.
    split; [by eapply miss_counted|done].
  - by rewrite bool_decide_true in Hh.
  - by rewrite bool_decide_true in Hh.
  - done.
Qed.

Lemma misses_cons l ls : misses (l :: ls) = misses [l] + misses ls.
Proof. unfold misses. rewrite !filter_cons, filter_nil. case_decide; cbn [length]; lia. Qed.
Lemma misses_pos ls : 0 <= misses ls.
Proof. unfold misses. lia. Qed.

Lemma counted_trans n n' m m1 s s1 s' : 0 <= n -> 0 <= n' -> m1 = (if n =? 0 then m else persist s1 m) ->
  counted n m s s1 -> counted n' m1 s1 s' -> counted (n + n') m s s'.
Proof.
  intros Hn Hn' -> (T1 & B1 & K1 & R1 & S1 & E1) (T2 & B2 & K2 & R2 & S2 & E2). unfold counted.
  split; [lia|]. split; [lia|]. split; [intros p; by rewrite K2, K1|]. split; [|split; [|congruence]].
  - destruct (n =? 0) eqn:En, (n' =? 0) eqn:En'; zbool; subst; cbn [Z.add Z.eqb]; try done.
    + rewrite Z.add_0_l, (proj2 (Z.eqb_neq _ _) En'). exact R2.
    + rewrite Z.add_0_r, (proj2 (Z.eqb_neq _ _) En). by rewrite (persist_state s1 s') by auto.
    + rewrite (proj2 (Z.eqb_neq (n + n') 0)) by lia. by rewrite persist_twice in R2.
  - intros Hz. rewrite S2, S1 by lia. done.
Qed.

Lemma run_counted cs : forall m s, ready m s -> Forall command_fresh cs -> 0 <= tries s -> 0 <= boot_tries s ->
  Hit ∉ labels cs s -> Store ∉ labels cs s ->
  wps (run_commands cs) (fun _ s' => counted (misses (labels cs s)) m s s' /\ 0 <= tries s' /\ 0 <= boot_tries s') s.
Proof.
  induction cs as [|[e request] cs IH]; intros m s R Hcs Ht Hb Hh Hs; cbn [run_commands].
  { apply wps_ret. split; [|done]. eapply look_counted; [apply same_tokens_refl|]. by split. }
  apply Forall_cons in Hcs as [Hc Hcs]. cbn [labels] in *.
  pose proof (fresh_command m s e request R Hc) as H. unfold wps in H |- *. unfold bind at 1.
  destruct (ctap_client_pin e request s) as [[r s1]|f]; [|done].
  apply not_elem_of_cons in Hh as [Hh1 Hh], Hs as [Hs1 Hs].
  destruct (guess_counted _ _ _ _ _ _ H ltac:(congruence) ltac:(congruence)) as [C1 Hm].
  set (l := label_of s (demand_of s request)) in *. pose proof C1 as (T1 & B1 & _ & R1 & _).
  assert (Hl : misses [l] = 0 \/ misses [l] = 1 /\ l = Miss) by (unfold misses; by destruct l; cbn; auto).
  eapply (wps_step _ _ _ _ s1); [apply (IH _ s1 R1 Hcs); [destruct Hl as [|[? ->]]; [|specialize (Hm eq_refl)]; lia..|done|done]|].
  cbn beta. intros rs s2 (C2 & T2 & B2). apply wps_ret. split; [|done]. rewrite misses_cons.
  eapply counted_trans; [apply misses_pos|apply misses_pos|reflexivity|exact C1|exact C2].
Qed.

(** ** Locked *)

Lemma same_tokens_trans v1 v2 v3 : same_tokens v1 v2 -> same_tokens v2 v3 -> same_tokens v1 v3.
Proof.
  intros [B1 T1] [B2 T2]. split; [congruence|]. intros p. destruct (T1 p), (T2 p). split; congruence.
Qed.

Lemma locked_demand s request : tries s <= 0 -> is_pin_set (STATE s) = 1 -> demand_of s request = Look.
Proof.
  intros Ht Hset. unfold demand_of. destruct (request_of request) as [cp|]; [|done]. unfold cp_demand.
  rewrite Hset, (proj2 (Z.leb_le _ _) Ht). cbn [Z.eqb Pos.eqb negb andb orb].
  destruct (negb _); [done|]. by rewrite andb_false_r; destruct (_ =? _).
Qed.

Lemma run_locked cs : forall m s, ready m s -> Forall command_ok cs -> tries s <= 0 -> is_pin_set (STATE s) = 1 ->
  wps (run_commands cs) (fun _ s' => STATE s' = STATE s /\ same_tokens (d_pin s) (d_pin s') /\ ready m s') s.
Proof.
  induction cs as [|[e request] cs IH]; intros m s R Hcs Ht Hset; cbn [run_commands]; [by apply wps_ret|].
  apply Forall_cons in Hcs as [[He Hb] Hcs].
  eapply (wps_step _ _ (fun _ s' => STATE s' = STATE s /\ same_tokens (d_pin s) (d_pin s') /\ ready m s')).
  - eapply wps_mono; [apply (ctap_client_pin_ok m s e request R He); [lia|done]|].
    rewrite (locked_demand s request Ht Hset). assert (HL : forall r s1, stepped m s e Look r s1 ->
      STATE s1 = STATE s /\ same_tokens (d_pin s) (d_pin s1) /\ ready m s1).
    { intros r s1 (m1 & St). inversion St as [? v ? Hv M|? ? ? ? Hd| | |]; subst; [|done].
      rewrite (m_pin _ _ _ _ _ M). split; [apply M|]. split; [done|apply M]. }
    intros [x|a] s1; apply HL.
  - cbn beta. intros r s1 (Es & Hv & R1). unfold tries in *. rewrite <- Es in Ht, Hset.
    eapply wps_step; [by apply (IH m s1)|]. cbn beta. intros rs s2 (Es2 & Hv2 & R2). apply wps_ret.
    split; [congruence|]. split; [by eapply same_tokens_trans|done].
Qed.

(** C1: any sequence of clientPIN commands, whatever their bytes, is a run of
    the state machine of PIN, counters and tokens.  What a command asks for is
    read off its bytes: protocol, keys, permissions, relying party and the PIN
    hash it presents.  A command that asks for nothing keeps everything; one
    that presents another hash than the stored one loses a try, gets the error
    of the counters and nothing else; one that presents the stored hash gets the
    new token, encrypted under the key of its session, or has its new PIN
    stored.  From a device that is ready nothing is read or written outside of
    an object. *)
Theorem client_pin_refines cs m s : ready m s -> Forall command_fresh cs ->
  match run_commands cs s with
  | Done (rs, s') => exists m', pin_trace m s cs rs m' s' /\ ready m' s'
  | Fault f => f = FAssert \/ f = FExit
  end.
Proof. intros R Hcs. exact (run_trace cs m s R Hcs). Qed.

(** C2: a platform whose requests never present the stored PIN hash, and that
    does not set a first PIN, has at most as many guesses as the smaller counter
    says, over any number of commands of any bytes: each request that presents a
    wrong hash costs one try of both counters, the count is on the volume when
    the answer is given, neither counter gets below zero, and no token is begun. *)
Theorem pin_guesses_bounded cs m s : ready m s -> Forall command_fresh cs -> 0 <= tries s -> 0 <= boot_tries s ->
  Hit ∉ labels cs s -> Store ∉ labels cs s ->
  let n := misses (labels cs s) in
  match run_commands cs s with
  | Done (_, s') => n <= Z.min (tries s) (boot_tries s) /\ tries s' = tries s - n /\ boot_tries s' = boot_tries s - n /\
      no_token s s' /\ ready (if n =? 0 then m else persist s' m) s'
  | Fault f => f = FAssert \/ f = FExit
  end.
Proof.
  intros R Hcs Ht Hb Hh Hs n. pose proof (run_counted cs m s R Hcs Ht Hb Hh Hs) as H. unfold wps in H.
  destruct (run_commands cs s) as [[rs s']|f]; [|done]. destruct H as ((T & B' & K & R' & _) & Ht' & Hb').
  fold n in T, B', R'. split; [lia|]. by split_and!.
Qed.

(** C6: once the last try is gone the device stays locked: no sequence of
    clientPIN commands changes the stored PIN, the counters, the tokens or the
    volume. *)
Theorem pin_lock_absorbing cs m s : ready m s -> Forall command_ok cs -> tries s <= 0 -> is_pin_set (STATE s) = 1 ->
  match run_commands cs s with
  | Done (_, s') => STATE s' = STATE s /\ same_tokens (d_pin s) (d_pin s') /\ ready m s'
  | Fault f => f = FAssert \/ f = FExit
  end.
Proof. exact (run_locked cs m s). Qed.

End Lock.

(** ** On the concrete device *)

Import Lfs.Ram Board.Sim Demo.Toy.

(** The PIN set, with [n] tries left. *)
Definition demo_pin_dev (n : Z) : dev := demo <| STATE := demo_state <| remaining_tries := n |> |>.

Lemma pt_zero_ok : pt_ok pt_zero.
Proof. split; try done. apply (zeros_bytes 32). Qed.

Lemma demo_pin_ready n : -128 <= n < 128 -> ready demo_files (demo_pin_dev n).
Proof.
  intros Hn. split; try done; try apply pt_zero_ok; try (by apply bytes_all).
  - split; [exact demo_vol|]. split; [by split|]. split; [|done]. destruct demo_state_ok. by split.
  - split; [apply bytes_all; reflexivity|done].
Qed.

(** A getPinToken request of protocol one, with the hash [h] as it is sent. *)
Definition demo_token_request (h : list Z) : list Z :=
  [0xa4; 0x01; 0x01; 0x02; 0x05; 0x03; 0xa5; 0x01; 0x02; 0x03; 0x38; 0x18; 0x20; 0x01; 0x21; 0x58; 0x20] ++ zeros 32 ++
  [0x22; 0x58; 0x20] ++ zeros 32 ++ [0x06; 0x50] ++ h.

Definition demo_encoder : Enc := (cbor_encoder_init 256, zeros 256).

(** getPINRetries, a wrong guess, getKeyAgreement, and bytes that are not a request. *)
Definition demo_commands : list (Enc * list Z) :=
  [(demo_encoder, [0xa1; 0x02; 0x01]); (demo_encoder, demo_token_request (zeros 16));
   (demo_encoder, [0xa2; 0x01; 0x01; 0x02; 0x02]); (demo_encoder, [0xff; 0x00])].
Lemma demo_commands_fresh : Forall command_fresh demo_commands.
Proof.
  assert (H : forall l, forallb (fun x => (0 <=? x) && (x <? 256)) l = true -> command_fresh (demo_encoder, l)).
  { intros l Hl. split; [split; [vm_compute; lia|reflexivity]|by apply bytes_all]. }
  repeat (constructor; [apply H; vm_compute; reflexivity|]). constructor.
Qed.
Lemma demo_commands_ok : Forall command_ok demo_commands.
Proof. eapply Forall_impl; [exact demo_commands_fresh|]. intros [] [H1 H2]. split; [by apply fresh_ok|done]. Qed.

(** What they ask of the PIN. *)
Example demo_labels : labels (B := Sim) (L := Ram) (E := ToyEcc) demo_commands (demo_pin_dev 8) = [Quiet; Miss; Quiet; Quiet].
Proof. vm_compute. reflexivity. Qed.
Lemma demo_guesses : Hit ∉ [Quiet; Miss; Quiet; Quiet] /\ Store ∉ [Quiet; Miss; Quiet; Quiet].
Proof. set_solver. Qed.

Lemma client_pin_refines_witness :
  match run_commands demo_commands (demo_pin_dev 8) with
  | Done (rs, s') => exists m', pin_trace demo_files (demo_pin_dev 8) demo_commands rs m' s' /\ ready m' s'
  | Fault f => f = FAssert \/ f = FExit
  end.
Proof.
  apply (client_pin_refines (L := Ram) (B := Sim) (E := ToyEcc) demo_commands demo_files (demo_pin_dev 8)).
  - apply demo_pin_ready. lia.
  - exact demo_commands_fresh.
Defined.

Lemma pin_guesses_bounded_witness :
  match run_commands demo_commands (demo_pin_dev 8) with
  | Done (_, s') => 1 <= Z.min (tries (demo_pin_dev 8)) (boot_tries (demo_pin_dev 8)) /\
      tries s' = tries (demo_pin_dev 8) - 1 /\ boot_tries s' = boot_tries (demo_pin_dev 8) - 1 /\
      no_token (demo_pin_dev 8) s' /\ ready (persist s' demo_files) s'
  | Fault f => f = FAssert \/ f = FExit
  end.
Proof.
  pose proof (pin_guesses_bounded (L := Ram) (B := Sim) (E := ToyEcc) demo_commands demo_files (demo_pin_dev 8)
    (demo_pin_ready 8 ltac:(lia)) demo_commands_fresh ltac:(cbn; lia) ltac:(vm_compute; discriminate)) as H.
  rewrite demo_labels in H. specialize (H (proj1 demo_guesses) (proj2 demo_guesses)). cbv zeta in H.
  change (misses [Quiet; Miss; Quiet; Quiet]) with 1 in H. change (1 =? 0) with false in H. exact H.
Defined.

Lemma pin_lock_absorbing_witness :
  match run_commands demo_commands (demo_pin_dev 0) with
  | Done (_, s') => STATE s' = STATE (demo_pin_dev 0) /\ same_tokens (d_pin (demo_pin_dev 0)) (d_pin s') /\
      ready demo_files s'
  | Fault f => f = FAssert \/ f = FExit
  end.
Proof.
  apply (pin_lock_absorbing (L := Ram) (B := Sim) (E := ToyEcc) demo_commands demo_files (demo_pin_dev 0)).
  - apply demo_pin_ready. lia.
  - exact demo_commands_ok.
  - cbn. lia.
  - reflexivity.
Defined.

(** The commands do come to an end there. *)
Example demo_commands_run :
  match run_commands (B := Sim) (L := Ram) (E := ToyEcc) demo_commands (demo_pin_dev 8) with
  | Done (rs, s') => tries s' = 7 /\ boot_tries s' = 2 /\ rs !! 1%nat = Some (inl CTAP2_ERR_PIN_INVALID)
  | Fault _ => False
  end.
Proof. vm_compute. done. Qed.

End PinLock.
