(* ===== verification/PinToken.v ===== *)
(** * What a token is good for

    Other commands are authorised by a MAC under the token: exactly while the
    token is in use and within its time limits.  A token handed out works for
    the platform that asked for it, and a PIN that was stored is the PIN. *)

From S2P Require Import Prelude Monad Lfs Fs Board CborEncoder Sha256 Aes Crypto AesBlocks Rng State CtapTypes Dev Demo Device.
From S2P Require Import DeviceProps RkStore CtapStatus Credential ClientPin PinBase Halting PinSteps PinAuth PinLock.
Import Monad Lfs Fs Board CborEncoder Sha256 Aes Crypto AesBlocks Rng State CtapTypes Dev Demo Device
  DeviceProps RkStore CtapStatus Credential ClientPin PinBase Halting PinSteps PinAuth PinLock.

#[local] Open Scope Z_scope.

Module PinToken.

#[local] Opaque hmac sha256 KeyExpansion Cipher InvCipher state_bytes.

(** The three steps of the observer at [now]. *)
Definition obs_age (now : Z) (t : pinUvAuthToken_state_t) : pinUvAuthToken_state_t :=
  if u32 (now - usage_timer_start_ms t) >? TOKEN_MAX_USAGE_PERIOD_MS then token_state_zero else t.
Definition obs_present (now : Z) (t : pinUvAuthToken_state_t) : pinUvAuthToken_state_t :=
  if u32 (now - usage_timer_start_ms t) >? TOKEN_MAX_USER_PRESENT_MS
  then (if in_use t then t <| user_present := false |> else t) else t.
Definition obs_used (now : Z) (t : pinUvAuthToken_state_t) : pinUvAuthToken_state_t :=
  if u32 (now - usage_timer_last_used_ms t) >? TOKEN_MAX_USER_PRESENT_MS
  then token_state_zero else t <| usage_timer_last_used_ms := now |>.
Definition observed (now : Z) (t : pinUvAuthToken_state_t) : pinUvAuthToken_state_t :=
  obs_used now (obs_present now (obs_age now t)).

(** In use, and neither too old nor too long unused. *)
Definition live (now : Z) (t : pinUvAuthToken_state_t) : Prop :=
  in_use t = true /\ u32 (now - usage_timer_start_ms t) <= TOKEN_MAX_USAGE_PERIOD_MS /\
  u32 (now - usage_timer_last_used_ms t) <= TOKEN_MAX_USER_PRESENT_MS.

Lemma obs_present_same now t : in_use (obs_present now t) = in_use t /\
  usage_timer_last_used_ms (obs_present now t) = usage_timer_last_used_ms t.
Proof. unfold obs_present. destruct (_ >? _), (in_use t) eqn:Hu; cbn; rewrite ?Hu; done. Qed.

Lemma observed_live now t : in_use t = true -> in_use (observed now t) = true <-> live now t.
Proof.
  intros Hu. unfold observed, live, obs_used. destruct (obs_present_same now (obs_age now t)) as [Ei El].
  rewrite El. assert (Ho : forall b : bool, in_use (if b then token_state_zero else (obs_present now (obs_age now t)) <| usage_timer_last_used_ms := now |>)
    = negb b && in_use (obs_age now t)).
  { intros []; [done|]. by rewrite <- Ei. }
  rewrite Ho. unfold obs_age. destruct (u32 (now - usage_timer_start_ms t) >? _) eqn:E1; zbool.
  - rewrite andb_false_r. split; [done|intros (_ & ? & _); lia].
  - rewrite Hu, andb_true_r, negb_true_iff. destruct (_ >? _) eqn:E2; zbool; split; try done.
    + intros (_ & _ & Hl). lia.
Qed.

Section Token.
Context {L : Lfs} {LL : LfsLaws L} {B : Board} {E : Ecc} {EL : EccLaws E}.

(** What [millis] returns next. *)
Definition clock (s : dev) : Z := match millis s with Done (now, _) => now | Fault _ => 0 end.

Lemma clock_ok s : wps millis (fun now s' => now = clock s /\ calm s s') s.
Proof.
  pose proof (millis_ok s) as H. unfold clock, wps in *. destruct (millis s) as [[now s']|]; [|done].
  split; [done|apply H].
Qed.

Definition ts (p : Z) (s : dev) : pinUvAuthToken_state_t := token_state (get_pin_protocol_state p (d_pin s)).
Definition set_ts (p : Z) (t : pinUvAuthToken_state_t) (v : pin_vars) : pin_vars :=
  set_pin_protocol_state p (fun x => x <| token_state := t |>) v.

Lemma set_ts_twice p t t' v : set_ts p t (set_ts p t' v) = set_ts p t v.
Proof. unfold set_ts. by rewrite set_pin_compose. Qed.
Lemma get_set_ts p t v : token_state (get_pin_protocol_state p (set_ts p t v)) = t.
Proof. unfold set_ts, get_pin_protocol_state, set_pin_protocol_state. by destruct (p =? 1). Qed.
Lemma set_ts_id p v : set_ts p (token_state (get_pin_protocol_state p v)) v = v.
Proof.
  destruct v as [[] [] ?]. unfold set_ts, get_pin_protocol_state, set_pin_protocol_state. by destruct (p =? 1).
Qed.

(** From [s], only the token state of [p] was set to [t]. *)
Definition ts_moved (m : volume) (p : Z) (s : dev) (t : pinUvAuthToken_state_t) (s' : dev) : Prop :=
  moved s (STATE s) (set_ts p t (d_pin s)) m s'.

Lemma ts_moved_ts m p s t s' : ts_moved m p s t s' -> ts p s' = t.
Proof. intros M. unfold ts. rewrite (m_pin _ _ _ _ _ M). apply get_set_ts. Qed.

Lemma upd_ts_step m p f s s1 t : ts_moved m p s t s1 -> wps (upd_ts p f) (fun _ => ts_moved m p s (f t)) s1.
Proof.
  intros M. eapply wps_mono; [apply (set_ts_ok m s1 p f (m_ready _ _ _ _ _ M))|]. cbn beta. intros _ s2 M2.
  pose proof (ts_moved_ts _ _ _ _ _ M) as Et. rewrite (m_state _ _ _ _ _ M) in M2.
  eapply moved_trans; [exact M|].
  replace (set_ts p (f t) (d_pin s)) with (set_pin_protocol_state p (fun x => x <| token_state := f (token_state x) |>) (d_pin s1)); [done|].
  rewrite (m_pin _ _ _ _ _ M). unfold set_ts. rewrite set_pin_compose. by apply set_pin_ext.
Qed.

Lemma observer_ok m p s : ready m s -> in_use (ts p s) = true ->
  wps (pinUvAuthToken_usage_time_observer p) (fun _ => ts_moved m p s (observed (clock s) (ts p s))) s.
Proof.
  intros R Hu. unfold pinUvAuthToken_usage_time_observer, get_pt.
  apply wps_bind, wps_gets. fold (ts p s). rewrite Hu. cbn [negb].
  eapply wps_step; [apply clock_ok|]. cbn beta. intros now s1 [-> C]. set (now := clock s).
  assert (M1 : ts_moved m p s (ts p s) s1).
  { unfold ts_moved, ts. rewrite set_ts_id. by apply (calm_moved m). }
  apply wps_bind, wps_gets. fold (ts p s1). rewrite (ts_moved_ts _ _ _ _ _ M1). unfold observed.
  eapply (wps_step _ _ (fun _ => ts_moved m p s (obs_age now (ts p s)))).
  { unfold obs_age. destruct (_ >? _); [by apply (upd_ts_step m p (fun _ => token_state_zero) s s1 (ts p s))|by apply wps_ret]. }
  set (t1 := obs_age now (ts p s)). intros _ s2 M2. apply wps_bind, wps_gets. fold (ts p s2). rewrite (ts_moved_ts _ _ _ _ _ M2).
  eapply (wps_step _ _ (fun _ => ts_moved m p s (obs_present now t1))).
  { unfold obs_present. destruct (_ >? _); [|by apply wps_ret].
    exact (upd_ts_step m p (fun t => if in_use t then t <| user_present := false |> else t) s s2 t1 M2). }
  set (t2 := obs_present now t1). intros _ s3 M3. apply wps_bind, wps_gets. fold (ts p s3). rewrite (ts_moved_ts _ _ _ _ _ M3).
  unfold obs_used. destruct (_ >? _).
  - by apply (upd_ts_step m p (fun _ => token_state_zero) s s3 t2).
  - exact (upd_ts_step m p (fun t => t <| usage_timer_last_used_ms := now |>) s s3 t2 M3).
Qed.

Lemma token_of_set_ts p t v : token (get_pin_protocol_state p (set_ts p t v)) = token (get_pin_protocol_state p v).
Proof. unfold set_ts, get_pin_protocol_state, set_pin_protocol_state. by destruct (p =? 1). Qed.

(** The MAC of [msg] under the token of [p]. *)
Definition token_mac (p : Z) (msg : list Z) (s : dev) : list Z := auth_tag p (token (get_pin_protocol_state p (d_pin s))) msg.

Lemma verify_auth_ok m p param msg s : ready m s -> bytes param -> (auth_param_size p <= length param)%nat ->
  wpx (ctap_client_pin_verify_auth_ex param msg p)
    (fun e s' => e = CTAP2_ERR_PIN_AUTH_INVALID /\
      ~ (live (clock s) (ts p s) /\ take (auth_param_size p) param = token_mac p msg s) /\
      exists t, ts_moved m p s t s')
    (fun _ s' => live (clock s) (ts p s) /\ take (auth_param_size p) param = token_mac p msg s /\
      ts_moved m p s (observed (clock s) (ts p s)) s') s.
Proof.
  intros R Bp Lp. unfold ctap_client_pin_verify_auth_ex, wpx.
  destruct (in_use (ts p s)) eqn:Hu.
  - eapply wps_step; [by apply (observer_ok m p)|]. cbn beta. intros _ s1 M. unfold get_pt. apply wps_bind, wps_gets.
    fold (ts p s1). rewrite (ts_moved_ts _ _ _ _ _ M). pose proof (observed_live (clock s) _ Hu) as Hl.
    destruct (in_use (observed _ _)) eqn:Hu1; cbn [negb].
    + pose proof (m_ready _ _ _ _ _ M) as R1. rewrite (m_pin _ _ _ _ _ M), token_of_set_ts.
      destruct (verify_done p (token (get_pin_protocol_state p (d_pin s))) msg param s1) as (s2 & E2 & C2);
        [by eapply ready_ctx|apply (ready_pt _ _ p R)|done|done|]. fold (token_mac p msg s) in E2.
      eapply wps_step; [by eapply (wps_done _ (fun r s' => r = _ /\ s' = s2))|]. cbn beta. intros _ _ [-> ->].
      assert (M2 : ts_moved m p s (observed (clock s) (ts p s)) s2).
      { unfold ts_moved in *. eapply moved_trans; [exact M|].
        pose proof (calm_moved m s1 s2 R1 C2) as M2. by rewrite (m_state _ _ _ _ _ M), (m_pin _ _ _ _ _ M) in M2. }
      case_bool_decide as Hm; cbn [Z.ltb Z.compare].
      * split; [by apply Hl|]. by split.
      * split; [done|]. split; [by intros [_ ?]|]. by eexists.
    + split; [done|]. split; [intros [Hv _]; by apply Hl in Hv|]. by eexists.
  - eapply (wps_step _ _ (fun _ s' => s' = s)).
    { unfold pinUvAuthToken_usage_time_observer, get_pt. apply wps_bind, wps_gets. fold (ts p s). by rewrite Hu. }
    intros _ ? ->. unfold get_pt. apply wps_bind, wps_gets. fold (ts p s). rewrite Hu. split; [done|].
    split; [by intros [[Hv _] _]; rewrite Hu in Hv|]. exists (ts p s). unfold ts_moved, ts. rewrite set_ts_id.
    by apply (calm_moved m).
Qed.

(** C5: another command is authorised by a pinUvAuthParam exactly when the token
    of its protocol is in use, was issued at most ten minutes and used at most
    thirty seconds ago by the device's clock, and the parameter is the MAC of the
    message under the token; then the clock of the token starts again and
    nothing else changes. *)
Theorem verify_auth_ex_correct m p param msg s : ready m s -> bytes param -> (auth_param_size p <= length param)%nat ->
  match ctap_client_pin_verify_auth_ex param msg p s with
  | Done (inr _, s') => live (clock s) (ts p s) /\ take (auth_param_size p) param = token_mac p msg s /\
      ts_moved m p s (observed (clock s) (ts p s)) s'
  | Done (inl e, _) => e = CTAP2_ERR_PIN_AUTH_INVALID /\
      ~ (live (clock s) (ts p s) /\ take (auth_param_size p) param = token_mac p msg s)
  | Fault f => f = FAssert \/ f = FExit
  end.
Proof.
  intros R Bp Lp. pose proof (verify_auth_ok m p param msg s R Bp Lp) as H. unfold wpx, wps in H.
  destruct (ctap_client_pin_verify_auth_ex param msg p s) as [[[] ?]|]; [|done|done].
  destruct H as (? & ? & _). done.
Qed.

(** ** The platform's side *)

(** What the platform gets out of a token response. *)
Definition platform_token (p : Z) (pk out : list Z) (s : dev) : list Z :=
  match shared_point p pk s with
  | Some point => unwrap p (shared_keys p point).1 out (length out)
  | None => []
  end.

Lemma granted_ts p perm now rp n v : exists h b, token_state (get_pin_protocol_state p (granted p perm now rp n v))
  = mkTs h b perm now now true true false.
Proof.
  unfold granted, set_pin_protocol_state, get_pin_protocol_state. destruct (0 <? n)%nat, (p =? 1); cbn; by eexists _, _.
Qed.

Lemma auth_tag_length p key msg : length (auth_tag p key msg) = auth_param_size p.
Proof. unfold auth_tag. rewrite length_take, hmac_length. unfold auth_param_size. destruct (_ =? _); done. Qed.

(** C3: a token handed out for the right PIN works: the platform decrypts it
    from the response, and any message it authenticates with it is accepted
    until thirty seconds have passed.  For a wrong PIN there is no token. *)
Theorem pin_token_round_trip m p pk pinHashEnc perm rp n s :
  ready m s -> 0 < tries s -> p = 1 \/ p = 2 ->
  bytes pinHashEnc -> (hash_enc_size p <= length pinHashEnc)%nat -> (n <= length rp)%nat ->
  match add_enc_pinUvAuthToken pk pinHashEnc p perm rp n s with
  | Done (inr out, s1) =>
      presented p pk pinHashEnc s = stored_hash s /\ permissions (ts p s1) = perm /\
      forall msg, match ctap_client_pin_verify_auth_ex (auth_tag p (platform_token p pk out s) msg) msg p s1 with
      | Done (inr _, _) => True
      | Done (inl _, _) => TOKEN_MAX_USER_PRESENT_MS < u32 (clock s1 - usage_timer_start_ms (ts p s1))
      | Fault f => f = FAssert \/ f = FExit
      end
  | Done (inl e, s1) => presented p pk pinHashEnc s <> stored_hash s /\ e = miss_status s /\ tries s1 = tries s - 1
  | Fault f => f = FAssert \/ f = FExit
  end.
Proof.
  intros R Ht Hp Bh Lh Hn. pose proof (add_enc_ok m p pk pinHashEnc perm rp n s R Ht Hp Bh Lh Hn) as H.
  unfold wpx, wps in H. destruct (add_enc_pinUvAuthToken pk pinHashEnc p perm rp n s) as [[[e|out] s1]|f]; [| |done].
  - destruct H as (Hne & -> & (k & _ & M)). do 2 (split; [done|]). unfold tries. by rewrite (m_state _ _ _ _ _ M), miss_tries.
  - destruct H as (Heq & (now & Hnow & Hh) & _ & point & Ep & Htok). split; [done|].
    destruct (hit_vars _ _ _ _ Hh) as (t1 & t2 & Ev).
    destruct (granted_ts p perm now rp n (renewed (remaining_tries (STATE s)) t1 t2 (d_pin s))) as (h & b & Ets).
    rewrite <- Ev in Ets. fold (ts p s1) in Ets. split; [by rewrite Ets|]. intros msg.
    unfold platform_token. rewrite Ep, Htok. fold (token_mac p msg s1).
    assert (Hb : bytes (token_mac p msg s1)) by apply Forall_take, hmac_bytes.
    assert (Lt : length (token_mac p msg s1) = auth_param_size p) by apply auth_tag_length.
    pose proof (verify_auth_ok _ p (token_mac p msg s1) msg s1 (hit_ready _ _ _ _ Hh) Hb ltac:(lia)) as V.
    unfold wpx, wps in V. destruct (ctap_client_pin_verify_auth_ex _ msg p s1) as [[[e|[]] s2]|f]; [|done|done].
    destruct V as (_ & Hno & _). rewrite take_ge in Hno by lia. unfold live in Hno. rewrite Ets in *.
    cbn [in_use usage_timer_start_ms usage_timer_last_used_ms] in *.
    apply Z.nle_gt. intros Hle. apply Hno. split; [|done]. split; [done|]. split; [|done].
    unfold TOKEN_MAX_USAGE_PERIOD_MS, TOKEN_MAX_USER_PRESENT_MS in *. lia.
Qed.

Lemma stored_ready asked pin m s s' : pin_stored asked pin m s s' -> ready (persist s' m) s'.
Proof. intros (? & ? & ? & ? & _ & M). apply M. Qed.

Lemma stored_facts asked pin m s s' : pin_stored asked pin m s s' ->
  stored_hash s' = pin_digest pin /\ is_pin_set (STATE s') = 1 /\
  tries s' = (if asked then PIN_LOCKOUT_ATTEMPTS else tries s).
Proof.
  intros (iv & h & t1 & t2 & Hd & M). rewrite (moved_stored_hash _ _ _ _ _ M). unfold tries. rewrite (m_state _ _ _ _ _ M).
  by destruct asked.
Qed.


End Token.

(** ** On the concrete device *)

Import Lfs.Ram Board.Sim Demo.Toy.

Definition demo_msg : list Z := [0x6d; 0x73; 0x67].

Lemma verify_auth_ex_correct_witness :
  match ctap_client_pin_verify_auth_ex (zeros 32) demo_msg 2 (demo_pin_dev 8) with
  | Done (inr _, s') => live (clock (demo_pin_dev 8)) (ts 2 (demo_pin_dev 8)) /\
      take (auth_param_size 2) (zeros 32) = token_mac 2 demo_msg (demo_pin_dev 8) /\
      ts_moved demo_files 2 (demo_pin_dev 8) (observed (clock (demo_pin_dev 8)) (ts 2 (demo_pin_dev 8))) s'
  | Done (inl e, _) => e = CTAP2_ERR_PIN_AUTH_INVALID /\
      ~ (live (clock (demo_pin_dev 8)) (ts 2 (demo_pin_dev 8)) /\
         take (auth_param_size 2) (zeros 32) = token_mac 2 demo_msg (demo_pin_dev 8))
  | Fault f => f = FAssert \/ f = FExit
  end.
Proof.
  apply (verify_auth_ex_correct (L := Ram) (B := Sim) demo_files 2 (zeros 32) demo_msg (demo_pin_dev 8)).
  - apply demo_pin_ready. lia.
  - apply zeros_bytes.
  - vm_compute. lia.
Defined.

Lemma pin_token_round_trip_witness :
  match add_enc_pinUvAuthToken (zeros 64) (zeros 32) 2 3 [] 0 (demo_pin_dev 8) with
  | Done (inr out, s1) =>
      presented 2 (zeros 64) (zeros 32) (demo_pin_dev 8) = stored_hash (demo_pin_dev 8) /\ permissions (ts 2 s1) = 3 /\
      forall msg, match ctap_client_pin_verify_auth_ex (auth_tag 2 (platform_token 2 (zeros 64) out (demo_pin_dev 8)) msg) msg 2 s1 with
      | Done (inr _, _) => True
      | Done (inl _, _) => TOKEN_MAX_USER_PRESENT_MS < u32 (clock s1 - usage_timer_start_ms (ts 2 s1))
      | Fault f => f = FAssert \/ f = FExit
      end
  | Done (inl e, s1) => presented 2 (zeros 64) (zeros 32) (demo_pin_dev 8) <> stored_hash (demo_pin_dev 8) /\
      e = miss_status (demo_pin_dev 8) /\ tries s1 = tries (demo_pin_dev 8) - 1
  | Fault f => f = FAssert \/ f = FExit
  end.
Proof.
  apply (pin_token_round_trip (L := Ram) (B := Sim) (E := ToyEcc) demo_files 2 (zeros 64) (zeros 32) 3 [] 0 (demo_pin_dev 8)).
  - apply demo_pin_ready. lia.
  - reflexivity.
  - by right.
  - apply zeros_bytes.
  - vm_compute. lia.
  - vm_compute. lia.
Defined.


(** A session of the platform with protocol two: it sets the PIN 1234, asks
    for a token, and has a message accepted. *)
Definition demo_session : option (Z + unit) :=
  let s := demo <| STATE := demo_state <| is_pin_set := 0 |> |> in
  let pin := [0x31; 0x32; 0x33; 0x34] in
  let keys := shared_keys 2 (zeros 32) in
  let enc := fun data => zeros 16 ++ cbc_cipher keys.1 (zeros 16) data in
  let new := enc (pin ++ zeros 60) in
  match (update_pin_if_verified new 80 (zeros 64) (auth_tag 2 keys.2 new) None 2 ^;
         let^ out := add_enc_pinUvAuthToken (zeros 64) (enc (pin_digest pin)) 2 3 [] 0 in
         ctap_client_pin_verify_auth_ex (auth_tag 2 (platform_token 2 (zeros 64) out s) demo_msg) demo_msg 2) s with
  | Done (r, _) => Some r
  | Fault _ => None
  end.
Example demo_session_ok : demo_session = Some (inr tt).
Proof. vm_compute. reflexivity. Qed.

End PinToken.
