(* ===== verification/ParseSteps.v ===== *)
(** * Parsers that return or stop at an assertion

    [wpe m Q s]: from [s] the parser [m] ends with a status, or with a result and
    a state in [Q], or stops the device at an assertion; it stays inside of its
    buffers and comes to an end. *)

From S2P Require Import Prelude Monad CborParser CborProps CborApi CborSteps CborFind CtapStatus CtapTypes CtapParse ParseProps.
From S2P Require Import Extensions.
Import Monad CborParser CborProps CborApi CborSteps CborFind CtapStatus CtapTypes CtapParse ParseProps Extensions.
Import CborSteps.

#[local] Open Scope Z_scope.

Module ParseSteps.

Section Wpe.
Context {S : Type}.

Definition wpe {A} (m : X S A) (Q : A -> S -> Prop) (s : S) : Prop :=
  wpa m (fun r s' => match r with inl _ => True | inr a => Q a s' end) s.

Lemma wpe_ok {A} (a : A) (Q : A -> S -> Prop) s : Q a s -> wpe (ok a) Q s.
Proof. done. Qed.
Lemma wpe_throw {A} e (Q : A -> S -> Prop) s : wpe (throw e) Q s.
Proof. done. Qed.
Lemma wpe_bind {A B} (m : X S A) (k : A -> X S B) P Q s :
  wpe m P s -> (forall a s', P a s' -> wpe (k a) Q s') -> wpe (xbind m k) Q s.
Proof.
  intros H Hk. apply wpa_bind. eapply wpa_mono; [exact H|]. intros [e|a] s' Hp; [done|by apply Hk].
Qed.
Lemma wpe_step {A B} (m : M S A) (k : A -> X S B) P Q s :
  wpa m P s -> (forall a s', P a s' -> wpe (k a) Q s') -> wpe (bind m k) Q s.
Proof. intros H Hk. apply wpa_bind. eapply wpa_mono; [exact H|]. exact Hk. Qed.
Lemma wpe_guard {A} b e (k : X S A) Q s : (b = true -> wpe k Q s) -> wpe (guard b e ^; k) Q s.
Proof.
  intros H. eapply (wpe_bind _ _ (fun _ s' => s' = s /\ b = true)).
  - unfold guard. destruct b; [done|apply wpe_throw].
  - by intros _ s' [-> Hb]; apply H.
Qed.
Lemma wpe_mono {A} (m : X S A) (P Q : A -> S -> Prop) s :
  wpe m P s -> (forall a s', P a s' -> Q a s') -> wpe m Q s.
Proof. intros H HQ. eapply wpa_mono; [exact H|]. intros [e|a] s'; auto. Qed.
Lemma wpe_cbor m (Q : CborValue -> Prop) s : or_assert m Q -> wpe (cbor m) (fun it s' => s' = s /\ Q it) s.
Proof.
  unfold or_assert, wpe, wpa, cbor, bind, lift. destruct m as [[e it]|f]; [|done]. intros H.
  destruct e; cbn; auto.
Qed.
Lemma wpe_write {A} dst off src (k : list Z -> X S A) Q s :
  (off + length src <= length dst)%nat ->
  (forall dst', length dst' = length dst -> (bytes dst -> bytes src -> bytes dst') -> wpe (k dst') Q s) ->
  wpe (let* dst' := lift (mem_write dst off src) in k dst') Q s.
Proof.
  intros Hl Hk. unfold wpe, wpa, bind, lift. rewrite mem_write_fits by done.
  apply Hk; [by apply overwrite_length|]. intros Bd Bs. eapply mem_write_bytes; [|exact Bd|exact Bs].
  by apply mem_write_fits.
Qed.
Lemma wpe_assert {A} b (k : unit -> X S A) Q s : (b = true -> wpe (k tt) Q s) ->
  wpe (let* x := lift (assertion b) in k x) Q s.
Proof. intros H. destruct b; [by apply H|done]. Qed.

End Wpe.

(** A parser without state. *)
Abbreviation fine m Q := (wpe m (fun a _ => Q a) tt).

Lemma safe_fine {A} (m : P A) (Q : A -> Prop) : safe m Q -> fine m Q.
Proof. intros (r & E & H). unfold wpe, wpa. rewrite E. by destruct r. Qed.

Lemma wpe_safe_cbor {S A} (m : res (CborError * A)) (Q : A -> Prop) (s : S) :
  safe (cbor m) Q -> wpe (cbor m) (fun a s' => s' = s /\ Q a) s.
Proof.
  intros (r & E & H). unfold wpe, wpa, cbor, bind, lift in *. destruct m as [[e a]|]; [|done].
  destruct e; cbn in *; try done. injection E as [= <-]. done.
Qed.
Lemma wpe_parse {S A} (m : P A) (Q : A -> Prop) (s : S) : fine m Q -> wpe (parse m) (fun a s' => s' = s /\ Q a) s.
Proof.
  unfold wpe, wpa, parse, lift. destruct (m tt) as [[r []]|f]; [|done]. by destruct r.
Qed.

Section Steps.
Context (buf : list Z) (Hbuf : bytes buf).

Lemma advance_wpe {S} r it (s : S) : counted buf r it -> good buf it ->
  wpe (cbor (cbor_value_advance buf it)) (fun it' s' => s' = s /\ counted buf (r - 1) it' /\ (ptr it < ptr it')%nat) s.
Proof.
  intros C G. apply wpe_cbor. destruct (advance_counted buf Hbuf r it C G) as (e & it' & E & H).
  pose proof (value_advance_ok buf it Hbuf (proj1 G)) as (e2 & it2 & E2 & H2). rewrite E in E2 |- *.
  injection E2 as [= <- <-]. intros He. split; [by apply H|]. by apply H2.
Qed.

(** ** Loops over maps *)

Section Loop.
Context {S A : Type} (J : A -> S -> Prop).

(** From [map] on, after the iterator with pointer [p]. *)
Definition loop_end (p : nat) (r : CborValue * A) (s : S) : Prop :=
  J r.2 s /\ parsed buf r.1 /\ (p <= ptr r.1)%nat.

Lemma int_entries_wpe case n : forall map a s,
  (forall key map a s, good buf map -> J a s -> wpe (case key map a) J s) ->
  counted buf (2 * Z.of_nat n) map -> J a s -> wpe (int_entries buf case n map a) (loop_end (ptr map)) s.
Proof.
  induction n as [|n IH]; intros map a s Hcase C Ja; cbn [int_entries].
  { apply wpe_ok. split; [done|]. by split; [eapply c_parsed|]. }
  apply wpe_guard. intros Ht. zbool.
  assert (G : good buf map) by (apply (counted_good buf _ _ C); left; lia).
  eapply wpe_bind; [by apply wpe_safe_cbor, get_int_safe|]. intros key ? [-> _].
  eapply wpe_bind; [by apply (advance_wpe _ _ _ C)|]. intros map1 ? (-> & C1 & L1).
  assert (G1 : good buf map1) by (apply (counted_good buf _ _ C1); left; lia).
  eapply wpe_bind; [by apply Hcase|]. intros a1 s1 Ja1.
  eapply wpe_bind; [by apply (advance_wpe _ _ _ C1)|]. intros map2 ? (-> & C2 & L2).
  eapply wpe_mono; [apply IH; [done| |done]|].
  - by replace (2 * Z.of_nat n) with (2 * Z.of_nat (Datatypes.S n) - 1 - 1) by lia.
  - intros r s' (H1 & H2 & H3). split; [done|]. split; [done|lia].
Qed.

End Loop.

Section PLoop.
Context {A : Type} (I : A -> Prop).

Lemma any_int_safe it : good buf it -> type it = CborIntegerType -> safe (cbor (cbor_value_get_int buf it)) (fun _ => True).
Proof.
  intros [V _] Ht. apply safe_cbor. unfold cbor_value_get_int, cbor_value_is_integer. rewrite Ht. cbn [Z.eqb assertion res_bind].
  replace (CborIntegerType =? CborIntegerType) with true by done. cbn [assertion res_bind].
  destruct (extract_int64_ok buf Hbuf it V) as (n & -> & _). cbn [res_bind]. by eexists _, _.
Qed.

Lemma any_int_entries_wpe case n : forall map a,
  (forall key map a, good buf map -> I a -> fine (case key map a) I) ->
  counted buf (2 * Z.of_nat n) map -> I a ->
  wpe (any_int_entries buf case n map a) (loop_end (fun a _ => I a) (ptr map)) tt.
Proof.
  induction n as [|n IH]; intros map a Hcase C Ja; cbn [any_int_entries].
  { apply wpe_ok. split; [done|]. by split; [eapply c_parsed|]. }
  apply wpe_guard. intros Ht. zbool.
  assert (G : good buf map) by (apply (counted_good buf _ _ C); left; lia).
  eapply wpe_bind; [by apply wpe_safe_cbor, any_int_safe|]. intros key [] _.
  eapply wpe_bind; [by apply (advance_wpe _ _ _ C)|]. intros map1 [] (_ & C1 & L1).
  assert (G1 : good buf map1) by (apply (counted_good buf _ _ C1); left; lia).
  eapply wpe_bind; [by apply Hcase|]. intros a1 [] Ja1.
  eapply wpe_bind; [by apply (advance_wpe _ _ _ C1)|]. intros map2 [] (_ & C2 & L2).
  eapply wpe_mono; [apply IH; [done| |done]|].
  - by replace (2 * Z.of_nat n) with (2 * Z.of_nat (Datatypes.S n) - 1 - 1) by lia.
  - intros r s' (H1 & H2 & H3). split; [done|]. split; [done|lia].
Qed.

End PLoop.

(** ** Values found in a map *)

Lemma find_wpe {S} it s (x : S) : good buf it -> type it = CborMapType ->
  wpe (cbor (cbor_value_map_find_value buf it s)) (fun v x' => x' = x /\ found buf v) x.
Proof. intros [V _] Ht. apply wpe_cbor. by apply map_find_ok. Qed.

Lemma found_valid v : found buf v -> type v <> CborInvalidType ->
  valid buf v \/ remaining v = 0 /\ valid buf (behind v).
Proof. by intros [?|H]. Qed.

(** A string that was found is copied as any other. *)
Lemma good_string v : valid buf v -> cbor_value_is_byte_string v || cbor_value_is_text_string v = true -> good buf v.
Proof.
  intros V Hs. split; [done|]. intros [Ht|Ht]; unfold cbor_value_is_byte_string, cbor_value_is_text_string in Hs;
    rewrite Ht in Hs; discriminate.
Qed.

Lemma found_copy v n : found buf v -> cbor_value_is_byte_string v || cbor_value_is_text_string v = true ->
  safe (copy_string buf v n) (copied n).
Proof.
  intros F Hs. assert (Ht : type v <> CborInvalidType).
  { intros Ht. unfold cbor_value_is_byte_string, cbor_value_is_text_string in Hs. rewrite Ht in Hs. discriminate. }
  destruct (found_valid v F Ht) as [V|[H0 V]];
    [by apply copy_string_safe; [|apply good_string|]|].
  destruct (copy_string_safe buf Hbuf (behind v) n) as (r & E & H);
    [by apply good_string|done|].
  exists r. split; [|done]. rewrite <- E. pose proof (copy_open buf v (Z.of_nat n) H0) as C.
  unfold copy_string, bind, lift.
  destruct (_cbor_value_copy_string buf v _) as [[[[e1 i1] m1] c1]|],
    (_cbor_value_copy_string buf (behind v) _) as [[[[e2 i2] m2] c2]|]; [|done|done|].
  - injection C as [= <- <- <-]. by destruct e1.
  - by injection C as [= <-].
Qed.

Lemma found_length v : found buf v -> type v = CborByteStringType ->
  safe (cbor (cbor_value_calculate_string_length buf v)) (fun _ => True).
Proof.
  intros F Ht. apply safe_cbor. unfold cbor_value_calculate_string_length.
  assert (Hs := byte_string_is v Ht). destruct (found_valid v F) as [V|[H0 V]]; [by rewrite Ht| |].
  - destruct (copy_ok buf Hbuf v SIZE_MAX V Hs) as (e & it' & n & c & -> & _). by exists e, n.
  - destruct (copy_ok buf Hbuf (behind v) SIZE_MAX V Hs) as (e & it' & n & c & E & _).
    pose proof (copy_open buf v SIZE_MAX H0) as C. rewrite E in C.
    destruct (_cbor_value_copy_string buf v SIZE_MAX) as [[[[e1 i1] m1] c1]|]; [|done]. by exists e1, m1.
Qed.

Lemma found_int v : found buf v -> type v = CborIntegerType ->
  safe (cbor (cbor_value_get_int_checked buf v)) (fun _ => True).
Proof.
  intros F Ht. assert (H : forall w, valid buf w -> type w = CborIntegerType ->
    exists e n, cbor_value_get_int_checked buf w = Done (e, n) /\ - INT_MAX - 1 <= n <= INT_MAX).
  { intros w V Hw. apply get_int_checked_ok; [done|done|]. unfold cbor_value_is_integer. by rewrite Hw. }
  apply safe_cbor. destruct (found_valid v F) as [V|[H0 V]]; [by rewrite Ht| |].
  - destruct (H v V Ht) as (e & n & -> & _). by exists e, n.
  - destruct (H _ V Ht) as (e & n & E & _). exists e, n. split; [|done]. exact E.
Qed.

(** ** Credential descriptors *)

Record desc_ok (d : CTAP_credentialDescriptor) : Prop := {
  do_id : length (desc_id d) = CRED_SIZE /\ bytes (desc_id d);
  do_user : user_ok (desc_user d);
}.

(** A parser step of an operation that keeps [d], also when it fails. *)
Definition quiet {S A} (m : X S A) : Prop := forall s r s', m s = Done (r, s') -> s' = s.
Lemma quiet_cbor {S A} (m : res (CborError * A)) : quiet (S := S) (cbor m).
Proof.
  intros s r s'. unfold cbor, bind, lift. destruct m as [[e a]|]; [|done]. destruct e; by intros [= _ <-].
Qed.
Lemma quiet_parse {S A} (m : P A) : quiet (S := S) (parse m).
Proof. intros s r s'. unfold parse, lift. destruct (m tt) as [[x []]|]; [|done]. by intros [= _ <-]. Qed.

Lemma quiet_bind {S A B} (m : X S A) (k : A -> X S B) (P : A -> Prop) Q s : quiet m ->
  wpe m (fun a s' => s' = s /\ P a) s -> (forall e, Q (inl e) s) -> (forall a, P a -> wpa (k a) Q s) ->
  wpa (xbind m k) Q s.
Proof.
  intros Hq H He Hk. unfold xbind, wpa, bind. unfold wpe, wpa in H. pose proof (Hq s) as Hs.
  destruct (m s) as [[[e|a] s']|]; [| |done].
  - rewrite (Hs _ _ eq_refl). apply He.
  - destruct H as [-> H]. by apply Hk.
Qed.
Lemma quiet_guard {S A} b e (k : X S A) Q s : (forall e, Q (inl e) s) -> (b = true -> wpa k Q s) ->
  wpa (guard b e ^; k) Q s.
Proof. intros He Hk. destruct b; [by apply Hk|apply He]. Qed.

Lemma desc_type_ok d t : desc_ok d -> desc_ok (d <| desc_type := t |>).
Proof. by intros []. Qed.

Lemma wpa_modify {S A} f (k : unit -> M S A) Q s : wpa (k tt) Q (f s) -> wpa (bind (modify f) k) Q s.
Proof. done. Qed.

(** The credential keeps the sizes of its arrays, whatever the status. *)
Lemma descriptor_wpa it d : good buf it -> desc_ok d ->
  wpa (ctap_parse_pubkey_credential_descriptor buf it) (fun _ d' => desc_ok d') d.
Proof.
  intros G D. unfold ctap_parse_pubkey_credential_descriptor. apply wpa_modify.
  apply (desc_type_ok d 0) in D. set (d0 := d <| desc_type := 0 |>) in *. clearbody d0.
  apply quiet_guard; [done|]. intros Ht. zbool.
  eapply (quiet_bind _ _ (found buf)); [apply quiet_cbor|by apply find_wpe|done|]. intros v Fv.
  apply quiet_guard; [done|]. intros Hv. zbool.
  eapply (quiet_bind _ _ (fun _ => True)); [apply quiet_cbor|by apply wpe_safe_cbor, found_length|done|]. intros sz _.
  destruct (sz >? Z.of_nat CRED_SIZE); [by apply desc_type_ok|].
  eapply (quiet_bind _ _ (copied CRED_SIZE)); [apply quiet_parse| |done|].
  { apply wpe_parse, safe_fine, found_copy; [done|by apply byte_string_is]. }
  intros [[fits n] b] (Bb & Lb & _). apply quiet_guard; [done|]. intros _.
  destruct D as [[Li Bi] Du]. unfold wpa. rewrite bind_gets. cbn [id].
  rewrite mem_write_fits by lia. rewrite bind_lift, bind_modify. set (d1 := d0 <| desc_id := _ |>).
  assert (D1 : desc_ok d1).
  { split; [|done]. cbn [d1 desc_id set_field]. split; [by rewrite overwrite_length by lia|].
    eapply mem_write_bytes; [by apply mem_write_fits; lia|done|done]. }
  clearbody d1. set (rest := xbind _ _). change (wpa (bind (if n =? U2F_KEY_HANDLE_SIZE
    then modify (fun cred => cred <| desc_type := PUB_KEY_CRED_CTAP1 |>) else ret tt) (fun _ => rest)) (fun _ d' => desc_ok d') d1).
  assert (Hr : forall d, desc_ok d -> wpa rest (fun _ d' => desc_ok d') d).
  { clear d1 D1. intros d1 D1. subst rest.
    eapply (quiet_bind _ _ (found buf)); [apply quiet_cbor|by apply find_wpe|done|]. intros w Fw.
    apply quiet_guard; [done|]. intros Hw. zbool.
    eapply (quiet_bind _ _ (copied 12)); [apply quiet_parse| |done|].
    { apply wpe_parse, safe_fine, found_copy; [done|by apply text_string_is]. }
    intros [[fits2 n2] b2] _. apply wpa_modify. unfold wpa, ok, ret.
    repeat (case_match; try done); by apply desc_type_ok. }
  destruct (n =? U2F_KEY_HANDLE_SIZE); [|by apply Hr]. by apply Hr, desc_type_ok.
Qed.

End Steps.

End ParseSteps.
