(* ===== verification/ParseRequests.v ===== *)
(** * Any bytes are a request, or refused

    The parsers of makeCredential, getAssertion and credential management end on
    every input: with a status, with fields of the sizes of the request
    structure, or at an assertion; they never leave the request or the
    structure. *)

From S2P Require Import Prelude Monad CborParser CborProps CborApi CborSteps CborFind CtapStatus CtapTypes CtapParse ParseProps.
From S2P Require Import Lfs Fs Board Device Crypto PinRequest Dev Extensions AuthData GetAssertion MakeCredential CredMgmt ParseSteps Demo.
Import Monad CborParser CborProps CborApi CborSteps CborFind CtapStatus CtapTypes CtapParse ParseProps
  Lfs Fs Board Device Crypto PinRequest Dev Extensions AuthData GetAssertion MakeCredential CredMgmt ParseSteps Demo DemoCtap.
Import CborSteps.

#[local] Open Scope Z_scope.

Module ParseRequests.

(** Fields within their arrays. *)
Definition arr (n : nat) (l : list Z) : Prop := length l = n /\ bytes l.

Lemma arr_zeros n : arr n (zeros n).
Proof. split; [apply zeros_length|apply zeros_bytes]. Qed.

Record hs_ok (h : CTAP_hmac_secret) : Prop := {
  hso_enc : arr 64 (saltEnc h);
  hso_auth : arr 32 (saltAuth h);
  hso_key : cose_ok (hs_keyAgreement h);
  hso_len : saltLen h = 0 \/ saltLen h = 32 \/ saltLen h = 64;
}.
Definition ext_ok (e : CTAP_extensions) : Prop := hs_ok (hmac_secret e).

Lemma ext_zero_ok : ext_ok ext_zero.
Proof. split; cbn; try apply arr_zeros. by left. Qed.
Lemma desc_zero_ok : desc_ok desc_zero.
Proof.
  split; [apply arr_zeros|]. split; [by split|apply zeros_bytes|apply zeros_bytes|apply zeros_bytes].
Qed.

Definition rp_ok (r : rpId) : Prop := arr 254 (rp_name_id r) /\ 0 <= rp_size r <= 253.

Section Parsers.
Context (buf : list Z) (Hbuf : bytes buf).

Lemma wpe_cbor_eq {S A} (m : res (CborError * A)) (s : S) : (exists e a, m = Done (e, a)) ->
  wpe (cbor m) (fun a s' => s' = s /\ m = Done (CborNoError, a)) s.
Proof. intros (e & a & ->). unfold wpe, wpa, cbor, bind, lift. by destruct e; cbn. Qed.

(** An array, entered before or after its length is read. *)
Lemma array_facts it : good buf it -> type it = CborArrayType ->
  (exists e a, cbor_value_enter_container buf it = Done (e, a)) /\
  (exists e n, cbor_value_get_array_length buf it = Done (e, n) /\ is_u32 n) /\
  forall r n, cbor_value_enter_container buf it = Done (CborNoError, r) ->
    cbor_value_get_array_length buf it = Done (CborNoError, n) -> counted buf n r.
Proof.
  intros G Ht. pose proof G as [V _].
  assert (Hc : cbor_value_is_container it = true) by (unfold cbor_value_is_container; by rewrite Ht).
  split; [|split].
  - destruct (enter_container_ok buf Hbuf it V Hc) as (e & r & -> & _). by eexists _, _.
  - by apply get_length_ok.
  - intros r n Er En. replace n with (if type it =? CborMapType then 2 * n else n) by (by rewrite Ht).
    eapply enter_counted; try done. by rewrite Ht.
Qed.

(** ** Extensions *)

Lemma copy_bytes_fine it n : good buf it -> fine (copy_bytes buf it n) (copied n).
Proof.
  intros G. unfold copy_bytes. apply wpe_assert. intros Hb. apply safe_fine, copy_string_safe; [done|done|].
  by rewrite Hb.
Qed.

Lemma put_fine {S A} n dst d (k : list Z -> X S A) Q s : arr n dst -> bytes d -> (length d <= n)%nat ->
  (forall dst', arr n dst' -> wpe (k dst') Q s) -> wpe (let* dst' := lift (mem_write dst 0 d) in k dst') Q s.
Proof.
  intros [L B] Bd Ld Hk. apply wpe_write; [lia|]. intros dst' L' B'. apply Hk. split; [congruence|auto].
Qed.

Lemma hmac_case_fine key it a : good buf it -> hs_ok a.1 -> fine (hmac_case buf key it a) (fun a => hs_ok a.1).
Proof.
  destruct a as [hs n]. intros G [He Ha Hk Hl]. cbn in He, Ha, Hk, Hl. unfold hmac_case.
  destruct (_ =? EXT_HMAC_SECRET_COSE_KEY).
  { eapply wpe_bind; [by apply safe_fine, cose_key_parse_safe|]. intros k [] Ik. by apply wpe_ok; split. }
  destruct (_ =? EXT_HMAC_SECRET_SALT_ENC).
  { eapply wpe_bind; [by apply copy_bytes_fine|]. intros [[fits sl] d] [] (Bd & Ld & _). apply wpe_guard. intros Hg.
    apply (put_fine 64); [done|done|done|]. intros s' Hs'. apply wpe_ok. split; cbn; try done.
    rewrite negb_true_iff, orb_false_iff, andb_false_iff, !negb_false_iff in Hg. destruct Hg as [[Hg|Hg] _]; zbool;
      subst sl; [by right; left|by right; right]. }
  destruct (_ =? EXT_HMAC_SECRET_SALT_AUTH); [|by apply wpe_ok].
  eapply wpe_bind; [by apply copy_bytes_fine|]. intros [[fits sl] d] [] (Bd & Ld & _). apply wpe_guard. intros _.
  apply (put_fine 32); [done|done|done|]. intros s' Hs'. by apply wpe_ok; split.
Qed.

Lemma hmac_secret_fine it hs : good buf it -> hs_ok hs ->
  fine (ctap_extensions_parse_hmac_secret buf it hs) hs_ok.
Proof.
  intros G H. unfold ctap_extensions_parse_hmac_secret.
  eapply wpe_bind; [by apply safe_fine, enter_map_safe|]. intros [map n] [] [Hn C].
  eapply wpe_bind; [apply (any_int_entries_wpe buf Hbuf (fun a => hs_ok a.1))|].
  - intros key m a Gm Ia. by apply hmac_case_fine.
  - by rewrite Z2Nat.id.
  - done.
  - intros [m [h c]] [] (Ih & _). apply wpe_guard. intros _. by apply wpe_ok.
Qed.

Lemma boolean_fine {A} it (k : bool -> P A) Q : type it = CborBooleanType ->
  (forall b, fine (k b) Q) -> fine (let* b := lift (cbor_value_get_boolean it) in k b) Q.
Proof.
  intros Ht Hk. unfold cbor_value_get_boolean, cbor_value_is_boolean. rewrite Ht.
  replace (CborBooleanType =? CborBooleanType) with true by done. cbn [assertion res_bind]. apply Hk.
Qed.

Lemma ext_case_fine req key it e : good buf it -> ext_ok e -> fine (ext_case buf req key it e) ext_ok.
Proof.
  intros G He. unfold ext_case. case_bool_decide; [|case_bool_decide; [|by apply wpe_ok]]; destruct req.
  - apply wpe_guard. intros Ht. zbool. apply boolean_fine; [done|]. intros b. apply wpe_ok. by destruct b.
  - apply wpe_guard. intros Ht. eapply wpe_bind; [by apply hmac_secret_fine|]. intros h [] Hh. by apply wpe_ok.
  - apply wpe_guard. intros Ht. zbool. eapply wpe_bind; [by apply safe_fine, any_int_safe|]. intros v [] _.
    apply wpe_guard. intros _. by apply wpe_ok.
  - apply wpe_throw.
Qed.

Lemma ext_entries_fine req n : forall map e, counted buf (2 * Z.of_nat n) map -> ext_ok e ->
  fine (ext_entries buf req n map e) ext_ok.
Proof.
  induction n as [|n IH]; intros map e C He; cbn [ext_entries]; [by apply wpe_ok|].
  apply wpe_guard. intros Ht. zbool.
  assert (G : good buf map) by (apply (counted_good buf _ _ C); left; lia).
  eapply wpe_bind; [by apply safe_fine, copy_string_safe; [| |apply text_string_is]|]. intros [[fits sz] d] [] _.
  eapply wpe_bind; [by apply (advance_wpe buf Hbuf _ _ _ C)|]. intros map1 [] (_ & C1 & _).
  assert (G1 : good buf map1) by (apply (counted_good buf _ _ C1); left; lia).
  eapply (wpe_bind _ _ (fun e _ => ext_ok e)).
  { destruct fits; [by apply ext_case_fine|by apply wpe_ok]. }
  intros e1 [] He1. eapply wpe_bind; [by apply (advance_wpe buf Hbuf _ _ _ C1)|]. intros map2 [] (_ & C2 & _).
  apply IH; [|done]. by replace (2 * Z.of_nat n) with (2 * Z.of_nat (Datatypes.S n) - 1 - 1) by lia.
Qed.

Lemma extensions_fine it e req : good buf it -> ext_ok e -> fine (ctap_extensions_parse_input buf it e req) ext_ok.
Proof.
  intros G He. unfold ctap_extensions_parse_input.
  eapply wpe_bind; [by apply safe_fine, enter_map_safe|]. intros [map n] [] [Hn C].
  apply ext_entries_fine; [by rewrite Z2Nat.id|done].
Qed.

(** ** makeCredential *)

Lemma parse_descriptor_fine it d : good buf it -> desc_ok d -> fine (parse_descriptor buf it d) desc_ok.
Proof.
  intros G D. pose proof (descriptor_wpa buf Hbuf it d G D) as H. unfold parse_descriptor, wpe, wpa, bind, lift.
  unfold wpa in H. destruct (ctap_parse_pubkey_credential_descriptor buf it d) as [[[e|u] d']|]; done.
Qed.

Lemma params_fine it : good buf it -> fine (parse_pubkey_credential_params buf it) (fun _ => True).
Proof.
  intros G. unfold parse_pubkey_credential_params. apply wpe_guard. intros Ht. zbool.
  eapply wpe_bind; [by apply (find_wpe buf Hbuf it)|]. intros c [] [_ Fc].
  eapply wpe_bind; [by apply (find_wpe buf Hbuf it)|]. intros a [] [_ Fa].
  apply wpe_guard. intros Hc. apply wpe_guard. intros Ha. zbool.
  eapply wpe_bind; [by apply safe_fine, found_copy; [| |apply text_string_is]|]. intros [[fits n] d] [] _.
  apply wpe_guard. intros _. eapply wpe_bind; [by apply safe_fine, found_int|]. intros v [] _. by apply wpe_ok.
Qed.

Lemma check_params_fine n : forall it, counted buf (Z.of_nat n) it -> fine (check_params buf n it) (fun _ => True).
Proof.
  induction n as [|n IH]; intros it C; cbn [check_params]; [by apply wpe_ok|].
  assert (G : good buf it) by (apply (counted_good buf _ _ C); left; lia).
  eapply wpe_bind; [by apply params_fine|]. intros a [] _.
  eapply wpe_bind; [by apply (advance_wpe buf Hbuf _ _ _ C)|]. intros it1 [] (_ & C1 & _).
  apply IH. by replace (Z.of_nat n) with (Z.of_nat (Datatypes.S n) - 1) by lia.
Qed.

Lemma check_descriptors_fine n : forall it d, counted buf (Z.of_nat n) it -> desc_ok d ->
  fine (check_descriptors buf n it d) (fun _ => True).
Proof.
  induction n as [|n IH]; intros it d C D; cbn [check_descriptors]; [by apply wpe_ok|].
  assert (G : good buf it) by (apply (counted_good buf _ _ C); left; lia).
  eapply wpe_bind; [by apply parse_descriptor_fine|]. intros d1 [] D1.
  eapply wpe_bind; [by apply (advance_wpe buf Hbuf _ _ _ C)|]. intros it1 [] (_ & C1 & _).
  apply IH; [|done]. by replace (Z.of_nat n) with (Z.of_nat (Datatypes.S n) - 1) by lia.
Qed.

(** The iterator into the exclude list has enough elements to go. *)
Definition list_ok (it : CborValue) (n : Z) : Prop := n = 0 \/ 0 <= n /\ counted buf n it.

Record mc_ok (m : CTAP_makeCredential) : Prop := {
  mco_hash : arr 32 (mc_clientDataHash m);
  mco_rp : rp_ok (mc_rp m);
  mco_user : user_ok (ci_user (credInfo m));
  mco_list : list_ok (excludeList m) (excludeListSize m);
  mco_param : arr 32 (mc_pinUvAuthParam m);
  mco_protocol : is_byte (mc_pinProtocol m);
  mco_ext : ext_ok (mc_extensions m);
}.

Lemma mc_zero_ok : mc_ok mc_zero.
Proof.
  split; cbn; try apply arr_zeros.
  - split; [apply arr_zeros|cbn; lia].
  - apply (do_user _ desc_zero_ok).
  - by left.
  - unfold is_byte. lia.
  - apply ext_zero_ok.
Qed.

Lemma pick_params_fine n : forall it m, counted buf (Z.of_nat n) it -> mc_ok m -> fine (pick_params buf n it m) mc_ok.
Proof.
  induction n as [|n IH]; intros it m C M; cbn [pick_params]; [apply wpe_throw|].
  assert (G : good buf it) by (apply (counted_good buf _ _ C); left; lia).
  assert (Hn : fine (let^ arr := cbor (cbor_value_advance buf it) in pick_params buf n arr m) mc_ok).
  { eapply wpe_bind; [by apply (advance_wpe buf Hbuf _ _ _ C)|]. intros it1 [] (_ & C1 & _).
    apply IH; [|done]. by replace (Z.of_nat n) with (Z.of_nat (Datatypes.S n) - 1) by lia. }
  eapply (wpe_step _ _ (fun _ _ => True)); [eapply wpa_mono; [by apply params_fine|done]|].
  intros [e|[ct at_]] [] _; [exact Hn|]. cbv beta. destruct (is_pubkey_credential_param_supported ct at_); [|exact Hn].
  apply wpe_ok. by destruct M; split.
Qed.

(** Two readings of an array, in either order. *)
Lemma array_then {S A} it (k : CborValue -> Z -> X S A) Q s : good buf it -> type it = CborArrayType ->
  (forall r n, 0 <= n -> counted buf n r -> cbor_value_enter_container buf it = Done (CborNoError, r) ->
    wpe (k r n) Q s) ->
  wpe (let^ r := cbor (cbor_value_enter_container buf it) in
       let^ n := cbor (cbor_value_get_array_length buf it) in k r n) Q s /\
  wpe (let^ n := cbor (cbor_value_get_array_length buf it) in
       let^ r := cbor (cbor_value_enter_container buf it) in k r n) Q s.
Proof.
  intros G Ht Hk. destruct (array_facts it G Ht) as (He & (e & n & En & Hn) & Hc).
  assert (Hl : exists e n, cbor_value_get_array_length buf it = Done (e, n)) by (by exists e, n).
  assert (H0 : forall m, cbor_value_get_array_length buf it = Done (CborNoError, m) -> 0 <= m).
  { intros m. rewrite En. intros [= _ <-]. unfold is_u32 in Hn. lia. }
  split.
  - eapply wpe_bind; [by apply wpe_cbor_eq|]. intros r ? [-> Er].
    eapply wpe_bind; [by apply wpe_cbor_eq|]. intros m ? [-> Em]. apply Hk; [by apply H0|by eapply Hc|done].
  - eapply wpe_bind; [by apply wpe_cbor_eq|]. intros m ? [-> Em].
    eapply wpe_bind; [by apply wpe_cbor_eq|]. intros r ? [-> Er]. apply Hk; [by apply H0|by eapply Hc|done].
Qed.

Lemma find_supported_fine m it : good buf it -> mc_ok m -> fine (find_supported_pubkey_credential_param buf m it) mc_ok.
Proof.
  intros G M. unfold find_supported_pubkey_credential_param. apply wpe_guard. intros Ht. zbool.
  apply array_then; [done|done|]. intros r n Hn C Er.
  eapply wpe_bind; [by apply check_params_fine; rewrite Z2Nat.id|]. intros _ [] _.
  eapply wpe_bind; [apply wpe_cbor_eq; by eexists _, _|]. intros r2 [] [_ Er2]. rewrite Er in Er2. injection Er2 as [= <-].
  apply pick_params_fine; [by rewrite Z2Nat.id|done].
Qed.

Section Exclude.
Context {U : Uninit} (Hjunk : desc_ok junk_desc).

Lemma exclude_list_fine it : good buf it -> type it = CborArrayType -> fine (parse_exclude_list buf it) (fun _ => True).
Proof.
  intros G Ht. unfold parse_exclude_list. apply wpe_guard. intros _. apply array_then; [done|done|].
  intros r n Hn C _. apply check_descriptors_fine; [by rewrite Z2Nat.id|done].
Qed.

Lemma rp_case_fine key it r : good buf it -> rp_ok r -> fine (rp_case buf key it r) rp_ok.
Proof.
  intros G [[Li Bi] Hs]. unfold rp_case. apply wpe_guard. intros Ht. zbool.
  case_bool_decide; [|case_bool_decide; [|by apply wpe_ok]].
  - eapply wpe_bind; [by apply safe_fine, ctap_parse_rp_id_safe|]. intros [id sz] [] (L & B & H1). by apply wpe_ok.
  - eapply wpe_bind; [by apply safe_fine, copy_string_safe; [| |apply text_string_is]|]. intros x [] _. by apply wpe_ok.
Qed.

Lemma text_entries_fine {A} (I : A -> Prop) key_size case n : forall map a,
  (forall key map a, good buf map -> I a -> fine (case key map a) I) ->
  counted buf (2 * Z.of_nat n) map -> I a -> fine (text_entries buf key_size case n map a) (fun r => I r.2).
Proof.
  induction n as [|n IH]; intros map a Hcase C Ia; cbn [text_entries]; [by apply wpe_ok|].
  assert (G : good buf map) by (apply (counted_good buf _ _ C); left; lia).
  eapply wpe_bind; [by apply safe_fine, text_key_safe|]. intros key [] _.
  eapply wpe_bind; [by apply (advance_wpe buf Hbuf _ _ _ C)|]. intros map1 [] (_ & C1 & _).
  assert (G1 : good buf map1) by (apply (counted_good buf _ _ C1); left; lia).
  eapply wpe_bind; [by apply Hcase|]. intros a1 [] Ia1.
  eapply wpe_bind; [by apply (advance_wpe buf Hbuf _ _ _ C1)|]. intros map2 [] (_ & C2 & _).
  apply IH; try done. by replace (2 * Z.of_nat n) with (2 * Z.of_nat (Datatypes.S n) - 1 - 1) by lia.
Qed.

Lemma rp_entity_fine it r : good buf it -> rp_ok r -> fine (parse_relying_party_entity buf r it) rp_ok.
Proof.
  intros G [Hi Hs]. unfold parse_relying_party_entity.
  eapply wpe_bind; [by apply safe_fine, enter_map_safe|]. intros [map n] [] [Hn C].
  eapply wpe_bind; [apply (text_entries_fine rp_ok)|].
  - intros key m a Gm Ia. by apply rp_case_fine.
  - by rewrite Z2Nat.id.
  - split; [done|cbn; lia].
  - intros [m r1] [] H1. apply wpe_guard. intros _. by apply wpe_ok.
Qed.

Lemma mc_case_fine key it m : good buf it -> mc_ok m -> fine (mc_case buf key it m) mc_ok.
Proof.
  intros G M. pose proof M as [Mh Mr Mu Ml Mp Mb Me]. unfold mc_case.
  destruct (_ =? MC_Cmd_clientDataHash).
  { eapply wpe_bind; [by apply safe_fine, fixed_length_safe|]. intros h [] Hh. by apply wpe_ok; split. }
  destruct (_ =? MC_Cmd_rp).
  { eapply wpe_bind; [by apply rp_entity_fine|]. intros r [] Hr. by apply wpe_ok; split. }
  destruct (_ =? MC_Cmd_user).
  { eapply wpe_bind; [by apply safe_fine, ctap_parse_user_entity_safe|]. intros u [] Hu. by apply wpe_ok; split. }
  destruct (_ =? MC_Cmd_pubKeyCredParams); [by apply find_supported_fine|].
  destruct (_ =? MC_Cmd_excludeList).
  { destruct (Z.eq_dec (type it) CborArrayType) as [Ht|Ht].
    - eapply wpe_bind; [by apply exclude_list_fine|]. intros _ [] _. apply array_then; [done|done|].
      intros r n Hn C _. apply wpe_ok. split; cbn; try done. by right.
    - unfold parse_exclude_list. rewrite (proj2 (Z.eqb_neq _ _) Ht). apply wpe_throw. }
  destruct (_ =? MC_Cmd_extensions).
  { apply wpe_guard. intros _. eapply wpe_bind; [by apply extensions_fine|]. intros e [] He. by apply wpe_ok; split. }
  destruct (_ =? MC_Cmd_options).
  { eapply wpe_bind; [by apply safe_fine, ctap_parse_options_safe|]. intros [[rk uv] up] [] _. by apply wpe_ok; split. }
  destruct (_ =? MC_Cmd_pinUvAuthParam).
  { eapply wpe_bind; [by apply safe_fine, pinUvAuthParam_safe; [| |apply Mp|apply Mp]|].
    intros [[em p] n] [] Hp. by apply wpe_ok; split. }
  destruct (_ =? MC_Cmd_pinUvAuthProtocol); [|by apply wpe_ok].
  eapply wpe_bind; [by apply safe_fine, int_value_safe|]. intros v [] _. apply wpe_guard.
  intros [G1 G2]%negb_true_iff%orb_false_iff. zbool. apply wpe_ok. split; cbn; try done. unfold is_byte. lia.
Qed.

Lemma parse_make_credential_fine : fine (parse_make_credential buf) mc_ok.
Proof.
  unfold parse_make_credential. eapply wpe_bind; [by apply safe_fine, parser_init_safe|]. intros it [] G.
  apply wpe_guard. intros _. eapply wpe_bind; [by apply safe_fine, enter_map_safe|]. intros [map n] [] [Hn C].
  eapply wpe_bind; [apply (int_entries_wpe buf Hbuf (fun m _ => mc_ok m))|].
  - intros key m a [] Gm Ia. by apply mc_case_fine.
  - by rewrite Z2Nat.id.
  - apply mc_zero_ok.
  - intros [m mc] [] (H1 & _). by apply wpe_ok.
Qed.

End Exclude.

(** ** getAssertion *)

Section Assertion.
Context {L : Lfs} {B : Board} {E : Ecc} {U : Uninit}.

Definition creds_ok (l : list CTAP_credentialDescriptor) : Prop :=
  length l = ALLOW_LIST_MAX_SIZE /\ Forall desc_ok l.

(** [s'] is [s] with another list of credentials. *)
Definition listed (s s' : dev) : Prop := exists l, creds_ok l /\
  s' = s <| getAssertionState := (getAssertionState s) <| gs_creds := l |> |>.

Lemma listed_refl s : creds_ok (gs_creds (getAssertionState s)) -> listed s s.
Proof. intros H. exists (gs_creds (getAssertionState s)). split; [done|]. by destruct s as [? ? ? ? ? [] ?]. Qed.
Lemma listed_creds s s' : listed s s' -> creds_ok (gs_creds (getAssertionState s')).
Proof. by intros (l & H & ->). Qed.
Lemma listed_trans s1 s2 s3 : listed s1 s2 -> listed s2 s3 -> listed s1 s3.
Proof. intros (l1 & H1 & ->) (l2 & H2 & ->). exists l2. by split. Qed.

Record ga_ok (g : CTAP_getAssertion) : Prop := {
  gao_hash : arr 32 (ga_clientDataHash g);
  gao_rp : rp_ok (ga_rp g);
  gao_len : (ga_credLen g <= ALLOW_LIST_MAX_SIZE)%nat;
  gao_param : arr 32 (ga_pinUvAuthParam g);
  gao_protocol : is_byte (ga_pinProtocol g);
  gao_ext : ext_ok (ga_extensions g);
}.

Lemma ga_zero_ok : ga_ok ga_zero.
Proof.
  split; cbn; try apply arr_zeros.
  - split; [apply arr_zeros|cbn; lia].
  - lia.
  - unfold is_byte. lia.
  - apply ext_zero_ok.
Qed.

Lemma set_cred_listed i c s0 s : listed s0 s -> desc_ok c -> (i < ALLOW_LIST_MAX_SIZE)%nat ->
  wpa (set_cred i c) (fun _ => listed s0) s.
Proof.
  intros Hl Hc Hi. pose proof (listed_creds _ _ Hl) as [Ll Fl]. unfold wpa, set_cred, get_gas. rewrite bind_gets.
  rewrite (proj2 (Nat.ltb_lt _ _)) by lia. cbn [upd_gas upd modify].
  apply (listed_trans _ s); [done|]. eexists. split; [|reflexivity].
  split; [by rewrite length_insert|]. by apply Forall_insert.
Qed.

Lemma on_cred_listed i it s0 s : listed s0 s -> good buf it -> (i < ALLOW_LIST_MAX_SIZE)%nat ->
  wpe (on_cred i (ctap_parse_pubkey_credential_descriptor buf it)) (fun _ => listed s0) s.
Proof.
  intros Hl G Hi. pose proof (listed_creds _ _ Hl) as [Ll Fl]. unfold on_cred, get_cred, get_gas.
  destruct (lookup_lt_is_Some_2 (gs_creds (getAssertionState s)) i) as [c Hc]; [lia|].
  apply (wpe_step _ _ (fun x s' => x = c /\ s' = s)).
  { unfold wpa. rewrite bind_gets. by rewrite Hc. }
  intros ? ? [-> ->]. pose proof (descriptor_wpa buf Hbuf it c G (Forall_lookup_1 _ _ _ _ Fl Hc)) as H.
  unfold wpa in H. unfold wpe, wpa, bind at 1, lift.
  destruct (ctap_parse_pubkey_credential_descriptor buf it c) as [[r c']|]; [|done].
  apply (wpa_bind (S := dev)). eapply wpa_mono; [by apply (set_cred_listed i c' s0)|].
  intros ? s' Hs. unfold wpa, ret. by destruct r.
Qed.

Lemma allow_list_wpe n : forall i it s0 s, listed s0 s -> counted buf (Z.of_nat n) it ->
  (i <= ALLOW_LIST_MAX_SIZE)%nat ->
  wpe (allow_list_loop buf n i it) (fun k s' => listed s0 s' /\ (k <= ALLOW_LIST_MAX_SIZE)%nat) s.
Proof.
  induction n as [|n IH]; intros i it s0 s Hl C Hi; cbn [allow_list_loop]; [by apply wpe_ok|].
  assert (G : good buf it) by (apply (counted_good buf _ _ C); left; lia).
  apply wpe_guard. intros Hlt. apply negb_true_iff, Nat.leb_gt in Hlt.
  eapply wpe_step; [by apply (set_cred_listed i desc_zero s0); [|apply desc_zero_ok|]|]. intros ? s1 H1. cbn beta in H1.
  eapply wpe_bind; [by apply (on_cred_listed i it s0)|]. intros ? s2 H2. cbn beta in H2.
  eapply wpe_bind; [by apply (advance_wpe buf Hbuf _ _ _ C)|]. intros it1 ? (-> & C1 & _).
  apply IH; [done| |lia]. by replace (Z.of_nat n) with (Z.of_nat (Datatypes.S n) - 1) by lia.
Qed.

Definition ga_state (s0 : dev) (a : CTAP_getAssertion * Z) (s : dev) : Prop := ga_ok a.1 /\ listed s0 s.

Lemma ga_case_wpe s0 key it a s : good buf it -> ga_state s0 a s -> wpe (ga_case buf key it a) (ga_state s0) s.
Proof.
  destruct a as [g st]. intros G [Hg Hl]. cbn in Hg. pose proof Hg as [Gh Gr Gn Gp Gb Ge]. unfold ga_case.
  eapply (wpe_bind _ _ (ga_state s0)); [|intros [g1 st1] s1 H1; apply wpe_guard; intros _; by apply wpe_ok].
  destruct (_ =? GA_Cmd_clientDataHash).
  { eapply wpe_bind; [by apply wpe_parse, safe_fine, fixed_length_safe|]. intros h ? [-> Hh]. apply wpe_ok. split; [|done]. by split. }
  destruct (_ =? GA_Cmd_rpId).
  { eapply wpe_bind; [apply wpe_parse, safe_fine, ctap_parse_rp_id_safe; [done|done|apply Gr|apply Gr]|].
    intros [id sz] ? (-> & Li & Bi & Hs). apply wpe_ok. split; [|done]. by split. }
  destruct (_ =? GA_Cmd_allowList).
  { eapply (wpe_bind _ _ (fun k s' => listed s0 s' /\ (k <= ALLOW_LIST_MAX_SIZE)%nat)).
    - unfold parse_allow_list_credentials. apply wpe_guard. intros Ht. zbool. apply array_then; [done|done|].
      intros r n Hn C _. apply allow_list_wpe; [done|by rewrite Z2Nat.id|lia].
    - intros k s1 [H1 Hk]. apply wpe_ok. split; [|done]. by split. }
  destruct (_ =? GA_Cmd_extensions).
  { eapply wpe_bind; [by apply wpe_parse, extensions_fine|]. intros e ? [-> He]. apply wpe_ok. split; [|done]. by split. }
  destruct (_ =? GA_Cmd_options).
  { eapply wpe_bind; [by apply wpe_parse, safe_fine, ctap_parse_options_safe|]. intros o ? [-> _]. apply wpe_ok. split; [|done]. by split. }
  destruct (_ =? GA_Cmd_pinUvAuthParam).
  { eapply wpe_bind; [apply wpe_parse, safe_fine, pinUvAuthParam_safe; [done|done|apply Gp|apply Gp]|].
    intros [[em p] n] ? [-> Hp]. apply wpe_ok. split; [|done]. by split. }
  destruct (_ =? GA_Cmd_pinUvAuthProtocol); [|by apply wpe_ok].
  eapply wpe_bind; [by apply wpe_parse, safe_fine, int_value_safe|]. intros v ? [-> _]. apply wpe_guard.
  intros [G1 G2]%negb_true_iff%orb_false_iff. zbool. apply wpe_ok. split; [|done]. split; cbn; try done. unfold is_byte. lia.
Qed.

Lemma parse_get_assertion_wpe s : creds_ok (gs_creds (getAssertionState s)) ->
  wpe (parse_get_assertion_request buf) (fun g s' => ga_ok g /\ listed s s') s.
Proof.
  intros Hc. unfold parse_get_assertion_request.
  eapply wpe_bind; [by apply wpe_safe_cbor, parser_init_safe|]. intros it ? [-> G].
  eapply wpe_bind; [by apply wpe_parse, safe_fine, enter_map_safe|]. intros [map n] ? (-> & Hn & C).
  eapply wpe_bind; [apply (int_entries_wpe buf Hbuf (ga_state s))|].
  - intros key m a s1 Gm Ia. by apply ga_case_wpe.
  - by rewrite Z2Nat.id.
  - split; [apply ga_zero_ok|by apply listed_refl].
  - intros [m [g st]] s1 (H1 & _). by apply wpe_ok.
Qed.

End Assertion.

(** ** Credential management *)

Record cm_ok (c : CTAP_credMgmt) : Prop := {
  cmo_hash : arr 32 (cm_rpIdHash c);
  cmo_desc : desc_ok (cm_credentialDescriptor c);
  cmo_sub : is_byte (hashed_subCommand c);
  cmo_same : hashed_subCommand c = cm_subCommand c;
  cmo_copy : arr PARAMS_COPY_SIZE (subCommandParamsCborCopy c);
  cmo_size : 0 <= subCommandParamsCborSize c <= Z.of_nat PARAMS_COPY_SIZE;
  cmo_param : arr 32 (cm_pinUvAuthParam c);
  cmo_protocol : is_byte (cm_pinProtocol c);
}.

Lemma cm_zero_ok : cm_ok cm_zero.
Proof.
  split; cbn; try apply arr_zeros; try apply desc_zero_ok; try (unfold is_byte; lia); try done.
Qed.

Lemma cm_param_case_fine key it a : good buf it -> cm_ok a.1 /\ 0 <= a.2 <= 32 ->
  fine (cm_param_case buf key it a) (fun a => cm_ok a.1 /\ 0 <= a.2 <= 32).
Proof.
  destruct a as [c sz]. cbn. intros G [[Ch Cd Cs Ce Cc Cz Cp Cb] Hs]. unfold cm_param_case.
  destruct (_ =? CM_SubCmdParam_rpIDHash).
  { eapply wpe_bind; [by apply copy_bytes_fine|]. intros [[fits n] d] [] (Bd & Ld & Fd). apply wpe_guard. intros Hf.
    specialize (Fd Hf). apply (put_fine 32); [done|done|lia|]. intros h Hh. apply wpe_ok. cbn. split; [by split|lia]. }
  destruct (_ =? CM_SubCmdParam_credentialID).
  { eapply wpe_bind; [by apply parse_descriptor_fine|]. intros d [] Hd. apply wpe_ok. cbn. split; [by split|lia]. }
  destruct (_ =? CM_SubCmdParam_user); [|by apply wpe_ok].
  eapply wpe_bind; [apply safe_fine, ctap_parse_user_entity_safe; [done|done|apply Cd]|]. intros u [] Hu. apply wpe_ok.
  cbn. split; [|lia]. split; cbn; try done. split; [apply Cd|done].
Qed.

Lemma parsed_bound it : parsed buf it -> (ptr it <= length buf)%nat.
Proof. intros [(_ & _ & H)|V]; [done|]. pose proof (valid_lt _ _ V). lia. Qed.

Lemma subcommandparams_fine it c : good buf it -> cm_ok c ->
  fine (parse_credential_management_subcommandparams buf it c) cm_ok.
Proof.
  intros G Hc. unfold parse_credential_management_subcommandparams.
  eapply wpe_bind; [by apply safe_fine, enter_map_safe|]. intros [map n] [] [Hn C].
  eapply wpe_bind; [apply (any_int_entries_wpe buf Hbuf (fun a => cm_ok a.1 /\ 0 <= a.2 <= 32))|].
  - intros key m a Gm Ia. by apply cm_param_case_fine.
  - by rewrite Z2Nat.id.
  - cbn. split; [done|lia].
  - intros [m [c1 sz]] [] ([[Ch Cd Cs Ce Cc Cz Cp Cb] _] & Pm & Hle). cbn in *. pose proof (parsed_bound _ Pm) as Hb.
    set (len := u32 _). assert (Hlen : 0 <= len <= Z.of_nat (ptr m) - Z.of_nat (ptr map - 1)).
    { unfold len, u32. split; [by apply Z.mod_pos_bound|]. apply Z.mod_le; lia. }
    apply wpe_guard. intros Hg. zbool. unfold wpe, wpa. rewrite mem_read_fits by lia. rewrite bind_lift.
    apply (put_fine PARAMS_COPY_SIZE); [done|by apply slice_bytes|rewrite slice_length by lia; lia|].
    intros d Hd. apply wpe_ok. split; cbn; try done. lia.
Qed.

Lemma cm_case_fine key it c : good buf it -> cm_ok c -> fine (cm_case buf key it c) cm_ok.
Proof.
  intros G Hc. pose proof Hc as [Ch Cd Cs Ce Cc Cz Cp Cb]. unfold cm_case.
  assert (Hb : fine (cm_byte buf it) is_byte).
  { unfold cm_byte. eapply wpe_bind; [by apply safe_fine, int_value_safe|]. intros v [] _. apply wpe_guard.
    intros [G1 G2]%negb_true_iff%orb_false_iff. zbool. apply wpe_ok. unfold is_byte. lia. }
  destruct (_ =? CM_Cmd_subCommand); [eapply wpe_bind; [exact Hb|]; intros v [] Hv; by apply wpe_ok; split|].
  destruct (_ =? CM_Cmd_subCommandParams); [by apply subcommandparams_fine|].
  destruct (_ =? CM_Cmd_pinUvAuthProtocol); [eapply wpe_bind; [exact Hb|]; intros v [] Hv; by apply wpe_ok; split|].
  destruct (_ =? CM_Cmd_pinUvAuthParam); [|by apply wpe_ok].
  eapply wpe_bind; [by apply safe_fine, pinUvAuthParam_safe; [| |apply Cp|apply Cp]|].
  intros [[em p] n] [] Hp. apply wpe_guard. intros _. by apply wpe_ok; split.
Qed.

Lemma parse_credential_management_fine : fine (parse_credential_management_request buf) cm_ok.
Proof.
  unfold parse_credential_management_request. eapply wpe_bind; [by apply safe_fine, parser_init_safe|]. intros it [] G.
  eapply wpe_bind; [by apply safe_fine, enter_map_safe|]. intros [map n] [] [Hn C].
  eapply wpe_bind; [apply (int_entries_wpe buf Hbuf (fun m _ => cm_ok m))|].
  - intros key m a [] Gm Ia. by apply cm_case_fine.
  - by rewrite Z2Nat.id.
  - apply cm_zero_ok.
  - intros [m c] [] (H1 & _). by apply wpe_ok.
Qed.

End Parsers.

(** C40: whatever bytes a makeCredential, getAssertion or credential management
    request holds, its parser comes to an end inside the request and the request
    structure: it gives a status, or fields of the sizes and ranges of the
    structure with an iterator into the exclude list that has all its elements
    to come - the credentials of an allow list go to the saved state, which keeps
    its sizes - or stops the device at an assertion. *)
Theorem parse_requests_typed {L : Lfs} {B : Board} {E : Ecc} {U : Uninit} buf s :
  bytes buf -> desc_ok junk_desc -> creds_ok (gs_creds (getAssertionState s)) ->
  match parse_make_credential buf tt with
  | Done (inr m, _) => mc_ok buf m
  | Done (inl _, _) => True
  | Fault f => f = FAssert
  end /\
  match parse_get_assertion_request buf s with
  | Done (inr g, s') => ga_ok g /\ listed s s'
  | Done (inl _, _) => True
  | Fault f => f = FAssert
  end /\
  match parse_credential_management_request buf tt with
  | Done (inr c, _) => cm_ok c
  | Done (inl _, _) => True
  | Fault f => f = FAssert
  end.
Proof.
  intros Hb Hj Hc. pose proof (parse_make_credential_fine buf Hb Hj) as H1.
  pose proof (parse_get_assertion_wpe buf Hb s Hc) as H2. pose proof (parse_credential_management_fine buf Hb) as H3.
  unfold wpe, wpa in H1, H2, H3. split; [|split].
  - by destruct (parse_make_credential buf tt) as [[[] ?]|].
  - by destruct (parse_get_assertion_request buf s) as [[[] ?]|].
  - by destruct (parse_credential_management_request buf tt) as [[[] ?]|].
Qed.

Import Lfs.Ram Board.Sim Demo.Toy.

Lemma parse_requests_typed_witness :
  bytes [0xa1; 0x01; 0x9f; 0xff] /\
  match parse_make_credential [0xa1; 0x01; 0x9f; 0xff] tt with
  | Done (inr m, _) => mc_ok [0xa1; 0x01; 0x9f; 0xff] m
  | Done (inl _, _) => True
  | Fault f => f = FAssert
  end.
Proof.
  assert (Hb : bytes [0xa1; 0x01; 0x9f; 0xff]) by (repeat constructor; lia).
  split; [exact Hb|].
  apply (parse_requests_typed (L := Ram) (B := Sim) (E := ToyEcc) (U := Zeros) _ demo Hb).
  - apply desc_zero_ok.
  - split; [reflexivity|]. apply Forall_replicate, desc_zero_ok.
Defined.

End ParseRequests.
