(* ===== verification/Authorise.v ===== *)
(** * Who may make and manage credentials

    On a device with a PIN, makeCredential and credential management do
    nothing for a request that does not carry the MAC of a live token with the
    permission asked for. *)

From stdpp Require Import strings.
From S2P Require Import Prelude Monad Lfs Fs Board CborParser CborProps CborApi CborSteps CborEncoder CborItems Sha256 Aes Crypto AesBlocks Rng State.
From S2P Require Import CtapTypes Dev Demo Device DeviceProps RkStore CtapStatus CtapParse ParseProps Credential ClientPin PinBase.
From S2P Require Import CtapEncode Halting PinSteps PinAuth PinLock PinToken Extensions AuthData GetAssertion MakeCredential CredMgmt ParseSteps.
From S2P Require Import ParseRequests.
Import Monad Lfs Fs Board CborParser CborProps CborApi CborSteps CborEncoder CborItems Sha256 Aes Crypto AesBlocks Rng State
  CtapTypes Dev Demo Device DeviceProps RkStore CtapStatus CtapParse ParseProps Credential ClientPin PinBase
  CtapEncode Halting PinSteps PinAuth PinLock PinToken Extensions AuthData GetAssertion MakeCredential CredMgmt ParseSteps
  ParseRequests DemoCtap.

#[local] Open Scope Z_scope.

Module Authorise.

#[local] Opaque hmac sha256 KeyExpansion Cipher InvCipher.

Section Steps.
Context {L : Lfs} {LL : LfsLaws L} {B : Board} {E : Ecc} {EL : EccLaws E}.

(** ** The user presence test leaves alone what is stored *)

Lemma calm_set_status st s : wps (device_set_status st) (fun _ => calm s) s.
Proof. unfold wps, device_set_status. destruct (negb _); by split. Qed.
Lemma calm_led f s : wps (board_set f) (fun _ => calm s) s.
Proof. by split. Qed.

Lemma calm_then {A C} (m : F A) (k : A -> F C) Q s0 s : calm s0 s -> wps m (fun _ => calm s) s ->
  (forall a s', calm s0 s' -> wps (k a) Q s') -> wps (bind m k) Q s.
Proof.
  intros C0 H Hk. eapply wps_step; [exact H|]. intros a s' C1. apply Hk. by transitivity s.
Qed.

Lemma presence_loop_calm fuel start delay s0 : forall s, calm s0 s ->
  wps (presence_loop fuel start delay) (fun _ => calm s0) s.
Proof.
  induction fuel as [|fuel IH]; intros s C; cbn [presence_loop]; [apply wps_exit|].
  eapply calm_then; [exact C| |].
  { unfold wps, board, on. destruct (touch_event _). by split. }
  intros touched s1 C1. destruct touched.
  - eapply calm_then; [exact C1|apply calm_led|]. intros _ s2 C2.
    eapply calm_then; [exact C2|apply calm_set_status|]. intros _ s3 C3. by apply wps_ret.
  - eapply calm_then; [exact C1|apply calm_set_status|]. intros _ s2 C2.
    eapply calm_then; [exact C2|eapply wps_mono; [apply millis_ok|by intros ? ? []]|]. intros t s3 C3.
    eapply calm_then; [exact C3|apply calm_led|]. intros _ s4 C4.
    destruct (_ <? delay); [by apply IH|].
    eapply calm_then; [exact C4|apply calm_led|]. intros _ s5 C5. by apply wps_ret.
Qed.

Lemma presence_calm delay s : wps (ctap_user_presence_test delay) (fun _ => calm s) s.
Proof.
  unfold ctap_user_presence_test. apply wps_bind, wps_gets. destruct (up_disabled _); [by apply wps_ret|].
  eapply (calm_then _ _ _ s); [done|eapply wps_mono; [apply millis_ok|by intros ? ? []]|]. intros t s1 C1.
  eapply calm_then; [exact C1|apply calm_led|]. intros _ s2 C2. by apply presence_loop_calm.
Qed.

(** A step whose outcome is known. *)
Lemma wpx_known {A C} (op : F A) (k : A -> X dev C) T Q s a s' : op s = Done (a, s') ->
  wpx (k a) T Q s' -> wpx (bind op k) T Q s.
Proof. intros H Hk. unfold wpx, wps in *. by rewrite (bind_done _ _ _ _ _ H). Qed.

(** ** What a token authorises *)

(** The token of protocol [p] is in use and within its time limits, [param] is
    the MAC of [msg] under it, and it has the permission. *)
Definition token_allows (p perm : Z) (param msg : list Z) (s : dev) : Prop :=
  live (clock s) (ts p s) /\ take (auth_param_size p) param = token_mac p msg s /\
  Z.land (permissions (ts p s)) perm <> 0.

(** A token bound to a relying party is good for that one only. *)
Definition rp_allowed (p : Z) (rp_hash : list Z) (s : dev) : Prop :=
  permissions_rp_id_present (ts p s) = true -> take 32 (permissions_rp_id_hash (ts p s)) = take 32 rp_hash.

(** Nothing is stored; of the variables only a token's state is another one. *)
Definition refused (m : volume) (s s' : dev) : Prop :=
  exists p t, moved s (STATE s) (set_ts p t (d_pin s)) m s'.

Lemma refused_calm m s s' : ready m s -> calm s s' -> refused m s s'.
Proof.
  intros R C. exists 1, (ts 1 s). unfold ts. rewrite set_ts_id. by apply calm_moved.
Qed.
Lemma refused_ts m p t s s' : ts_moved m p s t s' -> refused m s s'.
Proof. intros M. by exists p, t. Qed.
Lemma moved_calm s st v m s1 s2 : moved s st v m s1 -> calm s1 s2 -> moved s st v m s2.
Proof.
  intros M C. eapply moved_trans; [exact M|]. pose proof (calm_moved m s1 s2 (m_ready _ _ _ _ _ M) C) as M2.
  by rewrite (m_state _ _ _ _ _ M), (m_pin _ _ _ _ _ M) in M2.
Qed.

(** When the observer leaves the token in use, it left all but its clock and the
    user's presence. *)
Lemma observed_keeps now t : live now t ->
  permissions (observed now t) = permissions t /\ user_verified (observed now t) = user_verified t /\
  in_use (observed now t) = true /\
  permissions_rp_id_present (observed now t) = permissions_rp_id_present t /\
  permissions_rp_id_hash (observed now t) = permissions_rp_id_hash t.
Proof.
  intros (Hu & Ha & Hl). unfold observed, obs_age, obs_used.
  destruct (u32 (now - usage_timer_start_ms t) >? TOKEN_MAX_USAGE_PERIOD_MS) eqn:E1; zbool; [lia|].
  destruct (obs_present_same now t) as [_ ->].
  destruct (_ >? _) eqn:E2; zbool; [lia|]. unfold obs_present. rewrite Hu. by destruct (_ >? _).
Qed.

(** ** The authorisation of makeCredential *)

Section Make.
Context {U : Uninit}.

(** [mc] is what a PIN-protected device asks of a request. *)
Record mc_authorised (mc : CTAP_makeCredential) (s : dev) : Prop := {
  ma_token : token_allows (mc_pinProtocol mc) CP_pinUvAuthToken_permissions_mc (mc_pinUvAuthParam mc)
    (mc_clientDataHash mc) s;
  ma_verified : user_verified (ts (mc_pinProtocol mc) s) = true;
  ma_rp : rp_allowed (mc_pinProtocol mc) (sha256 (take (Z.to_nat (rp_size (mc_rp mc))) (rp_name_id (mc_rp mc)))) s;
}.

Lemma auth_size p param : arr 32 param -> bytes param /\ (auth_param_size p <= length param)%nat.
Proof. intros [Hl Hb]. split; [done|]. unfold auth_param_size. destruct (_ =? 2); lia. Qed.

Lemma mc_authorize_ok buf m mc s : ready m s -> mc_ok buf mc -> is_pin_set (STATE s) = 1 ->
  wpx (mc_authorize mc) (fun _ => refused m s)
    (fun _ s' => token_allows (mc_pinProtocol mc) CP_pinUvAuthToken_permissions_mc (mc_pinUvAuthParam mc)
        (mc_clientDataHash mc) s /\ user_verified (ts (mc_pinProtocol mc) s) = true /\
      ts_moved m (mc_pinProtocol mc) s (observed (clock s) (ts (mc_pinProtocol mc) s)) s') s.
Proof.
  intros R M Hset. set (p := mc_pinProtocol mc). unfold mc_authorize, ctap_client_pin_is_set. apply wps_bind, wps_gets.
  rewrite Hset. change (1 =? 1) with true. cbn beta iota.
  apply wpx_guard; [by intros; apply refused_calm|]. intros _.
  destruct (auth_size p (mc_pinUvAuthParam mc) (mco_param _ _ M)) as [Bp Lp]. destruct (mco_hash _ _ M) as [Lh _].
  eapply wpx_bind.
  { unfold ctap_client_pin_verify_auth. rewrite mem_read_fits by (unfold CLIENT_DATA_HASH_SIZE; lia).
    rewrite slice_all by done. apply wps_bind.
    eapply wpx_mono; [exact (verify_auth_ok m p _ _ s R Bp Lp)| |intros a s' Hs; exact Hs].
    intros e s' (_ & _ & t & Ht). by eapply refused_ts. }
  intros _ s1 (Hl & Hm & M1). pose proof (ts_moved_ts _ _ _ _ _ M1) as Et.
  destruct (observed_keeps _ _ Hl) as (Ep & Ev & Eu & _).
  assert (Hr : refused m s s1) by by eapply refused_ts.
  fold p. unfold ctap_client_pin_get_user_verified, get_pt. apply wps_bind, wps_bind, wps_gets. fold (ts p s1). rewrite Et, Eu, Ev.
  apply wps_ret, wpx_guard; [done|]. intros Hv.
  unfold ctap_client_pin_verify_permissions, get_pt. apply wps_bind, wps_bind, wps_gets. fold (ts p s1). rewrite Et, Ep.
  apply wps_ret. unfold guard. destruct (negb _) eqn:Hp; [|by apply wpx_throw]. apply wpx_ok.
  apply negb_true_iff, Z.eqb_neq in Hp.
  split; [split; [done|by split]|]. by split.
Qed.

(** The relying party's hash of a token fills its array. *)
Definition rp_hash_sized (s : dev) : Prop := forall p, length (permissions_rp_id_hash (ts p s)) = 32%nat.

Lemma verify_rp_done p h s : length (permissions_rp_id_hash (ts p s)) = 32%nat -> (32 <= length h)%nat ->
  exists b, ctap_client_pin_verify_permissions_rp_id p h s = Done (b, s) /\ (b = true <-> rp_allowed p h s).
Proof.
  intros Lt Lh. unfold ctap_client_pin_verify_permissions_rp_id, get_pt, rp_allowed. rewrite bind_gets.
  fold (ts p s). destruct (permissions_rp_id_present (ts p s)).
  - rewrite !mem_read_fits by lia. mstep. unfold slice. rewrite !drop_0. eexists. split; [reflexivity|].
    rewrite Z.eqb_eq, memcmp_zero by (rewrite !length_take; lia). by split; auto.
  - exists true. split; [done|]. by split.
Qed.

Lemma rp_allowed_observed p h s s' : live (clock s) (ts p s) -> ts p s' = observed (clock s) (ts p s) ->
  rp_allowed p h s' <-> rp_allowed p h s.
Proof. intros Hl Et. destruct (observed_keeps _ _ Hl) as (_ & _ & _ & E1 & E2). unfold rp_allowed. by rewrite Et, E1, E2. Qed.

(** A step that only throws. *)
Definition refuses {A} (m : volume) (op : X dev A) (s0 s : dev) : Prop :=
  wpx op (fun _ => refused m s0) (fun _ _ => False) s.

Lemma empty_param_refuses {A} m s : ready m s -> refuses (A := A) m empty_auth_param s s.
Proof.
  intros R. unfold refuses, empty_auth_param, ctap2_user_presence_test. apply wps_bind. apply wps_bind.
  eapply wps_mono; [apply presence_calm|]. intros r s1 C1. apply wps_ret.
  apply wpx_guard; [by intros; apply refused_calm|]. intros _. unfold ctap_client_pin_is_set. apply wps_bind, wps_gets.
  apply wpx_throw. by apply refused_calm.
Qed.

(** C38: on a device with a PIN, a makeCredential request that is not authorised -
    the MAC of the client data under a live token of its protocol, with the
    permission to make credentials, verified user and the relying party the token
    is bound to - ends with an error, whatever its bytes: nothing is stored, and
    of the PIN variables only the clock and use of a token change. *)
Theorem make_credential_needs_token m encoder buf s :
  ready m s -> bytes buf -> desc_ok junk_desc -> rp_hash_sized s -> is_pin_set (STATE s) = 1 ->
  ~ (exists mc, parse_make_credential buf tt = Done (inr mc, tt) /\ mc_authorised mc s) ->
  match ctap_make_credential encoder buf s with
  | Done (r, s') => (exists e, r = inl e) /\ refused m s s'
  | Fault f => f = FAssert \/ f = FExit
  end.
Proof.
  intros R Hb Hj Hr Hset Hno.
  assert (H : refuses m (ctap_make_credential encoder buf) s s).
  2:{ unfold refuses, wpx, wps in H. destruct (ctap_make_credential encoder buf s) as [[[e|a] s']|]; [|done..].
      split; [by exists e|done]. }
  pose proof (parse_make_credential_fine buf Hb Hj) as Hp. unfold refuses, ctap_make_credential.
  eapply (wpx_bind _ _ _ (fun mc s' => s' = s /\ mc_ok buf mc /\ ~ mc_authorised mc s)).
  { unfold wpx, wps, parse, lift. unfold wpe, wpa in Hp.
    destruct (parse_make_credential buf tt) as [[[e|mc] []]|f] eqn:Ep; [by apply refused_calm| |by left].
    split; [done|]. split; [done|]. intros Ha. apply Hno. by exists mc. }
  intros mc ? (-> & M & Ha). destruct (mc_pinUvAuthParam_empty mc); [by apply empty_param_refuses|].
  apply wpx_guard; [by intros; apply refused_calm|]. intros _.
  eapply wpx_bind; [by apply (mc_authorize_ok buf m)|]. intros _ s1 (Ht & Hv & M1).
  apply wpx_guard; [by intros; eapply refused_ts|]. intros _.
  destruct (mco_rp _ _ M) as [[Lr _] Hs]. set (n := Z.to_nat (rp_size (mc_rp mc))) in *.
  pose proof (m_ready _ _ _ _ _ M1) as R1.
  destruct (derive_rp_done m (rp_name_id (mc_rp mc)) n s1 R1 ltac:(lia)) as (l & s2 & E2 & C2).
  eapply wpx_known; [exact E2|]. cbn beta iota.
  pose proof (moved_calm _ _ _ _ _ _ M1 C2) as M2. pose proof (ts_moved_ts _ _ _ _ _ M2) as Et.
  set (p := mc_pinProtocol mc) in *. set (h := sha256 (take n (rp_name_id (mc_rp mc)))) in *.
  destruct Ht as (Hl & Hrest). destruct (observed_keeps _ _ Hl) as (_ & _ & _ & _ & Eh).
  destruct (verify_rp_done p h s2) as (b & Eb & Hiff); [by rewrite Et, Eh|unfold h; rewrite sha256_length; lia|].
  eapply (wpx_bind _ _ _ (fun _ _ => False)); [|done].
  unfold mc_authorize_rp, ctap_client_pin_is_set. apply wps_bind, wps_gets. rewrite (m_state _ _ _ _ _ M2), Hset.
  change (1 =? 1) with true. cbn beta iota. fold p.
  eapply wpx_known; [exact Eb|].
  destruct b; [|apply wpx_throw; by eapply refused_ts]. exfalso. apply Ha. split; [by split|done|].
  apply (rp_allowed_observed p h s s2 Hl Et). by apply Hiff.
Qed.

End Make.

(** ** The authorisation of credential management *)

(** The bytes under the MAC: the sub-command and its parameters. *)
Definition cm_message (cm : CTAP_credMgmt) : list Z := take (Z.to_nat (subCommandParamsCborSize cm + 1)) (hashed cm).

Definition goes_on (sub : Z) : bool :=
  (sub =? CM_SubCmd_enumerateRPsGetNextRP) || (sub =? CM_SubCmd_enumerateCredentialsGetNextCredential).

(** A command that goes on with an enumeration needs the one that began it, with
    the last step at most thirty seconds ago: [check_state] sets the time again
    at every step.  Any other needs the token. *)
Definition cm_allowed (cm : CTAP_credMgmt) (s : dev) : Prop :=
  if goes_on (cm_subCommand cm) then
    cms_valid (d_cm s) = true /\ continues (cm_subCommand cm) (init_cmd (d_cm s)) = true /\
    u32 (clock s - timestamp (d_cm s)) <= CTAP_STATEFUL_TIMEOUT_MS
  else
    (cm_pinProtocol cm = 1 \/ cm_pinProtocol cm = 2) /\
    token_allows (cm_pinProtocol cm) CP_pinUvAuthToken_permissions_cm (cm_pinUvAuthParam cm) (cm_message cm) s /\
    (if cm_subCommand cm =? CM_SubCmd_enumerateRPsBegin
     then permissions_rp_id_present (ts (cm_pinProtocol cm) s) = false
     else rp_allowed (cm_pinProtocol cm) (cm_rpIdHash cm) s).

Lemma cm_authorize_ok m cm s : ready m s -> cm_ok cm -> rp_hash_sized s -> goes_on (cm_subCommand cm) = false ->
  wpx (verify_pin_auth_for_credential_management cm) (fun _ => refused m s) (fun _ _ => cm_allowed cm s) s.
Proof.
  intros R C Hr Hg. unfold verify_pin_auth_for_credential_management, cm_allowed. fold (goes_on (cm_subCommand cm)). rewrite Hg.
  assert (H0 : refused m s s) by by apply refused_calm.
  set (p := cm_pinProtocol cm). apply wpx_guard; [done|]. intros _. apply wpx_guard; [done|]. intros Hp.
  apply orb_true_iff in Hp. assert (Hp' : p = 1 \/ p = 2) by (destruct Hp; zbool; auto). clear Hp.
  destruct (auth_size p (cm_pinUvAuthParam cm) (cmo_param _ C)) as [Bp Lp].
  pose proof (cmo_size _ C) as Hz. pose proof (cmo_copy _ C) as [Lc _]. unfold PARAMS_COPY_SIZE in *.
  eapply (wpx_known _ _ _ _ s (cm_message cm) s).
  { rewrite u32_small by (unfold is_u32; lia). unfold lift.
    rewrite mem_read_fits by (unfold hashed; cbn [length]; lia). unfold slice. by rewrite drop_0. }
  eapply wpx_bind.
  { eapply wpx_mono; [exact (verify_auth_ok m p _ _ s R Bp Lp)| |intros a s' Hs; exact Hs].
    intros e s' (_ & _ & t & Ht). by eapply refused_ts. }
  intros _ s1 (Hl & Hm & M1). pose proof (ts_moved_ts _ _ _ _ _ M1) as Et.
  destruct (observed_keeps _ _ Hl) as (Ep & _ & _ & Er & Eh).
  assert (Hf : refused m s s1) by by eapply refused_ts.
  unfold ctap_client_pin_verify_permissions, get_pt. apply wps_bind, wps_bind, wps_gets. fold (ts p s1). rewrite Et, Ep.
  apply wps_ret, wpx_guard; [done|]. intros Ha%negb_true_iff%Z.eqb_neq.
  destruct (cm_subCommand cm =? CM_SubCmd_enumerateRPsBegin).
  - unfold ctap_client_pin_permissions_rp_id_present, get_pt. apply wps_bind, wps_bind, wps_gets. fold (ts p s1).
    rewrite Et, Er. apply wps_ret. unfold guard. destruct (permissions_rp_id_present (ts p s)); [by apply wpx_throw|].
    apply wpx_ok. split; [done|]. by split.
  - destruct (verify_rp_done p (cm_rpIdHash cm) s1) as (b & Eb & Hiff);
      [by rewrite Et, Eh|destruct (cmo_hash _ C); lia|].
    eapply wpx_known; [exact Eb|]. unfold guard. destruct b; [|by apply wpx_throw]. apply wpx_ok.
    split; [done|]. split; [by split|]. apply (rp_allowed_observed p _ s s1 Hl Et). by apply Hiff.
Qed.

(** The enumeration of [s'] aside, a calm step; and it was not opened. *)
Definition closed (s s' : dev) : Prop := d_cm s' = d_cm s \/ d_cm s' = cms_zero.
Definition restored (s s' : dev) : dev := s' <| d_cm := d_cm s |>.
Lemma calm_restored s s' : calm s s' -> calm s (restored s s').
Proof. intros []. by split. Qed.

Lemma calm_upd_cm f s0 s : calm s0 (restored s0 s) ->
  wps (upd_cm f) (fun _ s' => calm s0 (restored s0 s') /\ d_cm s' = f (d_cm s)) s.
Proof. intros []. split; [by split|done]. Qed.

(** Whether an enumeration goes on; if it does not, it is over or was not
    begun. *)
Lemma check_state_ok cm s : goes_on (cm_subCommand cm) = true ->
  wps (check_state (cm_subCommand cm)) (fun r s' => cm_allowed cm s \/ (r < 0 /\ calm s (restored s s') /\ closed s s')) s.
Proof.
  intros Hg. unfold check_state, cm_allowed, get_cm. rewrite Hg. apply wps_bind, wps_gets.
  assert (Hrej : forall s1, calm s s1 ->
    wps (upd_cm (fun c => c <| cms_valid := false |>) ;* clear_state ;* ret (-1))
      (fun r s' => (cms_valid (d_cm s) = true /\ continues (cm_subCommand cm) (init_cmd (d_cm s)) = true /\
         u32 (clock s - timestamp (d_cm s)) <= CTAP_STATEFUL_TIMEOUT_MS) \/
         (r < 0 /\ calm s (restored s s') /\ closed s s')) s1).
  { intros s1 C1. eapply wps_step; [by apply (calm_upd_cm _ s), calm_restored|]. intros ? s2 [C2 _].
    eapply wps_step; [by apply (calm_upd_cm _ s)|]. intros ? s3 [C3 E3]. apply wps_ret. right. split; [done|].
    split; [done|]. by right. }
  destruct (cms_valid (d_cm s)) eqn:Ev.
  2: { apply wps_ret. right. split; [done|]. split; [apply calm_restored; reflexivity|by left]. }
  destruct (continues _ _) eqn:Ec; [|by apply Hrej].
  eapply wps_step; [apply clock_ok|]. intros now s1 [-> C1].
  destruct (_ >? _) eqn:Et; [by apply Hrej|]. zbool.
  eapply wps_step; [by apply (calm_upd_cm _ s), calm_restored|]. intros ? s2 _. apply wps_ret. by left.
Qed.

(** What a refusal leaves, an enumeration that is over aside. *)
Definition cm_refused (m : volume) (s s' : dev) : Prop := refused m s (restored s s') /\ closed s s'.

Lemma refused_cm m s s' : refused m s s' -> cm_refused m s s'.
Proof.
  intros (p & t & M). pose proof (m_cm _ _ _ _ _ M) as Ec. split; [|by left]. exists p, t.
  replace (restored s s') with s'; [done|]. unfold restored. rewrite <- Ec. by destruct s'.
Qed.

Lemma check_then_refuses m cm {A} (k : X dev A) s : ready m s -> goes_on (cm_subCommand cm) = true -> ~ cm_allowed cm s ->
  wpx (let* r := check_state (cm_subCommand cm) in guard (negb (r <? 0)) CTAP2_ERR_NOT_ALLOWED ^; k)
    (fun _ => cm_refused m s) (fun _ _ => False) s.
Proof.
  intros R Hg Ha. eapply wpx_step; [by apply check_state_ok|]. intros r s1 [?|(Hr & C & Hc)]; [done|].
  apply wpx_guard; [intros _; split; [by apply refused_calm|done]|]. intros Hn%negb_true_iff. zbool. lia.
Qed.


End Steps.

(** ** On the concrete device *)

Import Lfs.Ram Board.Sim Demo.Toy.

(** A request of makeCredential with protocol two. *)
Definition demo_registration (param : list Z) : list Z :=
  let str s := item_bytes (IText (text s)) in
  item_bytes (IMap 6) ++
  item_bytes (IUint 1) ++ item_bytes (IBytes (replicate 32 9)) ++
  item_bytes (IUint 2) ++ item_bytes (IMap 1) ++ str "id" ++ str "example.org" ++
  item_bytes (IUint 3) ++ item_bytes (IMap 2) ++ str "id" ++ item_bytes (IBytes [1; 2; 3]) ++ str "name" ++ str "ada" ++
  item_bytes (IUint 4) ++ item_bytes (IArray 1) ++ item_bytes (IMap 2) ++ str "alg" ++ item_bytes (INint 6) ++
    str "type" ++ str "public-key" ++
  item_bytes (IUint 8) ++ item_bytes (IBytes param) ++ item_bytes (IUint 9) ++ item_bytes (IUint 2).

(** A device on which a token of protocol two was handed out for makeCredential. *)
Definition demo_token_dev : dev := (demo_pin_dev 8)
  <| d_pin := set_ts 2 (mkTs (zeros 32) false CP_pinUvAuthToken_permissions_mc 0 0 true true false) (d_pin demo) |>.

(** The request with the MAC of the token registers; any other does not. *)
Definition demo_register (param : list Z) : option (Z + unit) :=
  match ctap_make_credential (cbor_encoder_init 1024, zeros 1024) (demo_registration param) demo_token_dev with
  | Done (inl e, _) => Some (inl e)
  | Done (inr _, _) => Some (inr tt)
  | Fault _ => None
  end.
Example demo_register_ok : demo_register (auth_tag 2 (zeros 32) (replicate 32 9)) = Some (inr tt).
Proof. vm_compute. reflexivity. Qed.

Definition parses {A} (m : P A) (test : A -> bool) : bool :=
  match m tt with Done (inr a, _) => test a | _ => false end.
Lemma parses_done {A} (m : P A) test a : parses m test = true -> m tt = Done (inr a, tt) -> test a = true.
Proof. unfold parses. intros H Ep. by rewrite Ep in H. Qed.

Lemma demo_unauthorised : ~ exists mc, parse_make_credential (demo_registration (zeros 32)) tt = Done (inr mc, tt) /\
  mc_authorised mc demo_token_dev.
Proof.
  intros (mc & Ep & [(_ & Hm & _) _ _]).
  assert (H : parses (parse_make_credential (demo_registration (zeros 32))) (fun mc => 
    (mc_pinProtocol mc =? 2) && bool_decide (mc_pinUvAuthParam mc = zeros 32) &&
    bool_decide (mc_clientDataHash mc = replicate 32 9)) = true) by (vm_compute; reflexivity).
  pose proof (parses_done _ _ _ H Ep) as Ht. apply andb_true_iff in Ht as [[Hp Ha]%andb_true_iff Hc]. zbool.
  rewrite Hp, Ha, Hc in Hm.
  assert (Hn : bool_decide (take (auth_param_size 2) (zeros 32) = token_mac 2 (replicate 32 9) demo_token_dev) = false)
    by (vm_compute; reflexivity).
  apply bool_decide_eq_false in Hn. exact (Hn Hm).
Qed.

Lemma demo_token_rp : rp_hash_sized demo_token_dev.
Proof. intros p. unfold ts, get_pin_protocol_state. by destruct (p =? 1). Qed.
Lemma demo_token_ready : ready demo_files demo_token_dev.
Proof. destruct (demo_pin_ready 8 ltac:(lia)). split; try done. split; try done; apply (zeros_bytes 32). Qed.

Lemma make_credential_needs_token_witness :
  match ctap_make_credential (cbor_encoder_init 1024, zeros 1024) (demo_registration (zeros 32)) demo_token_dev with
  | Done (r, s') => (exists e, r = inl e) /\ refused demo_files demo_token_dev s'
  | Fault f => f = FAssert \/ f = FExit
  end.
Proof.
  apply (make_credential_needs_token (L := Ram) (B := Sim) (E := ToyEcc) (U := Zeros)).
  - apply demo_token_ready.
  - apply bytes_all. vm_compute. reflexivity.
  - apply desc_zero_ok.
  - apply demo_token_rp.
  - reflexivity.
  - apply demo_unauthorised.
Defined.

(** The token has no permission to manage credentials. *)
Definition demo_metadata : list Z :=
  item_bytes (IMap 3) ++ item_bytes (IUint 1) ++ item_bytes (IUint 1) ++ item_bytes (IUint 3) ++ item_bytes (IUint 2) ++
  item_bytes (IUint 4) ++ item_bytes (IBytes (auth_tag 2 (zeros 32) [1])).


End Authorise.
