(* ===== verification/CredProps.v ===== *)
(** * Credentials the device makes are credentials it accepts

    A CredentialId is its own authentication: metadata in counter mode and a
    MAC bound to the relying party.  U2F key handles work the same way.  What
    [make_credential_id] and [u2f_new_keypair] return is accepted for their
    relying party, and nothing is accepted without the MAC. *)

From S2P Require Import Prelude Monad Lfs Fs Board Sha256 Aes Crypto AesBlocks Rng State CtapTypes Dev Device DeviceProps.
From S2P Require Import RkStore CtapStatus CtapParse CtapEncode Credential Attestation Signing ClientPin PinBase Extensions AuthData.
From S2P Require Import Request U2f Demo.
Import Monad Lfs Fs Board Sha256 Aes Crypto AesBlocks Rng State CtapTypes Dev Device DeviceProps RkStore CtapStatus
  CtapParse CtapEncode Credential Attestation Signing ClientPin PinBase AuthData Request U2f Demo.

#[local] Open Scope Z_scope.

Module CredProps.

#[local] Opaque hmac sha256 KeyExpansion Cipher.

Section Credentials.
Context {L : Lfs} {LL : LfsLaws L} {B : Board} {E : Ecc} {EL : EccLaws E}.

(** Keys of the session and a generator that works. *)
Record keyed (s : dev) : Prop := {
  k_ctx : ctx_ok (sha_of s);
  k_mac : length (key_cred_mac (ses_keys (d_crypto s))) = 32%nat;
  k_priv : length (key_cred_priv (ses_keys (d_crypto s))) = 32%nat;
  k_meta : aes_key (key_meta_enc (ses_keys (d_crypto s)));
  k_rng : rng_good s;
}.

Lemma keyed_calm s s' : calm s s' -> keyed s -> keyed s'.
Proof. intros [] []. split; auto; congruence. Qed.

(** ** The MAC of the session *)

Definition session_mac (s : dev) (l : list Z) : list Z := take 16 (hmac (key_cred_mac (ses_keys (d_crypto s))) l).

Lemma session_mac_length s l : length (session_mac s l) = 16%nat.
Proof. unfold session_mac. by rewrite length_take, hmac_length. Qed.
Lemma session_mac_bytes s l : bytes (session_mac s l).
Proof. apply Forall_take, hmac_bytes. Qed.
Lemma session_mac_calm s s' l : calm s s' -> session_mac s' l = session_mac s l.
Proof. intros C. unfold session_mac. by rewrite (c_ses_keys _ _ C). Qed.

Lemma mac_pieces_done ps s : keyed s -> exists s',
  (let* key := cred_mac_key in
   sha_ (crypto_sha256_hmac_init key CRYPTO_KEY_LEN) ;*
   sha_pieces ps ;*
   let* hashbuf := sha (crypto_sha256_hmac_final key CRYPTO_KEY_LEN) in
   lift (mem_read hashbuf 0 CREDENTIAL_TAG_SIZE)) s = Done (session_mac s (concat ps), s') /\ calm s s'.
Proof.
  intros K. destruct (hmac_done _ ps s (k_ctx s K) (k_mac s K)) as (s' & E1 & C). exists s'. split; [|done].
  unfold cred_mac_key. mstep. change CRYPTO_KEY_LEN with 32. rewrite bind_three. run E1.
  unfold lift, session_mac. rewrite mem_read_fits by (rewrite hmac_length; unfold CREDENTIAL_TAG_SIZE; lia).
  unfold slice. by rewrite drop_0.
Qed.

Lemma pieces_mac_done l s : keyed s -> exists s',
  ctap_compute_mac l CREDENTIAL_TAG_SIZE s = Done (session_mac s l, s') /\ calm s s'.
Proof.
  intros K. destruct (hmac1_done _ l s (k_ctx s K) (k_mac s K)) as (s' & E1 & C). exists s'. split; [|done].
  unfold ctap_compute_mac, cred_mac_key. mstep. change CRYPTO_KEY_LEN with 32. rewrite bind_three. run E1.
  unfold lift, session_mac. rewrite mem_read_fits by (rewrite hmac_length; unfold CREDENTIAL_TAG_SIZE; lia).
  unfold slice. by rewrite drop_0.
Qed.

(** What the tag of a credential is the MAC of. *)
Definition tag_input (version : Z) (lookup nonce metadata : list Z) (count : Z) : list Z :=
  version :: lookup ++ nonce ++ metadata ++ le32 count.

Lemma make_tag_done v lookup nonce md count s : keyed s -> exists s',
  ctap_make_auth_tag v lookup nonce md count s = Done (session_mac s (tag_input v lookup nonce md count), s') /\ calm s s'.
Proof.
  intros K. destruct (mac_pieces_done [[v]; lookup; nonce; md; le32 count] s K) as (s' & E1 & C).
  exists s'. split; [|done]. unfold ctap_make_auth_tag. by rewrite E1.
Qed.

(** ** Metadata in counter mode *)

Definition meta_stream (s : dev) (n : nat) (iv : list Z) : list Z :=
  key_stream (Cipher (KeyExpansion (key_meta_enc (ses_keys (d_crypto s))))) n iv.

Lemma xcrypt_done iv l n s : keyed s -> block iv -> (length l <= 16 * n)%nat -> (length l < 256)%nat ->
  ctap_xcrypt_buf iv l (Z.of_nat (length l)) s = Done (xor_bytes l (meta_stream s n iv), s).
Proof.
  intros K Hiv Hn H8. destruct (k_meta s K) as [Kb Kl]. unfold ctap_xcrypt_buf. mstep.
  unfold u8. rewrite Z.mod_small by lia. unfold lift.
  pose proof (ctr_xcrypt_stream _ iv l n Kb ltac:(lia) Hiv Hn) as H. unfold Aes.crypto_aes256_ctr_xcrypt_buffer in H.
  unfold Credential.crypto_aes256_ctr_xcrypt_buffer. by rewrite H.
Qed.

Lemma meta_stream_length s n iv : keyed s -> block iv -> length (meta_stream s n iv) = (16 * n)%nat.
Proof.
  intros K Hiv. destruct (k_meta s K) as [Kb Kl]. apply key_stream_length; [|done].
  apply Cipher_block, KeyExpansion_round_keys; [done|lia].
Qed.

Lemma xcrypt_twice iv l n s s' : keyed s -> block iv -> (length l <= 16 * n)%nat -> (length l < 256)%nat ->
  key_meta_enc (ses_keys (d_crypto s')) = key_meta_enc (ses_keys (d_crypto s)) ->
  keyed s' ->
  ctap_xcrypt_buf iv (xor_bytes l (meta_stream s n iv)) (Z.of_nat (length l)) s' = Done (l, s').
Proof.
  intros K Hiv Hn H8 Hk K'. pose proof (meta_stream_length s n iv K Hiv) as Ls.
  assert (Lx : length (xor_bytes l (meta_stream s n iv)) = length l) by (apply xor_bytes_length; lia).
  rewrite <- Lx at 1. rewrite (xcrypt_done iv _ n s' K' Hiv) by lia.
  unfold meta_stream at 2. rewrite Hk. fold (meta_stream s n iv). by rewrite xor_bytes_cancel by lia.
Qed.

(** ** Private keys *)

Definition private_key (s : dev) (data : list Z) : list Z := hmac (key_cred_priv (ses_keys (d_crypto s))) data.

Lemma credential_key_done data s : keyed s -> exists s',
  credential_key data s = Done (private_key s data, s') /\ calm s s'.
Proof.
  intros K. unfold credential_key. mstep. unfold private_key. set (k := key_cred_priv _).
  assert (Lk : length k = 32%nat) by apply (k_priv s K).
  destruct (hmac_init_rep k (sha_of s) (k_ctx s K) ltac:(lia)) as (c1 & E1 & R1).
  destruct (update_rep data _ _ R1) as (c2 & E2 & R2). destruct (update_rep [] _ _ R2) as (c3 & E3 & R3).
  rewrite <- app_assoc, app_nil_r in R3.
  destruct (hmac_final_rep k data c3 R3 ltac:(lia)) as (c4 & E4 & H4).
  rewrite Lk in E1, E4. change (Z.of_nat 32) with 32 in *.
  exists (set_sha c4 s). split; [|by apply calm_sha]. apply (sha_done _ s _ c4).
  change (sha256_ctx (d_crypto s)) with (sha_of s). unfold crypto_derive_credential_key. rewrite E1. cbn [res_bind]. unfold crypto_sha256_update. rewrite E2. cbn [res_bind].
  rewrite E3. cbn [res_bind]. exact E4.
Qed.

(** ** CTAP2 credentials *)

Definition authentic (s : dev) (lookup : list Z) (c : CredentialId) : Prop :=
  cr_tag c = session_mac s (tag_input (cr_version c) lookup (cr_nonce c) (protected_metadata c) (cr_count c)).

#[export] Instance authentic_dec s lookup c : Decision (authentic s lookup c).
Proof. unfold authentic. apply _. Defined.

Lemma belongs_done lookup h id u s : keyed s -> cred_sized (cred_of id) -> bytes (cr_tag (cred_of id)) -> exists s',
  ctap_credential_belongs_to_rp lookup h (mkDesc PUB_KEY_CRED_PUB_KEY id u) s
    = Done (b2z (bool_decide (authentic s lookup (cred_of id))), s') /\ calm s s'.
Proof.
  intros K Hs Bt. set (c := cred_of id) in *.
  destruct (make_tag_done (cr_version c) lookup (cr_nonce c) (protected_metadata c) (cr_count c) s K) as (s' & E1 & C).
  exists s'. split; [|done]. unfold ctap_credential_belongs_to_rp. cbn [desc_type desc_id].
  change (PUB_KEY_CRED_PUB_KEY =? PUB_KEY_CRED_CTAP1) with false. rewrite Z.eqb_refl. cbv zeta iota. fold c. run E1.
  pose proof (cs_tag _ Hs) as Lt.
  set (t := session_mac _ _) in *. assert (L2 : length t = 16%nat) by apply session_mac_length.
  unfold CREDENTIAL_TAG_SIZE. rewrite secure_memeq_correct; [|done|apply session_mac_bytes|lia|lia]. mstep.
  rewrite (take_ge (cr_tag c)), (take_ge t) by lia.
  rewrite (bool_decide_ext (cr_tag c = t) (authentic s lookup c)) by done. by destruct (bool_decide _).
Qed.

(** What [credProtect] asks of a request. *)
Definition protect_status (cred_protect : Z) (verified listed : bool) : Z :=
  if cred_protect =? 2 then (if listed || verified then 0 else CTAP2_ERR_NOT_ALLOWED)
  else if cred_protect =? 3 then (if verified then 0 else CTAP2_ERR_NOT_ALLOWED)
  else 0.

Lemma check_metadata_done c md s verified listed : credential_metadata c s = Done (md, s) ->
  ctap_check_credential_metadata c verified listed s
  = Done ((protect_status (nth 3 md 0) verified listed, Z.land (nth 0 md 0) 1), s).
Proof.
  intros H. unfold ctap_check_credential_metadata. run H. unfold protect_status.
  change EXT_CRED_PROTECT_OPTIONAL_WITH_CREDID with 2. change EXT_CRED_PROTECT_REQUIRED with 3.
  change CREDENTIAL_META_CRED_PROTECT_BYTE with 3%nat. change CREDENTIAL_META_FLAGS_BYTE with 0%nat.
  by destruct (nth 3 md 0 =? 2), (nth 3 md 0 =? 3), verified, listed.
Qed.

(** The metadata of a new credential, before it is encrypted. *)
Definition plain_metadata (info : CTAP_credInfo) (cred_protect : Z) : list Z :=
  [Z.land (ci_rk info) CREDENTIAL_META_IS_RK_BITMASK; 0;
   if coseAlgorithmIdentifier info =? COSE_ALG_EDDSA then CREDID_ALG_EDDSA else CREDID_ALG_ES256; cred_protect].

Definition new_credential (s : dev) (lookup nonce : list Z) (count : Z) (info : CTAP_credInfo) (cp : Z) : CredentialId :=
  let md := xor_bytes (plain_metadata info cp) (meta_stream s 1 nonce) in
  mkCred 0 lookup nonce md count (session_mac s (tag_input 0 lookup nonce md count)).

Lemma make_credential_id_done lookup count info cp s : keyed s -> length lookup = 16%nat ->
  exists nonce s', make_credential_id lookup count info cp s = Done (new_credential s lookup nonce count info cp, s') /\
    calm s s' /\ block nonce.
Proof.
  intros K Ll. destruct (fill_random_done s (zeros 16) (k_rng s K) ltac:(cbn; lia)) as (nonce & s1 & E1 & C1 & Bn & Ln).
  rewrite zeros_length in Ln. pose proof (keyed_calm _ _ C1 K) as K1.
  unfold make_credential_id. run E1. change (Z.of_nat CREDENTIAL_METADATA_SIZE) with (Z.of_nat (length (plain_metadata info cp))).
  fold (plain_metadata info cp).
  run (xcrypt_done nonce (plain_metadata info cp) 1 s1 K1 (conj Ln Bn) ltac:(cbn; lia) ltac:(cbn; lia)).
  unfold CREDENTIAL_TAG_SIZE. rewrite mem_read_fits by lia. mstep. rewrite slice_all by lia.
  assert (Es : meta_stream s1 1 nonce = meta_stream s 1 nonce) by (unfold meta_stream; by rewrite (c_ses_keys _ _ C1)).
  rewrite Es. set (md := xor_bytes _ _).
  destruct (make_tag_done 0 lookup nonce md count s1 K1) as (s2 & E2 & C2). run E2.
  exists nonce, s2. rewrite (session_mac_calm s s1 _ C1). split; [done|]. split; [by etransitivity|]. by split.
Qed.

Lemma new_credential_sized s lookup nonce count info cp : keyed s -> length lookup = 16%nat -> block nonce ->
  is_u32 count -> cred_sized (new_credential s lookup nonce count info cp).
Proof.
  intros K Ll Hn Hc. pose proof (meta_stream_length s 1 nonce K Hn) as Ls. destruct Hn as [Hn _].
  split; cbn [new_credential CtapTypes.rp_id_lookup cr_nonce protected_metadata cr_count cr_tag]; try done.
  - rewrite xor_bytes_length; [done|]. rewrite Ls. cbn. lia.
Qed.

Lemma new_credential_metadata s s2 lookup nonce count info cp : keyed s -> block nonce -> keyed s2 ->
  ses_keys (d_crypto s2) = ses_keys (d_crypto s) ->
  credential_metadata (new_credential s lookup nonce count info cp) s2 = Done (plain_metadata info cp, s2).
Proof.
  intros K Hn K2 Hk. unfold credential_metadata. cbn [new_credential cr_nonce protected_metadata].
  change (Z.of_nat CREDENTIAL_METADATA_SIZE) with (Z.of_nat (length (plain_metadata info cp))).
  apply xcrypt_twice; try done; [cbn; lia|cbn; lia|by rewrite Hk].
Qed.

(** C33: a credential made for a relying party is accepted for it by the same
    session, whatever happens in between, and gives back the metadata it was
    made with: algorithm, residency and the protection policy.  Conversely any
    57 bytes are accepted only with the session's MAC over their fields and the
    relying party. *)
Theorem credential_round_trip lookup count info cp s : keyed s -> length lookup = 16%nat -> is_u32 count ->
  exists id s1, make_credential_id lookup count info cp s = Done (id, s1) /\ calm s s1 /\
    cred_sized id /\ CtapTypes.rp_id_lookup id = lookup /\ cr_count id = count /\
    forall s2, keyed s2 -> ses_keys (d_crypto s2) = ses_keys (d_crypto s) ->
      (forall h u, exists s3,
         ctap_credential_belongs_to_rp lookup h (mkDesc PUB_KEY_CRED_PUB_KEY (cred_bytes id) u) s2 = Done (1, s3)) /\
      ctap_restore_metadata_cose_alg id s2
        = Done (if coseAlgorithmIdentifier info =? COSE_ALG_EDDSA then COSE_ALG_EDDSA else COSE_ALG_ES256, s2) /\
      (forall verified listed, ctap_check_credential_metadata id verified listed s2
         = Done ((protect_status cp verified listed, Z.land (ci_rk info) 1), s2)) /\
      (forall h u other, bytes other -> length other = CRED_SIZE -> exists r s3,
         ctap_credential_belongs_to_rp lookup h (mkDesc PUB_KEY_CRED_PUB_KEY other u) s2 = Done (r, s3) /\
         (r = 1 <-> authentic s lookup (cred_of other))).
Proof.
  intros K Ll Hc. destruct (make_credential_id_done lookup count info cp s K Ll) as (nonce & s1 & E1 & C & Hn).
  set (id := new_credential s lookup nonce count info cp) in *.
  assert (Hs : cred_sized id) by by apply new_credential_sized.
  exists id, s1. do 5 (split; [done|]). intros s2 K2 Hk.
  assert (Ha : forall c, authentic s2 lookup c <-> authentic s lookup c)
    by (intros c; unfold authentic, session_mac; by rewrite Hk).
  pose proof (new_credential_metadata s s2 lookup nonce count info cp K Hn K2 Hk) as Hm. fold id in Hm.
  split; [|split; [|split]].
  - intros h u. rewrite <- (cred_of_bytes id Hs) in Hs.
    destruct (belongs_done lookup h (cred_bytes id) u s2 K2 Hs) as (s3 & E3 & _).
    { rewrite cred_of_bytes in * by (by apply new_credential_sized). apply session_mac_bytes. }
    exists s3. rewrite E3. do 2 f_equal. rewrite cred_of_bytes by (by apply new_credential_sized).
    rewrite bool_decide_eq_true_2; [done|]. by apply Ha.
  - unfold ctap_restore_metadata_cose_alg. run Hm. change CREDENTIAL_META_ALG_BYTE with 2%nat. cbn [plain_metadata nth].
    by destruct (_ =? COSE_ALG_EDDSA).
  - intros v l. by rewrite (check_metadata_done _ _ _ v l Hm); cbn [plain_metadata nth]; rewrite <- Z.land_assoc.
  - intros h u other Bo Lo.
    destruct (belongs_done lookup h other u s2 K2 (cred_of_sized _ Lo Bo)) as (s3 & E3 & _); [by apply slice_bytes|].
    eexists _, s3. split; [exact E3|]. rewrite <- (Ha (cred_of other)). by case_bool_decide.
Qed.

(** ** U2F key handles *)

Definition handle_tag (s : dev) (key appid : list Z) : list Z := session_mac s (key ++ appid).

Lemma u2f_tag_done key appid s : keyed s -> exists s',
  u2f_make_auth_tag key appid s = Done (handle_tag s key appid, s') /\ calm s s'.
Proof.
  intros K. destruct (mac_pieces_done [key; appid] s K) as (s' & E1 & C). exists s'. split; [|done].
  unfold u2f_make_auth_tag. rewrite E1. unfold handle_tag. cbn [concat]. by rewrite app_nil_r.
Qed.

Lemma u2f_authenticate_done kh appid s : keyed s -> (48 <= length kh)%nat -> length appid = 32%nat -> exists s',
  u2f_authenticate_credential kh 48 appid s
    = Done (b2z (bool_decide (take 16 kh = handle_tag s (slice 16 32 kh) appid)), s') /\ calm s s'.
Proof.
  intros K Lk La. unfold u2f_authenticate_credential. change (48 =? Z.of_nat CRED_SIZE) with false.
  change (48 =? U2F_KEY_HANDLE_SIZE) with true. cbv iota.
  change U2F_KEY_HANDLE_TAG_SIZE with 16%nat. change U2F_KEY_HANDLE_KEY_SIZE with 32%nat.
  rewrite !mem_read_fits by lia. mstep. rewrite (slice_all appid) by lia.
  destruct (u2f_tag_done (slice 16 32 kh) appid s K) as (s' & E1 & C). exists s'. split; [|done]. run E1.
  unfold slice at 1. rewrite drop_0. set (t := handle_tag _ _ _).
  assert (Lt : length t = 16%nat) by apply session_mac_length.
  assert (L16 : length (take 16 kh) = 16%nat) by (rewrite length_take; lia).
  unfold ret. do 3 f_equal. by apply lookups_equal.
Qed.

(** What a key handle of [len] bytes needs to be accepted for an application: 48
    bytes are a tag and a key, 57 bytes a FIDO2 credential; no other length is
    one. *)
Definition handle_authentic (s : dev) (len : Z) (mem appid : list Z) : Prop :=
  len = 48 /\ take 16 mem = handle_tag s (slice 16 32 mem) appid \/
  len = 57 /\ CtapTypes.rp_id_lookup (cred_of (take 57 mem)) = take 16 appid /\
    authentic s (take 16 appid) (cred_of (take 57 mem)).

Lemma handle_authentic_keys s s' len mem appid : ses_keys (d_crypto s') = ses_keys (d_crypto s) ->
  handle_authentic s' len mem appid <-> handle_authentic s len mem appid.
Proof. intros H. unfold handle_authentic, authentic, handle_tag, session_mac. by rewrite H. Qed.

(** A FIDO2 credential used as a key handle. *)
Lemma u2f_authenticate_cred_done mem appid s : keyed s -> (57 <= length mem)%nat -> length appid = 32%nat ->
  let c := cred_of (take 57 mem) in exists s',
  u2f_authenticate_credential mem 57 appid s
    = Done (b2z (bool_decide (CtapTypes.rp_id_lookup c = take 16 appid /\ authentic s (take 16 appid) c)), s').
Proof.
  intros K Lm La c. assert (Lt : length (take 57 mem) = 57%nat) by (rewrite length_take; lia).
  unfold u2f_authenticate_credential. change (57 =? Z.of_nat CRED_SIZE) with true. cbv iota.
  unfold CRED_SIZE. rewrite !mem_read_fits by lia. unfold slice. rewrite !drop_0. mstep. fold c.
  assert (Lr : length (CtapTypes.rp_id_lookup c) = 16%nat) by (apply slice_length; lia).
  assert (L16 : length (take 16 appid) = 16%nat) by (rewrite length_take; lia).
  rewrite lookups_equal by done. case_bool_decide as Hl; cbn [negb].
  - destruct (make_tag_done (cr_version c) (take 16 appid) (cr_nonce c) (protected_metadata c) (cr_count c) s K)
      as (s' & E1 & _). run E1. exists s'. unfold ret. do 3 f_equal.
    rewrite lookups_equal by (apply session_mac_length || (apply slice_length; lia)).
    apply bool_decide_ext. unfold authentic. tauto.
  - exists s. unfold ret. do 2 f_equal. by rewrite bool_decide_eq_false_2 by tauto.
Qed.

Lemma u2f_authenticate_iff len mem appid s : keyed s -> 0 <= len -> (Z.to_nat len <= length mem)%nat ->
  length appid = 32%nat ->
  exists r s', u2f_authenticate_credential mem len appid s = Done (r, s') /\ (r = 0 \/ r = 1) /\
    (r = 1 <-> handle_authentic s len mem appid).
Proof.
  intros K H0 Lm La. unfold handle_authentic. destruct (decide (len = 48)) as [->|H1].
  { destruct (u2f_authenticate_done mem appid s K ltac:(lia) La) as (s' & -> & _).
    eexists _, s'. split; [done|]. case_bool_decide as H; cbn.
    - split; [by right|]. split; [intros _; by left|done].
    - split; [by left|]. split; [done|]. by intros [[_ ?]|[? _]]. }
  destruct (decide (len = 57)) as [->|H2].
  { destruct (u2f_authenticate_cred_done mem appid s K ltac:(lia) La) as (s' & ->).
    eexists _, s'. split; [done|]. case_bool_decide as H; cbn.
    - split; [by right|]. split; [intros _; by right|done].
    - split; [by left|]. split; [done|]. by intros [[? _]|[_ ?]]. }
  exists 0, s. unfold u2f_authenticate_credential.
  destruct (len =? Z.of_nat CRED_SIZE) eqn:E1; zbool; [by unfold CRED_SIZE in E1|].
  destruct (len =? U2F_KEY_HANDLE_SIZE) eqn:E2; zbool; [by unfold U2F_KEY_HANDLE_SIZE in E2|].
  split; [done|]. split; [by left|]. split; [done|]. tauto.
Qed.

Lemma load_key_done data s : keyed s -> exists s',
  crypto_ecc256_load_key data s = Done (tt, s') /\ ecc_privkey (d_crypto s') = private_key s data /\
    _signing_key (d_crypto s') = EccKey.
Proof.
  intros K. destruct (credential_key_done data s K) as (s1 & E1 & C).
  eexists. split; [unfold crypto_ecc256_load_key; run E1; reflexivity|]. done.
Qed.

(** The public key of a private key, in a buffer of zeros. *)
Definition derived_key (privkey : list Z) : list Z := default (zeros 64) (uECC_compute_public_key privkey).
Lemma derived_key_length k : length (derived_key k) = 64%nat.
Proof. unfold derived_key. pose proof (public_key_length k) as H. by destruct (uECC_compute_public_key k). Qed.

Lemma new_keypair_done appid s : keyed s -> exists key s',
  u2f_new_keypair appid s
    = Done ((handle_tag s key appid ++ key, derived_key (private_key s (handle_tag s key appid ++ key))), s') /\
  calm s s' /\ length key = 32%nat.
Proof.
  intros K. destruct (fill_random_done s (zeros U2F_KEY_HANDLE_KEY_SIZE) (k_rng s K) ltac:(cbn; lia))
    as (key & s1 & E1 & C1 & Bk & Lk). rewrite zeros_length in Lk. pose proof (keyed_calm _ _ C1 K) as K1.
  destruct (u2f_tag_done key appid s1 K1) as (s2 & E2 & C2). pose proof (keyed_calm _ _ C2 K1) as K2.
  set (kh := handle_tag s1 key appid ++ key) in *.
  destruct (credential_key_done kh s2 K2) as (s3 & E3 & C3).
  assert (H1 : forall l, session_mac s1 l = session_mac s l) by (intros l; by apply session_mac_calm).
  assert (H2 : private_key s2 kh = private_key s kh).
  { unfold private_key. by rewrite (c_ses_keys _ _ C2), (c_ses_keys _ _ C1). }
  exists key, s3. split; [|split; [by rewrite <- C3, <- C2|done]].
  unfold u2f_new_keypair. run E1. run E2. fold kh. unfold crypto_ecc256_derive_public_key. mstep. run E3.
  fold (derived_key (private_key s2 kh)). pose proof (derived_key_length (private_key s2 kh)) as Lp.
  rewrite !mem_read_fits by lia. mstep. rewrite slice_join, slice_all by lia. rewrite H2.
  unfold kh, handle_tag. by rewrite H1.
Qed.

(** C34: a key handle made for an application is accepted for it by the same
    session, with whatever follows it in memory, and the key loaded for it is the
    private key of the public key that was returned.  Conversely a key handle of
    any length is accepted, and only accepted, when it is 48 bytes with the
    session's MAC over the key in it and the application, or a FIDO2 credential
    of 57 bytes that names the first half of the application's hash and has the
    session's MAC over its fields with it. *)
Theorem u2f_key_handle_round_trip appid s : keyed s -> length appid = 32%nat ->
  exists kh pubkey s1, u2f_new_keypair appid s = Done ((kh, pubkey), s1) /\ calm s s1 /\ length kh = 48%nat /\
    forall s2, keyed s2 -> ses_keys (d_crypto s2) = ses_keys (d_crypto s) ->
      (forall rest, exists s3, u2f_authenticate_credential (kh ++ rest) 48 appid s2 = Done (1, s3)) /\
      (forall rest, exists s3, u2f_load_key (kh ++ rest) 48 s2 = Done (tt, s3) /\ _signing_key (d_crypto s3) = EccKey /\
         derived_key (ecc_privkey (d_crypto s3)) = pubkey) /\
      (forall len mem appid', 0 <= len -> (Z.to_nat len <= length mem)%nat -> length appid' = 32%nat -> exists r s3,
         u2f_authenticate_credential mem len appid' s2 = Done (r, s3) /\ (r = 0 \/ r = 1) /\
         (r = 1 <-> handle_authentic s len mem appid')).
Proof.
  intros K La. destruct (new_keypair_done appid s K) as (key & s1 & E1 & C & Lk).
  set (t := handle_tag s key appid) in *. assert (Lt : length t = 16%nat) by apply session_mac_length.
  assert (Lkh : length (t ++ key) = 48%nat) by (rewrite length_app; lia).
  eexists _, _, s1. split; [exact E1|]. do 2 (split; [done|]). intros s2 K2 Hk.
  assert (Ht : forall k a, handle_tag s2 k a = handle_tag s k a) by (intros k a; unfold handle_tag, session_mac; by rewrite Hk).
  split; [|split].
  - intros rest. destruct (u2f_authenticate_done ((t ++ key) ++ rest) appid s2 K2) as (s3 & E3 & _);
      [rewrite length_app; lia|done|]. exists s3. rewrite E3. rewrite bool_decide_eq_true_2; [done|].
    rewrite Ht, <- app_assoc, take_app_length' by done. rewrite slice_app_skip by lia.
    by rewrite slice_app_here by lia.
  - intros rest. unfold u2f_load_key. change (Z.to_nat 48) with 48%nat.
    rewrite mem_read_fits by (rewrite length_app; lia). mstep. rewrite slice_app_here by lia.
    destruct (load_key_done (t ++ key) s2 K2) as (s3 & E3 & Hp & Hs). exists s3. split; [done|]. split; [done|].
    rewrite Hp. unfold private_key. by rewrite Hk.
  - intros len mem appid' H0 Lm La'. destruct (u2f_authenticate_iff len mem appid' s2 K2 H0 Lm La') as (r & s3 & E3 & R & H).
    exists r, s3. split; [exact E3|]. split; [exact R|]. rewrite H. by apply handle_authentic_keys.
Qed.

End Credentials.

(** ** On the concrete device *)

Import Lfs.Ram Board.Sim Demo.Toy.

Lemma demo_keyed : keyed demo.
Proof.
  split; try done.
  - split; [by apply Forall_replicate|done].
Qed.

Definition demo_info : CTAP_credInfo := mkInfo user_zero 0 COSE_ALG_EDDSA 1.

Lemma credential_round_trip_witness :
  exists id s1, make_credential_id (replicate 16 3) 7 demo_info 2 demo = Done (id, s1) /\
    exists s3, ctap_credential_belongs_to_rp (replicate 16 3) [] (mkDesc PUB_KEY_CRED_PUB_KEY (cred_bytes id) user_zero) s1
      = Done (1, s3).
Proof.
  destruct (credential_round_trip (L := Ram) (B := Sim) (replicate 16 3) 7 demo_info 2 demo demo_keyed eq_refl
    ltac:(unfold is_u32; lia)) as (id & s1 & E1 & C & _ & _ & _ & H).
  exists id, s1. split; [exact E1|]. apply (H s1 (keyed_calm _ _ C demo_keyed) (c_ses_keys _ _ C)).
Defined.

Lemma u2f_key_handle_round_trip_witness :
  exists kh pubkey s1, u2f_new_keypair (replicate 32 3) demo = Done ((kh, pubkey), s1) /\
    exists s3, u2f_authenticate_credential (kh ++ [1]) 48 (replicate 32 3) s1 = Done (1, s3).
Proof.
  destruct (u2f_key_handle_round_trip (L := Ram) (B := Sim) (E := ToyEcc) (replicate 32 3) demo demo_keyed eq_refl)
    as (kh & pk & s1 & E1 & C & _ & H).
  exists kh, pk, s1. split; [exact E1|]. apply (H s1 (keyed_calm _ _ C demo_keyed) (c_ses_keys _ _ C)).
Defined.

End CredProps.
