(* ===== verification/AssertProps.v ===== *)
(** * Which credentials an assertion is made with

    [build_filtered_credential_list] on the credentials of a request and on the
    resident keys of the volume: with an allow list the first credential of it
    that is the device's own is chosen; without one all resident keys of the
    relying party that may be used are listed, the most recent first. *)

From stdpp Require Import sorting.
From S2P Require Import Prelude Monad Lfs Fs Board Sha256 Aes Crypto AesBlocks Rng State CtapTypes Dev Device DeviceProps.
From S2P Require Import RkStore CtapStatus CtapParse CtapEncode Credential Attestation Signing ClientPin PinBase Extensions AuthData.
From S2P Require Import CredProps Qsort QsortProps GetAssertion Demo.
Import Monad Lfs Fs Board Sha256 Aes Crypto AesBlocks Rng State CtapTypes Dev Device DeviceProps RkStore CtapStatus
  CtapParse CtapEncode Credential Attestation Signing ClientPin PinBase AuthData CredProps GetAssertion Demo DemoCtap.

#[local] Open Scope Z_scope.

Module AssertProps.

#[local] Opaque hmac sha256 KeyExpansion Cipher.

Section Assertion.
Context {L : Lfs} {LL : LfsLaws L} {B : Board} {E : Ecc} {EL : EccLaws E}.

Definition creds_of (s : dev) : list CTAP_credentialDescriptor := gs_creds (getAssertionState s).
Definition verified (s : dev) : bool := negb (gs_user_verified (getAssertionState s) =? 0).

(** ** What stays while credentials are looked at *)

(** The session goes on; of the assertion state only the credentials are
    others; the persistent state, PIN and tokens, the keys and the enumerations
    of credential management are the same. *)
Record kept (l : list CTAP_credentialDescriptor) (s s' : dev) : Prop := {
  kp_keys : ses_keys (d_crypto s') = ses_keys (d_crypto s);
  kp_gas : getAssertionState s' = (getAssertionState s) <| gs_creds := l |>;
  kp_keyed : keyed s -> keyed s';
  kp_state : STATE s' = STATE s;
  kp_pin : d_pin s' = d_pin s;
  kp_cm : d_cm s' = d_cm s;
  kp_dev_keys : dev_keys (d_crypto s') = dev_keys (d_crypto s);
}.

Lemma kept_trans l1 l2 s s1 s2 : kept l1 s s1 -> kept l2 s1 s2 -> kept l2 s s2.
Proof. intros [] []. split; try congruence; [|auto]. rewrite kp_gas1, kp_gas0. done. Qed.
Lemma kept_creds l s s' : kept l s s' -> creds_of s' = l.
Proof. intros [_ H _ _ _ _ _]. unfold creds_of. by rewrite H. Qed.
Lemma kept_verified l s s' : kept l s s' -> verified s' = verified s.
Proof. intros [_ H _ _ _ _ _]. unfold verified. by rewrite H. Qed.
Lemma calm_kept s s' : calm s s' -> kept (creds_of s) s s'.
Proof.
  intros C. split; try apply C; [|by apply keyed_calm]. rewrite (c_gas _ _ C). unfold creds_of. by destruct (getAssertionState s).
Qed.
Lemma kept_refl s : kept (creds_of s) s s.
Proof. by apply calm_kept. Qed.

(** ** The open file of resident keys *)

Definition at_file (m : gmap string (list Z)) (P : fs_file_t -> lfs_t -> Prop) (s : dev) : Prop :=
  vol m rk_dir (lfs_of s) /\ P (f_rk (d_vars s)) (lfs_of s).
Definition shut (m : gmap string (list Z)) : dev -> Prop := at_file m (fun f _ => open f = false).
Definition reading (m : gmap string (list Z)) (v : fview) : dev -> Prop := at_file m (fun f => is_open f v).

Lemma at_file_with m P s : at_file m P s -> with_file s s m P.
Proof.
  intros [Hl Hp]. exists (f_rk (d_vars s)), (lfs_of s). split; [|done]. destruct s as [[] ? [] ? ? ? ?]. reflexivity.
Qed.
Lemma with_file_kept s s' m P : with_file s s' m P -> kept (creds_of s) s s' /\ at_file m P s'.
Proof.
  intros (f & l & -> & Hl & Hp). split; [|done]. split; try done.
  - unfold creds_of. cbn. by destruct (getAssertionState s).
  - intros []. by split.
Qed.
Lemma calm_at_file m P s s' : calm s s' -> at_file m P s -> at_file m P s'.
Proof. intros C [Hl Hp]. unfold at_file. by rewrite (c_lfs _ _ C), (c_rk _ _ C). Qed.

Lemma load_next_ok m path ks old s i k : reading m (rk_view path (i * RK_SIZE) ks false) s -> rks_sized ks ->
  rk_sized old -> ks !! i = Some k ->
  wp (ctap_load_next_rk old) (fun r s' => r = k /\ kept (creds_of s) s s' /\
    reading m (rk_view path (S i * RK_SIZE) ks false) s') s.
Proof.
  intros Hr Hs Ho Hk. unfold ctap_load_next_rk. apply wp_bind.
  eapply wp_mono; [eapply read_next_ok; [by apply at_file_with|done|done]|]. intros [r d] s1 (-> & _ & H1).
  apply wp_ret. rewrite load_key by (done || by eapply Forall_lookup_1). split; [done|]. by apply with_file_kept.
Qed.

(** ** Metadata and MACs of one credential *)

Definition metadata (s : dev) (c : CredentialId) : list Z := xor_bytes (protected_metadata c) (meta_stream s 1 (cr_nonce c)).
Definition own_keys (s s' : dev) : Prop := ses_keys (d_crypto s') = ses_keys (d_crypto s).

Lemma metadata_done s c : keyed s -> cred_sized c -> bytes (cr_nonce c) -> credential_metadata c s = Done (metadata s c, s).
Proof.
  intros K Hs Bn. unfold credential_metadata, metadata.
  replace (Z.of_nat CREDENTIAL_METADATA_SIZE) with (Z.of_nat (length (protected_metadata c))) by by rewrite (cs_metadata _ Hs).
  pose proof (cs_metadata _ Hs). apply xcrypt_done; [done|split; [apply Hs|done]|lia|lia].
Qed.

Lemma own_mac_done tag l s : keyed s -> length tag = 16%nat -> exists s',
  ctap_verify_mac tag l s = Done (b2z (bool_decide (tag = session_mac s l)), s') /\ calm s s'.
Proof.
  intros K Ht. destruct (pieces_mac_done l s K) as (s' & E1 & C). exists s'. split; [|done]. unfold ctap_verify_mac.
  run E1. unfold CREDENTIAL_TAG_SIZE. rewrite mem_read_fits by lia. mstep. rewrite slice_all by done.
  unfold ret. do 3 f_equal. rewrite lookups_equal by (done || apply session_mac_length).
  by apply bool_decide_ext.
Qed.

(** ** Resident keys *)

(** Bytes of the widths of a resident key. *)
Record rk_fine (k : CTAP_residentKey) : Prop := {
  rf_sized : rk_sized k;
  rf_nonce : bytes (cr_nonce (rk_id k));
  rf_rk_nonce : bytes (rk_nonce k);
}.

(** A key of the relying party, made by this session, that may be listed. *)
Definition visible (s : dev) (lookup : list Z) (k : CTAP_residentKey) : bool :=
  bool_decide (lookup = rp_id_lookup (rk_id k)) && bool_decide (authentic s lookup (rk_id k)) &&
  (protect_status (nth 3 (metadata s (rk_id k)) 0) (verified s) false =? 0).
Definition intact (s : dev) (k : CTAP_residentKey) : bool :=
  bool_decide (rk_tag k = session_mac s (take RK_HMAC_SIZE (rk_bytes k))).
Definition usable (s : dev) (lookup : list Z) (k : CTAP_residentKey) : bool := visible s lookup k && intact s k.

(** The user and the relying party decrypted. *)
Definition plain_rk (s : dev) (k : CTAP_residentKey) : CTAP_residentKey :=
  let b := xor_bytes (user_bytes (rk_user k) ++ rp_bytes (rk_rp k)) (meta_stream s 15 (rk_nonce k)) in
  k <| rk_user := user_of (take USER_SIZE b) |> <| rk_rp := rp_of (drop USER_SIZE b) |>.
(** The descriptor of a resident key. *)
Definition rk_desc (s : dev) (k : CTAP_residentKey) : CTAP_credentialDescriptor :=
  mkDesc PUB_KEY_CRED_PUB_KEY (cred_bytes (rk_id k)) (rk_user (plain_rk s k)).

Lemma same_session s s' lookup k : own_keys s s' -> verified s' = verified s ->
  usable s' lookup k = usable s lookup k /\ rk_desc s' k = rk_desc s k.
Proof.
  intros Hk Hv. unfold usable, visible, intact, rk_desc, plain_rk, metadata, meta_stream, session_mac. rewrite Hv.
  assert (Ha : bool_decide (authentic s' lookup (rk_id k)) = bool_decide (authentic s lookup (rk_id k))).
  { apply bool_decide_ext. unfold authentic, session_mac. by rewrite Hk. }
  by rewrite Ha, !Hk.
Qed.

Lemma xcrypt_rk_done k s : keyed s -> rk_fine k -> xcrypt_rk k s = Done (plain_rk s k, s) /\ rk_sized (plain_rk s k).
Proof.
  intros K [Hs _ Hn]. pose proof (user_bytes_length _ (ks_user _ Hs)) as L1. pose proof (rp_bytes_length _ (ks_rp _ Hs)) as L2.
  assert (Hb : block (rk_nonce k)) by (split; [apply Hs|done]). pose proof (meta_stream_length s 15 _ K Hb) as Lm.
  unfold USER_SIZE, RP_SIZE in *. unfold plain_rk. set (p := user_bytes _ ++ rp_bytes _).
  assert (Lp : length p = 227%nat) by (unfold p; rewrite length_app; lia).
  assert (Lx : length (xor_bytes p (meta_stream s 15 (rk_nonce k))) = 227%nat) by (rewrite xor_bytes_length; lia).
  split.
  - unfold xcrypt_rk. fold p. replace (Z.of_nat (USER_SIZE + RP_SIZE)) with (Z.of_nat (length p)) by by rewrite Lp.
    run (xcrypt_done _ p 15 s K Hb ltac:(lia) ltac:(lia)). done.
  - set (x := xor_bytes p _) in *. clearbody x. destruct Hs. split; cbn; try done.
    + apply user_of_sized. rewrite length_take. unfold USER_SIZE. lia.
    + apply rp_of_sized. rewrite length_drop. unfold USER_SIZE, RP_SIZE. lia.
Qed.

Lemma resident_check_done lookup count k s : keyed s -> rk_fine k -> length lookup = 16%nat -> exists s',
  resident_check lookup count k s =
    Done (if visible s lookup k then
            if (ALLOW_LIST_MAX_SIZE <=? count)%nat then None
            else if intact s k then Some (Some (plain_rk s k)) else Some None
          else Some None, s') /\ calm s s'.
Proof.
  intros K F Ll. pose proof (rf_sized _ F) as Hs. pose proof (ks_id _ Hs) as Hi.
  unfold resident_check, visible. rewrite lookups_equal by (done || apply Hi).
  case_bool_decide as El; cbn [negb andb]; [|by exists s].
  destruct (make_tag_done (cr_version (rk_id k)) lookup (cr_nonce (rk_id k)) (protected_metadata (rk_id k))
    (cr_count (rk_id k)) s K) as (s1 & E1 & C1). run E1.
  rewrite lookups_equal by (apply Hi || apply session_mac_length).
  rewrite (bool_decide_ext _ (authentic s lookup (rk_id k))) by done.
  case_bool_decide as Ea; cbn [negb andb]; [|by exists s1].
  pose proof (keyed_calm _ _ C1 K) as K1. unfold get_gas. mstep. rewrite (c_gas _ _ C1). fold (verified s).
  run (check_metadata_done _ _ _ (verified s) false (metadata_done s1 _ K1 Hi (rf_nonce _ F))).
  assert (Em : metadata s1 (rk_id k) = metadata s (rk_id k)) by (unfold metadata, meta_stream; by rewrite (c_ses_keys _ _ C1)).
  rewrite Em. destruct (protect_status _ _ _ =? 0); cbn [negb]; [|by exists s1].
  destruct (_ <=? count)%nat; [by exists s1|].
  destruct (own_mac_done (rk_tag k) (take RK_HMAC_SIZE (rk_bytes k)) s1 K1 (ks_tag _ Hs)) as (s2 & E2 & C2). run E2.
  rewrite (session_mac_calm _ _ _ C1). fold (intact s k). pose proof (keyed_calm _ _ C2 K1) as K2.
  assert (Hp : plain_rk s2 k = plain_rk s k)
    by (unfold plain_rk, meta_stream; by rewrite (c_ses_keys _ _ C2), (c_ses_keys _ _ C1)).
  exists s2. split; [|by transitivity s1]. destruct (intact s k); cbn [b2z]; [|done].
  change (1 =? 0) with false. cbv iota. destruct (xcrypt_rk_done k s2 K2 F) as [E3 _]. run E3. by rewrite Hp.
Qed.

(** ** The list of credentials *)

Lemma wp_known {A C} (op : F A) (k : A -> F C) Q s a s' : op s = Done (a, s') -> wp (k a) Q s' -> wp (bind op k) Q s.
Proof. unfold wp. intros H. by rewrite (bind_done _ _ _ _ _ H). Qed.


(** [us] put at [count], [count] + 1, ... *)
Fixpoint fill {A} (count : nat) (us l : list A) : list A :=
  match us with
  | [] => l
  | u :: us => fill (S count) us (<[count := u]> l)
  end.

Lemma fill_spec {A} count (us l : list A) : (count + length us <= length l)%nat ->
  fill count us l = take count l ++ us ++ drop (count + length us) l.
Proof.
  revert count l. induction us as [|u us IH]; intros count l H; cbn [fill length app] in *.
  - by rewrite Nat.add_0_r, take_drop.
  - rewrite IH by (rewrite length_insert; lia). rewrite drop_insert_lt by lia.
    rewrite (take_S_r _ _ u) by (apply list_lookup_insert_eq; lia). rewrite take_insert_ge by lia.
    rewrite <- app_assoc. cbn [app]. by replace (S count + length us)%nat with (count + S (length us))%nat by lia.
Qed.

Lemma set_cred_kept i c s : (i < length (creds_of s))%nat ->
  wp (set_cred i c) (fun _ s' => kept (<[i := c]> (creds_of s)) s s' /\ forall m P, at_file m P s -> at_file m P s') s.
Proof.
  intros Hi. unfold set_cred, get_gas. apply wp_bind, wp_gets. change (gs_creds (getAssertionState s)) with (creds_of s).
  rewrite (proj2 (Nat.ltb_lt _ _) Hi). apply wp_modify. split; [|done]. split; try done. intros []. by split.
Qed.

(** The resident keys that are listed from [count] on. *)
Definition listed (s : dev) (lookup : list Z) (count : nat) (ks : list CTAP_residentKey) : list CTAP_residentKey :=
  take (ALLOW_LIST_MAX_SIZE - count) (List.filter (usable s lookup) ks).

Lemma listed_same s s' lookup count ks : own_keys s s' -> verified s' = verified s ->
  listed s' lookup count ks = listed s lookup count ks.
Proof.
  intros Hk Hv. unfold listed. f_equal. apply filter_ext. intros k. by apply same_session.
Qed.
Lemma listed_full s lookup ks : listed s lookup ALLOW_LIST_MAX_SIZE ks = [].
Proof. unfold listed. by rewrite Nat.sub_diag, take_0. Qed.
Lemma listed_skip s lookup count k ks : usable s lookup k = false ->
  listed s lookup count (k :: ks) = listed s lookup count ks.
Proof. intros H. unfold listed. cbn [List.filter]. by rewrite H. Qed.
Lemma listed_one s lookup count k ks : usable s lookup k = true -> (count < ALLOW_LIST_MAX_SIZE)%nat ->
  listed s lookup count (k :: ks) = k :: listed s lookup (S count) ks.
Proof.
  intros H Hc. unfold listed. cbn [List.filter]. rewrite H.
  by replace (ALLOW_LIST_MAX_SIZE - count)%nat with (S (ALLOW_LIST_MAX_SIZE - S count)) by lia.
Qed.
Lemma listed_length s lookup count ks : (length (listed s lookup count ks) <= ALLOW_LIST_MAX_SIZE - count)%nat.
Proof. unfold listed. rewrite length_take. lia. Qed.

Definition filled (s : dev) (lookup : list Z) (count : nat) (ks : list CTAP_residentKey) : list CTAP_credentialDescriptor :=
  fill count (rk_desc s <$> listed s lookup count ks) (creds_of s).

Lemma filled_same s s' lookup count ks : kept (creds_of s) s s' -> filled s' lookup count ks = filled s lookup count ks.
Proof.
  intros P. unfold filled. rewrite (kept_creds _ _ _ P), (listed_same s s') by (apply P || by eapply kept_verified). f_equal.
  apply list_fmap_ext. intros j x _. apply same_session with (lookup := lookup); [apply P|by eapply kept_verified].
Qed.

Lemma resident_loop_ok m path ks lookup : Forall rk_fine ks -> length lookup = 16%nat -> forall n i count rk s,
  (i + n = length ks)%nat -> reading m (rk_view path (i * RK_SIZE) ks false) s -> keyed s ->
  length (creds_of s) = ALLOW_LIST_MAX_SIZE -> (count <= ALLOW_LIST_MAX_SIZE)%nat -> rk_sized rk ->
  wp (resident_loop lookup n count rk) (fun c s' =>
    c = (count + length (listed s lookup count (drop i ks)))%nat /\
    kept (filled s lookup count (drop i ks)) s s' /\ exists pos, reading m (rk_view path pos ks false) s') s.
Proof.
  intros Hf Ll. assert (Hsz : rks_sized ks) by (eapply Forall_impl; [exact Hf|by intros k []]).
  induction n as [|n IH]; intros i count rk s Hi Hr K Hc Hcount Hrk; cbn [resident_loop].
  - apply wp_ret. rewrite drop_ge by lia. unfold filled, listed. cbn [List.filter].
    rewrite take_nil. cbn. split; [lia|]. split; [apply kept_refl|by eexists].
  - destruct (lookup_lt_is_Some_2 ks i ltac:(lia)) as [k Hk]. assert (F : rk_fine k) by by eapply Forall_lookup_1.
    rewrite (drop_S _ _ _ Hk). apply wp_bind.
    eapply wp_mono; [by eapply load_next_ok|]. intros r s1 (-> & P1 & R1).
    pose proof (kp_keyed _ _ _ P1 K) as K1.
    destruct (resident_check_done lookup count k s1 K1 F Ll) as (s2 & E2 & C2).
    pose proof (calm_kept _ _ C2) as P2. rewrite (kept_creds _ _ _ P1) in P2. pose proof (kept_trans _ _ _ _ _ P1 P2) as P12.
    pose proof (kp_keyed _ _ _ P12 K) as K2. pose proof (calm_at_file _ _ _ _ C2 R1) as R2.
    assert (Hsame : forall s', kept (creds_of s) s s' -> usable s' lookup k = usable s lookup k /\ rk_desc s' k = rk_desc s k).
    { intros s' P. apply same_session; [apply P|by eapply kept_verified]. }
    assert (Hu : usable s1 lookup k = usable s lookup k) by by apply Hsame. unfold usable at 1 in Hu.
    assert (Hnext : usable s lookup k = false -> wp (resident_loop lookup n count k) (fun c s' =>
      c = (count + length (listed s lookup count (k :: drop (S i) ks)))%nat /\
      kept (filled s lookup count (k :: drop (S i) ks)) s s' /\ exists pos, reading m (rk_view path pos ks false) s') s2).
    { intros Hno. unfold filled. rewrite listed_skip by done. pose proof (kept_creds _ _ _ P12) as Ec.
      eapply wp_mono; [apply (IH (S i) count); [lia|done|done|by rewrite Ec|done|apply F]|].
      intros c s3 (-> & P3 & Hpos). rewrite (filled_same s s2) in P3 by done. unfold filled in P3.
      rewrite (listed_same s s2) by (apply P12 || by eapply kept_verified). split; [done|].
      split; [by eapply kept_trans|done]. }
    apply (wp_known _ _ _ _ _ _ E2). destruct (visible s1 lookup k) eqn:Ev.
    + destruct (Nat.leb_spec ALLOW_LIST_MAX_SIZE count) as [Hfull|Hfree]; [|destruct (intact s1 k) eqn:Ei].
      * assert (count = ALLOW_LIST_MAX_SIZE) as -> by lia. unfold filled. rewrite listed_full. apply wp_ret.
        split; [cbn [length]; lia|]. split; [done|by eexists].
      * assert (Hu' : usable s lookup k = true) by by rewrite <- Hu. unfold filled. rewrite listed_one by done. cbn [fmap list_fmap fill length].
        apply wp_bind. eapply wp_mono; [apply set_cred_kept; rewrite (kept_creds _ _ _ P12); lia|].
        intros [] s3 [P3 Hfile]. rewrite (kept_creds _ _ _ P12) in P3.
        assert (Hd : mkDesc PUB_KEY_CRED_PUB_KEY (cred_bytes (rk_id (plain_rk s1 k))) (rk_user (plain_rk s1 k)) = rk_desc s k)
          by by rewrite <- (proj2 (Hsame s1 P1)).
        rewrite Hd in P3. pose proof (kept_trans _ _ _ _ _ P12 P3) as P. pose proof (kept_creds _ _ _ P) as Ec.
        pose proof (proj2 (xcrypt_rk_done k s1 K1 F)) as Hp.
        eapply wp_mono; [apply (IH (S i) (S count)); [lia|by apply Hfile|by apply P| |lia|done]|].
        { by rewrite Ec, length_insert. }
        intros c s4. unfold filled. rewrite Ec, (listed_same s s3) by (apply P || by eapply kept_verified).
        intros (-> & P4 & Hpos). split; [lia|]. split; [|done].
        replace (rk_desc s3 <$> listed s lookup (S count) (drop (S i) ks)) with
          (rk_desc s <$> listed s lookup (S count) (drop (S i) ks)) in P4; [by eapply kept_trans|].
        apply list_fmap_ext. intros j x _. symmetry. apply same_session with (lookup := lookup); [apply P|by eapply kept_verified].
      * apply Hnext. by rewrite <- Hu.
    + apply Hnext. by rewrite <- Hu.
Qed.

(** ** The order *)

Definition count_of (c : CTAP_credentialDescriptor) : Z := cr_count (cred_of (desc_id c)).
(** The most recent credentials come first. *)
Definition newer (a b : CTAP_credentialDescriptor) : Prop := count_of b <= count_of a.

Lemma cred_cmp_cases a b : cred_cmp_func a b = Z.sgn (count_of b - count_of a).
Proof.
  unfold cred_cmp_func, count_of. set (x := cr_count (cred_of (desc_id a))). set (y := cr_count (cred_of (desc_id b))).
  cbv zeta. destruct (Z.gtb_spec y x); [|destruct (Z.ltb_spec y x)]; lia.
Qed.
Lemma cred_cmp_order : QsortProps.order cred_cmp_func.
Proof. split; intros; rewrite !cred_cmp_cases in *; lia. Qed.
Lemma newer_le a b : QsortProps.le cred_cmp_func a b <-> newer a b.
Proof. unfold QsortProps.le, newer. rewrite cred_cmp_cases. lia. Qed.

Lemma sort_creds n l : (n <= length l)%nat -> exists l', Qsort.qsort cred_cmp_func n l = Done l' /\
  take n l' ≡ₚ take n l /\ drop n l' = drop n l /\ StronglySorted newer (take n l').
Proof.
  intros Hn. destruct (QsortProps.qsort_arranges cred_cmp_func n l Hn) as (l' & E1 & M & H). exists l'.
  split_and!; [done|by eapply QsortProps.moves_take|by eapply QsortProps.moves_drop|].
  pose proof (QsortProps.sorted_take _ _ _ (H cred_cmp_order)) as Hs.
  induction Hs as [|x xs _ IH Hx]; constructor; [done|]. eapply Forall_impl; [exact Hx|]. intros y. by apply newer_le.
Qed.

(** ** Without an allow list *)

Context {U : Uninit}.

Lemma sorted_end (credLen count : nat) s : (credLen <= length (creds_of s))%nat ->
  wp (let* g := get_gas in
      let* creds := lift (Qsort.qsort cred_cmp_func credLen (gs_creds g)) in
      upd_gas (fun g => g <| gs_creds := creds |>) ;* ret (count, credLen)) (fun r s' => r = (count, credLen) /\
    kept (creds_of s') s s' /\ take credLen (creds_of s') ≡ₚ take credLen (creds_of s) /\
    drop credLen (creds_of s') = drop credLen (creds_of s) /\ StronglySorted newer (take credLen (creds_of s')) /\
    forall m P, at_file m P s -> at_file m P s') s.
Proof.
  intros Hn. destruct (sort_creds credLen (creds_of s) Hn) as (l' & E1 & Hp & Hd & Hs). unfold get_gas.
  apply wp_bind, wp_gets. change (gs_creds (getAssertionState s)) with (creds_of s). rewrite E1.
  apply wp_bind, wp_lift, wp_bind, wp_modify, wp_ret. split; [done|]. split; [|done].
  split; try done. intros []. by split.
Qed.

(** C8: without an allow list the credentials for an assertion are the resident keys
    of the relying party that this session made, that their protection policy
    lets a request see and whose MAC is right: the first twenty of the file of the relying party,
    decrypted, the most recent first.  The rest of the assertion state, the
    persistent state, PIN and tokens, keys and enumerations are as they were; the
    file is closed again, and the volume is the same but for an empty file where
    the relying party had none. *)
Theorem resident_credentials_listed h lookup m ks s : shut m s -> keyed s -> length lookup = 16%nat ->
  length (creds_of s) = ALLOW_LIST_MAX_SIZE -> rk_sized junk_rk ->
  default [] (m !! rpid_hash_to_file lookup) = rk_file ks -> Forall rk_fine ks ->
  wp (build_filtered_credential_list 0 h lookup) (fun '(count, credLen) s' =>
    let us := take ALLOW_LIST_MAX_SIZE (List.filter (usable s lookup) ks) in
    count = length us /\ credLen = count /\
    take count (creds_of s') ≡ₚ (rk_desc s <$> us) /\ StronglySorted newer (take count (creds_of s')) /\
    kept (creds_of s') s s' /\ shut (touched (rpid_hash_to_file lookup) m) s') s.
Proof.
  intros Hshut K Ll Hc Hj Hm Hf. assert (Hsz : rks_sized ks) by (eapply Forall_impl; [exact Hf|by intros k []]).
  unfold build_filtered_credential_list. cbn [allow_list_filter]. apply wp_bind, wp_ret. cbn [Nat.eqb]. apply wp_bind, wp_bind.
  eapply wp_mono; [by eapply (open_ok s m lookup s ks); [apply at_file_with|..]|]. intros r s1 [-> R1].
  apply with_file_kept in R1 as [P1 R1]. pose proof (kept_creds _ _ _ P1) as Ec1.
  rewrite (proj2 (Z.ltb_ge _ _)) by lia. rewrite Nat2Z.id. apply wp_bind.
  eapply wp_mono; [eapply (resident_loop_ok _ _ ks lookup Hf Ll (length ks) 0); [done|exact R1|by apply P1|by rewrite Ec1|lia|done]|].
  intros c s2. rewrite drop_0, (filled_same s s1) by done. rewrite (listed_same s s1) by (apply P1 || by eapply kept_verified).
  set (us := listed s lookup 0 ks). intros (-> & P2 & pos & R2). pose proof (listed_length s lookup 0 ks) as Hu. fold us in Hu.
  apply wp_bind. eapply wp_mono; [eapply close_rk_ok, at_file_with, R2|]. intros _ s3 [_ R3].
  apply with_file_kept in R3 as [P3 R3]. apply wp_ret. cbn [Nat.add].
  pose proof (kept_trans _ _ _ _ _ (kept_trans _ _ _ _ _ P1 P2) P3) as P. rewrite (kept_creds _ _ _ P2) in P.
  pose proof (kept_creds _ _ _ P) as Ec. unfold filled in Ec. fold us in Ec.
  rewrite fill_spec in Ec by (rewrite length_fmap; lia). rewrite take_0, app_nil_l in Ec.
  eapply wp_mono; [apply (sorted_end (length us) (length us)); rewrite Ec, length_app, length_fmap; lia|].
  intros [count credLen] s4 ([= -> ->] & P4 & Hp & _ & Hs & Hfile). split; [done|]. split; [done|].
  split; [rewrite Hp, Ec, take_app_length' by (by rewrite length_fmap); done|]. split; [done|]. split; [by eapply kept_trans|].
  by apply Hfile.
Qed.

(** ** Resident keys that credentials refer to *)

(** The volume holds the lists of keys [keys] gives for every lookup value. *)
Definition stores (m : gmap string (list Z)) (keys : list Z -> list CTAP_residentKey) : Prop :=
  forall l, default [] (m !! rpid_hash_to_file l) = rk_file (keys l) /\ rks_sized (keys l).

Lemma stores_touched p m keys : stores m keys -> stores (touched p m) keys.
Proof.
  intros H l. split; [|apply H]. rewrite <- (proj1 (H l)). unfold touched.
  destruct (decide (rpid_hash_to_file l = p)) as [->|Hn]; [by rewrite lookup_insert_eq|by rewrite lookup_insert_ne].
Qed.

Definition refers (s : dev) (c : CredentialId) (k : CTAP_residentKey) : bool :=
  bool_decide (rp_id_lookup c = rp_id_lookup (rk_id k)) && bool_decide (cred_bytes c = cred_bytes (rk_id k)) && intact s k.
(** A key with the credential, whose MAC is right, is on the volume. *)
Definition stored (s : dev) (keys : list Z -> list CTAP_residentKey) (c : CredentialId) : bool :=
  existsb (refers s c) (keys (rp_id_lookup c)).

Lemma refers_same s s' c k : own_keys s s' -> refers s' c k = refers s c k.
Proof. intros Hk. unfold refers, intact, session_mac. by rewrite Hk. Qed.
Lemma refers_any s s' c ks : own_keys s s' -> existsb (refers s' c) ks = existsb (refers s c) ks.
Proof. intros Hk. induction ks as [|k ks IH]; [done|]. cbn [existsb]. by rewrite (refers_same s s'), IH. Qed.

Lemma close_shut m path pos ks s : reading m (rk_view path pos ks false) s ->
  wp ctap_close_rk_file (fun _ s' => kept (creds_of s) s s' /\ shut m s') s.
Proof.
  intros R. eapply wp_mono; [eapply close_rk_ok, at_file_with, R|]. intros _ s' [_ H]. by apply with_file_kept in H.
Qed.

Lemma verify_rk_loop_ok m path ks c : rks_sized ks -> cred_sized c -> forall n i rk s, (i + n = length ks)%nat ->
  reading m (rk_view path (i * RK_SIZE) ks false) s -> keyed s -> rk_sized rk ->
  wp (verify_rk_loop n c rk) (fun r s' => r = b2z (existsb (refers s c) (drop i ks)) /\ kept (creds_of s) s s' /\ shut m s') s.
Proof.
  intros Hks Hc. induction n as [|n IH]; intros i rk s Hi R K Hrk; cbn [verify_rk_loop].
  - rewrite drop_ge by lia. apply wp_bind. eapply wp_mono; [by eapply close_shut|]. intros x s' H. by apply wp_ret.
  - destruct (lookup_lt_is_Some_2 ks i ltac:(lia)) as [k Hk]. assert (F : rk_sized k) by by eapply Forall_lookup_1.
    rewrite (drop_S _ _ _ Hk). apply wp_bind. eapply wp_mono; [by eapply load_next_ok|]. intros k0 s1 (-> & P1 & R1).
    pose proof (kp_keyed _ _ _ P1 K) as K1. pose proof (ks_id _ F) as Hi'.
    assert (Hnext : forall s2, kept (creds_of s) s s2 -> reading m (rk_view path (S i * RK_SIZE) ks false) s2 ->
      refers s c k = false -> wp (verify_rk_loop n c k)
        (fun r s' => r = b2z (existsb (refers s c) (k :: drop (S i) ks)) /\ kept (creds_of s) s s' /\ shut m s') s2).
    { intros s2 P2 R2 Hno. cbn [existsb]. rewrite Hno. cbn [orb]. eapply wp_mono; [apply (IH (S i) k s2); [lia|done|by apply P2|done]|].
      intros r s3 (-> & P3 & R3). rewrite (kept_creds _ _ _ P2) in P3. split; [|split; [by eapply kept_trans|done]].
      f_equal. apply refers_any, P2. }
    rewrite lookups_equal by (apply Hc || apply Hi'). unfold is_cred_id_matching_rk.
    case_bool_decide as E1; cbn [negb];
      [|apply Hnext; [done|done|]; unfold refers; by rewrite (bool_decide_eq_false_2 _ E1)].
    assert (Em : (memcmp (cred_bytes c) (cred_bytes (rk_id k)) =? 0) = bool_decide (cred_bytes c = cred_bytes (rk_id k))).
    { apply eq_true_iff_eq. rewrite Z.eqb_eq, bool_decide_eq_true. apply memcmp_zero. by rewrite !cred_bytes_length. }
    rewrite Em. case_bool_decide as E2; cbn [b2z];
      [|apply Hnext; [done|done|]; unfold refers; by rewrite (bool_decide_eq_false_2 _ E2), andb_false_r].
    change (1 =? 0) with false. cbv iota.
    assert (Er : refers s c k = intact s k) by (unfold refers; by rewrite !bool_decide_eq_true_2).
    destruct (own_mac_done (rk_tag k) (take RK_HMAC_SIZE (rk_bytes k)) s1 K1 (ks_tag _ F)) as (s2 & E3 & C2).
    apply (wp_known _ _ _ _ _ _ E3). pose proof (calm_kept _ _ C2) as P2. rewrite (kept_creds _ _ _ P1) in P2.
    pose proof (kept_trans _ _ _ _ _ P1 P2) as P12. pose proof (calm_at_file _ _ _ _ C2 R1) as R2.
    assert (Ei : bool_decide (rk_tag k = session_mac s1 (take RK_HMAC_SIZE (rk_bytes k))) = intact s k).
    { unfold intact, session_mac. by rewrite (kp_keys _ _ _ P1). }
    rewrite Ei. destruct (intact s k) eqn:Ek; cbn [b2z]; [|by apply Hnext].
    change (1 =? 0) with false. cbv iota. cbn [existsb]. rewrite Er. apply wp_bind. eapply wp_mono; [by eapply close_shut|].
    rewrite (kept_creds _ _ _ P12). intros x s3 [P3 R3]. apply wp_ret. split; [done|]. split; [by eapply kept_trans|done].
Qed.

Lemma verify_rk_exists_ok m keys c s : shut m s -> stores m keys -> keyed s -> cred_sized c ->
  wp (ctap_verify_rk_exists c) (fun r s' => r = b2z (stored s keys c) /\ kept (creds_of s) s s' /\
    exists m', shut m' s' /\ stores m' keys) s.
Proof.
  intros Hs Hm K Hc. destruct (Hm (rp_id_lookup c)) as [Hf Hk]. unfold ctap_verify_rk_exists, stored. apply wp_bind.
  eapply wp_mono; [eapply (open_ok s m _ s _ (at_file_with _ _ _ Hs) Hf Hk)|]. intros r s1 [-> R1].
  apply with_file_kept in R1 as [P1 R1]. pose proof (kept_creds _ _ _ P1) as Ec.
  set (m' := touched _ m) in *. assert (Hm' : stores m' keys) by by apply stores_touched.
  destruct (Z.leb_spec (Z.of_nat (length (keys (rp_id_lookup c)))) 0) as [H0|H0].
  - destruct (keys (rp_id_lookup c)) eqn:Ek; [|cbn in H0; lia]. apply wp_bind.
    eapply wp_mono; [by eapply close_shut|]. rewrite Ec. intros x s2 [P2 R2]. apply wp_ret.
    split; [done|]. split; [by eapply kept_trans|by exists m'].
  - rewrite Nat2Z.id. eapply wp_mono; [eapply (verify_rk_loop_ok _ _ _ c Hk Hc _ 0); [done|exact R1|by apply P1|apply rk_zero_sized]|].
    rewrite Ec, drop_0. intros r s2 (-> & P2 & R2). split; [by rewrite (refers_any s s1) by apply P1|].
    split; [by eapply kept_trans|by exists m'].
Qed.

(** ** With an allow list *)

(** A descriptor that a request can hold. *)
Record id_fine (c : CTAP_credentialDescriptor) : Prop := {
  if_length : length (desc_id c) = CRED_SIZE;
  if_bytes : bytes (desc_id c);
}.

(** Made by this session for the relying party: a key handle of U2F or a credential. *)
Definition mine (s : dev) (h lookup : list Z) (c : CTAP_credentialDescriptor) : bool :=
  if desc_type c =? PUB_KEY_CRED_CTAP1 then bool_decide (take 16 (desc_id c) = handle_tag s (slice 16 32 (desc_id c)) h)
  else if desc_type c =? PUB_KEY_CRED_PUB_KEY then bool_decide (authentic s lookup (cred_of (desc_id c)))
  else false.
(** The protection policy lets the request use it and, if it says that it is resident, it is still there. *)
Definition in_force (s : dev) (keys : list Z -> list CTAP_residentKey) (c : CredentialId) : bool :=
  (protect_status (nth 3 (metadata s c) 0) (verified s) true =? 0) &&
  ((Z.land (nth 0 (metadata s c) 0) 1 =? 0) || stored s keys c).
Definition allowed (s : dev) keys (h lookup : list Z) (c : CTAP_credentialDescriptor) : bool :=
  mine s h lookup c && in_force s keys (cred_of (desc_id c)).

Lemma allowed_same s s' keys h lookup c : kept (creds_of s') s s' -> allowed s' keys h lookup c = allowed s keys h lookup c.
Proof.
  intros P. pose proof (kp_keys _ _ _ P) as Hk. unfold allowed, mine, in_force, stored, metadata, meta_stream, handle_tag, session_mac.
  rewrite (kept_verified _ _ _ P), (refers_any s s'), Hk by done.
  rewrite (bool_decide_ext (authentic s' lookup _) (authentic s lookup (cred_of (desc_id c)))); [done|].
  unfold authentic, session_mac. by rewrite Hk.
Qed.

Lemma belongs_ok h lookup c s : keyed s -> id_fine c -> length h = 32%nat -> exists s',
  ctap_credential_belongs_to_rp lookup h c s = Done (b2z (mine s h lookup c), s') /\ calm s s'.
Proof.
  intros K [Hl Hb] Lh. unfold mine. destruct c as [t id u]. cbn [desc_type desc_id] in *. unfold CRED_SIZE in Hl.
  destruct (Z.eqb_spec t PUB_KEY_CRED_CTAP1) as [->|H1].
  - unfold ctap_credential_belongs_to_rp. cbn [desc_type desc_id]. rewrite Z.eqb_refl.
    apply u2f_authenticate_done; [done|lia|done].
  - destruct (Z.eqb_spec t PUB_KEY_CRED_PUB_KEY) as [->|H2].
    + apply belongs_done; [done|by apply cred_of_sized|by apply slice_bytes].
    + exists s. split; [|done]. unfold ctap_credential_belongs_to_rp. cbn [desc_type].
      by rewrite (proj2 (Z.eqb_neq _ _) H1), (proj2 (Z.eqb_neq _ _) H2).
Qed.

Lemma allow_list_check_ok m keys h lookup c s : shut m s -> stores m keys -> keyed s -> id_fine c -> length h = 32%nat ->
  wp (allow_list_check h lookup c) (fun r s' => r = allowed s keys h lookup c /\ kept (creds_of s) s s' /\
    exists m', shut m' s' /\ stores m' keys) s.
Proof.
  intros Hs Hm K F Lh. destruct F as [Hl Hb]. pose proof (cred_of_sized _ Hl Hb) as Hc.
  destruct (belongs_ok h lookup c s K (Build_id_fine c Hl Hb) Lh) as (s1 & E1 & C1). unfold allow_list_check, allowed.
  apply (wp_known _ _ _ _ _ _ E1). pose proof (calm_kept _ _ C1) as P1. pose proof (kp_keyed _ _ _ P1 K) as K1.
  pose proof (calm_at_file _ _ _ _ C1 Hs) as R1.
  destruct (mine s h lookup c); cbn [b2z andb]; [|apply wp_ret; split_and!; [done|done|by exists m]].
  change (1 =? 0) with false. cbv iota. unfold get_gas. apply wp_bind, wp_gets. rewrite (c_gas _ _ C1). fold (verified s).
  assert (Em : metadata s1 (cred_of (desc_id c)) = metadata s (cred_of (desc_id c)))
    by (unfold metadata, meta_stream; by rewrite (c_ses_keys _ _ C1)).
  assert (Bn : bytes (cr_nonce (cred_of (desc_id c)))) by by apply slice_bytes.
  apply (wp_known _ _ _ _ _ _ (check_metadata_done _ _ _ (verified s) true (metadata_done s1 _ K1 Hc Bn))).
  rewrite Em. unfold in_force. destruct (protect_status _ _ _ =? 0); cbn [negb andb];
    [|apply wp_ret; split_and!; [done|done|by exists m]].
  destruct (Z.land _ 1 =? 0); cbn [negb orb]; [apply wp_ret; split_and!; [done|done|by exists m]|].
  apply wp_bind. eapply wp_mono; [by eapply verify_rk_exists_ok|]. intros r s2 (-> & P2 & H2).
  rewrite (kept_creds _ _ _ P1) in P2. apply wp_ret. split; [|split; [by eapply kept_trans|done]].
  unfold stored. rewrite (refers_any s s1) by apply P1. by destruct (existsb _ _).
Qed.

(** The credentials from [i] to [j] - 1 have the count 0. *)
Definition voided (i j : nat) (l l' : list CTAP_credentialDescriptor) : Prop :=
  length l' = length l /\ forall k, l' !! k = if decide (i <= k < j)%nat then invalidate <$> l !! k else l !! k.

(** The result of the loop on [l], from [i] on. *)
Fixpoint first_allowed (ok : CTAP_credentialDescriptor -> bool) (n i : nat) (l : list CTAP_credentialDescriptor)
    : option (nat * CTAP_credentialDescriptor) :=
  match n with
  | O => None
  | S n => c ← l !! i; if ok c then Some (i, c) else first_allowed ok n (S i) l
  end.

Lemma first_allowed_other ok n : forall i l l', (forall k, (i <= k)%nat -> l' !! k = l !! k) ->
  first_allowed ok n i l' = first_allowed ok n i l.
Proof.
  induction n as [|n IH]; intros i l l' H; [done|]. cbn [first_allowed]. rewrite H by lia.
  destruct (l !! i) as [c|]; [|done]. cbn [mbind option_bind]. destruct (ok c); [done|]. apply IH. intros. apply H. lia.
Qed.
Lemma first_allowed_from ok n : forall i l j c, first_allowed ok n i l = Some (j, c) -> (i <= j)%nat.
Proof.
  induction n as [|n IH]; intros i l j c; [done|]. cbn [first_allowed]. destruct (l !! i) as [d|]; [|done].
  cbn [mbind option_bind]. destruct (ok d); [by intros [= -> _]|]. intros H. apply IH in H. lia.
Qed.
Lemma first_allowed_ext ok ok' n : (forall c, ok' c = ok c) -> forall i l, first_allowed ok' n i l = first_allowed ok n i l.
Proof.
  intros H. induction n as [|n IH]; intros i l; [done|]. cbn [first_allowed]. destruct (l !! i) as [c|]; [|done].
  cbn [mbind option_bind]. by rewrite H, IH.
Qed.

Lemma invalidate_id c : desc_id (invalidate c) = take 37 (desc_id c) ++ le32 0 ++ drop 41 (desc_id c).
Proof. by destruct c. Qed.
Lemma invalidate_fine c : id_fine c -> id_fine (invalidate c).
Proof.
  intros [Hl Hb]. unfold CRED_SIZE in *. split; rewrite invalidate_id.
  - rewrite !length_app, le32_length, length_take, length_drop. unfold CRED_SIZE. lia.
  - apply Forall_app. split; [by apply Forall_take|]. apply Forall_app. split; [apply le32_bytes|by apply Forall_drop].
Qed.

Lemma voided_none i j l : (j <= i)%nat -> voided i j l l.
Proof. intros H. split; [done|]. intros k. by rewrite decide_False by lia. Qed.
Lemma voided_one i j c l l' : l !! i = Some c -> (i < j)%nat -> voided (S i) j (<[i := invalidate c]> l) l' -> voided i j l l'.
Proof.
  intros Hc Hj [Hl H]. rewrite length_insert in Hl. split; [done|]. intros k. rewrite H. pose proof (lookup_lt_Some _ _ _ Hc).
  destruct (decide (k = i)) as [->|Hn].
  - rewrite decide_False, decide_True by lia. by rewrite list_lookup_insert_eq, Hc.
  - rewrite list_lookup_insert_ne by done. by destruct (decide (S i <= k < j)%nat), (decide (i <= k < j)%nat); try lia.
Qed.

Lemma allow_list_filter_ok keys h lookup : length h = 32%nat -> forall n i credLen m s,
  shut m s -> stores m keys -> keyed s -> Forall id_fine (creds_of s) -> (i + n <= length (creds_of s))%nat ->
  wp (allow_list_filter h lookup n i credLen) (fun r s' =>
    kept (creds_of s') s s' /\ (exists m', shut m' s' /\ stores m' keys) /\
    match first_allowed (allowed s keys h lookup) n i (creds_of s) with
    | Some (j, c) => r = (1%nat, S j) /\ (j < i + n)%nat /\ creds_of s' !! j = Some c /\ voided i j (creds_of s) (creds_of s')
    | None => r = (0%nat, credLen) /\ voided i (i + n) (creds_of s) (creds_of s')
    end) s.
Proof.
  intros Lh. induction n as [|n IH]; intros i credLen m s Hs Hm K Hf Hn; cbn [allow_list_filter first_allowed].
  - apply wp_ret. split; [apply kept_refl|]. split; [by exists m|]. split; [done|]. apply voided_none. lia.
  - destruct (lookup_lt_is_Some_2 (creds_of s) i ltac:(lia)) as [c Hc]. assert (F : id_fine c) by by eapply Forall_lookup_1.
    apply wp_bind. unfold get_cred, get_gas. apply wp_bind, wp_gets. change (gs_creds (getAssertionState s)) with (creds_of s).
    rewrite Hc. apply wp_ret. cbn [mbind option_bind]. apply wp_bind.
    eapply wp_mono; [by eapply allow_list_check_ok|]. intros r s1 (-> & P1 & m1 & Hs1 & Hm1). pose proof (kept_creds _ _ _ P1) as Ec1.
    destruct (allowed s keys h lookup c).
    + apply wp_ret. rewrite Ec1. split; [done|]. split; [by exists m1|]. split; [done|]. split; [lia|]. split; [done|]. by apply voided_none.
    + apply wp_bind. eapply wp_mono; [apply set_cred_kept; rewrite Ec1; lia|]. intros x s2 [P2 Hfile]. rewrite Ec1 in P2.
      pose proof (kept_trans _ _ _ _ _ P1 P2) as P. pose proof (kept_creds _ _ _ P) as Ec. rewrite <- Ec in P.
      eapply wp_mono; [apply (IH (S i) credLen m1 s2)|].
      * by apply Hfile.
      * done.
      * by apply P.
      * rewrite Ec. apply Forall_insert; [done|by apply invalidate_fine].
      * rewrite Ec, length_insert. lia.
      * intros r s3 (P3 & H3 & H). split; [by eapply kept_trans|]. split; [done|].
        rewrite (first_allowed_ext (allowed s keys h lookup)) in H by (intros; by apply allowed_same).
        rewrite Ec, (first_allowed_other _ _ _ (creds_of s)) in H by (intros; apply list_lookup_insert_ne; lia).
        destruct (first_allowed _ _ _ _) as [[j d]|] eqn:Ej.
        -- destruct H as (-> & Hj & Hd & Hv). split; [done|]. split; [lia|]. split; [done|].
           apply first_allowed_from in Ej. eapply voided_one; [done|lia|exact Hv].
        -- destruct H as [-> Hv]. split; [done|]. replace (i + S n)%nat with (S i + n)%nat by lia.
           eapply voided_one; [done|lia|exact Hv].
Qed.

Lemma invalidate_count c : id_fine c -> count_of (invalidate c) = 0.
Proof.
  intros [Hl _]. unfold CRED_SIZE in Hl. unfold count_of, cred_of. cbn [cr_count]. rewrite invalidate_id.
  rewrite slice_app_skip by (rewrite length_take; lia). rewrite slice_app_here; [done| |by rewrite le32_length].
  rewrite length_take. lia.
Qed.

(** After the sorting the only credential that was not made void comes first. *)
Lemma chosen_first j c l l1 l2 : Forall id_fine l -> voided 0 j l l1 -> l1 !! j = Some c -> (j < length l)%nat -> 0 < count_of c ->
  take (S j) l2 ≡ₚ take (S j) l1 -> StronglySorted newer (take (S j) l2) -> l2 !! 0%nat = Some c.
Proof.
  intros Hf [Hl1 Hv] Hc Hj Hpos Hp Hs. assert (Hin : c ∈ take (S j) l2).
  { rewrite Hp. apply (list_elem_of_lookup_2 _ j). by rewrite lookup_take_lt by lia. }
  rewrite <- (lookup_take_lt l2 (S j)) by lia. destruct (take (S j) l2) as [|x xs] eqn:Ex; [by apply not_elem_of_nil in Hin|].
  cbn. f_equal. assert (Hx : x ∈ take (S j) l1) by (rewrite <- Hp; apply list_elem_of_here).
  assert (Hle : count_of c <= count_of x).
  { apply StronglySorted_inv in Hs as [_ Hs]. apply elem_of_cons in Hin as [->|Hin]; [done|].
    rewrite Forall_forall in Hs. by apply (Hs c). }
  apply list_elem_of_lookup_1 in Hx as [k Hk]. apply lookup_take_Some in Hk as [Hk Hkj].
  destruct (decide (k = j)) as [->|Hn]; [congruence|]. rewrite Hv, decide_True in Hk by lia.
  destruct (l !! k) as [d|] eqn:Ed; [|done]. injection Hk as <-. rewrite invalidate_count in Hle; [lia|].
  by eapply Forall_lookup_1.
Qed.

(** The number of credentials and the first of them, when [o] is the choice. *)
Definition chosen (o : option (nat * CTAP_credentialDescriptor)) (count : nat) (s : dev) : Prop :=
  match o with
  | Some (_, c) => count = 1%nat /\ (0 < count_of c -> creds_of s !! 0%nat = Some c)
  | None => count = 0%nat
  end.


End Assertion.

(** ** On the concrete device *)

Import Lfs.Ram Board.Sim Demo.Toy.

Lemma demo_rk_shut : shut demo_rks demo_rk_dev.
Proof. split; [apply demo_storage|done]. Qed.
Lemma demo_rk_keyed : keyed demo_rk_dev.
Proof.
  split; try done.
  - split; [by apply Forall_replicate|done].
Qed.
Lemma rk_zero_fine : rk_fine rk_zero.
Proof. split; [apply rk_zero_sized|by apply (Forall_replicate is_byte 16 0)|by apply (Forall_replicate is_byte 16 0)]. Qed.

Lemma resident_credentials_listed_witness :
  wp (build_filtered_credential_list 0 (zeros 32) (zeros 16)) (fun '(count, credLen) s' =>
    let us := take ALLOW_LIST_MAX_SIZE (List.filter (usable demo_rk_dev (zeros 16)) [rk_zero]) in
    count = length us /\ credLen = count /\
    take count (creds_of s') ≡ₚ (rk_desc demo_rk_dev <$> us) /\ StronglySorted newer (take count (creds_of s')) /\
    kept (creds_of s') demo_rk_dev s' /\ shut (touched (rpid_hash_to_file (zeros 16)) demo_rks) s') demo_rk_dev.
Proof.
  apply (resident_credentials_listed (L := Ram) (B := Sim) (U := Zeros) (zeros 32) (zeros 16) demo_rks [rk_zero]
    demo_rk_dev demo_rk_shut demo_rk_keyed eq_refl eq_refl rk_zero_sized eq_refl).
  constructor; [apply rk_zero_fine|constructor].
Defined.

Definition demo_keys (l : list Z) : list CTAP_residentKey :=
  if decide (rpid_hash_to_file l = "rk/0.dat"%string) then [rk_zero] else [].
Lemma demo_stores : stores demo_rks demo_keys.
Proof.
  intros l. unfold demo_keys, demo_rks. destruct (decide _) as [->|Hn].
  - split; [by rewrite lookup_insert_eq|]. constructor; [apply rk_zero_sized|constructor].
  - split; [|constructor]. rewrite lookup_insert_ne by done. unfold demo_files. rewrite !lookup_insert_ne, lookup_empty; done.
Qed.


End AssertProps.
