(* ===== verification/ResidentProps.v ===== *)
(** * Resident keys, from their making to their listing

    What [store_resident_key] puts on the volume for a new credential is a key
    that [build_filtered_credential_list] lists, with the user it was made for,
    for as long as the session keys are the same. *)

From S2P Require Import Prelude Monad Lfs Fs Board Sha256 Aes Crypto AesBlocks Rng State CtapTypes Dev Device DeviceProps.
From S2P Require Import RkStore CtapStatus CtapParse CtapEncode Credential Attestation Signing ClientPin PinBase Extensions AuthData.
From S2P Require Import CredProps Qsort QsortProps GetAssertion Demo AssertProps.
Import Monad Lfs Fs Board Sha256 Aes Crypto AesBlocks Rng State CtapTypes Dev Device DeviceProps RkStore CtapStatus
  CtapParse CtapEncode Credential Attestation Signing ClientPin PinBase AuthData CredProps GetAssertion Demo DemoCtap AssertProps.

#[local] Open Scope Z_scope.

Module ResidentProps.

#[local] Opaque hmac sha256 KeyExpansion Cipher.

(** ** The name of the relying party *)

Lemma find_colon_bound l p : find_colon l = Some p -> (p < length l)%nat.
Proof.
  revert p. induction l as [|x l IH]; intros p; [done|]. cbn [find_colon length]. destruct (x =? 58); [by intros [= <-]; lia|].
  destruct (find_colon l) as [q|]; [|done]. intros [= <-]. specialize (IH q eq_refl). lia.
Qed.

(** The copy of the name in a resident key has 32 bytes, and is cut without an assertion failing. *)
Lemma truncate_done name n : (n <= length name)%nat ->
  exists stored len, truncate_rpid (zeros 32) name n = Done (stored, len) /\ length stored = 32%nat.
Proof.
  intros Hn. unfold truncate_rpid. rewrite mem_read_fits by done. cbn [res_bind]. unfold slice. rewrite drop_0.
  assert (Ln : length (take n name) = n) by (rewrite length_take; lia). set (id := take n name) in *. clearbody id.
  change CREDENTIAL_RP_ID_SIZE with 32%nat. destruct (Nat.leb_spec n 32) as [H32|H32].
  - rewrite mem_write_fits by (rewrite zeros_length; lia). cbn [res_bind]. eexists _, _. split; [done|].
    apply overwrite_length. rewrite zeros_length. lia.
  - set (used := match find_colon id with Some p => _ | None => _ end).
    assert (Hu : (used <= 32)%nat) by (unfold used; destruct (find_colon id); lia). clearbody used.
    assert (Lt : length (take used id) = used) by (rewrite length_take; lia).
    rewrite mem_write_fits by (rewrite zeros_length; lia). cbn [res_bind].
    set (w := _ ++ _). assert (Lw : length w = 32%nat) by (apply overwrite_length; rewrite zeros_length; lia). clearbody w.
    destruct (Nat.ltb_spec (32 - used) 3); [by eexists _, _|].
    rewrite mem_write_fits by (cbn [length]; lia). cbn [res_bind].
    set (w2 := _ ++ _). assert (Lw2 : length w2 = 32%nat) by (unfold w2; rewrite overwrite_length; [done|cbn [length]; lia]).
    clearbody w2. rewrite mem_write_fits by (rewrite length_drop; lia). cbn [res_bind].
    rewrite (proj2 (Nat.eqb_eq _ _)) by lia. eexists _, _. split; [done|]. rewrite overwrite_length; [done|rewrite length_drop; lia].
Qed.

Section Resident.
Context {L : Lfs} {LL : LfsLaws L} {B : Board} {E : Ecc} {EL : EccLaws E}.

(** ** Keys that are encrypted and sealed *)

Definition sealed_rk (s : dev) (k : CTAP_residentKey) : CTAP_residentKey :=
  let k := plain_rk s k in k <| rk_tag := session_mac s (take RK_HMAC_SIZE (rk_bytes k)) |>.

(** The MAC is over what comes before it. *)
Lemma rk_bytes_untagged k t : rk_sized k -> take RK_HMAC_SIZE (rk_bytes (k <| rk_tag := t |>)) = take RK_HMAC_SIZE (rk_bytes k).
Proof.
  intros [H1 H2 H3 H4 H5 H6]. pose proof (cred_bytes_length _ H1) as L1. pose proof (user_bytes_length _ H2) as L2.
  pose proof (rp_bytes_length _ H3) as L3. unfold CRED_SIZE, USER_SIZE, RP_SIZE in *.
  set (pre := [rk_version k] ++ cred_bytes (rk_id k) ++ user_bytes (rk_user k) ++ rp_bytes (rk_rp k) ++ user_id_lookup k ++ rk_nonce k).
  assert (Lp : length pre = RK_HMAC_SIZE) by (unfold pre; rewrite !length_app; cbn [length]; unfold RK_HMAC_SIZE, RK_SIZE, CREDENTIAL_TAG_SIZE; lia).
  assert (forall x, rk_bytes (k <| rk_tag := x |>) = pre ++ x) as Ht.
  { intros x. unfold pre, rk_bytes. cbn [rk_version rk_id rk_user rk_rp user_id_lookup rk_nonce rk_tag]. by rewrite <- !app_assoc. }
  assert (rk_bytes k = pre ++ rk_tag k) as -> by (unfold pre, rk_bytes; by rewrite <- !app_assoc).
  rewrite Ht. by rewrite !take_app_length' by done.
Qed.

Lemma tag_rk_done k s : keyed s -> exists s',
  tag_rk k s = Done (k <| rk_tag := session_mac s (take RK_HMAC_SIZE (rk_bytes k)) |>, s') /\ calm s s'.
Proof.
  intros K. destruct (pieces_mac_done (take RK_HMAC_SIZE (rk_bytes k)) s K) as (s' & E1 & C). exists s'. split; [|done].
  unfold tag_rk. by run E1.
Qed.

(** The encrypted bytes of a key. *)
Definition covered (k : CTAP_residentKey) : list Z := user_bytes (rk_user k) ++ rp_bytes (rk_rp k).
Lemma plain_user s k : rk_user (plain_rk s k) = user_of (take USER_SIZE (xor_bytes (covered k) (meta_stream s 15 (rk_nonce k)))).
Proof. by destruct k. Qed.

Lemma covered_length k : rk_sized k -> length (covered k) = 227%nat.
Proof.
  intros [_ H2 H3 _ _ _]. unfold covered. rewrite length_app, (user_bytes_length _ H2), (rp_bytes_length _ H3). reflexivity.
Qed.
Lemma covered_plain s k : keyed s -> rk_fine k -> covered (plain_rk s k) = xor_bytes (covered k) (meta_stream s 15 (rk_nonce k)).
Proof.
  intros K F. pose proof (covered_length k (rf_sized _ F)) as Lc.
  assert (Hb : block (rk_nonce k)) by (split; [apply (rf_sized _ F)|apply F]). pose proof (meta_stream_length s 15 _ K Hb) as Lm.
  unfold plain_rk. fold (covered k). set (x := xor_bytes _ _).
  assert (Lx : length x = 227%nat) by (unfold x; rewrite xor_bytes_length; lia). clearbody x.
  transitivity (user_bytes (user_of (take USER_SIZE x)) ++ rp_bytes (rp_of (drop USER_SIZE x))); [by destruct k|].
  unfold USER_SIZE in *. rewrite user_bytes_of, rp_bytes_of, take_drop; [done| |].
  - rewrite length_drop. unfold RP_SIZE. lia.
  - rewrite length_take. unfold USER_SIZE. lia.
Qed.

(** What was encrypted twice is as it was. *)
Lemma plain_twice k k' s s' : keyed s -> own_keys s s' -> rk_fine k -> rk_nonce k' = rk_nonce k ->
  covered k' = covered (plain_rk s k) -> rk_user (plain_rk s' k') = rk_user k.
Proof.
  intros K Hk F Hn Hc. pose proof (covered_length k (rf_sized _ F)) as Lc.
  assert (Hb : block (rk_nonce k)) by (split; [apply (rf_sized _ F)|apply F]). pose proof (meta_stream_length s 15 _ K Hb) as Lm.
  rewrite plain_user, Hc, Hn, covered_plain by done.
  assert (Hs : meta_stream s' 15 (rk_nonce k) = meta_stream s 15 (rk_nonce k)) by (unfold meta_stream; by rewrite Hk).
  rewrite Hs, xor_bytes_cancel by lia. unfold covered.
  pose proof (ks_user _ (rf_sized _ F)) as Hu. pose proof (user_bytes_length _ Hu).
  rewrite take_app_length' by done. by apply user_of_bytes.
Qed.

(** A key that was sealed is intact and gives its user back. *)
Lemma sealed_rk_spec k s s' : keyed s -> own_keys s s' -> rk_fine k ->
  rk_sized (sealed_rk s k) /\ intact s' (sealed_rk s k) = true /\
  rk_desc s' (sealed_rk s k) = mkDesc PUB_KEY_CRED_PUB_KEY (cred_bytes (rk_id k)) (rk_user k) /\ rk_id (sealed_rk s k) = rk_id k.
Proof.
  intros K Hk F. pose proof (proj2 (xcrypt_rk_done k s K F)) as Hp. unfold sealed_rk. cbv zeta.
  set (t := session_mac s (take RK_HMAC_SIZE (rk_bytes (plain_rk s k)))).
  assert (Hid : rk_id (plain_rk s k) = rk_id k) by by destruct k.
  assert (Hn : rk_nonce (plain_rk s k) = rk_nonce k) by by destruct k.
  assert (Hu : rk_user (plain_rk s' ((plain_rk s k) <| rk_tag := t |>)) = rk_user k).
  { by apply (plain_twice k _ s s'). }
  split_and!; [|unfold intact; rewrite rk_bytes_untagged by done; unfold session_mac; rewrite Hk; by apply bool_decide_eq_true_2| |].
  - destruct Hp. by split.
  - unfold rk_desc. by rewrite Hu, <- Hid.
  - by rewrite <- Hid.
Qed.

(** ** Making and storing *)

Lemma wpa_known {A C} (op : F A) (k : A -> F C) Q s a s' : op s = Done (a, s') -> wpa (k a) Q s' -> wpa (bind op k) Q s.
Proof. unfold wpa. intros H. by rewrite (bind_done _ _ _ _ _ H). Qed.

Lemma user_lookup_done id size s : keyed s -> (size <= length id)%nat -> exists s',
  derive_user_id_lookup id size s = Done (session_mac s (take size id), s') /\ calm s s'.
Proof.
  intros K Hs. destruct (pieces_mac_done (take size id) s K) as (s' & E1 & C). exists s'. split; [|done].
  unfold derive_user_id_lookup. rewrite mem_read_fits by lia. mstep. unfold slice. by rewrite drop_0.
Qed.

(** What the request and the volume have to be for a key to be stored. *)
Record storable (m : gmap string (list Z)) (path : string) (ks : list CTAP_residentKey) (rp : rpId) (h : list Z)
    (info : CTAP_credInfo) (s : dev) : Prop := {
  sb_storage : storage m s;
  sb_keyed : keyed s;
  sb_hash : length h = 32%nat;
  sb_user : user_sized (ci_user info);
  sb_user_id : 0 <= u_id_size (ci_user info) <= 64;
  sb_name : (Z.to_nat (rp_size rp) <= length (rp_name_id rp))%nat;
  sb_room : rk_stored (STATE s) < ctap_max_number_of_rks;
  sb_file : default [] (m !! path) = rk_file ks;
  sb_keys : rks_sized ks;
  sb_length : Z.of_nat (length ks) < 65535;
}.

(** The file of the relying party after the command: with the key, or as it was when the volume is full. *)
Definition key_stored (m : gmap string (list Z)) (path : string) (ks : list CTAP_residentKey) (k : CTAP_residentKey)
    (r : Z + unit) (s : dev) : Prop :=
  exists m', storage m' s /\
    (r = inr tt /\ m' !! path = Some (rk_file (upsert k ks)) \/ r = inl CTAP1_ERR_OTHER /\ default [] (m' !! path) = rk_file ks).

Lemma store_resident_key_ok m ks rp h info id s : let path := rpid_hash_to_file (CtapTypes.rp_id_lookup id) in
  storable m path ks rp h info s -> cred_sized id -> bytes (cr_nonce id) ->
  wpa (store_resident_key rp h info id) (fun r s' => exists k k0 s4, own_keys s s4 /\ keyed s4 /\ rk_fine k0 /\
    rk_id k0 = id /\ rk_user k0 = ci_user info /\ k = sealed_rk s4 k0 /\ key_stored m path ks k r s') s.
Proof.
  intros path [Hst K Lh Hu Hus Hname Hroom Hfile Hks Hlen] Hid Bn. unfold store_resident_key.
  apply (wpa_known _ _ _ _ _ _ eq_refl).
  assert (Hr : (rk_stored (STATE s) >=? ctap_max_number_of_rks) = false) by (rewrite Z.geb_leb; apply Z.leb_gt; lia).
  rewrite Hr. cbn [negb guard]. clear Hr.
  rewrite mem_read_fits by lia. apply (wpa_known _ _ _ _ _ _ eq_refl), (wpa_known _ _ _ _ _ _ eq_refl). rewrite slice_all by done.
  destruct (user_lookup_done (u_id (ci_user info)) (Z.to_nat (u_id_size (ci_user info))) s K) as (s1 & E1 & C1);
    [rewrite (us_id _ Hu); lia|].
  apply (wpa_known _ _ _ _ _ _ E1). set (lk := session_mac s _). assert (Llk : length lk = 16%nat) by apply session_mac_length.
  change CREDENTIAL_RP_ID_SIZE with 32%nat. destruct (truncate_done _ _ Hname) as (name & len & -> & Ln).
  apply (wpa_known _ _ _ _ _ _ eq_refl). pose proof (keyed_calm _ _ C1 K) as K1.
  destruct (fill_random_done s1 (zeros 16) (k_rng _ K1) ltac:(cbn; lia)) as (nonce & s2 & E2 & C2 & Bnn & Lnn).
  apply (wpa_known _ _ _ _ _ _ E2). rewrite zeros_length in Lnn. pose proof (keyed_calm _ _ C2 K1) as K2.
  set (k0 := mkRk _ _ _ _ _ _ _).
  assert (F : rk_fine k0).
  { split; [|done|done]. split; cbn; try done; by rewrite zeros_length. }
  destruct (xcrypt_rk_done k0 s2 K2 F) as [E3 _]. apply (wpa_known _ _ _ _ _ _ E3).
  destruct (tag_rk_done (plain_rk s2 k0) s2 K2) as (s3 & E4 & C4). apply (wpa_known _ _ _ _ _ _ E4).
  change (_ <| rk_tag := _ |>) with (sealed_rk s2 k0). pose proof (transitivity C1 (transitivity C2 C4)) as C.
  destruct (sealed_rk_spec k0 s2 s2 K2 eq_refl F) as (Hsz & _ & _ & Hkid). pose proof (storage_calm _ _ _ C Hst) as Hst3.
  assert (Hpath : rpid_hash_to_file (CtapTypes.rp_id_lookup (rk_id (sealed_rk s2 k0))) = path) by by rewrite Hkid.
  apply wpa_bind. eapply wpa_mono; [apply (overwrite_rk_upserts s3 m _ ks Hst3); try done; by rewrite Hpath|].
  rewrite Hpath. intros r s4 Hr.
  assert (Hstored : forall x, key_stored m path ks (sealed_rk s2 k0) x s4 -> exists k k0 s', own_keys s s' /\ keyed s' /\ rk_fine k0 /\
    rk_id k0 = id /\ rk_user k0 = ci_user info /\ k = sealed_rk s' k0 /\ key_stored m path ks k x s4).
  { intros x Hx. exists (sealed_rk s2 k0), k0, s2. split_and!; try done.
    unfold own_keys. by rewrite (c_ses_keys _ _ C2), (c_ses_keys _ _ C1). }
  destruct Hr as [[-> H]|[-> H]]; apply Hstored.
  - unfold overwritten in H. destruct (has_account _ _).
    + eexists. split; [exact (proj1 (storage_closed _ _ _ _ Hst3 H))|]. left. split; [done|]. apply lookup_insert_eq.
    + eexists. split; [exact (proj2 H)|]. left. split; [done|].
      rewrite lookup_insert_ne by (intros Ep; by apply (proj1 (path_props (CtapTypes.rp_id_lookup id)))). apply lookup_insert_eq.
  - eexists. split; [exact (proj1 (storage_closed _ _ _ _ Hst3 H))|]. right. split; [done|]. unfold touched. by rewrite lookup_insert_eq.
Qed.

(** C7: the resident key that makeCredential stores for a new credential is one that
    getAssertion lists, in any later state with the same session keys: it is usable exactly when its
    protection policy lets the request see it without naming it, and the
    descriptor that is listed has the bytes of the credential and the user of the request. *)
Theorem resident_key_round_trip m ks rp h lookup count info cp s : let path := rpid_hash_to_file lookup in
  storable m path ks rp h info s -> length lookup = 16%nat -> is_u32 count ->
  wpa (let* id := make_credential_id lookup count info cp in store_resident_key rp h info id) (fun r s' =>
    exists k, key_stored m path ks k r s' /\ cr_count (rk_id k) = count /\
      forall s2, keyed s2 -> ses_keys (d_crypto s2) = ses_keys (d_crypto s) ->
        usable s2 lookup k = (protect_status cp (verified s2) false =? 0) /\
        rk_desc s2 k = mkDesc PUB_KEY_CRED_PUB_KEY (cred_bytes (rk_id k)) (ci_user info)) s.
Proof.
  intros path Sb Ll Hc. pose proof (sb_keyed _ _ _ _ _ _ _ Sb) as K.
  destruct (make_credential_id_done lookup count info cp s K Ll) as (nonce & s1 & E1 & C1 & Hn).
  apply (wpa_known _ _ _ _ _ _ E1). set (id := new_credential s lookup nonce count info cp) in *.
  assert (Hid : cred_sized id) by by apply new_credential_sized.
  assert (Sb1 : storable m path ks rp h info s1).
  { destruct Sb. split; try done; [by eapply storage_calm|by eapply keyed_calm|by rewrite (c_state _ _ C1)]. }
  eapply wpa_mono; [by apply (store_resident_key_ok m ks rp h info id s1 Sb1 Hid), Hn|].
  intros r s2 (k & k0 & s4 & Hk & K4 & F & Ei & Eu & -> & Hstored). exists (sealed_rk s4 k0).
  split; [done|]. assert (Hses : ses_keys (d_crypto s4) = ses_keys (d_crypto s)) by by rewrite Hk, (c_ses_keys _ _ C1).
  destruct (sealed_rk_spec k0 s4 s4 K4 eq_refl F) as (_ & _ & _ & Eid). rewrite Eid, Ei. split; [done|].
  intros s5 K5 Hses5. destruct (sealed_rk_spec k0 s4 s5 K4 ltac:(unfold own_keys; congruence) F) as (_ & Hint & Hdesc & _).
  split; [|by rewrite Hdesc, Ei, Eu]. unfold usable, visible. rewrite Hint, Eid, Ei, andb_true_r.
  rewrite !bool_decide_eq_true_2; [|unfold authentic, session_mac; by rewrite Hses5|done]. cbn [andb].
  pose proof (new_credential_metadata s s5 lookup nonce count info cp K Hn K5 Hses5) as Hm. fold id in Hm.
  rewrite (metadata_done s5 id K5 Hid (proj2 Hn)) in Hm. injection Hm as ->. reflexivity.
Qed.

End Resident.

(** ** On the concrete device *)

Import Lfs.Ram Board.Sim Demo.Toy.

Lemma demo_storable : storable demo_rks (rpid_hash_to_file (zeros 16)) [rk_zero] rpId_zero (zeros 32) demo_info demo_rk_dev.
Proof.
  split; [apply demo_storage|apply demo_rk_keyed|done|done|done| |done|done| |done].
  - apply Nat.le_0_l.
  - constructor; [apply rk_zero_sized|constructor].
Qed.

Lemma resident_key_round_trip_witness :
  wpa (let* id := make_credential_id (zeros 16) 7 demo_info 2 in store_resident_key rpId_zero (zeros 32) demo_info id) (fun r s' =>
    exists k, key_stored demo_rks (rpid_hash_to_file (zeros 16)) [rk_zero] k r s' /\ cr_count (rk_id k) = 7 /\
      forall s2, keyed s2 -> ses_keys (d_crypto s2) = ses_keys (d_crypto demo_rk_dev) ->
        usable s2 (zeros 16) k = (protect_status 2 (verified s2) false =? 0) /\
        rk_desc s2 k = mkDesc PUB_KEY_CRED_PUB_KEY (cred_bytes (rk_id k)) (ci_user demo_info)) demo_rk_dev.
Proof.
  apply (resident_key_round_trip (L := Ram) (B := Sim) demo_rks [rk_zero] rpId_zero (zeros 32) (zeros 16) 7 demo_info 2
    demo_rk_dev demo_storable eq_refl). unfold is_u32. lia.
Defined.

End ResidentProps.
