(* ===== verification/RequestProps.v ===== *)
(** * Properties of the command dispatch and of getInfo *)

From Stdlib Require Import Ascii.
From stdpp Require Import strings.
From S2P Require Import Prelude Monad Lfs Fs Board CborParser CborProps CborEncoder CborItems State CtapTypes Dev Device CtapStatus.
From S2P Require Import CtapParse CtapEncode Credential Attestation ClientPin GetAssertion GetInfo Request Demo.
Import Monad Lfs Fs Board CborParser CborProps CborEncoder CborItems State CtapTypes Dev Device CtapStatus CtapParse CtapEncode
  Credential Attestation ClientPin GetAssertion GetInfo Request Demo DemoCtap.

#[local] Open Scope Z_scope.

Module RequestProps.

(** ** Commands while the PIN is blocked *)

Section Gate.
Context {L : Lfs} {B : Board} {E : Ecc} {U : Uninit} (version_get_version : Z).

(** [device_set_status] changes the status and tells the transport. *)
Lemma status_set_done st s : exists v, device_set_status st s = Done (tt, s <| d_vars := v |>) /\
  f_rk v = f_rk (d_vars s) /\ up_disabled v = up_disabled (d_vars s) /\ device_status v = st.
Proof.
  unfold device_set_status. destruct (negb _).
  - by exists ((d_vars s) <| status_updates := status_updates (d_vars s) ++ [st] |> <| device_status := st |>).
  - by exists ((d_vars s) <| device_status := st |>).
Qed.

(** C35: while the retry counter or the counter of this power cycle is used up,
    no request for a credential, an assertion or credential management is looked
    at: it is refused with the status that says which counter it was, an empty
    response, and nothing but the device status and the last command changes. *)
Theorem pin_blocked_refuses pkt len resp s :
  needs_pin_attempts (nth 0 pkt 0) = true -> 1 <= len <= Z.of_nat (length pkt) -> len < 2 ^ 32 ->
  remaining_tries (STATE s) <= 0 \/ PIN_BOOT_ATTEMPTS_LEFT (d_pin s) <= 0 ->
  exists v, ctap_request version_get_version pkt len resp s
    = Done ((if remaining_tries (STATE s) <=? 0 then CTAP2_ERR_PIN_BLOCKED else CTAP2_ERR_PIN_AUTH_BLOCKED,
             resp <| resp_length := 0 |>),
            s <| d_vars := v |> <| getAssertionState := (getAssertionState s) <| gs_lastcmd := nth 0 pkt 0 |> |>) /\
    f_rk v = f_rk (d_vars s) /\ up_disabled v = up_disabled (d_vars s) /\ device_status v = CTAPHID_STATUS_IDLE.
Proof.
  intros Hc Hl Hl2 Hb. unfold ctap_request. rewrite mem_read_fits by lia. mstep.
  assert (Hn : nth 0 (slice 0 1 pkt) 0 = nth 0 pkt 0) by (destruct pkt; [cbn in Hl; lia|done]). rewrite Hn.
  unfold ctap_client_pin_is_locked, ctap_client_pin_is_boot_locked.
  rewrite u32_small by (unfold is_u32; lia). rewrite mem_read_fits by lia. mstep.
  destruct (status_set_done CTAPHID_STATUS_PROCESSING s) as (v1 & E1 & F1 & U1 & _). run E1.
  cbn [STATE d_pin set_field]. rewrite Hc. cbn [andb].
  set (s1 := s <| d_vars := v1 |>).
  destruct (status_set_done CTAPHID_STATUS_IDLE s1) as (v2 & E2 & F2 & U2 & D2).
  exists v2. split; [|by rewrite F2, U2].
  destruct (remaining_tries (STATE s) <=? 0) eqn:El.
  - mstep. run E2. reflexivity.
  - zbool. destruct (PIN_BOOT_ATTEMPTS_LEFT (d_pin s) <=? 0) eqn:Eb; zbool; [|lia]. mstep. run E2. reflexivity.
Qed.

End Gate.

(** ** getInfo *)

Section Info.
Context {L : Lfs} {B : Board}.

(** [op] appends [bs] wherever there is room. *)
Definition appends (op : CborEncoder -> list Z -> res encres) (bs : list Z) : Prop :=
  forall out acc rem fl, (length (acc ++ bs) <= length out)%nat -> rem <> 0 ->
    gives (S := dev) (emit op (enc_at out acc rem fl)) (enc_at out (acc ++ bs) (rem - 1) fl).

Lemma appends_item c : small c -> appends (encode_item c) (item_bytes c).
Proof. intros Hc out acc rem fl Hl Hr. by apply emit_item. Qed.
Lemma appends_number ui mt : appends (encode_number ui mt) (number_bytes ui mt).
Proof.
  intros out acc rem fl Hl Hr s. unfold emit, bind, lift, enc_at. cbn [fst snd]. by rewrite encode_number_ok.
Qed.
Lemma appends_boolean b : appends (cbor_encode_boolean b) [if b then 0xf5 else 0xf4].
Proof. destruct b; [apply (appends_number 21 0xe0)|apply (appends_number 20 0xe0)]. Qed.
Lemma appends_int v : 0 <= v < 2 ^ 63 -> appends (cbor_encode_int v) (number_bytes v 0).
Proof.
  intros Hv out acc rem fl Hl Hr. destruct (encode_int_item v ltac:(lia)) as [E _]. rewrite E.
  unfold int_item. rewrite (proj2 (Z.ltb_ge v 0)) by lia. by apply appends_number.
Qed.
Lemma appends_str s : Z.of_nat (length (text s)) < 2 ^ 32 -> appends (str s) (item_bytes (IText (text s))).
Proof. intros. apply (appends_item (IText (text s))). by apply small_text. Qed.

(** [appends] for a sequence of steps. *)
Lemma emits_at ops bss out acc rem fl : Forall2 appends ops bss -> (length (acc ++ concat bss) <= length out)%nat ->
  Z.of_nat (length ops) < rem ->
  gives (emits ops (enc_at out acc rem fl)) (enc_at out (acc ++ concat bss) (rem - Z.of_nat (length ops)) fl).
Proof.
  unfold emits. intros H. revert acc rem.
  assert (G : forall (m : X dev Enc) acc rem, gives m (enc_at out acc rem fl) ->
    (length (acc ++ concat bss) <= length out)%nat -> Z.of_nat (length ops) < rem ->
    gives (foldl (fun m op => let^ e := m in emit op e) m ops)
      (enc_at out (acc ++ concat bss) (rem - Z.of_nat (length ops)) fl)).
  { induction H as [|op bs ops bss Hop _ IH]; intros m acc rem Hm Hl Hr.
    - cbn. rewrite app_nil_r, Z.sub_0_r. exact Hm.
    - cbn [foldl concat length] in *. rewrite app_assoc in Hl |- *.
      replace (rem - Z.of_nat (S (length ops))) with (rem - 1 - Z.of_nat (length ops)) by lia.
      apply IH; [|done|lia]. eapply gives_bind; [exact Hm|]. apply Hop; [|lia].
      rewrite length_app in Hl. lia. }
  intros acc rem Hl Hr. by apply G.
Qed.

Lemma open_array_at n out acc rem fl : 0 <= n < 2 ^ 32 -> (length (acc ++ item_bytes (IArray n)) <= length out)%nat ->
  rem <> 0 ->
  gives (S := dev) (open_array n (enc_at out acc rem fl))
    (mkEnc (length acc) (Some (length out)) (rem - 1) fl, enc_at out (acc ++ item_bytes (IArray n)) (n + 1) 0).
Proof.
  intros Hn Hl Hr s. unfold open_array, open_container, bind, lift, enc_at, cbor_encoder_create_array, create_container.
  change (Z.land (Z.shiftl ArrayType MajorTypeShift) ContainerIsMap) with 0. cbn [negb Z.eqb fst snd enc_data enc_end].
  unfold encode_number_no_update. unfold item_bytes in *. cbn [item_num item_mt item_str] in *.
  rewrite app_nil_r in *. rewrite length_app in Hl.
  change (Z.shiftl ArrayType MajorTypeShift) with 0x80.
  rewrite append_fits; cbn; rewrite ?overwrite_len by (cbn; lia); try done.
  unfold saturated_decrement. cbn [enc_remaining]. rewrite (proj2 (Z.eqb_neq rem 0) Hr). cbn [negb res_bind set_field].
  rewrite <- (overwrite_app out 0 acc) by (cbn; lia). cbn. unfold ok, ret, enc_at. cbn. rewrite length_app.
  do 6 f_equal. lia.
Qed.

Lemma close_as parent out acc fl rem : rem = 1 ->
  gives (S := dev) (close parent (enc_at out acc rem fl)) (enc_at out acc (enc_remaining parent) (enc_flags parent)).
Proof. intros ->. apply close_at. Qed.

End Info.

(** The room a closed prefix takes. *)
Ltac fits Hl := eapply Nat.le_trans; [|exact Hl]; apply Nat.leb_le; vm_compute; reflexivity.
Ltac put H Hl := erewrite xbind_done; [|apply H; [fits Hl|done]]; cbv beta iota.
Ltac put_close := erewrite xbind_done; [|apply close_as; reflexivity]; cbn [enc_remaining enc_flags]; cbv beta iota.

Ltac put_map Hl := erewrite xbind_done; [|apply open_map_at; [lia|fits Hl|done]]; cbv beta iota.
Ltac put_array Hl := erewrite xbind_done; [|apply open_array_at; [lia|fits Hl|done]]; cbv beta iota.
Ltac put_all bss Hl :=
  erewrite xbind_done; [|apply (emits_at _ bss); [|fits Hl|done];
    repeat constructor; first [by apply appends_str | apply appends_boolean | by apply appends_int
                              | apply appends_number]]; cbv beta iota.

Section InfoBytes.
Context {L : Lfs} {B : Board}.

Definition strings (l : list string) : list (list Z) := (fun s => item_bytes (IText (text s))) <$> l.
Definition yes (b : bool) : list Z := [if b then 0xf5 else 0xf4].

(** The response, with the clientPin option. *)
Definition algorithm_bytes (alg : Z) : list Z :=
  item_bytes (IMap 2) ++ concat [item_bytes (IText (text "alg")); item_bytes (INint (- alg - 1));
    item_bytes (IText (text "type")); item_bytes (IText (text "public-key"))].
Definition get_info_bytes (is_set : bool) : list Z :=
  let num v := item_bytes (IUint v) in
  let str s := item_bytes (IText (text s)) in
  item_bytes (IMap 10) ++
  num 1 ++ item_bytes (IArray 2) ++ str "FIDO_2_0" ++ str "FIDO_2_1" ++
  num 2 ++ item_bytes (IArray 2) ++ str "credProtect" ++ str "hmac-secret" ++
  num 3 ++ item_bytes (IBytes attestation_read_aaguid) ++
  num 4 ++ item_bytes (IMap 6) ++ str "rk" ++ yes true ++ str "up" ++ yes true ++ str "plat" ++ yes false ++
    str "credMgmt" ++ yes true ++ str "clientPin" ++ yes is_set ++ str "pinUvAuthToken" ++ yes true ++
  num 5 ++ num 1200 ++
  num 6 ++ item_bytes (IArray 2) ++ num 1 ++ num 2 ++
  num 7 ++ num 20 ++ num 8 ++ num 128 ++
  num 9 ++ item_bytes (IArray 1) ++ str "usb" ++
  num 10 ++ item_bytes (IArray 2) ++ algorithm_bytes (-8) ++ algorithm_bytes (-7).

(** A map and nothing behind it. *)
Definition one_map (bs : list Z) : bool :=
  match cbor_parser_init bs with
  | Done (CborNoError, it) =>
      match cbor_value_advance bs it with
      | Done (CborNoError, it') => (type it =? CborMapType) && (ptr it' =? length bs)%nat
      | _ => false
      end
  | _ => false
  end.
Lemma one_map_reads bs : one_map bs = true ->
  exists it it', cbor_parser_init bs = Done (CborNoError, it) /\ type it = CborMapType /\
    cbor_value_advance bs it = Done (CborNoError, it') /\ ptr it' = length bs.
Proof.
  unfold one_map. destruct (cbor_parser_init bs) as [[[] it]|]; try done.
  destruct (cbor_value_advance bs it) as [[[] it']|] eqn:E; try done.
  intros [Ht Hp]%andb_true_iff. zbool. apply Nat.eqb_eq in Hp. by exists it, it'.
Qed.

Lemma aaguid_small : small (IBytes attestation_read_aaguid).
Proof. by apply small_bytes. Qed.

Lemma algorithm_at (abs : Z) out acc rem fl s : abs = 8 \/ abs = 7 ->
  (length (acc ++ algorithm_bytes (- abs)) <= length out)%nat -> 1 < rem ->
  algorithm abs (enc_at out acc rem fl) s = Done (inr (enc_at out (acc ++ algorithm_bytes (- abs)) (rem - 1) fl), s).
Proof.
  intros Ha Hl Hr. unfold algorithm_bytes in *. replace (- - abs - 1) with (abs - 1) in * by lia.
  rewrite app_assoc in Hl |- *. unfold algorithm.
  erewrite xbind_done; [|apply open_map_at; [lia|rewrite !length_app in *; lia|lia]]. cbv beta iota.
  erewrite xbind_done; [|apply emits_at; [|exact Hl|cbn; lia]].
  - apply close_as. reflexivity.
  - constructor; [by apply appends_str|]. constructor; [destruct Ha as [-> | ->]; [exact (appends_number 7 0x20)|exact (appends_number 6 0x20)]|].
    constructor; [by apply appends_str|]. constructor; [by apply appends_str|]. constructor.
Qed.

(** C36: getInfo answers, in any state and without changing it, with one
    and the same map but for the clientPin option, which tells whether a PIN is
    set. *)
Theorem get_info_response out s : (256 <= length out)%nat ->
  let bs := get_info_bytes (is_pin_set (STATE s) =? 1) in
  ctap_get_info (cbor_encoder_init (length out), out) s
  = Done (inr (mkEnc (length bs) (Some (length out)) 1 0, overwrite out 0 bs), s) /\
  exists it it', cbor_parser_init bs = Done (CborNoError, it) /\ type it = CborMapType /\
    cbor_value_advance bs it = Done (CborNoError, it') /\ ptr it' = length bs.
Proof.
  intros Hl bs. split ; [|apply one_map_reads; by destruct (is_pin_set (STATE s) =? 1); vm_compute].
  replace (cbor_encoder_init (length out), out) with (enc_at out [] 2 0)
    by (unfold enc_at, overwrite; by rewrite drop_0).
  unfold ctap_get_info. put_map Hl.
  put appends_number Hl. put_array Hl. put_all (strings ["FIDO_2_0"%string; "FIDO_2_1"%string]) Hl. put_close.
  put appends_number Hl. put_array Hl. put_all (strings ["credProtect"%string; "hmac-secret"%string]) Hl. put_close.
  put appends_number Hl. put (appends_item (IBytes attestation_read_aaguid) aaguid_small) Hl.
  put appends_number Hl. put_map Hl.
  put_all [item_bytes (IText (text "rk")); yes true; item_bytes (IText (text "up")); yes true;
           item_bytes (IText (text "plat")); yes false; item_bytes (IText (text "credMgmt")); yes true;
           item_bytes (IText (text "clientPin"))] Hl.
  unfold ctap_client_pin_is_set. rewrite bind_gets. subst bs. set (b := is_pin_set (STATE s) =? 1). clearbody b.
  put_all [yes b; item_bytes (IText (text "pinUvAuthToken")); yes true] Hl. put_close.
  put_all [item_bytes (IUint 5); item_bytes (IUint 1200); item_bytes (IUint 6)] Hl. put_array Hl.
  put_all [item_bytes (IUint 1); item_bytes (IUint 2)] Hl. put_close.
  put_all [item_bytes (IUint 7); item_bytes (IUint 20); item_bytes (IUint 8); item_bytes (IUint 128);
           item_bytes (IUint 9)] Hl.
  put_array Hl. put (appends_str "usb" eq_refl) Hl. put_close.
  put appends_number Hl. put_array Hl.
  erewrite xbind_done; [|apply (algorithm_at 8); [by left|fits Hl|done]]; cbv beta iota.
  erewrite xbind_done; [|apply (algorithm_at 7); [by right|fits Hl|done]]; cbv beta iota.
  put_close. rewrite (close_as _ out _ _ _ eq_refl). unfold enc_at. cbn [enc_remaining enc_flags].
  match goal with |- context [overwrite out 0 ?a] =>
    assert (a = get_info_bytes b) as -> by (destruct b; vm_compute; reflexivity) end. reflexivity.
Qed.

End InfoBytes.

(** ** On the concrete device *)

Import Lfs.Ram Board.Sim Demo.Toy.

Definition blocked : dev := demo <| STATE := demo_state <| remaining_tries := 0 |> |>.

Lemma pin_blocked_refuses_witness :
  exists s', ctap_request (L := Ram) (B := Sim) (E := ToyEcc) 7 [0x02; 0xa0] 2 ctap_response_init blocked
    = Done ((CTAP2_ERR_PIN_BLOCKED, ctap_response_init), s') /\ STATE s' = STATE blocked.
Proof.
  destruct (pin_blocked_refuses (L := Ram) (B := Sim) (E := ToyEcc) 7 [0x02; 0xa0] 2 ctap_response_init blocked
    eq_refl ltac:(cbn; lia) ltac:(lia) ltac:(left; cbn; lia)) as (v & H & _).
  eexists. split; [exact H|done].
Defined.

Lemma get_info_response_witness : (256 <= length (zeros 300))%nat /\
  exists r, ctap_get_info (cbor_encoder_init 300, zeros 300) demo = Done (inr r, demo).
Proof.
  split; [vm_compute; lia|]. eexists.
  apply (get_info_response (L := Ram) (B := Sim) (zeros 300) demo). vm_compute; lia.
Defined.

End RequestProps.
